(* ===== verification/_CoqProject ===== *)
-Q . S2P
Prelude.v
StdMap.v
Text.v
CoreTypes.v
Clock.v
FixedPoint.v
SequenceTracker.v
OrderBook.v
Json.v
JsonLexer.v
JsonParser.v
JsonSerializer.v
JsonGrammar.v
JsonScanning.v
JsonNumbers.v
JsonTokens.v
JsonParsing.v
JsonSoundness.v
JsonRoundtrip.v
JsonDocuments.v
JsonLibrary.v
Timestamps.v
CoinbaseParser.v
FeedHealth.v
RecordingQueue.v
CommandLine.v
Statistics.v
CoinbaseHandler.v
ReceiveTimes.v
Regex.v
KrakenDecimal.v
KrakenChecksum.v
KrakenParser.v
KrakenProcessor.v
ConnectionManager.v
ManagerSteps.v
Recording.v
RuntimeStatus.v
RecordingWriter.v
Threads.v
WebSocketClient.v
LiveRuntime.v
KrakenRuntime.v
Session.v
SessionText.v
Display.v
Capture.v
Publication.v
CoinbaseReplay.v
MessagePipeline.v
KrakenReplay.v
SessionReplay.v
Benchmark.v
BenchmarkIdentity.v
BenchmarkTrials.v
KrakenThreads.v
SessionRoundtrip.v
SessionSafety.v
LiveSession.v
KrakenSession.v
Program.v
