(* ===== verification/Prelude.v ===== *)
(** * Cross-exchange arbitrage engine

    A verification development for the market data engine in [src/]: two
    feeds (Coinbase and Kraken level 2), a recording of every raw message,
    versioned captures, and deterministic replay.  This file, the root, holds
    the documentation of the development and the definitions all files share.

    ** The program

    A venue connection ([src/transport/], the WebSocket client) delivers text
    messages to the market thread of a runtime ([src/pipeline/]).  The runtime
    stamps each message with a record index, a connection number and two clock
    readings, and pushes it into the bounded queue
    ([include/recording/raw_recording_queue.hpp]) before anything else looks
    at it.  The writer thread takes the messages from the queue and appends
    them to a JSON-lines file ([src/recording/]).  Once accepted, a message is
    parsed exactly, without binary floating point ([src/adapters/],
    [src/core/fixed_point.cpp]), checked for continuity (the sequence numbers
    of Coinbase, the CRC-32 of Kraken), and applied to the order book
    ([src/core/order_book.cpp]).  When anything fails the book becomes
    invalid, a lifecycle event is recorded and the connection is renewed with
    back-off; only a fresh snapshot makes the book valid again.  A capture
    ([src/session/session.cpp]) frames a run with a manifest of hashes, counts
    and lifecycle events; a replay checks the session against its manifest and
    recomputes the book.  [src/main.cpp] selects the command.

    ** How the code is rendered

    A pure function is a Rocq function.  A function that may throw returns
    [result], with the exception classes and texts of the code as constructors
    of [exn].  An object is a [Record] of its fields; a method is a function
    from the record to the record, field assignments being written
    [r <| f := v |>] in the order of the code; nothing is shared between
    objects except where noted below, so a copy is a value.  An integer of
    the code is a [Z]; increments of [std::uint64_t] counters wrap
    ([incr64]), the decimal parser and the time stamps carry their overflow
    checks, and the theorems about counters assume fewer than [2^64 - 1]
    records.  A [std::map] is an ordered list of nodes ([StdMap]) with its
    comparator as a type class; its finite map ([to_gmap]) is the abstract
    view used by specifications.  Texts are [string]s, sequences of bytes.

    Threads: each thread runs whole callbacks (an [io_context] with one
    thread) or whole critical sections (one mutex per queue and status), so a
    concurrent run is a sequence of events, each of either thread, in any
    order; condition variables only wake waiting threads.  The theorems about
    runs quantify over all such sequences.

    Environment, as arguments: clock readings (streams, consumed in order),
    the outcome of every output operation ([stream_io]: success, failure or
    exception), of directory creation and publication, network completions
    (events), canonical paths, the hash function and the build information.
    Libraries, as type classes with the laws the code relies on:
    [Json.JsonLib] ([json::parse] and [dump], with [JsonLaws] and [JsonText]),
    [KrakenChecksum.Crc32] ([boost::crc_32_type], with [Crc32Laws]).  The
    clients are proved against the class; [JsonLibrary.nlohmann] is its
    implementation, the lexer, parser and serializer of
    [third_party/nlohmann/json.hpp], and proves the laws, so that nothing is
    assumed of the JSON text but how a double is formatted.  Witnesses
    instantiate the classes with this implementation, whose messages are texts
    as the exchanges send them, or with a table of texts, and with a bitwise
    checksum.

    ** The files

    Foundations.
    - [Prelude]: this header, [result], record updates, shared tactics and
      lemmas.  [StdMap]: [std::map].  [Text]: characters, [std::stoi],
      [std::stoull], [std::to_string].  [Regex]: [std::regex_match] by
      derivatives.  [Json]: JSON values and the interface of the library.
    - The JSON library (third_party/nlohmann/json.hpp): [JsonLexer],
      [JsonParser] and [JsonSerializer] are the code; [JsonGrammar] the grammar
      of RFC 8259; [JsonScanning], [JsonNumbers] and [JsonTokens] relate the
      lexer to it, [JsonParsing] and [JsonSoundness] the parser, and
      [JsonRoundtrip] and [JsonDocuments] the serializer; [JsonLibrary] has the
      theorems and the instance.
    - [CoreTypes] (include/core/): enumerations, time stamps, levels, market
      events.  [Clock]: clocks and stage timers.  [FixedPoint] (core/fixed_point): decimal parsing and increments.
      [SequenceTracker], [OrderBook] (core/).  [Timestamps]: [parse_timestamp]
      of both adapters.

    Coinbase (src/adapters/coinbase/).
    - [CoinbaseParser]: symbol mapper, level 2 and heartbeat parsers.
      [FeedHealth]: watchdog and reconnect policy.  [CoinbaseHandler]: the
      processor and the write-ahead handler; the class [RecordingSink] is the
      contract of the queue towards the handler.  [ConnectionManager]:
      generations, recovery, health checks; [ManagerSteps]: lemmas on its
      steps.  [MessagePipeline]: the legacy pipeline and its replay mode.

    Kraken (src/adapters/kraken/).
    - [KrakenDecimal]: the number tokens.  [KrakenChecksum]: the checksum
      book.  [KrakenParser]: token protection, parser, symbol mapper.
      [KrakenProcessor]: the state machine of the book.

    Recording and runtimes (src/recording/, src/pipeline/, src/transport/).
    - [RecordingQueue]: the bounded queue.  [Recording]: the recorder and the
      reader of the file.  [RuntimeStatus]: the shared status.
      [RecordingWriter]: the writer thread.  [Threads]: lemmas on a market
      thread beside the writer, shared by both runtimes.  [WebSocketClient]:
      the client and both subscriptions.  [LiveRuntime]: [run_live], both
      threads.  [KrakenRuntime]: the market thread of [run_kraken];
      [KrakenThreads]: its two threads, the end of the run and the hash of the
      final book.  [Display]: the status lines of both.

    Sessions (src/session/session.cpp).
    - [Session]: record scan, lifecycle validation.  [SessionText]: time
      stamps and digests as text.  [Capture]: creation, finalisation,
      publication.  [Publication]: publication call by call.  [CoinbaseReplay], [KrakenReplay]: the two
      replays.  [SessionReplay]: the checks of a session and the result
      document.  [SessionRoundtrip], [LiveSession], [KrakenSession]: the
      compositions of runtime, capture and replay.  [SessionSafety]: what a
      manifest and a result document vouch for.

    The rest.
    - [CommandLine] (src/main.cpp): options and the selected command.
      [Program] (src/main.cpp and the ends of both runtimes): a run of the
      program from its arguments and files to its files and exit status.
      [Statistics] (benchmarks/benchmark_statistics.cpp): percentiles.
      [ReceiveTimes]: what the processor does with the receive times.
      [Benchmark] (benchmarks/e2e_latency_benchmark.cpp): the trials with both
      threads, their result, verification and comparison, and the command;
      [BenchmarkIdentity], [BenchmarkTrials]: its lemmas and theorems.

    ** What the theorems show

    End to end.  [coinbase_capture_replays]: if the program, asked to capture
    Coinbase, exits with zero, then, for every interleaving of its two
    threads, the session it leaves passes the checks of a strict replay, the
    replay ends with the live book, state and sequence, and the program, asked
    to replay that session, exits with zero and leaves the result document of
    that book.  [kraken_capture_replays]: the same for Kraken, where the
    replay ends with the live processor and the document has the hash of the
    final book that the manifest records.  They rest on [live_session_replays]
    and [kraken_session_replays], the same for a runtime and a capture by
    themselves.  They compose [replay_reproduces_live] (replay of the log of a
    run of the manager) and [kraken_replay_reproduces_live], [writer_persistence] (the file holds exactly the
    records the queue gave out, whatever fails), [recording_roundtrip] (the
    reader reads them back), and [session_roundtrip] (the manifest passes the
    checks).  [legacy_replay_reproduces_live] is the refinement of the third
    replay; [truncated_recording] characterises a file cut at any byte.

    JSON.  [parse_exact]: the parser accepts exactly the texts of the grammar
    and returns what they denote, a well-formed document; [parse_total]: it
    always ends; [json_roundtrip]: what the serializer writes is read back.

    Sessions.  [complete_is_earned]: the manifest claims a complete session
    only when nothing was lost; [accepted_session_sound]: what a strict replay
    accepts is what the manifest describes, by hash, size, counts, venue and
    lifecycle; [incomplete_replay_marked]: a replay of an incomplete session
    never passes for research grade.  [publish_atomic]: a document appears at
    its destination whole or not at all, over any answers of the system calls
    and at any point where the program may die; [utc_now_parses]: the time
    stamps of a session are ones the adapters' parser reads back exactly.

    The order book.  [apply_events_refines_spec]: an envelope acts on the
    book as its events, one after the other and transactionally, act on a
    finite map; [apply_events_transactional]: the staged one-pass fast path
    is equivalent to applying the envelope to a copy; [book_invariant],
    [best_prices_correct].

    Processing.  [handle_write_ahead], [handler_replays_log],
    [process_book_effect], [recovery_needs_snapshot], [accepted_contiguous]
    for Coinbase; [kraken_invariant], [kraken_fail_safe], [kraken_recovery],
    [apply_changes_refines], [checksum_total], [checksum_digits_canonical]
    for Kraken; [manager_safety], [manager_progress], [callbacks_fenced],
    [client_protocol], [failure_exact_and_persistent] and [reconnect_backoff]
    for the connection.

    Parsing.  [parse_decimal_exact], [parse_decimal_error_class],
    [require_increment_spec], [parse_timestamp_exact],
    [sys_days_counts_days], [decimal_token_exact], [parse_l2_complete],
    [parse_outcomes], [kraken_parse_outcomes], [positive_exact],
    [commands_exact].

    Queue and measurement.  [queue_fifo], [queue_bounded], [queue_drains],
    [statistics_nearest_rank].  [benchmark_deterministic]: the receive times
    decide latencies and feed health only, so that trials of the benchmark on
    one dataset always agree on what it compares; [trial_verified]: a trial
    whose writer did not fail passes the verification of its recording.

    What the modelling showed: [malformed_heartbeat_breaks_replay] (a
    heartbeat on which the processor throws is survived live but not in the
    replay, hence the hypothesis [replayable] of the replay theorems),
    [positive_exact] (white space before a sign defeats the sign check of
    [main]) and [publish_atomic] (a document that cannot be formatted leaves
    its temporary file behind).

    ** Fuel and bounds

    Recursion is structural except for a few loops, whose fuel is computed from
    the data, so that no caller can choose it too small.  [protect] uses the
    length of the text (more does not change the result: [protect_fuel]);
    [trim] the number of levels ([trim_take]: the result has the depth asked
    for); the reading loops [read_all] and [pipeline_loop] one more than the
    number of characters left in the file, since each record takes at least a
    newline ([read_loop]'s lemmas in [Recording]); [to_string] twenty digits,
    enough for 64 bits ([digits_of_spec]).  The loops of the JSON lexer use the
    characters left ([budget]; the lemmas of [JsonScanning], [JsonNumbers] and
    [JsonTokens] show that a lexeme is always scanned to its end), the loop of
    the parser the length of the text ([parse_total]), and those that write an
    integer five and ten rounds, enough for 64 bits ([count_digits_spec],
    [fill_number]).

    ** Not modelled

    - Sockets, TLS, certificates and operation timeouts: the completions of
      asynchronous operations are events of the model.
    - Signal handlers (a stop request is an event), what is printed while a
      recording runs, and the failure of the system to start a thread.
    - The readings of the system clocks and of the profiling timers
      (arguments), [JoiningThread] (a join at the end of a scope), the fault
      injected by tests into the Kraken processor, and the literal operators
      of [fixed_point.hpp].
    - Floating point: the means and rates of the benchmark are parameters
      that give a JSON value; [identity] removes all of them.
    - In the JSON library: how a double is formatted ([dump_float], a
      parameter), the sign of a zero, comments, callbacks, locales and the
      binary formats, which the program does not use.
    - CRC-32 and SHA-256 themselves, and [std::filesystem::canonical]:
      parameters. *)

From Stdlib Require Export ZArith Lia Ascii.
From stdpp Require Export base tactics sorting strings numbers option gmap.
From stdpp Require Export list.

#[export] Set Default Goal Selector "!".

(** ** Exceptions and fallible computations

    A C++ function that may throw is a function into [result]: [Throw e] is
    the exception [e] leaving the function, [Ok a] a normal return.  Only the
    exception classes the sources distinguish appear. *)

Inductive exn :=
  | InvalidArgument (msg : string)      (* std::invalid_argument *)
  | OutOfRange (msg : string)           (* std::out_of_range *)
  | OverflowError (msg : string)        (* std::overflow_error *)
  | RuntimeError (msg : string)         (* std::runtime_error *)
  | JsonError (msg : string).           (* nlohmann::json::exception *)

#[export] Instance exn_eq_dec : EqDecision exn.
Proof. solve_decision. Defined.

(** [std::exception::what()]. *)
Definition what (e : exn) : string :=
  match e with
  | InvalidArgument m | OutOfRange m | OverflowError m
  | RuntimeError m | JsonError m => m
  end.

Inductive result (A : Type) :=
  | Ok (a : A)
  | Throw (e : exn).
Arguments Ok {A} a.
Arguments Throw {A} e.

#[export] Instance result_eq_dec `{EqDecision A} : EqDecision (result A).
Proof. solve_decision. Defined.

#[export] Instance result_ret : MRet result := λ A a, Ok a.
#[export] Instance result_bind : MBind result := λ A B f m,
  match m with Ok a => f a | Throw e => Throw e end.
#[export] Instance result_fmap : FMap result := λ A B f m,
  match m with Ok a => Ok (f a) | Throw e => Throw e end.
#[export] Instance result_throw : MThrow exn result := λ A e, Throw e.

(** [if (b) throw e;] *)
Definition throw_if (b : bool) (e : exn) : result unit :=
  if b then Throw e else Ok tt.

Definition is_ok {A} (r : result A) : bool :=
  match r with Ok _ => true | Throw _ => false end.

Lemma bind_Ok {A B} (f : A → result B) (m : result A) (b : B) :
  (m ≫= f) = Ok b ↔ ∃ a, m = Ok a ∧ f a = Ok b.
Proof. destruct m; cbn; naive_solver. Qed.

Lemma bind_Throw {A B} (f : A → result B) (m : result A) e :
  (m ≫= f) = Throw e ↔ m = Throw e ∨ ∃ a, m = Ok a ∧ f a = Throw e.
Proof. destruct m; cbn; naive_solver. Qed.

Lemma throw_if_Ok b e u : throw_if b e = Ok u ↔ b = false.
Proof. destruct b, u; cbn; naive_solver. Qed.

Lemma throw_if_Throw b e e' : throw_if b e = Throw e' ↔ b = true ∧ e' = e.
Proof. destruct b; cbn; naive_solver. Qed.

(** Splits a successful or failing monadic hypothesis into its steps. *)
Ltac result_inv :=
  repeat match goal with
  | H : _ ≫= _ = Ok _ |- _ => apply bind_Ok in H; destruct H as (? & ? & H)
  | H : _ ≫= _ = Throw _ |- _ => apply bind_Throw in H; destruct H as [H | (? & ? & H)]
  | H : throw_if _ _ = Ok _ |- _ => apply throw_if_Ok in H
  | H : throw_if _ _ = Throw _ |- _ => apply throw_if_Throw in H; destruct H as [H ->]
  | H : Ok _ = Ok _ |- _ => injection H as H; subst
  | H : Throw _ = Throw _ |- _ => injection H as H; subst
  | H : Ok _ = Throw _ |- _ => discriminate H
  | H : Throw _ = Ok _ |- _ => discriminate H
  | H : mret _ = Ok _ |- _ => injection H as H; subst
  end.

(** Unfolds the result monad only. *)
Ltac monad_simpl := cbv [mbind result_bind fmap result_fmap mret result_ret].

(** ** Machine integers

    A [std::int64_t] or [std::uint64_t] is a [Z]; the wrap-around of unsigned
    arithmetic is written out with [u64]. *)

Definition INT64_MAX : Z := 9223372036854775807.
Definition INT64_MIN : Z := -9223372036854775808.
Definition UINT64_MAX : Z := 18446744073709551615.
Definition UINT32_MAX : Z := 4294967295.

Definition u64 (z : Z) : Z := (z mod 18446744073709551616)%Z.
Definition incr64 (z : Z) : Z := u64 (z + 1).

Definition in_int64 (z : Z) : Prop := (INT64_MIN ≤ z ≤ INT64_MAX)%Z.
Definition in_uint64 (z : Z) : Prop := (0 ≤ z ≤ UINT64_MAX)%Z.

Lemma u64_small z : in_uint64 z → u64 z = z.
Proof. unfold in_uint64, u64, UINT64_MAX. intros. apply Z.mod_small. lia. Qed.

Lemma u64_range z : in_uint64 (u64 z).
Proof.
  unfold in_uint64, u64, UINT64_MAX.
  pose proof (Z.mod_pos_bound z 18446744073709551616 ltac:(lia)). lia.
Qed.

Lemma incr64_small z : (0 ≤ z < UINT64_MAX)%Z → incr64 z = (z + 1)%Z.
Proof. unfold incr64. intros. apply u64_small. unfold in_uint64 in *. lia. Qed.

(** ** Record update

    [r <| f := v |>] is [r] with field [f] replaced by [v].  A record type
    opts in with an [EtaRecord] instance that rebuilds the record from its
    projections; the update of a field is found by abstracting that field's
    projection in the rebuilt record. *)

Class EtaRecord (R : Type) := eta_record : R → R.
Class FieldUpdate {R T : Type} (proj : R → T) :=
  field_update : (T → T) → R → R.
Arguments field_update {R T} proj {_} g r /.

Ltac derive_field_update :=
  match goal with
  | |- @FieldUpdate ?R ?T ?proj =>
      let inst := constr:(_ : EtaRecord R) in
      let inst' := eval hnf in inst in
      exact (fun (g : T → T) (r : R) =>
        ltac:(let body := eval cbv beta in (inst' r) in
              let abs := eval pattern (proj r) in body in
              match abs with
              | ?k _ => let t := eval cbv beta in (k (g (proj r))) in exact t
              end))
  end.
#[export] Hint Extern 1 (FieldUpdate _) => derive_field_update : typeclass_instances.

Declare Scope record_scope.
Delimit Scope record_scope with record.
#[export] Hint Mode FieldUpdate - - ! : typeclass_instances.
Notation "r <| f := v |>" := (field_update f (λ _, v) r)
  (at level 1, left associativity, format "r  <| f  :=  v |>") : record_scope.
Notation "r <| f ::= g |>" := (field_update f g r)
  (at level 1, left associativity, format "r  <| f  ::=  g |>") : record_scope.
Open Scope record_scope.

(** ** Hint databases

    [arb] collects the invariant-preservation lemmas of the components. *)
Create HintDb arb discriminated.

(** Case analysis on the scrutinee of a match or conditional of the goal or of
    a hypothesis, keeping the equation. *)
Ltac split_match :=
  match goal with
  | |- context [match ?x with _ => _ end] =>
      lazymatch x with context [match _ with _ => _ end] => fail | _ => destruct x eqn:? end
  | H : context [match ?x with _ => _ end] |- _ =>
      lazymatch x with context [match _ with _ => _ end] => fail | _ => destruct x eqn:? end
  end.

(** Boolean comparisons on [Z] as propositions. *)
Ltac zbool :=
  repeat match goal with
  | H : (_ <? _)%Z = true |- _ => apply Z.ltb_lt in H
  | H : (_ <? _)%Z = false |- _ => apply Z.ltb_ge in H
  | H : (_ <=? _)%Z = true |- _ => apply Z.leb_le in H
  | H : (_ <=? _)%Z = false |- _ => apply Z.leb_gt in H
  | H : (_ >? _)%Z = true |- _ => rewrite Z.gtb_ltb in H; apply Z.ltb_lt in H
  | H : (_ >? _)%Z = false |- _ => rewrite Z.gtb_ltb in H; apply Z.ltb_ge in H
  | H : (_ =? _)%Z = true |- _ => apply Z.eqb_eq in H
  | H : (_ =? _)%Z = false |- _ => apply Z.eqb_neq in H
  | H : (_ && _) = true |- _ => apply andb_true_iff in H; destruct H
  | H : (_ && _) = false |- _ => apply andb_false_iff in H
  | H : (_ || _) = true |- _ => apply orb_true_iff in H
  | H : (_ || _) = false |- _ => apply orb_false_iff in H; destruct H
  | H : negb _ = true |- _ => apply negb_true_iff in H
  | H : negb _ = false |- _ => apply negb_false_iff in H
  end.

(** Concatenation of strings reduces when its first argument is known. *)
#[global] Arguments String.append !_ _ / : simpl nomatch.

Lemma mapM_Throw {A B} (f : A → result B) l e :
  mapM f l = Throw e → ∃ x, x ∈ l ∧ f x = Throw e.
Proof.
  induction l as [|x l IH]; cbn; [done|]. destruct (f x) as [y|e'] eqn:E; cbn.
  - destruct (mapM f l); cbn; [done|]. intros (z & Hz & Hf)%IH. exists z. split; [|done].
    by apply list_elem_of_further.
  - intros [= ->]. exists x. split; [apply list_elem_of_here|done].
Qed.

Lemma mapM_Ok {A B} (f : A → result B) l ys :
  mapM f l = Ok ys → Forall2 (λ x y, f x = Ok y) l ys.
Proof.
  revert ys. induction l as [|x l IH]; cbn; intros ys; [intros [= <-]; constructor|].
  destruct (f x) as [y|] eqn:E; cbn; [|done]. destruct (mapM f l) as [ys'|]; cbn; [|done].
  intros [= <-]. constructor; auto.
Qed.

Lemma mapM_Forall {A B} (f : A → result B) (P : B → Prop) l ys :
  (∀ x y, f x = Ok y → P y) → mapM f l = Ok ys → Forall P ys.
Proof. intros Hf H%mapM_Ok. induction H; constructor; eauto. Qed.
