(* ===== verification/StdMap.v ===== *)
(** * Ordered maps

    The part of [std::map<K, V, Compare>] that the sources use: [find],
    [emplace], [insert_or_assign], [erase], [extract(begin())],
    [erase(std::prev(end()))], [size] and iteration in comparator order.
    A map is its sequence of nodes in iteration order, so [begin()] is the
    head of the list; the ordering of the nodes is the invariant [ordered],
    kept by every operation.  [to_gmap] forgets the order and gives the
    finite map the sequence represents. *)

From S2P Require Import Prelude.

(** The comparator of a map: a strict total order as a boolean function. *)
Class Comparator {K : Type} (before : K → K → bool) := {
  before_irrefl k : before k k = false;
  before_trans k1 k2 k3 : before k1 k2 = true → before k2 k3 = true → before k1 k3 = true;
  before_total k1 k2 : before k1 k2 = false → before k2 k1 = false → k1 = k2;
}.

Section operations.
Context {K V : Type} (before : K → K → bool).

(** Neither key precedes the other: [std::map]'s notion of equal keys. *)
Definition same_key (k k' : K) : bool := negb (before k k') && negb (before k' k).

Fixpoint map_find (k : K) (m : list (K * V)) : option V :=
  match m with
  | [] => None
  | (k', v) :: m' => if same_key k k' then Some v else map_find k m'
  end.

Fixpoint insert_or_assign (k : K) (v : V) (m : list (K * V)) : list (K * V) :=
  match m with
  | [] => [(k, v)]
  | (k', v') :: m' =>
      if before k k' then (k, v) :: m
      else if before k' k then (k', v') :: insert_or_assign k v m'
      else (k', v) :: m'
  end.

(** [emplace] returns the map and whether it inserted; an existing node is
    kept. *)
Definition emplace (k : K) (v : V) (m : list (K * V)) : list (K * V) * bool :=
  match map_find k m with
  | Some _ => (m, false)
  | None => (insert_or_assign k v m, true)
  end.

Fixpoint map_erase (k : K) (m : list (K * V)) : list (K * V) :=
  match m with
  | [] => []
  | (k', v') :: m' => if same_key k k' then m' else (k', v') :: map_erase k m'
  end.

Definition ordered (m : list (K * V)) : Prop :=
  StronglySorted (λ a b, before a.1 b.1 = true) m.
End operations.

(** [levels.erase(std::prev(levels.end()))]: removes the last node. *)
Definition erase_last {A} (m : list A) : list A := take (length m - 1) m.

Section laws.
Context {K V : Type} `{Comparator K before}.
Implicit Types (m : list (K * V)) (k : K) (v : V).

Abbreviation find := (map_find before).
Abbreviation ordered := (ordered before).

Lemma ordered_nil : ordered ([] : list (K * V)).
Proof. constructor. Qed.

Lemma same_key_spec k k' : same_key before k k' = true ↔ k = k'.
Proof.
  unfold same_key. rewrite andb_true_iff, !negb_true_iff. split.
  - intros [??]. by apply before_total.
  - intros ->. by rewrite before_irrefl.
Qed.

Lemma same_key_refl k : same_key before k k = true.
Proof. by apply same_key_spec. Qed.

Lemma same_key_ne k k' : k ≠ k' → same_key before k k' = false.
Proof. intros Hne. destruct (same_key before k k') eqn:E; [|done]. by apply same_key_spec in E. Qed.

Lemma before_ne k k' : before k k' = true → k ≠ k'.
Proof. intros Hb ->. by rewrite before_irrefl in Hb. Qed.

Lemma before_asym k k' : before k k' = true → before k' k = false.
Proof.
  intros Hb. destruct (before k' k) eqn:E; [|done].
  pose proof (before_trans _ _ _ Hb E) as Hc. by rewrite before_irrefl in Hc.
Qed.

Lemma find_elem_of k v m : find k m = Some v → (k, v) ∈ m.
Proof.
  induction m as [|[k' v'] m IH]; cbn; [done|]. destruct (same_key before k k') eqn:E.
  - apply same_key_spec in E as ->. intros [= ->]. apply list_elem_of_here.
  - intros ?. apply list_elem_of_further. auto.
Qed.

Lemma ordered_cons_inv k v m :
  ordered ((k, v) :: m) → ordered m ∧ ∀ k' v', (k', v') ∈ m → before k k' = true.
Proof.
  intros Hs. inversion Hs as [|? ? Hm Hall]; subst. split; [done|].
  rewrite Forall_forall in Hall. intros k' v' Hin. by apply (Hall (k', v')).
Qed.

Lemma ordered_find_cons_None k v m : ordered ((k, v) :: m) → find k m = None.
Proof.
  intros [_ Hall]%ordered_cons_inv. destruct (find k m) as [v'|] eqn:E; [|done].
  apply find_elem_of, Hall in E. by rewrite before_irrefl in E.
Qed.

Lemma elem_of_find k v m : ordered m → (k, v) ∈ m → find k m = Some v.
Proof.
  induction m as [|[k' v'] m IH]; intros Hs Hin; [by apply elem_of_nil in Hin|].
  pose proof (ordered_cons_inv _ _ _ Hs) as [Hs' Hall].
  apply elem_of_cons in Hin as [[= -> ->]|Hin]; cbn.
  - by rewrite same_key_refl.
  - rewrite same_key_ne; [by apply IH|].
    intros ->. apply Hall in Hin. by rewrite before_irrefl in Hin.
Qed.

Lemma find_insert k k' v m :
  find k' (insert_or_assign before k v m) =
    if same_key before k' k then Some v else find k' m.
Proof.
  induction m as [|[k1 v1] m IH]; cbn; [done|].
  destruct (before k k1) eqn:E1; cbn; [done|].
  destruct (before k1 k) eqn:E2; cbn.
  - rewrite IH. destruct (same_key before k' k1) eqn:E3; [|done].
    apply same_key_spec in E3 as ->. by rewrite same_key_ne by (by apply before_ne).
  - assert (k1 = k) as -> by (by apply before_total).
    by destruct (same_key before k' k).
Qed.

Lemma elem_of_insert k v k' v' m :
  (k', v') ∈ insert_or_assign before k v m → (k' = k ∧ v' = v) ∨ (k', v') ∈ m.
Proof.
  induction m as [|[k1 v1] m IH]; cbn.
  - intros [= -> ->]%list_elem_of_singleton. auto.
  - destruct (before k k1) eqn:E1; [|destruct (before k1 k) eqn:E2]; rewrite !elem_of_cons.
    + naive_solver.
    + naive_solver.
    + assert (k1 = k) as -> by (by apply before_total). naive_solver.
Qed.

Lemma insert_ordered k v m : ordered m → ordered (insert_or_assign before k v m).
Proof.
  induction m as [|[k1 v1] m IH]; intros Hs; cbn; [repeat constructor|].
  pose proof (ordered_cons_inv _ _ _ Hs) as [Hs' Hall].
  destruct (before k k1) eqn:E1; [|destruct (before k1 k) eqn:E2].
  - constructor; [done|]. constructor; [done|]. apply Forall_forall.
    intros [k' v'] Hin. cbn. eauto using before_trans.
  - constructor; [by apply IH|]. apply Forall_forall. intros [k' v'] Hin. cbn.
    apply elem_of_insert in Hin as [[-> ->]|Hin]; [done|]. by eapply Hall.
  - constructor; [done|]. apply Forall_forall. intros [k' v'] Hin. by eapply Hall.
Qed.

Lemma elem_of_erase k x m : x ∈ map_erase before k m → x ∈ m.
Proof.
  induction m as [|[k1 v1] m IH]; cbn; [done|]. destruct (same_key before k k1).
  - apply list_elem_of_further.
  - rewrite !elem_of_cons. naive_solver.
Qed.

Lemma erase_ordered k m : ordered m → ordered (map_erase before k m).
Proof.
  induction m as [|[k1 v1] m IH]; intros Hs; cbn; [done|].
  pose proof (ordered_cons_inv _ _ _ Hs) as [Hs' Hall].
  destruct (same_key before k k1); [done|]. constructor; [by apply IH|].
  apply Forall_forall. intros [k' v'] Hin. cbn. eapply Hall. by eapply elem_of_erase.
Qed.

Lemma find_erase k k' m :
  ordered m → find k' (map_erase before k m) = if same_key before k' k then None else find k' m.
Proof.
  induction m as [|[k1 v1] m IH]; intros Hs; cbn; [by destruct (same_key before k' k)|].
  pose proof (ordered_cons_inv _ _ _ Hs) as [Hs' Hall].
  destruct (same_key before k k1) eqn:E1; cbn.
  - apply same_key_spec in E1 as <-. destruct (same_key before k' k) eqn:E2; [|done].
    apply same_key_spec in E2 as ->. by eapply ordered_find_cons_None.
  - rewrite IH by done. destruct (same_key before k' k1) eqn:E2; [|done].
    apply same_key_spec in E2 as ->. rewrite same_key_ne; [done|].
    intros ->. by rewrite same_key_refl in E1.
Qed.

(** Two ordered maps with the same lookups are the same sequence. *)
Lemma ordered_ext m1 m2 :
  ordered m1 → ordered m2 → (∀ k, find k m1 = find k m2) → m1 = m2.
Proof.
  revert m2. induction m1 as [|[k1 v1] m1 IH]; intros m2 Hs1 Hs2 Heq.
  - destruct m2 as [|[k2 v2] m2]; [done|].
    specialize (Heq k2). cbn in Heq. by rewrite same_key_refl in Heq.
  - destruct m2 as [|[k2 v2] m2].
    { specialize (Heq k1). cbn in Heq. by rewrite same_key_refl in Heq. }
    pose proof (ordered_cons_inv _ _ _ Hs1) as [Hs1' Hall1].
    pose proof (ordered_cons_inv _ _ _ Hs2) as [Hs2' Hall2].
    assert (k1 = k2) as <-.
    { pose proof (Heq k1) as H1. pose proof (Heq k2) as H2. cbn in H1, H2.
      rewrite same_key_refl in H1, H2.
      destruct (same_key before k1 k2) eqn:E; [by apply same_key_spec in E|].
      destruct (same_key before k2 k1) eqn:E'; [by apply same_key_spec in E'|].
      symmetry in H1. apply find_elem_of, Hall2 in H1. apply find_elem_of, Hall1 in H2.
      apply before_asym in H1. congruence. }
    pose proof (Heq k1) as Hv. cbn in Hv. rewrite same_key_refl in Hv.
    injection Hv as ->. f_equal. apply IH; [done..|]. intros k.
    destruct (same_key before k k1) eqn:E.
    + apply same_key_spec in E as ->.
      by rewrite (ordered_find_cons_None _ _ _ Hs1), (ordered_find_cons_None _ _ _ Hs2).
    + specialize (Heq k). cbn in Heq. by rewrite E in Heq.
Qed.

(** [begin()] is the extreme key of the map. *)
Lemma ordered_head k v m k' v' :
  ordered ((k, v) :: m) → (k', v') ∈ (k, v) :: m → k' = k ∨ before k k' = true.
Proof.
  intros [_ Hall]%ordered_cons_inv [[= -> ->]|Hin]%elem_of_cons; [by left|right; eauto].
Qed.

Lemma take_ordered n m : ordered m → ordered (take n m).
Proof.
  revert n. induction m as [|[k v] m IH]; intros [|n] Hs; cbn; try (by constructor).
  pose proof (ordered_cons_inv _ _ _ Hs) as [Hs' Hall].
  constructor; [by apply IH|]. apply Forall_forall. intros [k' v'] Hin.
  apply elem_of_take in Hin as (i & Hi & _). eapply (Hall k' v'), list_elem_of_lookup_2, Hi.
Qed.

Lemma ordered_NoDup_keys m : ordered m → NoDup m.*1.
Proof.
  induction m as [|[k v] m IH]; intros Hs; cbn; [constructor|].
  pose proof (ordered_cons_inv _ _ _ Hs) as [Hs' Hall]. constructor; [|by apply IH].
  intros ([k' v'] & -> & Hin)%list_elem_of_fmap.
  apply Hall in Hin. cbn in Hin. by rewrite before_irrefl in Hin.
Qed.

(** ** The finite map a node sequence represents *)
Section gmap.
Context `{Countable K}.

Definition to_gmap (m : list (K * V)) : gmap K V := list_to_map m.

Lemma to_gmap_find m k : to_gmap m !! k = find k m.
Proof.
  induction m as [|[k1 v1] m IH]; cbn; [by rewrite lookup_empty|].
  destruct (same_key before k k1) eqn:E.
  - apply same_key_spec in E as ->. by rewrite lookup_insert_eq.
  - rewrite lookup_insert_ne; [done|]. intros ->. by rewrite same_key_refl in E.
Qed.

Lemma to_gmap_insert k v m : to_gmap (insert_or_assign before k v m) = <[k:=v]> (to_gmap m).
Proof.
  apply map_eq. intros k'. rewrite to_gmap_find, find_insert.
  destruct (same_key before k' k) eqn:E.
  - apply same_key_spec in E as ->. by rewrite lookup_insert_eq.
  - rewrite lookup_insert_ne, to_gmap_find; [done|]. intros ->. by rewrite same_key_refl in E.
Qed.

Lemma to_gmap_erase k m :
  ordered m → to_gmap (map_erase before k m) = delete k (to_gmap m).
Proof.
  intros Hs. apply map_eq. intros k'. rewrite to_gmap_find, find_erase by done.
  destruct (same_key before k' k) eqn:E.
  - apply same_key_spec in E as ->. by rewrite lookup_delete_eq.
  - rewrite lookup_delete_ne, to_gmap_find; [done|]. intros ->. by rewrite same_key_refl in E.
Qed.

Lemma to_gmap_inj m1 m2 : ordered m1 → ordered m2 → to_gmap m1 = to_gmap m2 → m1 = m2.
Proof.
  intros Hs1 Hs2 Heq. apply ordered_ext; [done..|]. intros k.
  by rewrite <-!to_gmap_find, Heq.
Qed.
End gmap.
End laws.

#[export] Hint Resolve insert_ordered erase_ordered take_ordered : arb.
