(* ===== verification/Text.v ===== *)
(** * Characters, digit strings and number formatting

    The character tests the parsers share and the decimal formatting of
    non-negative integers ([std::to_string], [operator<<]). *)

From S2P Require Import Prelude.

Open Scope Z_scope.

(** ** Definitions *)

Definition is_digit (c : ascii) : bool :=
  ((48 <=? N_of_ascii c) && (N_of_ascii c <=? 57))%N.

(** [ch - '0'] *)
Definition digit_value (c : ascii) : Z := Z.of_N (N_of_ascii c) - 48.

Definition digit_char (d : Z) : ascii := ascii_of_N (Z.to_N (d + 48)).

(** A string of decimal digits. *)
Fixpoint all_digits (s : string) : bool :=
  match s with
  | EmptyString => true
  | String c rest => is_digit c && all_digits rest
  end.

(** The value of a digit string read from the left, after [acc]. *)
Fixpoint digits_value (acc : Z) (s : string) : Z :=
  match s with
  | EmptyString => acc
  | String c rest => digits_value (acc * 10 + digit_value c) rest
  end.

(** The decimal digits of [n], put in front of [acc]. *)
Fixpoint digits_of (fuel : nat) (n : Z) (acc : string) : string :=
  match fuel with
  | O => acc
  | S fuel' =>
      let acc' := String (digit_char (n mod 10)) acc in
      if n <? 10 then acc' else digits_of fuel' (n / 10) acc'
  end.

(** [std::to_string] of a [std::uint64_t]; such a number has at most twenty
    digits. *)
Definition to_string (n : Z) : string := digits_of 20 n EmptyString.

(** [s[i]]; the sources only index in range. *)
Definition char_at (s : string) (i : nat) : ascii := default Ascii.zero (String.get i s).

Fixpoint zeros (n : nat) : string :=
  match n with O => EmptyString | S n' => String "0" (zeros n') end.

(** ** Lemmas *)

Lemma is_digit_range c : is_digit c = true → 0 ≤ digit_value c ≤ 9.
Proof. unfold is_digit, digit_value. intros [H1%N.leb_le H2%N.leb_le]%andb_true_iff. lia. Qed.

Lemma all_digits_app s1 s2 : all_digits (s1 +:+ s2) = all_digits s1 && all_digits s2.
Proof. induction s1 as [|c s1 IH]; cbn; [done|]. by rewrite IH, andb_assoc. Qed.

Lemma string_length_app s1 s2 :
  String.length (s1 +:+ s2) = (String.length s1 + String.length s2)%nat.
Proof. induction s1 as [|c s1 IH]; cbn; [done|]. by rewrite IH. Qed.

Lemma string_app_nil s : s +:+ EmptyString = s.
Proof. induction s as [|c s IH]; cbn; congruence. Qed.

Lemma string_app_assoc s1 s2 s3 : s1 +:+ (s2 +:+ s3) = (s1 +:+ s2) +:+ s3.
Proof. induction s1 as [|c s1 IH]; cbn; congruence. Qed.

Lemma digits_value_app acc s1 s2 :
  digits_value acc (s1 +:+ s2) = digits_value (digits_value acc s1) s2.
Proof. revert acc. induction s1 as [|c s1 IH]; intros acc; cbn; [done|]. apply IH. Qed.

Lemma digits_value_ge acc s : 0 ≤ acc → all_digits s = true → acc ≤ digits_value acc s.
Proof.
  revert acc. induction s as [|c s IH]; intros acc Hacc; cbn; [lia|].
  intros [Hc Hs]%andb_true_iff. apply is_digit_range in Hc.
  specialize (IH (acc * 10 + digit_value c) ltac:(lia) Hs). lia.
Qed.

Lemma digits_value_acc acc s :
  digits_value acc s = acc * 10 ^ Z.of_nat (String.length s) + digits_value 0 s.
Proof.
  revert acc. induction s as [|c s IH]; intros acc; cbn [digits_value String.length].
  { rewrite Z.pow_0_r. lia. }
  rewrite IH, (IH (0 * 10 + _)), Nat2Z.inj_succ, Z.pow_succ_r by lia. ring.
Qed.

Lemma digits_value_bound s :
  all_digits s = true → 0 ≤ digits_value 0 s < 10 ^ Z.of_nat (String.length s).
Proof.
  induction s as [|c s IH]; cbn [digits_value String.length all_digits]; [lia|].
  intros [Hc%is_digit_range Hs]%andb_true_iff. specialize (IH Hs).
  rewrite digits_value_acc, Nat2Z.inj_succ, Z.pow_succ_r by lia. nia.
Qed.

Lemma zeros_digits n : all_digits (zeros n) = true.
Proof. by induction n. Qed.

Lemma zeros_length n : String.length (zeros n) = n.
Proof. induction n; cbn; congruence. Qed.

Lemma zeros_value acc n : digits_value acc (zeros n) = acc * 10 ^ Z.of_nat n.
Proof.
  revert acc. induction n as [|n IH]; intros acc; cbn [zeros digits_value]; [lia|].
  rewrite IH, Nat2Z.inj_succ, Z.pow_succ_r by lia. change (digit_value "0") with 0. ring.
Qed.

Lemma digit_char_spec d : 0 ≤ d ≤ 9 → is_digit (digit_char d) = true ∧ digit_value (digit_char d) = d.
Proof.
  intros Hd. assert (d = 0 ∨ d = 1 ∨ d = 2 ∨ d = 3 ∨ d = 4 ∨ d = 5 ∨ d = 6 ∨ d = 7 ∨ d = 8 ∨ d = 9)
    as Hc by lia. by destruct_or! Hc; subst.
Qed.

Lemma digits_of_spec fuel n acc :
  0 ≤ n < 10 ^ Z.of_nat fuel → (0 < fuel)%nat → all_digits acc = true →
  all_digits (digits_of fuel n acc) = true ∧
  digits_value 0 (digits_of fuel n acc) = digits_value n acc ∧
  digits_of fuel n acc ≠ EmptyString.
Proof.
  revert n acc. induction fuel as [|fuel IH]; intros n acc Hn Hf Hacc; [lia|].
  cbn [digits_of]. pose proof (Z.mod_pos_bound n 10 ltac:(lia)).
  destruct (digit_char_spec (n mod 10)) as [Hd Hv]; [lia|].
  assert (all_digits (String (digit_char (n mod 10)) acc) = true) by (cbn; by rewrite Hd).
  rewrite Nat2Z.inj_succ, Z.pow_succ_r in Hn by lia.
  destruct (n <? 10) eqn:E; zbool.
  - repeat split; [done| |done]. cbn [digits_value]. rewrite Hv.
    rewrite Z.mod_small by lia. f_equal; lia.
  - destruct (IH (n / 10) (String (digit_char (n mod 10)) acc)) as (H1 & H2 & H3).
    + split; [apply Z.div_pos; lia|]. apply Z.div_lt_upper_bound; lia.
    + destruct fuel; [cbn in *; lia|lia].
    + done.
    + repeat split; [done| |done]. rewrite H2. cbn [digits_value]. rewrite Hv.
      f_equal. Z.div_mod_to_equations; lia.
Qed.

Lemma to_string_spec n :
  in_uint64 n →
  all_digits (to_string n) = true ∧ digits_value 0 (to_string n) = n ∧ to_string n ≠ EmptyString.
Proof.
  unfold in_uint64, UINT64_MAX, to_string. intros Hn.
  apply (digits_of_spec 20 n EmptyString); [|lia|done].
  change (10 ^ Z.of_nat 20) with 100000000000000000000. lia.
Qed.

(** ** Searching and slicing *)

(** The position of the first character satisfying [p] ([find],
    [find_first_of]). *)
Fixpoint find_first (p : ascii → bool) (s : string) : option nat :=
  match s with
  | EmptyString => None
  | String c rest => if p c then Some 0%nat else S <$> find_first p rest
  end.

(** [s.substr(0, n)] and [s.substr(n)] *)
Fixpoint str_take (n : nat) (s : string) : string :=
  match n, s with
  | S n', String c rest => String c (str_take n' rest)
  | _, _ => EmptyString
  end.
Fixpoint str_drop (n : nat) (s : string) : string :=
  match n, s with
  | O, _ => s
  | S n', String _ rest => str_drop n' rest
  | S _, EmptyString => EmptyString
  end.

(** The characters not satisfying [p] ([remove_if] and [erase]). *)
Fixpoint str_remove (p : ascii → bool) (s : string) : string :=
  match s with
  | EmptyString => EmptyString
  | String c rest => if p c then str_remove p rest else String c (str_remove p rest)
  end.

(** The longest prefix of digits, and the rest. *)
Fixpoint digit_prefix (s : string) : string * string :=
  match s with
  | EmptyString => (EmptyString, EmptyString)
  | String c rest =>
      if is_digit c then let '(d, r) := digit_prefix rest in (String c d, r) else (EmptyString, s)
  end.

Definition is_space (c : ascii) : bool :=
  (c =? " ")%char || ((9 <=? N_of_ascii c) && (N_of_ascii c <=? 13))%N.

Fixpoint skip_space (s : string) : string :=
  match s with
  | String c rest =>
      if is_space c then skip_space rest else s
  | EmptyString => s
  end.

(** The subject sequence of [strtol] and [strtoull] in base 10: leading white
    space, an optional sign and digits; the sign, the digits and what follows
    them. *)
Definition strto_prefix (s : string) : bool * string * string :=
  let '(negative, t) :=
    match skip_space s with
    | String c rest =>
        if (c =? "-")%char then (true, rest)
        else if (c =? "+")%char then (false, rest) else (false, String c rest)
    | EmptyString => (false, EmptyString)
    end in
  let '(d, r) := digit_prefix t in (negative, d, r).

(** [std::stoi] with a 32-bit [int] *)
Definition stoi (s : string) : result Z :=
  let '(negative, d, _) := strto_prefix s in
  if String.eqb d "" then Throw (InvalidArgument "stoi")
  else
    let v := if negative then - digits_value 0 d else digits_value 0 d in
    if (v <? -2147483648) || (v >? 2147483647) then Throw (OutOfRange "stoi") else Ok v.

(** [std::stoull(s, &end)]: the value and the position after the digits; a
    minus sign negates the value in unsigned arithmetic. *)
Definition stoull (s : string) : result (Z * nat) :=
  let '(negative, d, rest) := strto_prefix s in
  if String.eqb d "" then Throw (InvalidArgument "stoull")
  else if digits_value 0 d >? UINT64_MAX then Throw (OutOfRange "stoull")
  else Ok (if negative then u64 (- digits_value 0 d) else digits_value 0 d,
           (String.length s - String.length rest)%nat).

Lemma digit_prefix_all d : all_digits d = true → digit_prefix d = (d, EmptyString).
Proof.
  induction d as [|c d IH]; cbn; [done|]. intros [-> Hd]%andb_true_iff. by rewrite IH.
Qed.

Lemma digit_not_space c : is_digit c = true →
  is_space c = false ∧ (c =? "-")%char = false ∧ (c =? "+")%char = false.
Proof.
  unfold is_digit, is_space. intros [H1%N.leb_le H2%N.leb_le]%andb_true_iff.
  assert (∀ k, (N_of_ascii k < 48)%N → (c =? k)%char = false) as Hne.
  { intros k Hk. apply Ascii.eqb_neq. intros ->. lia. }
  rewrite !Hne by (cbn; lia). split_and!; [|done..]. cbn [orb].
  apply andb_false_iff. right. apply N.leb_gt. lia.
Qed.

(** A sign and digits read back by the number functions. *)
Lemma strto_digits d : d ≠ EmptyString → all_digits d = true → strto_prefix d = (false, d, EmptyString).
Proof.
  intros Hne Hd. destruct d as [|c d]; [done|]. unfold strto_prefix. pose proof Hd as Hd'.
  cbn in Hd. apply andb_true_iff in Hd as [Hc _]. destruct (digit_not_space c Hc) as (H1 & H2 & H3).
  cbn [skip_space]. rewrite H1, H2, H3. by rewrite digit_prefix_all.
Qed.

Lemma strto_signed (negative : bool) d :
  all_digits d = true →
  strto_prefix (String (if negative then "-" else "+") d) = (negative, d, EmptyString).
Proof.
  intros Hd. unfold strto_prefix. pose proof (digit_prefix_all d Hd) as Hp.
  destruct negative; cbn -[digit_prefix is_space].
  - change (is_space "-") with false. cbn -[digit_prefix]. by rewrite Hp.
  - change (is_space "+") with false. cbn -[digit_prefix]. by rewrite Hp.
Qed.

Lemma str_take_app s1 s2 : str_take (String.length s1) (s1 +:+ s2) = s1.
Proof. induction s1 as [|c s1 IH]; cbn; [by destruct s2|]. by rewrite IH. Qed.
Lemma str_drop_app s1 s2 : str_drop (String.length s1) (s1 +:+ s2) = s2.
Proof. by induction s1 as [|c s1 IH]; cbn. Qed.
Lemma str_take_drop n s : str_take n s +:+ str_drop n s = s.
Proof. revert s. induction n as [|n IH]; intros [|c s]; cbn; [done..|]. by rewrite IH. Qed.
Lemma str_take_length n s : (n ≤ String.length s)%nat → String.length (str_take n s) = n.
Proof. revert s. induction n as [|n IH]; intros [|c s]; cbn; intros ?; try lia. by rewrite IH by lia. Qed.

(** No character of [s] satisfies [p]. *)
Fixpoint none (p : ascii → bool) (s : string) : bool :=
  match s with EmptyString => true | String c rest => negb (p c) && none p rest end.

Lemma find_first_none p s : none p s = true → find_first p s = None.
Proof.
  induction s as [|c s IH]; cbn; [done|]. intros [->%negb_true_iff Hs]%andb_true_iff. by rewrite IH.
Qed.

Lemma find_first_app p s1 c s2 :
  none p s1 = true → p c = true → find_first p (s1 +:+ String c s2) = Some (String.length s1).
Proof.
  intros H1 Hc. induction s1 as [|a s1 IH]; cbn in *; [by rewrite Hc|].
  apply andb_true_iff in H1 as [->%negb_true_iff H1]. by rewrite IH.
Qed.

Lemma none_app p s1 s2 : none p (s1 +:+ s2) = none p s1 && none p s2.
Proof. induction s1 as [|c s1 IH]; cbn; [done|]. by rewrite IH, andb_assoc. Qed.

Lemma str_remove_none p s : none p s = true → str_remove p s = s.
Proof.
  induction s as [|c s IH]; cbn; [done|]. intros [->%negb_true_iff Hs]%andb_true_iff. by rewrite IH.
Qed.

Lemma str_remove_app p s1 s2 : str_remove p (s1 +:+ s2) = str_remove p s1 +:+ str_remove p s2.
Proof. induction s1 as [|c s1 IH]; cbn; [done|]. destruct (p c); cbn; by rewrite IH. Qed.

Lemma digits_none p s : (∀ c, is_digit c = true → p c = false) → all_digits s = true → none p s = true.
Proof.
  intros Hp. induction s as [|c s IH]; cbn; [done|]. intros [Hc Hs]%andb_true_iff.
  by rewrite (Hp c Hc), IH.
Qed.
