(* ===== verification/CoreTypes.v ===== *)
(** * Core data types

    The vocabulary of [include/core/]: venues, instruments, sides, the
    tagged fixed-point wrappers, timestamps, canonical market events and the
    book states.  Each enum is an inductive type with the source's
    constructors, each struct a record with the source's fields. *)

From S2P Require Import Prelude.
From S2P Require Import StdMap.

(** ** Enumerations *)

Inductive Venue := Coinbase | Kraken.
Inductive Instrument : Set := BTC_USD.
Inductive Side := Bid | Ask.
Inductive BookState := Initializing | Valid | Stale | Resyncing | Disconnected | Invalid.

#[export] Instance Venue_eq_dec : EqDecision Venue.
Proof. solve_decision. Defined.
#[export] Instance Instrument_eq_dec : EqDecision Instrument.
Proof. solve_decision. Defined.
#[export] Instance Side_eq_dec : EqDecision Side.
Proof. solve_decision. Defined.
#[export] Instance BookState_eq_dec : EqDecision BookState.
Proof. solve_decision. Defined.
#[export] Instance Side_countable : Countable Side.
Proof.
  refine (inj_countable' (λ s, match s with Bid => true | Ask => false end)
    (λ b : bool, if b then Bid else Ask) _); by intros [].
Defined.

(** ** Fixed-point wrappers

    [FixedPoint<Tag>] has one constructor that rejects negative values; the
    phantom tag keeps prices, quantities, amounts and fees apart. *)

Inductive Tag := PriceTag | QuantityTag | MoneyTag | FeeRateTag.

Record FixedPoint (tag : Tag) := MkFixedPoint { raw : Z }.
Arguments MkFixedPoint {tag} raw.
Arguments raw {tag} _.

Definition PriceTicks := FixedPoint PriceTag.
Definition QuantityAtoms := FixedPoint QuantityTag.
Definition MoneyAtoms := FixedPoint MoneyTag.
Definition FeeRate := FixedPoint FeeRateTag.

(** The checked constructor [FixedPoint(std::int64_t raw)]. *)
Definition make_fixed {tag} (r : Z) : result (FixedPoint tag) :=
  if (r <? 0)%Z then Throw (InvalidArgument "fixed-point values must be nonnegative")
  else Ok (MkFixedPoint r).

#[export] Instance FixedPoint_eq_dec tag : EqDecision (FixedPoint tag).
Proof. solve_decision. Defined.
#[export] Instance FixedPoint_countable tag : Countable (FixedPoint tag).
Proof. by refine (inj_countable' (@raw tag) MkFixedPoint _); intros []. Defined.

(** The values a [FixedPoint] object can hold. *)
Definition fixed_ok {tag} (x : FixedPoint tag) : Prop := (0 ≤ raw x ≤ INT64_MAX)%Z.

(** ** Timestamps (nanoseconds in a [std::int64_t]) *)

Record ExchangeTimestamp := { exchange_ns : Z }.
Record ReceiveWallTimestamp := { wall_ns : Z }.
Record ReceiveMonotonicTimestamp := { mono_ns : Z }.

#[export] Instance ExchangeTimestamp_eq_dec : EqDecision ExchangeTimestamp.
Proof. solve_decision. Defined.
#[export] Instance ReceiveWallTimestamp_eq_dec : EqDecision ReceiveWallTimestamp.
Proof. solve_decision. Defined.
#[export] Instance ReceiveMonotonicTimestamp_eq_dec : EqDecision ReceiveMonotonicTimestamp.
Proof. solve_decision. Defined.

(** ** Canonical market events *)

Record BookLevel := MkLevel {
  side : Side;
  price : PriceTicks;
  quantity : QuantityAtoms;
}.

Record BookSnapshot := MkSnapshot {
  snap_venue : Venue;
  snap_instrument : Instrument;
  levels : list BookLevel;
  snap_exchange_time : ExchangeTimestamp;
  snap_receive_wall_time : ReceiveWallTimestamp;
  snap_receive_monotonic_time : ReceiveMonotonicTimestamp;
  snap_sequence : option Z;
}.

Record BookUpdate := MkUpdate {
  upd_venue : Venue;
  upd_instrument : Instrument;
  changes : list BookLevel;
  upd_exchange_time : ExchangeTimestamp;
  upd_receive_wall_time : ReceiveWallTimestamp;
  upd_receive_monotonic_time : ReceiveMonotonicTimestamp;
  upd_sequence : option Z;
}.

Inductive MarketEvent :=
  | SnapshotEvent (s : BookSnapshot)
  | UpdateEvent (u : BookUpdate).

#[export] Instance BookLevel_eq_dec : EqDecision BookLevel.
Proof. solve_decision. Defined.
#[export] Instance BookSnapshot_eq_dec : EqDecision BookSnapshot.
Proof. solve_decision. Defined.
#[export] Instance BookUpdate_eq_dec : EqDecision BookUpdate.
Proof. solve_decision. Defined.
#[export] Instance MarketEvent_eq_dec : EqDecision MarketEvent.
Proof. solve_decision. Defined.

(** [std::holds_alternative<BookSnapshot>(event)] *)
Definition holds_snapshot (e : MarketEvent) : bool :=
  match e with SnapshotEvent _ => true | UpdateEvent _ => false end.

(** ** Price-ordered level maps

    [std::map<PriceTicks, V, std::greater<>>] for bids and
    [std::map<PriceTicks, V, std::less<>>] for asks. *)

Definition price_greater (p q : PriceTicks) : bool := (raw q <? raw p)%Z.
Definition price_less (p q : PriceTicks) : bool := (raw p <? raw q)%Z.

Lemma raw_inj {tag} (p q : FixedPoint tag) : raw p = raw q → p = q.
Proof. by destruct p, q; cbn; intros ->. Qed.

#[export] Instance price_greater_comparator : Comparator price_greater.
Proof.
  split; unfold price_greater; intros; zbool; try apply Z.ltb_lt; try apply Z.ltb_ge; try lia.
  apply raw_inj. lia.
Qed.

#[export] Instance price_less_comparator : Comparator price_less.
Proof.
  split; unfold price_less; intros; zbool; try apply Z.ltb_lt; try apply Z.ltb_ge; try lia.
  apply raw_inj. lia.
Qed.

(** The comparator of a side's level map. *)
Definition side_before (s : Side) : PriceTicks → PriceTicks → bool :=
  match s with Bid => price_greater | Ask => price_less end.

#[export] Instance side_before_comparator s : Comparator (side_before s).
Proof. destruct s; apply _. Qed.

Lemma make_fixed_Ok {tag} z (x : FixedPoint tag) :
  make_fixed z = Ok x ↔ (0 ≤ z)%Z ∧ x = MkFixedPoint z.
Proof.
  unfold make_fixed. destruct (z <? 0)%Z eqn:E; zbool; split; naive_solver lia.
Qed.
