(* ===== verification/Clock.v ===== *)
(** * Clocks and stage timers

    The interface [Clock] with the clock of a replay, whose readings are the
    times of the record being replayed, and the timer that adds the duration of
    a stage to its destination once. *)

From S2P Require Import Prelude.
From S2P Require Import CoreTypes.

Open Scope Z_scope.

(** ** The interface *)

Class Clock (C : Type) := {
  wall_now : C → ReceiveWallTimestamp;
  monotonic_now : C → ReceiveMonotonicTimestamp;
}.

Record ReplayClock := {
  clock_wall : ReceiveWallTimestamp;
  clock_mono : ReceiveMonotonicTimestamp;
}.

Definition new_replay_clock : ReplayClock := {| clock_wall := {| wall_ns := 0 |}; clock_mono := {| mono_ns := 0 |} |}.

Definition clock_set (wall : ReceiveWallTimestamp) (mono : ReceiveMonotonicTimestamp) (c : ReplayClock) : ReplayClock :=
  {| clock_wall := wall; clock_mono := mono |}.

#[export] Instance replay_clock : Clock ReplayClock := {| wall_now := clock_wall; monotonic_now := clock_mono |}.

(** ** Stage timers *)

(** [timer_destination] is the content of the destination, [timer_running]
    that the pointer is still set; a timer without a destination reads no
    clock. *)
Record StageTimer := {
  timer_destination : Z;
  timer_running : bool;
  timer_start : Z;
}.

Definition start_timer (destination : option Z) (now : Z) : StageTimer :=
  match destination with
  | Some total => {| timer_destination := total; timer_running := true; timer_start := now |}
  | None => {| timer_destination := 0; timer_running := false; timer_start := 0 |}
  end.

(** [stop], and the destructor. *)
Definition stop_timer (now : Z) (t : StageTimer) : StageTimer :=
  if timer_running t
  then {| timer_destination := u64 (timer_destination t + (now - timer_start t)); timer_running := false;
          timer_start := timer_start t |}
  else t.

(** Only the first of several stops counts. *)
Lemma stop_timer_once now now' t : stop_timer now' (stop_timer now t) = stop_timer now t.
Proof. unfold stop_timer. by destruct (timer_running t) eqn:E; cbn; rewrite ?E. Qed.
