(* ===== verification/FixedPoint.v ===== *)
(** * Exact decimal parsing

    [parse_decimal] of [src/core/fixed_point.cpp] with its three loops: the
    validating scan, the checked accumulation of digits and the zero padding.
    The specification is the documented grammar [[0-9]+(\.[0-9]+)?] and the
    exact value [decimal * 10^scale]; every outcome of the parser is
    characterised, errors included. *)

From S2P Require Import Prelude.
From S2P Require Import Text.
From S2P Require Import StdMap.
From S2P Require Import CoreTypes.

Open Scope Z_scope.

(** ** Operations *)

Definition is_point (c : ascii) : bool := Ascii.eqb c ".".

(** The scan of the whole string; returns the number of fractional digits. *)
Fixpoint scan_decimal (s : string) (i size : nat) (point_seen : bool) (fractional_digits : nat)
    : result nat :=
  match s with
  | EmptyString => Ok fractional_digits
  | String ch rest =>
      if is_point ch then
        if point_seen || (i =? 0)%nat || (i =? size - 1)%nat
        then Throw (InvalidArgument "invalid decimal point")
        else scan_decimal rest (S i) size true fractional_digits
      else if negb (is_digit ch)
      then Throw (InvalidArgument "decimal contains an invalid character")
      else scan_decimal rest (S i) size point_seen
             (if point_seen then S fractional_digits else fractional_digits)
  end.

(** The [append] lambda. *)
Definition append_digit (raw digit : Z) : result Z :=
  if raw >? Z.quot (INT64_MAX - digit) 10
  then Throw (OverflowError "decimal exceeds INT64_MAX")
  else Ok (raw * 10 + digit).

Fixpoint append_digits (s : string) (raw : Z) : result Z :=
  match s with
  | EmptyString => Ok raw
  | String ch rest =>
      if is_point ch then append_digits rest raw
      else raw' ← append_digit raw (digit_value ch); append_digits rest raw'
  end.

Fixpoint append_zeros (n : nat) (raw : Z) : result Z :=
  match n with
  | O => Ok raw
  | S n' => raw' ← append_digit raw 0; append_zeros n' raw'
  end.

Definition parse_decimal (decimal : string) (scale : Z) : result Z :=
  if (scale <? 0) || (scale >? 18)
  then Throw (OutOfRange "scale must be between 0 and 18")
  else if (String.length decimal =? 0)%nat
  then Throw (InvalidArgument "decimal must not be empty")
  else
    fractional_digits ← scan_decimal decimal 0 (String.length decimal) false 0;
    if (Z.of_nat fractional_digits >? scale)
    then Throw (InvalidArgument "decimal exceeds requested precision")
    else
      raw ← append_digits decimal 0;
      append_zeros (Z.to_nat scale - fractional_digits) raw.

Definition parse_price (decimal : string) (scale : Z) : result PriceTicks :=
  r ← parse_decimal decimal scale; make_fixed r.
Definition parse_quantity (decimal : string) (scale : Z) : result QuantityAtoms :=
  r ← parse_decimal decimal scale; make_fixed r.
Definition parse_money (decimal : string) (scale : Z) : result MoneyAtoms :=
  r ← parse_decimal decimal scale; make_fixed r.
Definition parse_fee_rate (decimal : string) (scale : Z) : result FeeRate :=
  r ← parse_decimal decimal scale; make_fixed r.

(** [require_increment]: rejects a zero increment and nonmultiples, never
    rounds. *)
Definition require_increment {tag} (value increment : FixedPoint tag) : result (FixedPoint tag) :=
  if (raw increment =? 0)%Z then Throw (InvalidArgument "increment must be positive")
  else if negb (Z.rem (raw value) (raw increment) =? 0)%Z
  then Throw (InvalidArgument "value is not a multiple of the venue increment")
  else Ok value.

(** ** Specification *)

(** [decimal_syntax s ip fp]: [s] is in the grammar, with integer digits [ip]
    and fractional digits [fp] ([fp] empty when there is no point). *)
Inductive decimal_syntax : string → string → string → Prop :=
  | decimal_integer ip :
      ip ≠ EmptyString → all_digits ip = true → decimal_syntax ip ip EmptyString
  | decimal_fraction ip fp :
      ip ≠ EmptyString → all_digits ip = true → fp ≠ EmptyString → all_digits fp = true →
      decimal_syntax (ip +:+ String "." fp) ip fp.

(** [value * 10^scale] for the decimal with digits [ip] and [fp]; an integer
    when there are at most [scale] fractional digits. *)
Definition scaled_value (ip fp : string) (scale : Z) : Z :=
  digits_value 0 (ip +:+ fp) * 10 ^ (scale - Z.of_nat (String.length fp)).

(** ** Lemmas *)

Lemma is_point_digit c : is_point c = true → is_digit c = false.
Proof. unfold is_point. by intros ->%Ascii.eqb_eq. Qed.

Lemma digit_not_point c : is_digit c = true → is_point c = false.
Proof. destruct (is_point c) eqn:E; [|done]. apply is_point_digit in E. congruence. Qed.

Lemma is_point_spec c : is_point c = true → c = "."%char.
Proof. apply Ascii.eqb_eq. Qed.

Lemma append_digit_spec raw d :
  0 ≤ raw → 0 ≤ d ≤ 9 →
  append_digit raw d =
    if raw * 10 + d <=? INT64_MAX then Ok (raw * 10 + d)
    else Throw (OverflowError "decimal exceeds INT64_MAX").
Proof.
  intros Hr Hd. unfold append_digit. rewrite Z.quot_div_nonneg by (unfold INT64_MAX; lia).
  rewrite Z.gtb_ltb.
  destruct (_ <? raw) eqn:E1, (_ <=? INT64_MAX) eqn:E2; zbool; try done; exfalso;
    unfold INT64_MAX in *; Z.div_mod_to_equations; lia.
Qed.

Lemma append_digits_spec raw s :
  0 ≤ raw ≤ INT64_MAX → all_digits s = true →
  append_digits s raw =
    if digits_value raw s <=? INT64_MAX then Ok (digits_value raw s)
    else Throw (OverflowError "decimal exceeds INT64_MAX").
Proof.
  revert raw. induction s as [|c s IH]; intros raw Hr; cbn.
  { intros _. by rewrite (proj2 (Z.leb_le _ _)) by lia. }
  intros [Hc Hs]%andb_true_iff. rewrite digit_not_point by done.
  pose proof (is_digit_range _ Hc). rewrite append_digit_spec by lia.
  destruct (raw * 10 + digit_value c <=? INT64_MAX) eqn:E; zbool; cbn.
  { by apply IH; [lia|]. }
  pose proof (digits_value_ge (raw * 10 + digit_value c) s ltac:(lia) Hs).
  by rewrite (proj2 (Z.leb_gt _ _)) by lia.
Qed.

Lemma append_digits_point s1 s2 raw :
  all_digits s1 = true →
  append_digits (s1 +:+ String "." s2) raw = append_digits (s1 +:+ s2) raw.
Proof.
  revert raw. induction s1 as [|c s1 IH]; intros raw; cbn; [done|].
  intros [Hc Hs]%andb_true_iff. rewrite digit_not_point by done.
  destruct (append_digit raw (digit_value c)); cbn; [by apply IH|done].
Qed.

Lemma append_zeros_spec n raw :
  0 ≤ raw ≤ INT64_MAX →
  append_zeros n raw =
    if raw * 10 ^ Z.of_nat n <=? INT64_MAX then Ok (raw * 10 ^ Z.of_nat n)
    else Throw (OverflowError "decimal exceeds INT64_MAX").
Proof.
  revert raw. induction n as [|n IH]; intros raw Hr; cbn -[Z.of_nat Z.pow].
  { rewrite Z.pow_0_r, Z.mul_1_r. by rewrite (proj2 (Z.leb_le _ _)) by lia. }
  rewrite append_digit_spec by lia. rewrite Z.add_0_r.
  replace (raw * 10 ^ Z.of_nat (S n)) with (raw * 10 * 10 ^ Z.of_nat n)
    by (rewrite Nat2Z.inj_succ, Z.pow_succ_r by lia; ring).
  destruct (raw * 10 <=? INT64_MAX) eqn:E; zbool; cbn -[Z.of_nat Z.pow].
  { apply IH. lia. }
  assert (1 ≤ 10 ^ Z.of_nat n) by (pose proof (Z.pow_pos_nonneg 10 (Z.of_nat n)); lia).
  by rewrite (proj2 (Z.leb_gt _ _)) by nia.
Qed.

Lemma scan_fraction s i size k :
  size = (i + String.length s)%nat →
  if all_digits s then scan_decimal s i size true k = Ok (k + String.length s)%nat
  else ∃ msg, scan_decimal s i size true k = Throw (InvalidArgument msg).
Proof.
  revert i k. induction s as [|c s IH]; intros i k Hsz; cbn.
  { by rewrite Nat.add_0_r. }
  destruct (is_point c) eqn:Ep; [rewrite is_point_digit by done; cbn; eauto|].
  destruct (is_digit c); cbn; [|eauto].
  specialize (IH (S i) (S k)). rewrite Nat.add_succ_r. apply IH. cbn in *. lia.
Qed.

(** The scan before a point was seen, from position [i]. *)
Lemma scan_integer s i size :
  size = (i + String.length s)%nat →
  (all_digits s = true ∧ scan_decimal s i size false 0 = Ok 0%nat) ∨
  (∃ ip fp, s = ip +:+ String "." fp ∧ all_digits ip = true ∧ all_digits fp = true ∧
     fp ≠ EmptyString ∧ (i ≠ 0%nat ∨ ip ≠ EmptyString) ∧
     scan_decimal s i size false 0 = Ok (String.length fp)) ∨
  ((∃ msg, scan_decimal s i size false 0 = Throw (InvalidArgument msg)) ∧
   ∀ ip fp, (i ≠ 0%nat ∨ ip ≠ EmptyString) → all_digits ip = true → all_digits fp = true →
     fp ≠ EmptyString → s ≠ ip +:+ String "." fp ∧ all_digits s = false).
Proof.
  revert i. induction s as [|c s IH]; intros i Hsz; cbn.
  { by left. }
  destruct (is_point c) eqn:Ep.
  - rewrite is_point_digit by done. cbn. right.
    assert (∀ ip fp, all_digits ip = true → String c s = ip +:+ String "." fp →
              ip = EmptyString ∧ s = fp) as Hinv.
    { intros [|c' ip] fp; cbn; [naive_solver|].
      intros [Hd _]%andb_true_iff [= <- _]. by rewrite is_point_digit in Hd. }
    destruct (i =? 0)%nat eqn:Ei; cbn.
    { apply Nat.eqb_eq in Ei as ->. right. split; [eauto|]. intros ip fp Hne Hip _ _.
      split; [|done]. intros [-> ->]%Hinv; naive_solver. }
    apply Nat.eqb_neq in Ei. cbn in Hsz. destruct (i =? size - 1)%nat eqn:Ej.
    { apply Nat.eqb_eq in Ej. right. split; [eauto|]. intros ip fp Hne Hip _ Hfp.
      split; [|done]. intros [-> ->]%Hinv; [|done]. destruct fp; [done|]. cbn in Hsz. lia. }
    apply Nat.eqb_neq in Ej. pose proof (scan_fraction s (S i) size 0 ltac:(lia)) as Hscan.
    apply is_point_spec in Ep as ->. destruct (all_digits s) eqn:Es.
    + left. exists EmptyString, s. repeat split; try done; [|by left].
      intros ->. cbn in Hsz. lia.
    + right. split; [done|]. intros ip fp Hne Hip Hfp _. split; [|done].
      intros [-> ->]%Hinv; congruence.
  - destruct (is_digit c) eqn:Ed; cbn.
    + destruct (IH (S i)) as [[Hd Hs]|[(ip & fp & -> & Hip & Hfp & Hne & _ & Hs)|[Hs Hno]]];
        [cbn in *; lia|by left|right; left|right; right].
      * exists (String c ip), fp. repeat split; try done; [cbn; by rewrite Ed|by right].
      * split; [done|]. intros [|c' ip] fp Hne Hip Hfp Hf.
        { destruct (Hno "0"%string "0"%string) as [_ ?]; try done; [by left|].
          split; [|done]. cbn. intros [= -> _]. done. }
        cbn in Hip. apply andb_true_iff in Hip as [_ Hip].
        destruct (Hno ip fp) as [Hne' ?]; try done; [by left|].
        split; [|done]. cbn. by intros [= <- ->].
    + right. right. split; [eauto|]. intros [|c' ip] fp Hne Hip Hfp Hf; (split; [|done]); cbn.
      * by intros [= -> _].
      * cbn in Hip. apply andb_true_iff in Hip as [Hc _]. intros [= -> _]. congruence.
Qed.

Lemma decimal_syntax_app s ip fp :
  decimal_syntax s ip fp → all_digits (ip +:+ fp) = true ∧
    append_digits s 0 = append_digits (ip +:+ fp) 0.
Proof.
  intros [ip' ? Hd|ip' fp' ? Hd ? Hd']; rewrite all_digits_app, Hd; cbn.
  - split; [done|]. f_equal. clear. induction ip' as [|c s IH]; cbn; congruence.
  - split; [done|]. by apply append_digits_point.
Qed.

Lemma scaled_value_split ip fp scale :
  Z.of_nat (String.length fp) ≤ scale →
  scaled_value ip fp scale =
    digits_value 0 (ip +:+ fp) * 10 ^ Z.of_nat (Z.to_nat scale - String.length fp).
Proof. intros H. unfold scaled_value. do 2 f_equal. lia. Qed.

(** After the scan succeeded: both accumulation loops together. *)
Lemma accumulate_spec s ip fp scale :
  decimal_syntax s ip fp → Z.of_nat (String.length fp) ≤ scale →
  (raw ← append_digits s 0; append_zeros (Z.to_nat scale - String.length fp) raw) =
    if scaled_value ip fp scale <=? INT64_MAX then Ok (scaled_value ip fp scale)
    else Throw (OverflowError "decimal exceeds INT64_MAX").
Proof.
  intros [Hd Happ]%decimal_syntax_app Hlen. rewrite Happ.
  rewrite append_digits_spec by (unfold INT64_MAX; (lia || done)).
  rewrite scaled_value_split by done. set (n := (Z.to_nat scale - _)%nat).
  pose proof (digits_value_ge 0 (ip +:+ fp) ltac:(lia) Hd).
  destruct (digits_value 0 (ip +:+ fp) <=? INT64_MAX) eqn:E; zbool; cbn -[Z.pow].
  { by apply append_zeros_spec. }
  assert (1 ≤ 10 ^ Z.of_nat n) by (pose proof (Z.pow_pos_nonneg 10 (Z.of_nat n)); lia).
  by rewrite (proj2 (Z.leb_gt _ _)) by nia.
Qed.

Lemma point_split_det ip fp ip' fp' :
  all_digits ip = true → all_digits ip' = true →
  ip +:+ String "." fp = ip' +:+ String "." fp' → ip = ip' ∧ fp = fp'.
Proof.
  revert ip'. induction ip as [|c ip IH]; intros [|c' ip'] Hd Hd'; cbn in *.
  - by intros [= ->].
  - apply andb_true_iff in Hd' as [Hc _]. by intros [= <- _].
  - apply andb_true_iff in Hd as [Hc _]. by intros [= -> _].
  - apply andb_true_iff in Hd as [_ Hd], Hd' as [_ Hd']. intros [= -> H].
    apply IH in H as [-> ->]; done.
Qed.

Lemma decimal_syntax_det s ip fp ip' fp' :
  decimal_syntax s ip fp → decimal_syntax s ip' fp' → ip = ip' ∧ fp = fp'.
Proof.
  intros [d1 Hn1 Hd1|i1 f1 Hn1 Hd1 Hf1 Hdf1] H'; inversion H' as [|i2 f2 Hn2 Hd2 Hf2 Hdf2 Heq]; subst.
  - done.
  - by rewrite all_digits_app, Hd2 in Hd1.
  - match goal with H : all_digits (_ +:+ _) = true |- _ =>
      rewrite all_digits_app, Hd1 in H; done end.
  - by apply point_split_det in Heq as [-> ->].
Qed.

(** Every outcome of [parse_decimal], by cases on its input. *)
Lemma parse_decimal_cases s scale :
  (¬ (0 ≤ scale ≤ 18) ∧
     parse_decimal s scale = Throw (OutOfRange "scale must be between 0 and 18")) ∨
  (0 ≤ scale ≤ 18 ∧
     ((∃ ip fp, decimal_syntax s ip fp ∧ Z.of_nat (String.length fp) ≤ scale ∧
         parse_decimal s scale =
           if scaled_value ip fp scale <=? INT64_MAX then Ok (scaled_value ip fp scale)
           else Throw (OverflowError "decimal exceeds INT64_MAX")) ∨
      ((∀ ip fp, decimal_syntax s ip fp → scale < Z.of_nat (String.length fp)) ∧
         ∃ msg, parse_decimal s scale = Throw (InvalidArgument msg)))).
Proof.
  unfold parse_decimal. destruct ((scale <? 0) || (scale >? 18)) eqn:E.
  { left. split; [|done]. apply orb_true_iff in E as [E|E]; zbool; lia. }
  zbool. right. split; [lia|].
  destruct (String.length s =? 0)%nat eqn:El.
  { right. apply Nat.eqb_eq in El. destruct s; [|done]. split; [|eauto].
    intros ip fp Hsyn. inversion Hsyn as [? Hnil|[|] ? Hnil]; done. }
  apply Nat.eqb_neq in El.
  destruct (scan_integer s 0 (String.length s) eq_refl)
    as [[Hd ->]|[(ip & fp & -> & Hip & Hfp & Hne & [?|Hne'] & ->)|[[msg ->] Hno]]]; [| done | |];
    cbn [mbind result_bind].
  - left. exists s, EmptyString. assert (decimal_syntax s s EmptyString) as Hsyn.
    { constructor; [by intros ->|done]. }
    repeat split; [done|cbn; lia|]. rewrite Z.gtb_ltb, (proj2 (Z.ltb_ge _ _)) by lia.
    rewrite <-(accumulate_spec _ _ _ scale Hsyn) by (cbn; lia). cbn [String.length].
    by rewrite Nat.sub_0_r.
  - assert (decimal_syntax (ip +:+ String "." fp) ip fp) as Hsyn by (by constructor).
    rewrite Z.gtb_ltb. destruct (_ <? _) eqn:Es; zbool.
    + right. split; [|eauto]. intros ip' fp' Hsyn'.
      destruct (decimal_syntax_det _ _ _ _ _ Hsyn Hsyn') as [-> ->]. done.
    + left. exists ip, fp. repeat split; [done..|]. by apply accumulate_spec.
  - right. split; [|eauto]. intros ip fp Hsyn. exfalso. destruct Hsyn.
    + destruct (Hno "0"%string "0"%string) as [_ ?]; [by right|done..|]. congruence.
    + destruct (Hno ip fp) as [? _]; [by right|done..].
Qed.

Lemma parse_decimal_Ok s scale v :
  parse_decimal s scale = Ok v ↔
    0 ≤ scale ≤ 18 ∧
    ∃ ip fp, decimal_syntax s ip fp ∧ Z.of_nat (String.length fp) ≤ scale ∧
      v = scaled_value ip fp scale ∧ 0 ≤ v ≤ INT64_MAX.
Proof.
  split.
  - intros Hp. destruct (parse_decimal_cases s scale)
      as [[? Hp']|[Hs [(ip & fp & Hsyn & Hlen & Hp')|(Hno & msg & Hp')]]]; try congruence.
    split; [done|]. exists ip, fp. rewrite Hp' in Hp.
    destruct (_ <=? INT64_MAX) eqn:E; [|done]. zbool. injection Hp as <-.
    repeat split; [done..| |done]. rewrite scaled_value_split by done.
    apply decimal_syntax_app in Hsyn as [Hd _].
    pose proof (digits_value_ge 0 _ ltac:(lia) Hd).
    pose proof (Z.pow_pos_nonneg 10 (Z.of_nat (Z.to_nat scale - String.length fp))). nia.
  - intros (Hs & ip & fp & Hsyn & Hlen & -> & Hv).
    destruct (parse_decimal_cases s scale)
      as [[? _]|[_ [(ip' & fp' & Hsyn' & _ & ->)|[Hno _]]]]; [done| |].
    + destruct (decimal_syntax_det _ _ _ _ _ Hsyn Hsyn') as [<- <-].
      by rewrite (proj2 (Z.leb_le _ _)) by lia.
    + apply Hno in Hsyn. lia.
Qed.

Lemma parse_price_Ok s scale p :
  parse_price s scale = Ok p ↔ parse_decimal s scale = Ok (raw p).
Proof.
  unfold parse_price. rewrite bind_Ok. setoid_rewrite make_fixed_Ok. split.
  - by intros (v & Hv & _ & ->).
  - intros Hv. exists (raw p). split; [done|]. split; [|by destruct p].
    apply parse_decimal_Ok in Hv. naive_solver.
Qed.

Lemma parse_quantity_Ok s scale q :
  parse_quantity s scale = Ok q ↔ parse_decimal s scale = Ok (raw q).
Proof.
  unfold parse_quantity. rewrite bind_Ok. setoid_rewrite make_fixed_Ok. split.
  - by intros (v & Hv & _ & ->).
  - intros Hv. exists (raw q). split; [done|]. split; [|by destruct q].
    apply parse_decimal_Ok in Hv. naive_solver.
Qed.

Lemma parse_price_fixed_ok s scale p : parse_price s scale = Ok p → fixed_ok p.
Proof. intros (_ & ip & fp & _ & _ & _ & Hr)%parse_price_Ok%parse_decimal_Ok. exact Hr. Qed.

Lemma parse_quantity_fixed_ok s scale q : parse_quantity s scale = Ok q → fixed_ok q.
Proof. intros (_ & ip & fp & _ & _ & _ & Hr)%parse_quantity_Ok%parse_decimal_Ok. exact Hr. Qed.

(** ** Theorems *)

(** C19: [parse_decimal] accepts exactly the strings of the documented grammar
    with at most [scale] fractional digits whose scaled value fits in a signed
    64-bit integer, and returns exactly that value: nothing is rounded,
    truncated or wrapped. *)
Theorem parse_decimal_exact s scale v :
  parse_decimal s scale = Ok v ↔
    0 ≤ scale ≤ 18 ∧
    ∃ ip fp, decimal_syntax s ip fp ∧ Z.of_nat (String.length fp) ≤ scale ∧
      v = scaled_value ip fp scale ∧ 0 ≤ v ≤ INT64_MAX.
Proof. apply parse_decimal_Ok. Qed.

(** The error of [parse_decimal] identifies the reason.  [out_of_range]
    means an unsupported scale, [overflow_error] a well-formed decimal whose
    scaled value exceeds [INT64_MAX], [invalid_argument] malformed input or
    excess precision; no other exception is thrown. *)
Theorem parse_decimal_error_class s scale :
  match parse_decimal s scale with
  | Ok _ => True
  | Throw (OutOfRange _) => ¬ (0 ≤ scale ≤ 18)
  | Throw (InvalidArgument _) =>
      0 ≤ scale ≤ 18 ∧ ∀ ip fp, decimal_syntax s ip fp → scale < Z.of_nat (String.length fp)
  | Throw (OverflowError _) =>
      0 ≤ scale ≤ 18 ∧ ∃ ip fp, decimal_syntax s ip fp ∧
        Z.of_nat (String.length fp) ≤ scale ∧ INT64_MAX < scaled_value ip fp scale
  | Throw _ => False
  end.
Proof.
  destruct (parse_decimal_cases s scale)
    as [[? ->]|[Hs [(ip & fp & Hsyn & Hlen & ->)|(Hno & msg & ->)]]]; [done| |done].
  destruct (_ <=? INT64_MAX) eqn:E; [done|]. zbool. eauto 6.
Qed.

(** [require_increment] accepts a value exactly when the increment is
    not zero and divides it, returns the value unchanged, and otherwise throws
    [invalid_argument]. *)
Theorem require_increment_spec {tag} (value increment : FixedPoint tag) :
  match require_increment value increment with
  | Ok v => v = value ∧ raw increment ≠ 0 ∧ (raw increment | raw value)
  | Throw (InvalidArgument _) => raw increment = 0 ∨ ¬ (raw increment | raw value)
  | Throw _ => False
  end.
Proof.
  unfold require_increment. destruct (raw increment =? 0) eqn:E; zbool; [by left|].
  destruct (Z.rem _ _ =? 0) eqn:Er; zbool; cbn.
  - split_and!; [done..|]. by apply Z.rem_divide.
  - right. rewrite <-Z.rem_divide by done. done.
Qed.
