(* ===== verification/SequenceTracker.v ===== *)
(** * Sequence continuity

    [core::SequenceTracker]: the last accepted envelope sequence number of a
    connection and the classification of the next one.  Sequence numbers are
    [std::uint64_t] values. *)

From S2P Require Import Prelude.

Open Scope Z_scope.

Inductive SequenceResult := First | Expected | Duplicate | OutOfOrder | Gap.

#[export] Instance SequenceResult_eq_dec : EqDecision SequenceResult.
Proof. solve_decision. Defined.

Record SequenceTracker := { last_ : option Z }.

Definition tracker_reset (t : SequenceTracker) : SequenceTracker := {| last_ := None |}.

(** [SequenceTracker::observe]; the subtraction is unsigned. *)
Definition observe (t : SequenceTracker) (sequence : Z) : SequenceTracker * SequenceResult :=
  match last_ t with
  | None => ({| last_ := Some sequence |}, First)
  | Some l =>
      if sequence =? l then (t, Duplicate)
      else if sequence <? l then (t, OutOfOrder)
      else if negb (u64 (sequence - l) =? 1) then (t, Gap)
      else ({| last_ := Some sequence |}, Expected)
  end.

Definition accepted (r : SequenceResult) : bool :=
  match r with First | Expected => true | _ => false end.

(** The tracker run over a list of observed numbers, with the numbers it
    accepted. *)
Fixpoint observe_all (t : SequenceTracker) (xs : list Z) : SequenceTracker * list Z :=
  match xs with
  | [] => (t, [])
  | x :: xs' =>
      let '(t1, r) := observe t x in
      let '(t2, acc) := observe_all t1 xs' in
      (t2, if accepted r then x :: acc else acc)
  end.

(** ** Lemmas *)

(** The classification of a number relative to the last accepted one. *)
Lemma observe_classify l x t' r :
  in_uint64 l → in_uint64 x → observe {| last_ := Some l |} x = (t', r) →
  match r with
  | First => False
  | Expected => x = l + 1 ∧ last_ t' = Some x
  | Duplicate => x = l ∧ last_ t' = Some l
  | OutOfOrder => x < l ∧ last_ t' = Some l
  | Gap => x > l + 1 ∧ last_ t' = Some l
  end.
Proof.
  unfold observe, in_uint64. cbn. intros Hl Hx H.
  destruct (x =? l) eqn:E1; zbool; [injection H as <- <-; done|].
  destruct (x <? l) eqn:E2; zbool; [injection H as <- <-; done|].
  rewrite u64_small in H by (unfold in_uint64, UINT64_MAX in *; lia).
  destruct (x - l =? 1) eqn:E3; zbool; cbn in H; injection H as <- <-; cbn; split; (lia || done).
Qed.

Lemma observe_all_from l xs :
  in_uint64 l → Forall in_uint64 xs →
  let '(t', acc) := observe_all {| last_ := Some l |} xs in
  acc = (λ i, l + 1 + Z.of_nat i) <$> seq 0 (length acc) ∧
  last_ t' = Some (l + Z.of_nat (length acc)).
Proof.
  intros Hl Hxs. revert l Hl. induction Hxs as [|x xs Hx Hxs IH]; intros l Hl.
  { cbn. split; [done|]. f_equal. lia. }
  cbn [observe_all]. destruct (observe _ x) as [t1 r] eqn:E.
  pose proof (observe_classify _ _ _ _ Hl Hx E) as Hc.
  destruct t1 as [[l1|]]; [|destruct r; naive_solver]. cbn in Hc.
  assert (in_uint64 l1) as Hl1 by (destruct r; naive_solver). specialize (IH l1 Hl1).
  destruct (observe_all _ xs) as [t2 acc]. destruct IH as [Hacc Hlast].
  destruct r; cbn [accepted]; try done; destruct Hc as [Hc [= ->]]; try (by split).
  subst x. cbn [length seq fmap list_fmap]. split.
  - f_equal; [lia|]. rewrite Hacc at 1. rewrite <-fmap_S_seq, <-list_fmap_compose.
    apply list_fmap_ext. intros i y _. cbn. lia.
  - rewrite Hlast. f_equal. lia.
Qed.

(** ** Theorem *)

(** After a reset, the envelopes a connection accepts carry consecutive
    sequence numbers starting at the first one observed, whatever duplicates,
    late or skipping numbers arrive in between, and the tracker ends at the
    last accepted number. *)
Theorem accepted_contiguous t x xs :
  Forall in_uint64 (x :: xs) →
  let '(t', acc) := observe_all (tracker_reset t) (x :: xs) in
  acc = (λ i, x + Z.of_nat i) <$> seq 0 (length acc) ∧
  acc ≠ [] ∧ last_ t' = Some (x + Z.of_nat (length acc) - 1).
Proof.
  intros [Hx Hxs]%Forall_cons. cbn -[seq fmap].
  pose proof (observe_all_from x xs Hx Hxs) as H.
  destruct (observe_all _ xs) as [t' acc]. destruct H as [Hacc Hlast].
  cbn [length seq]. split; [|split; [done|]].
  - rewrite fmap_cons. f_equal; [lia|]. rewrite Hacc at 1. rewrite <-fmap_S_seq, <-list_fmap_compose.
    apply list_fmap_ext. intros i y _. cbn. lia.
  - rewrite Hlast. f_equal. lia.
Qed.

Lemma accepted_contiguous_witness :
  Forall in_uint64 [4; 5; 5; 9; 6; 3; 7] ∧
  observe_all (tracker_reset {| last_ := Some 99 |}) [4; 5; 5; 9; 6; 3; 7]
    = ({| last_ := Some 7 |}, [4; 5; 6; 7]) ∧
  let '(t', acc) := observe_all (tracker_reset {| last_ := Some 99 |}) [4; 5; 5; 9; 6; 3; 7] in
  acc = (λ i, 4 + Z.of_nat i) <$> seq 0 (length acc) ∧
  acc ≠ [] ∧ last_ t' = Some (4 + Z.of_nat (length acc) - 1).
Proof.
  assert (Forall in_uint64 [4; 5; 5; 9; 6; 3; 7]) as H
    by (repeat constructor; unfold in_uint64, UINT64_MAX; lia).
  split; [exact H|]. split; [vm_compute; reflexivity|].
  exact (accepted_contiguous {| last_ := Some 99 |} 4 [5; 5; 9; 6; 3; 7] H).
Defined.
