(* ===== verification/OrderBook.v ===== *)
(** * Order book

    [core::OrderBook]: venue and instrument, book state, the two price-ordered
    level maps and the last applied sequence.  [apply_events] is the envelope
    operation (the [std::span] overload): update-only envelopes are staged and
    committed in one pass, envelopes with a snapshot are applied to a copy.
    The specification is a finite map from (side, price) to quantity on which
    events act one after the other, transactionally. *)

From S2P Require Import Prelude.
From S2P Require Import StdMap.
From S2P Require Import CoreTypes.

Open Scope Z_scope.

(** ** Operations *)

Definition BidLevels := list (PriceTicks * QuantityAtoms).
Definition AskLevels := list (PriceTicks * QuantityAtoms).

Record OrderBook := MkBook {
  venue_ : Venue;
  instrument_ : Instrument;
  state_ : BookState;
  bids_ : BidLevels;
  asks_ : AskLevels;
  last_sequence_ : option Z;
}.

#[export] Instance OrderBook_eta : EtaRecord OrderBook := λ b,
  {| venue_ := venue_ b; instrument_ := instrument_ b; state_ := state_ b;
     bids_ := bids_ b; asks_ := asks_ b; last_sequence_ := last_sequence_ b |}.
#[export] Instance OrderBook_eq_dec : EqDecision OrderBook.
Proof. solve_decision. Defined.

(** The constructor [OrderBook(venue, instrument)]. *)
Definition new_book (venue : Venue) (instrument : Instrument) : OrderBook :=
  MkBook venue instrument Initializing [] [] None.

Definition mark_initializing (b : OrderBook) := b <| state_ := Initializing |>.
Definition mark_stale (b : OrderBook) := b <| state_ := Stale |>.
Definition mark_resyncing (b : OrderBook) := b <| state_ := Resyncing |>.
Definition mark_disconnected (b : OrderBook) := b <| state_ := Disconnected |>.
Definition invalidate (b : OrderBook) := b <| state_ := Invalid |>.

Definition valid_level (level : BookLevel) (snapshot : bool) : bool :=
  (bool_decide (side level = Bid) || bool_decide (side level = Ask)) &&
  (raw (price level) >? 0) &&
  (if snapshot then raw (quantity level) >? 0 else raw (quantity level) >=? 0).

(** The loop of [stage_update]: stages the touched prices, zero-quantity
    tombstones included; [None] when a change is rejected. *)
Fixpoint stage_changes (cs : list BookLevel) (bids : BidLevels) (asks : AskLevels)
    : option (BidLevels * AskLevels) :=
  match cs with
  | [] => Some (bids, asks)
  | change :: cs' =>
      if negb (valid_level change false) then None
      else match side change with
           | Bid => stage_changes cs'
                      (insert_or_assign price_greater (price change) (quantity change) bids) asks
           | Ask => stage_changes cs' bids
                      (insert_or_assign price_less (price change) (quantity change) asks)
           end
  end.

Definition stage_update (update : BookUpdate) (venue : Venue) (instrument : Instrument)
    (bids : BidLevels) (asks : AskLevels) : option (BidLevels * AskLevels) :=
  if negb (bool_decide (upd_venue update = venue)) ||
     negb (bool_decide (upd_instrument update = instrument))
  then None
  else stage_changes (changes update) bids asks.

(** [commit_changes]: drains the staged map in its order into [levels]. *)
Fixpoint commit_changes (before : PriceTicks → PriceTicks → bool)
    (levels changes : list (PriceTicks * QuantityAtoms)) : list (PriceTicks * QuantityAtoms) :=
  match changes with
  | [] => levels
  | (p, q) :: rest =>
      let levels' :=
        if raw q =? 0 then
          match map_find before p levels with
          | Some _ => map_erase before p levels
          | None => levels
          end
        else insert_or_assign before p q levels in
      commit_changes before levels' rest
  end.

(** The loop of [apply(const BookSnapshot&)]. *)
Fixpoint build_snapshot (ls : list BookLevel) (bids : BidLevels) (asks : AskLevels)
    : option (BidLevels * AskLevels) :=
  match ls with
  | [] => Some (bids, asks)
  | level :: ls' =>
      if negb (valid_level level true) then None
      else match side level with
           | Bid =>
               let '(bids', inserted) := emplace price_greater (price level) (quantity level) bids in
               if inserted then build_snapshot ls' bids' asks else None
           | Ask =>
               let '(asks', inserted) := emplace price_less (price level) (quantity level) asks in
               if inserted then build_snapshot ls' bids asks' else None
           end
  end.

Definition apply_snapshot (b : OrderBook) (snapshot : BookSnapshot) : OrderBook * bool :=
  if negb (bool_decide (snap_venue snapshot = venue_ b)) ||
     negb (bool_decide (snap_instrument snapshot = instrument_ b))
  then (b, false)
  else match build_snapshot (levels snapshot) [] [] with
       | None => (b, false)
       | Some (new_bids, new_asks) =>
           (b <| bids_ := new_bids |> <| asks_ := new_asks |>
              <| last_sequence_ := snap_sequence snapshot |> <| state_ := Valid |>, true)
       end.

Definition apply_update (b : OrderBook) (update : BookUpdate) : OrderBook * bool :=
  if negb (bool_decide (state_ b = Valid)) then (b, false)
  else match stage_update update (venue_ b) (instrument_ b) [] [] with
       | None => (b, false)
       | Some (bids, asks) =>
           (b <| bids_ := commit_changes price_greater (bids_ b) bids |>
              <| asks_ := commit_changes price_less (asks_ b) asks |>
              <| last_sequence_ := upd_sequence update |>, true)
       end.

Definition apply_event (b : OrderBook) (e : MarketEvent) : OrderBook * bool :=
  match e with
  | SnapshotEvent s => apply_snapshot b s
  | UpdateEvent u => apply_update b u
  end.

(** The loop over a staged copy of the book. *)
Fixpoint apply_staged (staged : OrderBook) (events : list MarketEvent) : option OrderBook :=
  match events with
  | [] => Some staged
  | e :: rest =>
      match apply_event staged e with
      | (staged', true) => apply_staged staged' rest
      | (_, false) => None
      end
  end.

(** The loop that stages every update of an update-only envelope;
    [std::get<BookUpdate>] succeeds because no event is a snapshot. *)
Fixpoint stage_events (events : list MarketEvent) (venue : Venue) (instrument : Instrument)
    (bids : BidLevels) (asks : AskLevels) : option (BidLevels * AskLevels) :=
  match events with
  | [] => Some (bids, asks)
  | UpdateEvent u :: rest =>
      match stage_update u venue instrument bids asks with
      | Some (bids', asks') => stage_events rest venue instrument bids' asks'
      | None => None
      end
  | SnapshotEvent _ :: _ => None
  end.

(** [events.back()]'s sequence. *)
Definition event_sequence (e : MarketEvent) : option Z :=
  match e with SnapshotEvent s => snap_sequence s | UpdateEvent u => upd_sequence u end.

Definition apply_events (b : OrderBook) (events : list MarketEvent) : OrderBook * bool :=
  match last events with
  | None => (b, true)
  | Some back =>
      if existsb holds_snapshot events then
        match apply_staged b events with
        | None => (b, false)
        | Some staged => (staged, true)
        end
      else if negb (bool_decide (state_ b = Valid)) then (b, false)
      else match stage_events events (venue_ b) (instrument_ b) [] [] with
           | None => (b, false)
           | Some (bids, asks) =>
               (b <| bids_ := commit_changes price_greater (bids_ b) bids |>
                  <| asks_ := commit_changes price_less (asks_ b) asks |>
                  <| last_sequence_ := event_sequence back |>, true)
           end
  end.

Definition best_bid (b : OrderBook) : option BookLevel :=
  if negb (bool_decide (state_ b = Valid)) then None
  else match bids_ b with
       | [] => None
       | (p, q) :: _ => Some (MkLevel Bid p q)
       end.

Definition best_ask (b : OrderBook) : option BookLevel :=
  if negb (bool_decide (state_ b = Valid)) then None
  else match asks_ b with
       | [] => None
       | (p, q) :: _ => Some (MkLevel Ask p q)
       end.

Definition has_two_sided_market (b : OrderBook) : bool :=
  bool_decide (state_ b = Valid) && negb (bool_decide (bids_ b = [])) &&
  negb (bool_decide (asks_ b = [])).

(** ** Invariant *)

(** A level map of a book: ordered, with positive prices and quantities. *)
Definition side_wf (before : PriceTicks → PriceTicks → bool)
    (m : list (PriceTicks * QuantityAtoms)) : Prop :=
  ordered before m ∧ Forall (λ pq, 0 < raw pq.1 ∧ 0 < raw pq.2) m.

Definition book_wf (b : OrderBook) : Prop :=
  side_wf price_greater (bids_ b) ∧ side_wf price_less (asks_ b).

(** ** Abstract specification *)

(** What a book promises: its state, its sequence and, per side, a finite map
    from price to quantity. *)
Record spec_book := {
  sp_venue : Venue;
  sp_instrument : Instrument;
  sp_state : BookState;
  sp_bids : gmap PriceTicks QuantityAtoms;
  sp_asks : gmap PriceTicks QuantityAtoms;
  sp_sequence : option Z;
}.

(** A normalized quantity is absolute: zero deletes the level, a positive one
    replaces it. *)
Definition spec_set (m : gmap PriceTicks QuantityAtoms) (pq : PriceTicks * QuantityAtoms)
    : gmap PriceTicks QuantityAtoms :=
  if raw pq.2 =? 0 then delete pq.1 m else <[pq.1 := pq.2]> m.

(** The (price, quantity) pairs of the levels of one side, in order. *)
Definition on_side (s : Side) (ls : list BookLevel) : list (PriceTicks * QuantityAtoms) :=
  omap (λ l, if bool_decide (side l = s) then Some (price l, quantity l) else None) ls.

Definition spec_event (sb : spec_book) (e : MarketEvent) : option spec_book :=
  match e with
  | SnapshotEvent sn =>
      if bool_decide (snap_venue sn = sp_venue sb) &&
         bool_decide (snap_instrument sn = sp_instrument sb) &&
         forallb (λ l, valid_level l true) (levels sn) &&
         bool_decide (NoDup (on_side Bid (levels sn)).*1) &&
         bool_decide (NoDup (on_side Ask (levels sn)).*1)
      then Some {| sp_venue := sp_venue sb; sp_instrument := sp_instrument sb; sp_state := Valid;
                   sp_bids := list_to_map (on_side Bid (levels sn));
                   sp_asks := list_to_map (on_side Ask (levels sn));
                   sp_sequence := snap_sequence sn |}
      else None
  | UpdateEvent u =>
      if bool_decide (sp_state sb = Valid) && bool_decide (upd_venue u = sp_venue sb) &&
         bool_decide (upd_instrument u = sp_instrument sb) &&
         forallb (λ l, valid_level l false) (changes u)
      then Some {| sp_venue := sp_venue sb; sp_instrument := sp_instrument sb; sp_state := Valid;
                   sp_bids := foldl spec_set (sp_bids sb) (on_side Bid (changes u));
                   sp_asks := foldl spec_set (sp_asks sb) (on_side Ask (changes u));
                   sp_sequence := upd_sequence u |}
      else None
  end.

(** An envelope is a transaction: all its events in order, or nothing. *)
Fixpoint spec_events (sb : spec_book) (es : list MarketEvent) : option spec_book :=
  match es with
  | [] => Some sb
  | e :: es' => sb' ← spec_event sb e; spec_events sb' es'
  end.

Definition abstract (b : OrderBook) : spec_book :=
  {| sp_venue := venue_ b; sp_instrument := instrument_ b; sp_state := state_ b;
     sp_bids := to_gmap (bids_ b); sp_asks := to_gmap (asks_ b);
     sp_sequence := last_sequence_ b |}.

(** ** Lemmas: staging and committing one side *)

Section side.
Context (before : PriceTicks → PriceTicks → bool) `{!Comparator before}.
Implicit Types (m L C : list (PriceTicks * QuantityAtoms)).

Definition stage m (pqs : list (PriceTicks * QuantityAtoms)) : list (PriceTicks * QuantityAtoms) :=
  foldl (λ m pq, insert_or_assign before pq.1 pq.2 m) m pqs.

(** The last quantity written to a price by a list of changes. *)
Fixpoint last_write (p : PriceTicks) (pqs : list (PriceTicks * QuantityAtoms))
    : option QuantityAtoms :=
  match pqs with
  | [] => None
  | (p', q) :: rest =>
      match last_write p rest with
      | Some q' => Some q'
      | None => if same_key before p p' then Some q else None
      end
  end.

Lemma last_write_app p l1 l2 :
  last_write p (l1 ++ l2) =
    match last_write p l2 with Some q => Some q | None => last_write p l1 end.
Proof.
  induction l1 as [|[p' q] l1 IH]; cbn; [by destruct (last_write p l2)|].
  rewrite IH. by destruct (last_write p l2).
Qed.

Lemma stage_ordered m pqs : ordered before m → ordered before (stage m pqs).
Proof. revert m. induction pqs as [|[p q] l IH]; intros m Hm; cbn; [done|]. auto with arb. Qed.

Lemma stage_find m pqs p :
  map_find before p (stage m pqs) =
    match last_write p pqs with Some q => Some q | None => map_find before p m end.
Proof.
  revert m. induction pqs as [|[p' q] l IH]; intros m; cbn; [done|].
  rewrite IH. destruct (last_write p l); [done|]. rewrite find_insert.
  by destruct (same_key before p p').
Qed.

Lemma commit_ordered L C : ordered before L → ordered before (commit_changes before L C).
Proof.
  revert L. induction C as [|[p q] C IH]; intros L HL; cbn; [done|]. apply IH.
  destruct (raw q =? 0); [destruct (map_find before p L)|]; auto with arb.
Qed.

Lemma commit_find L C p :
  ordered before L → ordered before C →
  map_find before p (commit_changes before L C) =
    match map_find before p C with
    | Some q => if raw q =? 0 then None else Some q
    | None => map_find before p L
    end.
Proof.
  revert L. induction C as [|[p' q] C IH]; intros L HL HC; cbn; [done|].
  pose proof (ordered_find_cons_None _ _ _ HC) as Hnone.
  apply ordered_cons_inv in HC as [HC _].
  rewrite IH; [|destruct (raw q =? 0); [destruct (map_find before p' L)|]; auto with arb|done].
  destruct (same_key before p p') eqn:E.
  - apply same_key_spec in E as ->. rewrite Hnone. destruct (raw q =? 0).
    + destruct (map_find before p' L) eqn:EL; [|done].
      by rewrite find_erase, same_key_refl.
    + by rewrite find_insert, same_key_refl.
  - destruct (map_find before p C); [done|]. destruct (raw q =? 0).
    + destruct (map_find before p' L) eqn:EL; [|done]. by rewrite find_erase, E.
    + by rewrite find_insert, E.
Qed.

(** Staging a list of changes and committing it writes the last quantity of
    every touched price. *)
Lemma commit_stage_find L pqs p :
  ordered before L →
  map_find before p (commit_changes before L (stage [] pqs)) =
    match last_write p pqs with
    | Some q => if raw q =? 0 then None else Some q
    | None => map_find before p L
    end.
Proof.
  intros HL. rewrite commit_find; [|done|by apply stage_ordered, ordered_nil].
  rewrite stage_find. by destruct (last_write p pqs).
Qed.

Lemma commit_stage_app L l1 l2 :
  ordered before L →
  commit_changes before L (stage [] (l1 ++ l2)) =
  commit_changes before (commit_changes before L (stage [] l1)) (stage [] l2).
Proof.
  intros HL. apply (ordered_ext (before := before)); [by repeat apply commit_ordered..|].
  intros p. rewrite !commit_stage_find; auto using commit_ordered.
  rewrite last_write_app. destruct (last_write p l2); [done|by destruct (last_write p l1)].
Qed.

Lemma spec_set_lookup g pqs p :
  foldl spec_set g pqs !! p =
    match last_write p pqs with
    | Some q => if raw q =? 0 then None else Some q
    | None => g !! p
    end.
Proof.
  revert g. induction pqs as [|[p' q] l IH]; intros g; cbn; [done|].
  rewrite IH. destruct (last_write p l); [done|]. unfold spec_set; cbn.
  destruct (same_key before p p') eqn:E.
  - apply same_key_spec in E as ->. destruct (raw q =? 0).
    + by rewrite lookup_delete_eq.
    + by rewrite lookup_insert_eq.
  - assert (p' ≠ p) by (intros ->; by rewrite same_key_refl in E). destruct (raw q =? 0).
    + by rewrite lookup_delete_ne.
    + by rewrite lookup_insert_ne.
Qed.

Lemma commit_stage_spec L pqs :
  ordered before L →
  to_gmap (commit_changes before L (stage [] pqs)) = foldl spec_set (to_gmap L) pqs.
Proof.
  intros HL. apply map_eq. intros p.
  rewrite (to_gmap_find (before := before)), commit_stage_find, spec_set_lookup by done.
  by rewrite (to_gmap_find (before := before)).
Qed.
End side.

Lemma last_write_elem before `{!Comparator before} p q pqs :
  last_write before p pqs = Some q → (p, q) ∈ pqs.
Proof.
  induction pqs as [|[p' q'] l IH]; cbn; [done|]. destruct (last_write before p l) eqn:E.
  - intros [= ->]. apply list_elem_of_further. auto.
  - destruct (same_key before p p') eqn:Es; [|done]. intros [= ->].
    apply same_key_spec in Es as ->. apply list_elem_of_here.
Qed.

Lemma last_write_None before `{!Comparator before} p pqs :
  last_write before p pqs = None ↔ p ∉ pqs.*1.
Proof.
  induction pqs as [|[p' q'] l IH]; cbn; [set_solver|]. rewrite not_elem_of_cons, <-IH.
  destruct (last_write before p l); [naive_solver|].
  destruct (same_key before p p') eqn:Es.
  - apply same_key_spec in Es as ->. naive_solver.
  - split; [|naive_solver]. intros _. split; [|done]. intros ->. by rewrite same_key_refl in Es.
Qed.

Lemma last_write_NoDup before `{!Comparator before} p pqs :
  NoDup pqs.*1 → last_write before p pqs = (list_to_map pqs : gmap _ _) !! p.
Proof.
  induction pqs as [|[p' q'] l IH]; cbn; [done|]. intros [Hni Hnd]%NoDup_cons.
  rewrite IH by done. destruct (same_key before p p') eqn:Es.
  - apply same_key_spec in Es as ->. rewrite lookup_insert_eq.
    by rewrite (not_elem_of_list_to_map_1 _ _ Hni).
  - assert (p' ≠ p) by (intros ->; by rewrite same_key_refl in Es).
    rewrite lookup_insert_ne by done. by destruct (list_to_map l !! p).
Qed.

Lemma on_side_app s l1 l2 : on_side s (l1 ++ l2) = on_side s l1 ++ on_side s l2.
Proof. apply omap_app. Qed.

Lemma elem_of_on_side s ls p q : (p, q) ∈ on_side s ls ↔ MkLevel s p q ∈ ls.
Proof.
  unfold on_side. rewrite list_elem_of_omap. split.
  - intros ([s' p' q'] & Hin & Heq). cbn in Heq. case_bool_decide; naive_solver.
  - intros Hin. eexists. split; [exact Hin|]. cbn. by rewrite bool_decide_true.
Qed.

(** ** Lemmas: staging, snapshots and events *)

Lemma stage_changes_spec cs bids asks :
  stage_changes cs bids asks =
    if forallb (λ l, valid_level l false) cs
    then Some (stage price_greater bids (on_side Bid cs), stage price_less asks (on_side Ask cs))
    else None.
Proof.
  revert bids asks. induction cs as [|[s p q] cs IH]; intros bids asks; cbn [stage_changes forallb].
  { done. }
  destruct (valid_level _ false); cbn [negb andb]; [|done].
  by destruct s; cbn [side price quantity]; rewrite IH.
Qed.

(** What an update event needs to be staged, state aside. *)
Definition update_ok (venue : Venue) (instrument : Instrument) (u : BookUpdate) : bool :=
  bool_decide (upd_venue u = venue) && bool_decide (upd_instrument u = instrument) &&
  forallb (λ l, valid_level l false) (changes u).

Lemma stage_update_spec u v i bids asks :
  stage_update u v i bids asks =
    if update_ok v i u
    then Some (stage price_greater bids (on_side Bid (changes u)),
               stage price_less asks (on_side Ask (changes u)))
    else None.
Proof.
  unfold stage_update, update_ok. rewrite stage_changes_spec.
  by destruct (bool_decide (upd_venue u = v)), (bool_decide (upd_instrument u = i)).
Qed.

Definition event_update_ok (v : Venue) (i : Instrument) (e : MarketEvent) : bool :=
  match e with UpdateEvent u => update_ok v i u | SnapshotEvent _ => false end.

Definition event_changes (e : MarketEvent) : list BookLevel :=
  match e with UpdateEvent u => changes u | SnapshotEvent _ => [] end.

Lemma stage_events_spec es v i bids asks :
  stage_events es v i bids asks =
    if forallb (event_update_ok v i) es
    then Some (stage price_greater bids (on_side Bid (es ≫= event_changes)),
               stage price_less asks (on_side Ask (es ≫= event_changes)))
    else None.
Proof.
  revert bids asks. induction es as [|[sn|u] es IH]; intros bids asks; cbn [stage_events forallb];
    [done..|].
  cbn [event_update_ok]. rewrite stage_update_spec. destruct (update_ok v i u); [|done].
  rewrite IH. cbn [mbind list_bind event_changes]. rewrite !on_side_app.
  unfold stage. rewrite !foldl_app. by destruct (forallb _ es).
Qed.

(** The fresh prices a snapshot may add to a partly built side. *)
Definition fresh before (m pqs : list (PriceTicks * QuantityAtoms)) : Prop :=
  NoDup pqs.*1 ∧ ∀ p, p ∈ pqs.*1 → map_find before p m = None.

Lemma fresh_cons before `{!Comparator before} m p q pqs :
  fresh before m ((p, q) :: pqs) ↔
    map_find before p m = None ∧ fresh before (insert_or_assign before p q m) pqs.
Proof.
  unfold fresh. cbn. rewrite NoDup_cons. split.
  - intros [[Hni Hnd] Hf]. split; [apply Hf; set_solver|]. split; [done|].
    intros p' Hp'. rewrite find_insert, same_key_ne by set_solver. apply Hf. set_solver.
  - intros (Hp & Hnd & Hf). assert (p ∉ pqs.*1) as Hni.
    { intros Hin%Hf. by rewrite find_insert, same_key_refl in Hin. }
    split; [done|]. intros p' [->|Hin]%elem_of_cons; [done|].
    specialize (Hf p' Hin). rewrite find_insert, same_key_ne in Hf by set_solver. done.
Qed.

Lemma build_snapshot_spec ls bids asks r :
  build_snapshot ls bids asks = Some r ↔
    forallb (λ l, valid_level l true) ls = true ∧
    fresh price_greater bids (on_side Bid ls) ∧ fresh price_less asks (on_side Ask ls) ∧
    r = (stage price_greater bids (on_side Bid ls), stage price_less asks (on_side Ask ls)).
Proof.
  revert bids asks. induction ls as [|[s p q] ls IH]; intros bids asks; cbn [build_snapshot forallb].
  { unfold fresh. cbn. split.
    - intros [= <-]. split_and!; first [done | constructor | set_solver].
    - by intros (_ & _ & _ & ->). }
  destruct (valid_level _ true); cbn [negb andb]; [|naive_solver].
  destruct s; cbn [side price quantity]; unfold emplace.
  - change (on_side Bid (MkLevel Bid p q :: ls)) with ((p, q) :: on_side Bid ls).
    change (on_side Ask (MkLevel Bid p q :: ls)) with (on_side Ask ls).
    rewrite fresh_cons by apply _. destruct (map_find price_greater p bids); [naive_solver|].
    rewrite IH. cbn. naive_solver.
  - change (on_side Ask (MkLevel Ask p q :: ls)) with ((p, q) :: on_side Ask ls).
    change (on_side Bid (MkLevel Ask p q :: ls)) with (on_side Bid ls).
    rewrite fresh_cons by apply _. destruct (map_find price_less p asks); [naive_solver|].
    rewrite IH. cbn. naive_solver.
Qed.

Lemma fresh_nil before pqs : fresh before [] pqs ↔ NoDup pqs.*1.
Proof. unfold fresh. cbn. naive_solver. Qed.

Lemma stage_nil_gmap before `{!Comparator before} pqs :
  NoDup pqs.*1 → to_gmap (stage before [] pqs) = list_to_map pqs.
Proof.
  intros Hnd. apply map_eq. intros p.
  rewrite (to_gmap_find (before := before)), stage_find, last_write_NoDup by done.
  cbn. by destruct (list_to_map pqs !! p).
Qed.

(** Staging the levels of an ordered map rebuilds it. *)
Lemma stage_nil_ordered before `{!Comparator before} pqs :
  ordered before pqs → stage before [] pqs = pqs.
Proof.
  intros Ho. apply (ordered_ext (before := before)); [apply (stage_ordered before); apply ordered_nil|done|].
  intros p. pose proof (ordered_NoDup_keys (before := before) _ Ho) as Hnd.
  rewrite (stage_find before), (last_write_NoDup before) by done.
  fold (to_gmap pqs). rewrite (to_gmap_find (before := before)). cbn. by destruct (map_find before p pqs).
Qed.

(** What the two-map part of a successful event does. *)
Lemma apply_update_true b u b' :
  apply_update b u = (b', true) ↔
    state_ b = Valid ∧ update_ok (venue_ b) (instrument_ b) u = true ∧
    b' = b <| bids_ := commit_changes price_greater (bids_ b) (stage price_greater [] (on_side Bid (changes u))) |>
           <| asks_ := commit_changes price_less (asks_ b) (stage price_less [] (on_side Ask (changes u))) |>
           <| last_sequence_ := upd_sequence u |>.
Proof.
  unfold apply_update. case_bool_decide; cbn [negb]; [|naive_solver].
  rewrite stage_update_spec. destruct (update_ok _ _ u); [|naive_solver].
  split; [intros [= <-]; done|]. by intros (_ & _ & ->).
Qed.

Lemma apply_snapshot_true b s b' :
  apply_snapshot b s = (b', true) ↔
    snap_venue s = venue_ b ∧ snap_instrument s = instrument_ b ∧
    forallb (λ l, valid_level l true) (levels s) = true ∧
    NoDup (on_side Bid (levels s)).*1 ∧ NoDup (on_side Ask (levels s)).*1 ∧
    b' = MkBook (venue_ b) (instrument_ b) Valid
           (stage price_greater [] (on_side Bid (levels s)))
           (stage price_less [] (on_side Ask (levels s))) (snap_sequence s).
Proof.
  unfold apply_snapshot. case_bool_decide; [|naive_solver]. case_bool_decide; [|naive_solver].
  cbn [negb orb]. destruct (build_snapshot _ [] []) as [r|] eqn:E.
  - apply build_snapshot_spec in E as (? & Hb%fresh_nil & Ha%fresh_nil & ->).
    split; [intros [= <-]; done|]. by intros (_ & _ & _ & _ & _ & ->).
  - split; [done|]. intros (_ & _ & Hv & Hb & Ha & _). exfalso.
    assert (build_snapshot (levels s) [] [] = Some
      (stage price_greater [] (on_side Bid (levels s)), stage price_less [] (on_side Ask (levels s))))
      by (apply build_snapshot_spec; rewrite !fresh_nil; done).
    congruence.
Qed.

Lemma apply_event_false b e b' : apply_event b e = (b', false) → b' = b.
Proof.
  destruct e as [s|u]; cbn; unfold apply_snapshot, apply_update; repeat split_match; naive_solver.
Qed.

(** ** Lemmas: the invariant *)

Lemma side_wf_find before `{!Comparator before} m :
  side_wf before m ↔
    ordered before m ∧ ∀ p q, map_find before p m = Some q → 0 < raw p ∧ 0 < raw q.
Proof.
  unfold side_wf. split; intros [Hs Hall]; (split; [done|]).
  - intros p q Hf%find_elem_of. rewrite Forall_forall in Hall. by apply (Hall (p, q)).
  - apply Forall_forall. intros [p q] Hin. apply Hall, elem_of_find; done.
Qed.

Lemma valid_level_spec l snapshot :
  valid_level l snapshot = true ↔
    0 < raw (price l) ∧ if snapshot then 0 < raw (quantity l) else 0 <= raw (quantity l).
Proof.
  unfold valid_level. rewrite !andb_true_iff, Z.gtb_ltb, Z.ltb_lt.
  assert (bool_decide (side l = Bid) || bool_decide (side l = Ask) = true)
    by (by destruct (side l)).
  destruct snapshot; [rewrite Z.gtb_ltb, Z.ltb_lt|rewrite Z.geb_leb, Z.leb_le]; naive_solver.
Qed.

Lemma on_side_valid s ls snapshot p q :
  forallb (λ l, valid_level l snapshot) ls = true → (p, q) ∈ on_side s ls →
  0 < raw p ∧ if snapshot then 0 < raw q else 0 <= raw q.
Proof.
  intros Hv Hin%elem_of_on_side. rewrite forallb_forall in Hv.
  apply list_elem_of_In in Hin. by apply Hv, valid_level_spec in Hin.
Qed.

Lemma commit_wf before `{!Comparator before} s L ls :
  side_wf before L → forallb (λ l, valid_level l false) ls = true →
  side_wf before (commit_changes before L (stage before [] (on_side s ls))).
Proof.
  rewrite !side_wf_find by apply _. intros [HL Hpos] Hv.
  split; [by apply commit_ordered|]. intros p q. rewrite commit_stage_find by done.
  destruct (last_write before p (on_side s ls)) as [q'|] eqn:E; [|apply Hpos].
  apply last_write_elem in E; [|done]. apply (on_side_valid _ _ _ _ _ Hv) in E.
  destruct (raw q' =? 0) eqn:E0; [done|]. zbool. intros [= ->]. lia.
Qed.

Lemma snapshot_side_wf before `{!Comparator before} s ls :
  forallb (λ l, valid_level l true) ls = true → side_wf before (stage before [] (on_side s ls)).
Proof.
  intros Hv. apply side_wf_find; [done|]. split; [by apply stage_ordered, ordered_nil|].
  intros p q. rewrite (stage_find before). cbn.
  destruct (last_write before p (on_side s ls)) as [q'|] eqn:E; [|done].
  apply last_write_elem in E; [|done]. intros [= ->].
  by apply (on_side_valid _ _ _ _ _ Hv) in E.
Qed.

Lemma update_ok_valid v i u : update_ok v i u = true → forallb (λ l, valid_level l false) (changes u) = true.
Proof. unfold update_ok. rewrite !andb_true_iff. tauto. Qed.

Lemma apply_event_wf b e : book_wf b → book_wf (apply_event b e).1.
Proof.
  intros Hwf. destruct (apply_event b e) as [b' []] eqn:E; cbn.
  - destruct e as [s|u]; cbn in E.
    + apply apply_snapshot_true in E as (_ & _ & Hv & _ & _ & ->).
      split; cbn; by apply snapshot_side_wf; [apply _|].
    + apply apply_update_true in E as (_ & Hok%update_ok_valid & ->).
      destruct Hwf. split; cbn; by apply commit_wf; [apply _| |].
  - by apply apply_event_false in E as ->.
Qed.

Lemma apply_staged_wf b es b' : book_wf b → apply_staged b es = Some b' → book_wf b'.
Proof.
  revert b. induction es as [|e es IH]; intros b Hwf; cbn; [naive_solver|].
  pose proof (apply_event_wf b e Hwf). destruct (apply_event b e) as [b1 []]; [|done]. by apply IH.
Qed.

(** ** Equivalence of the staged and the sequential application *)

Lemma apply_staged_updates b es :
  book_wf b → existsb holds_snapshot es = false → es ≠ [] →
  apply_staged b es =
    if bool_decide (state_ b = Valid) && forallb (event_update_ok (venue_ b) (instrument_ b)) es
    then Some (b <| bids_ := commit_changes price_greater (bids_ b)
                      (stage price_greater [] (on_side Bid (es ≫= event_changes))) |>
                 <| asks_ := commit_changes price_less (asks_ b)
                      (stage price_less [] (on_side Ask (es ≫= event_changes))) |>
                 <| last_sequence_ := last es ≫= event_sequence |>)
    else None.
Proof.
  revert b. induction es as [|[sn|u] es IH]; intros b Hwf Hns Hne; [done..|].
  cbn [apply_staged apply_event existsb holds_snapshot orb] in *.
  destruct (apply_update b u) as [b1 []] eqn:E.
  - apply apply_update_true in E as (Hst & Hok & Hb1).
    rewrite bool_decide_true by done. cbn [forallb event_update_ok andb]. rewrite Hok. cbn [andb].
    assert (book_wf b1) as Hwf1.
    { pose proof (apply_event_wf b (UpdateEvent u) Hwf) as Hw. cbn in Hw.
      assert (apply_update b u = (b1, true)) as E by (by apply apply_update_true).
      by rewrite E in Hw. }
    destruct (decide (es = [])) as [->|Hes].
    { rewrite Hb1. cbn. by rewrite app_nil_r. }
    rewrite IH by done. subst b1. cbn [field_update state_ venue_ instrument_ bids_ asks_].
    rewrite bool_decide_true by done. cbn [andb].
    change ((UpdateEvent u :: es) ≫= event_changes) with (changes u ++ (es ≫= event_changes)).
    destruct Hwf as [[Hsb _] [Hsa _]]. rewrite !on_side_app.
    rewrite (commit_stage_app price_greater), (commit_stage_app price_less) by done.
    rewrite last_cons. by destruct (last es) eqn:El; [|apply last_None in El].
  - destruct (bool_decide _) eqn:Est, (forallb _ _) eqn:Eok; [exfalso|done..].
    apply bool_decide_eq_true in Est. cbn in Eok. apply andb_true_iff in Eok as [Eok _].
    assert (∃ b2, apply_update b u = (b2, true)) as [b2 E2]
      by (eexists; by apply apply_update_true).
    congruence.
Qed.

Lemma apply_events_sequential b es :
  book_wf b →
  apply_events b es =
    match apply_staged b es with Some b' => (b', true) | None => (b, false) end.
Proof.
  intros Hwf. unfold apply_events. destruct (last es) as [back|] eqn:El.
  2: { by apply last_None in El as ->. }
  destruct (existsb holds_snapshot es) eqn:Ens; [done|].
  assert (es ≠ []) as Hne by (by intros ->).
  rewrite apply_staged_updates, El by done. case_bool_decide; cbn [negb andb]; [|done].
  rewrite stage_events_spec. by destruct (forallb _ es).
Qed.

(** ** Refinement of the abstract specification *)

Lemma apply_event_refines b e :
  book_wf b →
  match spec_event (abstract b) e with
  | Some sb => ∃ b', apply_event b e = (b', true) ∧ abstract b' = sb
  | None => apply_event b e = (b, false)
  end.
Proof.
  intros [[Hsb _] [Hsa _]]. destruct (spec_event (abstract b) e) as [sb|] eqn:Espec.
  - destruct e as [sn|u]; cbn [spec_event] in Espec.
    + destruct (_ && _) eqn:Eg in Espec; [|done]. rewrite !andb_true_iff, !bool_decide_eq_true in Eg.
      destruct Eg as [[[[Hv Hi] Hl] Hb] Ha]. injection Espec as <-. eexists. split.
      { apply apply_snapshot_true. split_and!; done. }
      unfold abstract; cbn -[to_gmap]. f_equal; by apply stage_nil_gmap; [apply _|].
    + destruct (_ && _) eqn:Eg in Espec; [|done]. rewrite !andb_true_iff, !bool_decide_eq_true in Eg.
      destruct Eg as [[[Hst Hv] Hi] Hl]. injection Espec as <-. eexists. split.
      { apply apply_update_true. split_and!; [done| |done].
        unfold update_ok. by rewrite !bool_decide_true. }
      unfold abstract; cbn -[to_gmap commit_changes].
      f_equal; [done|by apply commit_stage_spec; [apply _|]..].
  - destruct (apply_event b e) as [b' []] eqn:E; [|by apply apply_event_false in E as ->].
    exfalso. destruct e as [sn|u]; cbn [apply_event spec_event] in *;
      (destruct (_ && _) eqn:Eg in Espec; [done|]; apply not_true_iff_false in Eg; apply Eg);
      rewrite !andb_true_iff, !bool_decide_eq_true; cbn.
    + apply apply_snapshot_true in E. naive_solver.
    + apply apply_update_true in E as (Hst & Hok & _). unfold update_ok in Hok.
      rewrite !andb_true_iff, !bool_decide_eq_true in Hok. naive_solver.
Qed.

Lemma apply_staged_refines b es :
  book_wf b → abstract <$> apply_staged b es = spec_events (abstract b) es.
Proof.
  revert b. induction es as [|e es IH]; intros b Hwf; cbn; [done|].
  pose proof (apply_event_refines b e Hwf) as Hr. pose proof (apply_event_wf b e Hwf) as Hwf'.
  destruct (spec_event (abstract b) e) as [sb|]; cbn.
  - destruct Hr as (b' & E & <-). rewrite E in *. by apply IH.
  - by rewrite Hr.
Qed.

(** ** Theorems *)

(** C18: the one-pass staging of an update-only envelope is equivalent to
    applying its events one after the other to a copy and installing the copy
    only if every event is accepted; a rejected envelope leaves levels,
    sequence and state exactly as they were. *)
Theorem apply_events_transactional b es :
  book_wf b →
  apply_events b es =
    match apply_staged b es with Some b' => (b', true) | None => (b, false) end.
Proof. apply apply_events_sequential. Qed.

(** C24: on a well-formed book, applying an envelope refines the abstract
    semantics: finite maps per side where a positive quantity replaces the
    level at its price and zero deletes it, snapshots replace both sides and
    make the book valid, and the whole envelope is accepted or rejected as
    one. *)
Theorem apply_events_refines_spec b es :
  book_wf b →
  match spec_events (abstract b) es with
  | Some sb => (apply_events b es).2 = true ∧ abstract (apply_events b es).1 = sb
  | None => apply_events b es = (b, false)
  end.
Proof.
  intros Hwf. rewrite apply_events_sequential, <-apply_staged_refines by done.
  by destruct (apply_staged b es).
Qed.

(** The operations a client can perform on a book. *)
Inductive book_op :=
  | OpEvents (es : list MarketEvent)
  | OpSnapshot (s : BookSnapshot)
  | OpUpdate (u : BookUpdate)
  | OpInitializing | OpStale | OpResyncing | OpDisconnected | OpInvalidate.

Definition run_op (b : OrderBook) (op : book_op) : OrderBook :=
  match op with
  | OpEvents es => (apply_events b es).1
  | OpSnapshot s => (apply_snapshot b s).1
  | OpUpdate u => (apply_update b u).1
  | OpInitializing => mark_initializing b
  | OpStale => mark_stale b
  | OpResyncing => mark_resyncing b
  | OpDisconnected => mark_disconnected b
  | OpInvalidate => invalidate b
  end.

Lemma apply_events_wf b es : book_wf b → book_wf (apply_events b es).1.
Proof.
  intros Hwf. rewrite apply_events_sequential by done.
  destruct (apply_staged b es) eqn:E; [by eapply apply_staged_wf|done].
Qed.

Lemma run_op_wf b op : book_wf b → book_wf (run_op b op).
Proof.
  intros Hwf. destruct op; cbn [run_op]; try exact Hwf.
  - by apply apply_events_wf.
  - by apply (apply_event_wf b (SnapshotEvent s)).
  - by apply (apply_event_wf b (UpdateEvent u)).
Qed.

Lemma new_book_wf v i : book_wf (new_book v i).
Proof. split; (split; [apply ordered_nil|constructor]). Qed.
#[export] Hint Resolve new_book_wf apply_events_wf : arb.

Lemma run_ops_wf b ops : book_wf b → book_wf (foldl run_op b ops).
Proof. revert b. induction ops as [|op ops IH]; intros b Hwf; cbn; auto using run_op_wf. Qed.

(** C37: whatever operations are performed on a new book, both sides stay
    strictly ordered from the best price outwards without duplicate prices,
    and every stored price and quantity is positive. *)
Theorem book_invariant v i ops :
  let b := foldl run_op (new_book v i) ops in
  ordered price_greater (bids_ b) ∧ ordered price_less (asks_ b) ∧
  NoDup (bids_ b).*1 ∧ NoDup (asks_ b).*1 ∧
  Forall (λ pq, 0 < raw pq.1 ∧ 0 < raw pq.2) (bids_ b ++ asks_ b).
Proof.
  cbn zeta. destruct (run_ops_wf (new_book v i) ops (new_book_wf v i)) as [[Hb Pb] [Ha Pa]].
  split_and!; [done|done|apply (ordered_NoDup_keys _ Hb)|apply (ordered_NoDup_keys _ Ha)|].
  by apply Forall_app.
Qed.

Lemma best_bid_spec b l :
  book_wf b → best_bid b = Some l →
  state_ b = Valid ∧ side l = Bid ∧ (price l, quantity l) ∈ bids_ b ∧
  ∀ p q, (p, q) ∈ bids_ b → raw p ≤ raw (price l).
Proof.
  intros [[Hs _] _]. unfold best_bid. case_bool_decide as Hst; [|done]. cbn [negb].
  destruct (bids_ b) as [|[p q] m] eqn:E; [done|]. intros [= <-]. cbn.
  split_and!; [done|done|apply list_elem_of_here|]. intros p' q' Hin.
  destruct (ordered_head _ _ _ _ _ Hs Hin) as [->|Hb]; [lia|].
  unfold price_greater in Hb. zbool. lia.
Qed.

Lemma best_ask_spec b l :
  book_wf b → best_ask b = Some l →
  state_ b = Valid ∧ side l = Ask ∧ (price l, quantity l) ∈ asks_ b ∧
  ∀ p q, (p, q) ∈ asks_ b → raw (price l) ≤ raw p.
Proof.
  intros [_ [Hs _]]. unfold best_ask. case_bool_decide as Hst; [|done]. cbn [negb].
  destruct (asks_ b) as [|[p q] m] eqn:E; [done|]. intros [= <-]. cbn.
  split_and!; [done|done|apply list_elem_of_here|]. intros p' q' Hin.
  destruct (ordered_head _ _ _ _ _ Hs Hin) as [->|Hb]; [lia|].
  unfold price_less in Hb. zbool. lia.
Qed.

Lemma best_hidden b : state_ b ≠ Valid → best_bid b = None ∧ best_ask b = None.
Proof. intros Hst. unfold best_bid, best_ask. by rewrite bool_decide_false. Qed.

(** The best prices are the extreme stored prices of a valid book, with
    their stored quantities; a book that is not valid, or has no level on the
    side, exposes none, and a two-sided market is exactly one that exposes
    both. *)
Theorem best_prices_correct v i ops :
  let b := foldl run_op (new_book v i) ops in
  match best_bid b with
  | Some l => state_ b = Valid ∧ side l = Bid ∧ (price l, quantity l) ∈ bids_ b ∧
      ∀ p q, (p, q) ∈ bids_ b → raw p ≤ raw (price l)
  | None => state_ b ≠ Valid ∨ bids_ b = []
  end ∧
  match best_ask b with
  | Some l => state_ b = Valid ∧ side l = Ask ∧ (price l, quantity l) ∈ asks_ b ∧
      ∀ p q, (p, q) ∈ asks_ b → raw (price l) ≤ raw p
  | None => state_ b ≠ Valid ∨ asks_ b = []
  end ∧
  (has_two_sided_market b = true ↔ is_Some (best_bid b) ∧ is_Some (best_ask b)).
Proof.
  cbn zeta. pose proof (run_ops_wf (new_book v i) ops (new_book_wf v i)) as Hwf.
  generalize dependent (foldl run_op (new_book v i) ops). intros b Hwf. split_and!.
  - destruct (best_bid b) eqn:E; [by apply best_bid_spec|]. unfold best_bid in E.
    case_bool_decide; [|by left]. right. destruct (bids_ b) as [|[]]; done.
  - destruct (best_ask b) eqn:E; [by apply best_ask_spec|]. unfold best_ask in E.
    case_bool_decide; [|by left]. right. destruct (asks_ b) as [|[]]; done.
  - unfold has_two_sided_market, best_bid, best_ask, is_Some.
    case_bool_decide; cbn [andb negb]; [|naive_solver].
    destruct (bids_ b) as [|[]], (asks_ b) as [|[]]; cbn; naive_solver.
Qed.

(** ** Concrete instances *)

Definition ex_level (s : Side) (p q : Z) : BookLevel := MkLevel s (MkFixedPoint p) (MkFixedPoint q).

Definition ex_snapshot : BookSnapshot :=
  MkSnapshot Coinbase BTC_USD
    [ex_level Bid 100 5; ex_level Ask 103 2; ex_level Bid 99 7; ex_level Ask 102 4]
    {| exchange_ns := 1 |} {| wall_ns := 2 |} {| mono_ns := 3 |} (Some 10).

Definition ex_update (seq : Z) (cs : list BookLevel) : BookUpdate :=
  MkUpdate Coinbase BTC_USD cs {| exchange_ns := 4 |} {| wall_ns := 5 |} {| mono_ns := 6 |} (Some seq).

Definition ex_book : OrderBook := (apply_snapshot (new_book Coinbase BTC_USD) ex_snapshot).1.

(** Two updates in one envelope: the level at 101 is set, deleted and set
    again, the one at 100 deleted. *)
Definition ex_envelope : list MarketEvent :=
  [UpdateEvent (ex_update 11 [ex_level Bid 101 1; ex_level Bid 100 0; ex_level Bid 101 0]);
   UpdateEvent (ex_update 12 [ex_level Bid 101 9; ex_level Ask 102 3])].

Lemma ex_book_wf : book_wf ex_book.
Proof. apply (apply_event_wf _ (SnapshotEvent ex_snapshot)), new_book_wf. Defined.

Lemma apply_events_transactional_witness :
  book_wf ex_book ∧ (apply_events ex_book ex_envelope).2 = true ∧
  apply_events ex_book ex_envelope =
    match apply_staged ex_book ex_envelope with Some b' => (b', true) | None => (ex_book, false) end.
Proof.
  split; [exact ex_book_wf|]. split; [vm_compute; reflexivity|].
  exact (apply_events_transactional ex_book ex_envelope ex_book_wf).
Defined.

Lemma apply_events_refines_spec_witness :
  book_wf ex_book ∧
  bids_ (apply_events ex_book ex_envelope).1 =
    [(MkFixedPoint 101, MkFixedPoint 9); (MkFixedPoint 99, MkFixedPoint 7)] ∧
  match spec_events (abstract ex_book) ex_envelope with
  | Some sb => (apply_events ex_book ex_envelope).2 = true ∧
      abstract (apply_events ex_book ex_envelope).1 = sb
  | None => apply_events ex_book ex_envelope = (ex_book, false)
  end.
Proof.
  split; [exact ex_book_wf|]. split; [vm_compute; reflexivity|].
  exact (apply_events_refines_spec ex_book ex_envelope ex_book_wf).
Defined.
