(* ===== verification/Json.v ===== *)
(** * JSON values

    The document model of the vendored [nlohmann::json] that the adapters
    work on: the value kinds, the accessors the sources call and the
    exceptions these throw.  Decoding text into a document ([json::parse]) and
    encoding ([dump]) are used through the interface [JsonLib], whose laws
    [JsonLaws] and [JsonText] state what the clients rely on; [JsonLibrary] is
    the library's implementation of it. *)

From S2P Require Import Prelude.
From S2P Require Import Text.

Open Scope Z_scope.

(** ** Values *)

(** [JFloat m e] is the double [m * 2^e].  An object is its sequence of
    members in key order. *)
Inductive json :=
  | JNull
  | JBool (b : bool)
  | JInteger (z : Z)
  | JUnsigned (n : Z)
  | JFloat (m e : Z)
  | JString (s : string)
  | JArray (elements : list json)
  | JObject (members : list (string * json)).

Definition type_name (j : json) : string :=
  match j with
  | JNull => "null"
  | JObject _ => "object"
  | JArray _ => "array"
  | JString _ => "string"
  | JBool _ => "boolean"
  | JInteger _ | JUnsigned _ | JFloat _ _ => "number"
  end.

Definition is_object (j : json) : bool := match j with JObject _ => true | _ => false end.
Definition is_array (j : json) : bool := match j with JArray _ => true | _ => false end.
Definition is_string (j : json) : bool := match j with JString _ => true | _ => false end.
Definition is_number_unsigned (j : json) : bool := match j with JUnsigned _ => true | _ => false end.
Definition is_number_integer (j : json) : bool :=
  match j with JInteger _ | JUnsigned _ => true | _ => false end.

(** [exception::name(ename, id) + what_arg] *)
Definition json_exception (ename : string) (id : Z) (what_arg : string) : exn :=
  JsonError ("[json.exception." +:+ ename +:+ "." +:+ to_string id +:+ "] " +:+ what_arg).
Definition type_error := json_exception "type_error".
Definition json_out_of_range := json_exception "out_of_range".

(** ** Accessors *)

Fixpoint member (key : string) (ms : list (string * json)) : option json :=
  match ms with
  | [] => None
  | (k, v) :: rest => if String.eqb k key then Some v else member key rest
  end.

Definition contains (j : json) (key : string) : bool :=
  match j with JObject ms => match member key ms with Some _ => true | None => false end | _ => false end.

(** [at(key)] *)
Definition at_key (j : json) (key : string) : result json :=
  match j with
  | JObject ms =>
      match member key ms with
      | Some v => Ok v
      | None => Throw (json_out_of_range 403 ("key '" +:+ key +:+ "' not found"))
      end
  | _ => Throw (type_error 304 ("cannot use at() with " +:+ type_name j))
  end.

(** [at(index)] *)
Definition at_index (j : json) (i : nat) : result json :=
  match j with
  | JArray es =>
      match es !! i with
      | Some v => Ok v
      | None => Throw (json_out_of_range 401 ("array index " +:+ to_string (Z.of_nat i) +:+ " is out of range"))
      end
  | _ => Throw (type_error 304 ("cannot use at() with " +:+ type_name j))
  end.

(** [get_ref<const std::string&>()] and [get<std::string>()] *)
Definition get_ref_string (j : json) : result string :=
  match j with
  | JString s => Ok s
  | _ => Throw (type_error 303 ("incompatible ReferenceType for get_ref, actual type is " +:+ type_name j))
  end.
Definition get_string (j : json) : result string :=
  match j with
  | JString s => Ok s
  | _ => Throw (type_error 302 ("type must be string, but is " +:+ type_name j))
  end.

(** [get_ref<const json::array_t&>()] *)
Definition get_ref_array (j : json) : result (list json) :=
  match j with
  | JArray es => Ok es
  | _ => Throw (type_error 303 ("incompatible ReferenceType for get_ref, actual type is " +:+ type_name j))
  end.

Definition get_bool (j : json) : result bool :=
  match j with
  | JBool b => Ok b
  | _ => Throw (type_error 302 ("type must be boolean, but is " +:+ type_name j))
  end.

(** Truncation of a double towards zero. *)
Definition float_trunc (m e : Z) : Z := if 0 <=? e then m * 2 ^ e else Z.quot m (2 ^ (- e)).

(** [static_cast<std::int64_t>] of an unsigned value. *)
Definition to_int64 (n : Z) : Z := if n <=? INT64_MAX then n else n - 18446744073709551616.

(** [get<std::uint64_t>()], [get<std::int64_t>()] *)
Definition get_uint64 (j : json) : result Z :=
  match j with
  | JUnsigned n => Ok n
  | JInteger z => Ok (u64 z)
  | JFloat m e => Ok (float_trunc m e)
  | _ => Throw (type_error 302 ("type must be number, but is " +:+ type_name j))
  end.
Definition get_int64 (j : json) : result Z :=
  match j with
  | JUnsigned n => Ok (to_int64 n)
  | JInteger z => Ok z
  | JFloat m e => Ok (float_trunc m e)
  | _ => Throw (type_error 302 ("type must be number, but is " +:+ type_name j))
  end.

(** [value(key, default)] for a string default *)
Definition value_string (j : json) (key default_value : string) : result string :=
  match j with
  | JObject ms =>
      match member key ms with
      | Some v => get_string v
      | None => Ok default_value
      end
  | _ => Throw (type_error 306 ("cannot use value() with " +:+ type_name j))
  end.

Definition json_size (j : json) : nat :=
  match j with
  | JNull => 0
  | JArray es => length es
  | JObject ms => length ms
  | _ => 1
  end.

Definition json_empty (j : json) : bool :=
  match j with
  | JNull => true
  | JArray es => match es with [] => true | _ => false end
  | JObject ms => match ms with [] => true | _ => false end
  | _ => false
  end.

(** [j == "literal"] *)
Definition equals_string (j : json) (s : string) : bool :=
  match j with JString t => String.eqb t s | _ => false end.

(** The conversion of an integer to [double]: round to nearest, ties to even,
    as an integer. *)
Definition to_double (z : Z) : Z :=
  let a := Z.abs z in
  let s := Z.max 0 (Z.log2 a - 52) in
  let q := Z.shiftr a s in
  let r := a - Z.shiftl q s in
  let half := if s =? 0 then 1 else 2 ^ (s - 1) in
  let q := if (r >? half) || ((r =? half) && Z.odd q) then q + 1 else q in
  Z.sgn z * Z.shiftl q s.

(** [m1 * 2^e1 == m2 * 2^e2] *)
Definition float_equal (m1 e1 m2 e2 : Z) : bool :=
  let e := Z.min e1 e2 in Z.shiftl m1 (e1 - e) =? Z.shiftl m2 (e2 - e).

(** [operator==]: numbers of different kinds compare after conversion. *)
Fixpoint json_equal (a b : json) {struct a} : bool :=
  match a, b with
  | JNull, JNull => true
  | JBool x, JBool y => eqb x y
  | JString s, JString t => String.eqb s t
  | JArray xs, JArray ys =>
      (fix go (l m : list json) {struct l} : bool :=
         match l, m with
         | [], [] => true
         | x :: l', y :: m' => json_equal x y && go l' m'
         | _, _ => false
         end) xs ys
  | JObject xs, JObject ys =>
      (fix go (l m : list (string * json)) {struct l} : bool :=
         match l, m with
         | [], [] => true
         | (k, x) :: l', (k', y) :: m' => String.eqb k k' && json_equal x y && go l' m'
         | _, _ => false
         end) xs ys
  | JInteger x, JInteger y => x =? y
  | JUnsigned x, JUnsigned y => x =? y
  | JFloat m e, JFloat m' e' => float_equal m e m' e'
  | JInteger x, JUnsigned y => x =? to_int64 y
  | JUnsigned x, JInteger y => to_int64 x =? y
  | JInteger x, JFloat m e => float_equal (to_double x) 0 m e
  | JFloat m e, JInteger y => float_equal m e (to_double y) 0
  | JUnsigned x, JFloat m e => float_equal (to_double x) 0 m e
  | JFloat m e, JUnsigned y => float_equal m e (to_double y) 0
  | _, _ => false
  end.

(** [operator[](key) = v] on the members of an object, which [std::map] keeps
    in the byte order of the keys. *)
Fixpoint set_member (key : string) (v : json) (ms : list (string * json)) : list (string * json) :=
  match ms with
  | [] => [(key, v)]
  | (k, w) :: rest =>
      match String.compare key k with
      | Lt => (key, v) :: ms
      | Eq => (k, v) :: rest
      | Gt => (k, w) :: set_member key v rest
      end
  end.

(** Successive assignments. *)
Definition set_members (kvs ms : list (string * json)) : list (string * json) :=
  foldl (λ acc m, set_member m.1 m.2 acc) ms kvs.

(** The braced list of members [{{k1, v1}, {k2, v2}, ...}]. *)
Definition json_object (ms : list (string * json)) : json := JObject (set_members ms []).

(** [optional], a number or null. *)
Definition json_optional (value : option Z) : json :=
  match value with Some n => JUnsigned n | None => JNull end.

(** What a document becomes when its text is decoded again: integers that are
    not negative come back as unsigned. *)
Fixpoint reparsed (j : json) : json :=
  match j with
  | JInteger z => if 0 <=? z then JUnsigned z else JInteger z
  | JArray es => JArray (map reparsed es)
  | JObject ms => JObject (map (λ m, (m.1, reparsed m.2)) ms)
  | _ => j
  end.

(** The keys of a [std::map], in their order. *)
Fixpoint sorted_keys (ms : list (string * json)) : bool :=
  match ms with
  | (k, _) :: rest =>
      match rest with
      | (k', _) :: _ => match String.compare k k' with Lt => sorted_keys rest | _ => false end
      | [] => true
      end
  | [] => true
  end.

(** The documents the program writes: no doubles, integers of their width,
    objects in the order of their keys. *)
Fixpoint writable (j : json) : bool :=
  match j with
  | JFloat _ _ => false
  | JInteger z => (INT64_MIN <=? z) && (z <=? INT64_MAX)
  | JUnsigned n => (0 <=? n) && (n <=? UINT64_MAX)
  | JArray es => forallb writable es
  | JObject ms => forallb (λ m, writable m.2) ms && sorted_keys ms
  | _ => true
  end.
Definition writable_members (ms : list (string * json)) : bool :=
  forallb (λ m, writable m.2) ms && sorted_keys ms.

(** The newline, which separates the records of a recording. *)
Definition newline : ascii := "010".
Definition is_newline (c : ascii) : bool := (c =? newline)%char.

(** ** The library operations used through an interface *)

Class JsonLib := {
  json_parse : string → result json;   (* nlohmann::json::parse *)
  json_dump : json → result string;    (* nlohmann::json::dump, which refuses invalid UTF-8 *)
  json_dump2 : json → result string;   (* dump(2), indented *)
}.

(** Exceptions of [json::parse] and [dump] are [json::exception]s with a
    message. *)
Class JsonLaws `{JsonLib} := {
  json_parse_throws s e : json_parse s = Throw e → ∃ m, e = JsonError m ∧ m ≠ EmptyString;
  json_dump_throws j e : json_dump j = Throw e → ∃ m, e = JsonError m ∧ m ≠ EmptyString;
}.

(** The compact text of a document has one line, both texts decode to the
    document, the indented one with a newline at its end as well, and the text
    does not depend on the integer kinds. *)
Class JsonText `{JsonLib} := {
  json_dump_line j s : json_dump j = Ok s → none is_newline s = true;
  json_parse_dump j s : writable j = true → json_dump j = Ok s → json_parse s = Ok (reparsed j);
  json_parse_dump2 j s : writable j = true → json_dump2 j = Ok s →
    json_parse (s +:+ String newline EmptyString) = Ok (reparsed j);
  json_dump_reparsed j : writable j = true → json_dump (reparsed j) = json_dump j;
}.

(** ** Lemmas *)

(** Every exception an accessor throws is a [json::exception] with a
    message. *)
Definition json_failure (e : exn) : Prop := ∃ m, e = JsonError m ∧ m ≠ EmptyString.

Lemma json_exception_failure ename id w : json_failure (json_exception ename id w).
Proof. by eexists. Qed.

Ltac json_failure_cases :=
  intros; repeat split_match; simplify_eq; try apply json_exception_failure.

Lemma at_key_throws j k e : at_key j k = Throw e → json_failure e.
Proof. unfold at_key. json_failure_cases. Qed.
Lemma get_ref_string_throws j e : get_ref_string j = Throw e → json_failure e.
Proof. unfold get_ref_string. json_failure_cases. Qed.
Lemma get_string_throws j e : get_string j = Throw e → json_failure e.
Proof. unfold get_string. json_failure_cases. Qed.
Lemma get_ref_array_throws j e : get_ref_array j = Throw e → json_failure e.
Proof. unfold get_ref_array. json_failure_cases. Qed.
Lemma get_bool_throws j e : get_bool j = Throw e → json_failure e.
Proof. unfold get_bool. json_failure_cases. Qed.
Lemma get_uint64_throws j e : get_uint64 j = Throw e → json_failure e.
Proof. unfold get_uint64. json_failure_cases. Qed.
Lemma value_string_throws j k d e : value_string j k d = Throw e → json_failure e.
Proof.
  unfold value_string. json_failure_cases. by eapply get_string_throws.
Qed.

#[export] Hint Resolve at_key_throws get_ref_string_throws get_string_throws get_ref_array_throws
  get_bool_throws get_uint64_throws value_string_throws json_exception_failure : arb.

(** Induction over a document and everything inside it. *)
Lemma json_ind' (P : json → Prop) :
  P JNull → (∀ b, P (JBool b)) → (∀ z, P (JInteger z)) → (∀ n, P (JUnsigned n)) →
  (∀ m e, P (JFloat m e)) → (∀ s, P (JString s)) →
  (∀ es, Forall P es → P (JArray es)) → (∀ ms, Forall (λ m, P m.2) ms → P (JObject ms)) →
  ∀ j, P j.
Proof.
  intros ?????? Ha Ho. fix IH 1. intros [| | | | | |es|ms]; [clear IH; auto..|apply Ha|apply Ho].
  - induction es; constructor; auto.
  - induction ms; constructor; auto.
Qed.

Lemma json_equal_refl j : json_equal j j = true.
Proof.
  induction j as [|b|z|n|m e|s|es IH|ms IH] using json_ind'; cbn;
    [done|by destruct b|apply Z.eqb_refl..|apply String.eqb_refl| |].
  - induction IH as [|x es Hx _ IH]; [done|]. by rewrite Hx.
  - induction IH as [|[k x] ms Hx _ IH]; [done|]. cbn in Hx. by rewrite String.eqb_refl, Hx.
Qed.

Lemma reparsed_idemp j : reparsed (reparsed j) = reparsed j.
Proof.
  induction j as [| |z| | | |es IH|ms IH] using json_ind'; cbn; try done.
  - destruct (0 <=? z) eqn:E; cbn; by rewrite ?E.
  - f_equal. rewrite map_map. apply map_ext_Forall. done.
  - f_equal. rewrite map_map. apply map_ext_Forall. eapply Forall_impl; [done|]. intros [??]; cbn. by intros ->.
Qed.

(** Lookups after assignments and decoding. *)
Lemma member_set k k' v ms : member k (set_member k' v ms) = if String.eqb k' k then Some v else member k ms.
Proof.
  induction ms as [|[k1 w] ms IH]; cbn; [done|].
  destruct (String.compare k' k1) eqn:E; cbn.
  - apply String.compare_eq_iff in E as ->. by destruct (String.eqb k1 k).
  - done.
  - rewrite IH. destruct (String.eqb_spec k1 k) as [->|]; [|done].
    destruct (String.eqb_spec k' k) as [->|]; [|done].
    pose proof (String.compare_antisym k k) as Ha. by rewrite E in Ha.
Qed.

Lemma member_app k l1 l2 :
  member k (l1 ++ l2) = match member k l1 with Some v => Some v | None => member k l2 end.
Proof. induction l1 as [|[k1 w] l1 IH]; cbn; [done|]. by destruct (String.eqb k1 k). Qed.

Lemma member_set_members k kvs ms :
  member k (set_members kvs ms) = match member k (rev kvs) with Some v => Some v | None => member k ms end.
Proof.
  unfold set_members. revert ms. induction kvs as [|[k1 v] kvs IH]; intros ms; cbn [foldl rev fst snd]; [done|].
  rewrite IH, member_set, member_app. destruct (member k (rev kvs)); [done|]. cbn. by destruct (String.eqb k1 k).
Qed.

Lemma member_reparsed k ms : member k (map (λ m, (m.1, reparsed m.2)) ms) = reparsed <$> member k ms.
Proof. induction ms as [|[k1 v] ms IH]; cbn; [done|]. by destruct (String.eqb k1 k). Qed.

Lemma at_key_reparsed k v v' ms :
  member k ms = Some v → reparsed v = v' → at_key (reparsed (JObject ms)) k = Ok v'.
Proof. intros Hm <-. cbn. by rewrite member_reparsed, Hm. Qed.

(** Looks up a key of a decoded document that was built by assignments. *)
Ltac lookup_key k :=
  erewrite (at_key_reparsed k);
    [|rewrite ?member_set_members, ?member_set; reflexivity|cbn [reparsed]; reflexivity]; monad_simpl.

(** Assignments keep the order of the keys. *)
Lemma string_compare_gt k k' : String.compare k k' = Gt → String.compare k' k = Lt.
Proof. intros E. rewrite String.compare_antisym, E. done. Qed.

Lemma sorted_keys_cons k v ms :
  sorted_keys ((k, v) :: ms) = match ms with [] => true | (k', _) :: _ => match String.compare k k' with Lt => sorted_keys ms | _ => false end end.
Proof. done. Qed.

Lemma sorted_keys_set k v ms : sorted_keys ms = true → sorted_keys (set_member k v ms) = true.
Proof.
  induction ms as [|[k1 w] ms IH]; [done|]. intros Hs. cbn [set_member]. destruct (String.compare k k1) eqn:E.
  - apply String.compare_eq_iff in E as ->. done.
  - cbn [sorted_keys]. rewrite E. done.
  - apply string_compare_gt in E. destruct ms as [|[k2 u] ms]; cbn [set_member] in *; [cbn; by rewrite E|].
    rewrite sorted_keys_cons in Hs. destruct (String.compare k1 k2) eqn:E1; try done. specialize (IH Hs).
    destruct (String.compare k k2) eqn:E2; rewrite sorted_keys_cons; rewrite ?E, ?E1; try done.
Qed.

Lemma writable_set k v ms : writable v = true → writable_members ms = true → writable_members (set_member k v ms) = true.
Proof.
  unfold writable_members. intros Hv [Hms Hs]%andb_true_iff. rewrite sorted_keys_set, andb_true_r by done. clear Hs.
  induction ms as [|[k1 w] ms IH]; cbn; [by rewrite Hv|]. cbn in Hms. apply andb_true_iff in Hms as [Hw Hms].
  destruct (String.compare k k1); cbn; rewrite ?Hv, ?Hw, ?Hms; [done..|]. by rewrite IH.
Qed.

Lemma writable_set_members kvs ms :
  forallb (λ m, writable m.2) kvs = true → writable_members ms = true → writable_members (set_members kvs ms) = true.
Proof.
  unfold set_members. revert ms. induction kvs as [|[k v] kvs IH]; intros ms; cbn; [done|].
  intros [Hv Hkvs]%andb_true_iff Hms. apply IH; [done|]. by apply writable_set.
Qed.

(** Equality of documents, the kinds of numbers included. *)
Fixpoint json_same (a b : json) {struct a} : bool :=
  match a, b with
  | JNull, JNull => true
  | JBool x, JBool y => eqb x y
  | JString s, JString t => String.eqb s t
  | JArray xs, JArray ys =>
      (fix go (l m : list json) {struct l} : bool :=
         match l, m with
         | [], [] => true
         | x :: l', y :: m' => json_same x y && go l' m'
         | _, _ => false
         end) xs ys
  | JObject xs, JObject ys =>
      (fix go (l m : list (string * json)) {struct l} : bool :=
         match l, m with
         | [], [] => true
         | (k, x) :: l', (k', y) :: m' => String.eqb k k' && json_same x y && go l' m'
         | _, _ => false
         end) xs ys
  | JInteger x, JInteger y | JUnsigned x, JUnsigned y => x =? y
  | JFloat m e, JFloat m' e' => (m =? m') && (e =? e')
  | _, _ => false
  end.

Lemma json_same_eq a b : json_same a b = true → a = b.
Proof.
  revert b. induction a as [|x|z|n|m e|s|es IH|ms IH] using json_ind'; intros []; cbn; try done;
    rewrite ?andb_true_iff, ?Z.eqb_eq, ?eqb_true_iff, ?String.eqb_eq; try naive_solver.
  - intros Hs. f_equal. revert elements Hs. induction IH as [|x l Hx Hl IHl]; intros [|y m]; try done.
    intros [Hxy Hlm]%andb_true_iff. f_equal; auto.
  - intros Hs. f_equal. revert members Hs. induction IH as [|[k x] l Hx Hl IHl]; intros [|[k' y] m]; try done.
    intros [[Hk%String.eqb_eq Hxy]%andb_true_iff Hlm]%andb_true_iff. f_equal; [f_equal|]; auto.
Qed.

(** ** A table-backed instance

    Decoding and encoding by lookup in a finite table of known documents; used
    to evaluate clients of the interface on concrete messages. *)
Fixpoint table_text (j : json) (table : list (string * json)) : option string :=
  match table with
  | [] => None
  | (s, v) :: rest => if json_same v j then Some s else table_text j rest
  end.

Definition table_dump (table : list (string * json)) (j : json) : result string :=
  match table_text (reparsed j) table with
  | Some s => Ok s
  | None => Throw (json_exception "type_error" 316 "invalid UTF-8 byte")
  end.

Definition table_lib (table : list (string * json)) : JsonLib := {|
  json_parse s :=
    match member (str_remove is_newline s) table with
    | Some j => Ok j
    | None => Throw (json_exception "parse_error" 101 "syntax error")
    end;
  json_dump := table_dump table;
  json_dump2 := table_dump table;
|}.

Lemma table_laws table : @JsonLaws (table_lib table).
Proof.
  split; intros x e; cbn.
  - destruct (member _ table); [done|]. intros [= <-]. by eexists.
  - unfold table_dump. destruct (table_text _ table); [done|]. intros [= <-]. by eexists.
Qed.

(** Texts without newlines, pairwise different. *)
Fixpoint table_ok (table : list (string * json)) : bool :=
  match table with
  | [] => true
  | (s, v) :: rest =>
      none is_newline s && match member s rest with None => true | Some _ => false end && table_ok rest
  end.

Lemma table_text_member j table s :
  table_ok table = true → table_text j table = Some s → none is_newline s = true ∧ member s table = Some j.
Proof.
  intros Hok. induction table as [|[t v] rest IH]; cbn in *; [done|].
  apply andb_true_iff in Hok as [[Hn Hm]%andb_true_iff Hr].
  destruct (json_same v j) eqn:E.
  - intros [= ->]. apply json_same_eq in E as ->. by rewrite String.eqb_refl.
  - intros Ht. destruct (IH Hr Ht) as [? Hin]. split; [done|]. destruct (String.eqb_spec t s) as [->|]; [|done].
    by rewrite Hin in Hm.
Qed.

Lemma table_dump_parse table j s :
  table_ok table = true → table_dump table j = Ok s →
  none is_newline s = true ∧ member s table = Some (reparsed j).
Proof.
  unfold table_dump. intros Hok. destruct (table_text _ _) eqn:E; [|done]. intros [= <-].
  by eapply table_text_member.
Qed.

Lemma table_json_text table : table_ok table = true → @JsonText (table_lib table).
Proof.
  intros Hok. split; cbn.
  - intros j s Hd. by eapply table_dump_parse.
  - intros j s _ Hd. destruct (table_dump_parse _ _ _ Hok Hd) as [Hn Hm]. by rewrite str_remove_none, Hm.
  - intros j s _ Hd. destruct (table_dump_parse _ _ _ Hok Hd) as [Hn Hm].
    rewrite str_remove_app, str_remove_none by done. cbn. by rewrite string_app_nil, Hm.
  - intros j _. unfold table_dump. by rewrite reparsed_idemp.
Qed.
