(* ===== verification/JsonLexer.v ===== *)
(** * The lexer of [nlohmann::json]

    [detail::lexer] of third_party/nlohmann/json.hpp over a contiguous input,
    with comments not ignored and the [C] locale, which is how the program
    uses it.  A lexer is the record of its fields; [get] and [unget] are its
    only accesses to the input, all other functions are built from them.  The
    loops carry fuel, [budget], taken from the length of the input. *)

From S2P Require Import Prelude.
From S2P Require Import Text.
From S2P Require Import Json.

Open Scope Z_scope.

(** ** State *)

Inductive token_type :=
  | uninitialized
  | literal_true
  | literal_false
  | literal_null
  | value_string
  | value_unsigned
  | value_integer
  | value_float
  | begin_array
  | begin_object
  | end_array
  | end_object
  | name_separator
  | value_separator
  | parse_error
  | end_of_input
  | literal_or_value.

#[export] Instance token_type_eq_dec : EqDecision token_type.
Proof. solve_decision. Defined.

Definition token_type_name (t : token_type) : string :=
  match t with
  | uninitialized => "<uninitialized>"
  | literal_true => "true literal"
  | literal_false => "false literal"
  | literal_null => "null literal"
  | value_string => "string literal"
  | value_unsigned | value_integer | value_float => "number literal"
  | begin_array => "'['"
  | begin_object => "'{'"
  | end_array => "']'"
  | end_object => "'}'"
  | name_separator => "':'"
  | value_separator => "','"
  | parse_error => "<parse error>"
  | end_of_input => "end of input"
  | literal_or_value => "'[', '{', or a literal"
  end.

Record position_t := mkPosition {
  chars_read_total : Z;
  chars_read_current_line : Z;
  lines_read : Z;
}.
#[export] Instance position_eta : EtaRecord position_t :=
  λ p, mkPosition (chars_read_total p) (chars_read_current_line p) (lines_read p).

(** A value of [std::strtod]: the double [m * 2^e], without the sign of zero,
    or an infinity. *)
Inductive double :=
  | Finite (m e : Z)
  | Infinite.

(** [current] is [None] at the end of the input.  The three numbers are the
    fields [value_unsigned], [value_integer] and [value_float]. *)
Record lexer := mkLexer {
  ia : string;
  current : option ascii;
  next_unget : bool;
  position : position_t;
  token_string : string;
  token_buffer : string;
  error_message : string;
  number_unsigned : Z;
  number_integer : Z;
  number_float : double;
}.
#[export] Instance lexer_eta : EtaRecord lexer :=
  λ l, mkLexer (ia l) (current l) (next_unget l) (position l) (token_string l) (token_buffer l)
         (error_message l) (number_unsigned l) (number_integer l) (number_float l).

Definition lexer_of (input : string) : lexer :=
  mkLexer input None false (mkPosition 0 0 0) EmptyString EmptyString EmptyString 0 0 (Finite 0 0).

(** Enough for any loop that reads a character in each round. *)
Definition budget (l : lexer) : nat := S (S (String.length (ia l))).

(** ** Input management *)

Definition one (c : ascii) : string := String c EmptyString.
Definition byte_value (c : ascii) : Z := Z.of_N (N_of_ascii c).
Definition byte_of (z : Z) : ascii := ascii_of_N (Z.to_N z).

(** [current] as the [int_type], -1 at the end. *)
Definition code (l : lexer) : Z :=
  match current l with Some c => byte_value c | None => -1 end.
Definition is_current (c : ascii) (l : lexer) : bool :=
  match current l with Some a => (a =? c)%char | None => false end.

(** [iterator_input_adapter::get_character] *)
Definition get_character (l : lexer) : lexer :=
  match ia l with
  | String c rest => l <| ia := rest |> <| current := Some c |>
  | EmptyString => l <| current := None |>
  end.

Definition get (l : lexer) : lexer :=
  let l := l <| position ::= (λ p, mkPosition (chars_read_total p + 1) (chars_read_current_line p + 1) (lines_read p)) |> in
  let l := if next_unget l then l <| next_unget := false |> else get_character l in
  let l := match current l with
           | Some c => l <| token_string ::= (λ s, s +:+ one c) |>
           | None => l
           end in
  if is_current newline l
  then l <| position ::= (λ p, mkPosition (chars_read_total p) 0 (lines_read p + 1)) |>
  else l.

Definition pop_back (s : string) : string := str_take (String.length s - 1) s.

Definition unget (l : lexer) : lexer :=
  let l := l <| next_unget := true |> in
  let l := l <| position ::= (λ p,
    if chars_read_current_line p =? 0
    then mkPosition (chars_read_total p - 1) (chars_read_current_line p)
           (if lines_read p >? 0 then lines_read p - 1 else lines_read p)
    else mkPosition (chars_read_total p - 1) (chars_read_current_line p - 1) (lines_read p)) |> in
  match current l with
  | Some _ => l <| token_string ::= pop_back |>
  | None => l
  end.

Definition add (c : ascii) (l : lexer) : lexer := l <| token_buffer ::= (λ s, s +:+ one c) |>.
Definition add_current (l : lexer) : lexer :=
  match current l with Some c => add c l | None => l end.

Definition reset (l : lexer) : lexer :=
  l <| token_buffer := EmptyString |>
    <| token_string := match current l with Some c => one c | None => EmptyString end |>.

Definition fail_with (message : string) (l : lexer) : token_type * lexer :=
  (parse_error, l <| error_message := message |>).

(** ** Strings *)

Definition quote : ascii := "034".
Definition backslash : ascii := "092".

Definition between (lo c hi : Z) : bool := (lo <=? c) && (c <=? hi).

(** The value of a hexadecimal digit. *)
Definition hex_value (c : Z) : option Z :=
  if between 48 c 57 then Some (c - 0x30)
  else if between 65 c 70 then Some (c - 0x37)
  else if between 97 c 102 then Some (c - 0x57)
  else None.

Fixpoint codepoint_loop (factors : list Z) (codepoint : Z) (l : lexer) : Z * lexer :=
  match factors with
  | [] => (codepoint, l)
  | factor :: rest =>
      let l := get l in
      match hex_value (code l) with
      | Some d => codepoint_loop rest (codepoint + Z.shiftl d factor) l
      | None => (-1, l)
      end
  end.
Definition get_codepoint (l : lexer) : Z * lexer := codepoint_loop [12; 8; 4; 0] 0 l.

Fixpoint ranges_loop (ranges : list (Z * Z)) (l : lexer) : bool * lexer :=
  match ranges with
  | [] => (true, l)
  | (lo, hi) :: rest =>
      let l := get l in
      if between lo (code l) hi then ranges_loop rest (add_current l)
      else (false, l <| error_message := "invalid string: ill-formed UTF-8 byte" |>)
  end.
Definition next_byte_in_range (ranges : list (Z * Z)) (l : lexer) : bool * lexer :=
  ranges_loop ranges (add_current l).

(** The bytes of a code point. *)
Definition utf8_bytes (codepoint : Z) : list Z :=
  if codepoint <? 0x80 then [codepoint]
  else if codepoint <=? 0x7FF then
    [Z.lor 0xC0 (Z.shiftr codepoint 6); Z.lor 0x80 (Z.land codepoint 0x3F)]
  else if codepoint <=? 0xFFFF then
    [Z.lor 0xE0 (Z.shiftr codepoint 12); Z.lor 0x80 (Z.land (Z.shiftr codepoint 6) 0x3F);
     Z.lor 0x80 (Z.land codepoint 0x3F)]
  else
    [Z.lor 0xF0 (Z.shiftr codepoint 18); Z.lor 0x80 (Z.land (Z.shiftr codepoint 12) 0x3F);
     Z.lor 0x80 (Z.land (Z.shiftr codepoint 6) 0x3F); Z.lor 0x80 (Z.land codepoint 0x3F)].

Definition add_bytes (bytes : list Z) (l : lexer) : lexer := foldl (λ l b, add (byte_of b) l) l bytes.

(** A round of a scanning loop goes on or ends with a token. *)
Definition round : Type := lexer + token_type * lexer.
Definition stop_with (message : string) (l : lexer) : round := inr (fail_with message l).

Definition hex4_message : string := "invalid string: '\u' must be followed by 4 hex digits".
Definition high_surrogate_message : string :=
  "invalid string: surrogate U+D800..U+DBFF must be followed by U+DC00..U+DFFF".
Definition low_surrogate_message : string :=
  "invalid string: surrogate U+DC00..U+DFFF must follow U+D800..U+DBFF".

(** The second half of a surrogate pair, after the first, [codepoint1]. *)
Definition scan_low_surrogate (codepoint1 : Z) (l : lexer) : round :=
  let l := get l in
  if is_current backslash l then
    let l := get l in
    if is_current "u" l then
      let '(codepoint2, l) := get_codepoint l in
      if codepoint2 =? -1 then stop_with hex4_message l
      else if between 0xDC00 codepoint2 0xDFFF then
        inl (add_bytes (utf8_bytes (Z.shiftl codepoint1 10 + codepoint2 - 0x35FDC00)) l)
      else stop_with high_surrogate_message l
    else stop_with high_surrogate_message l
  else stop_with high_surrogate_message l.

Definition scan_unicode_escape (l : lexer) : round :=
  let '(codepoint1, l) := get_codepoint l in
  if codepoint1 =? -1 then stop_with hex4_message l
  else if between 0xD800 codepoint1 0xDBFF then scan_low_surrogate codepoint1 l
  else if between 0xDC00 codepoint1 0xDFFF then stop_with low_surrogate_message l
  else inl (add_bytes (utf8_bytes codepoint1) l).

(** The characters that stand after a backslash for themselves or a control
    character. *)
Definition simple_escapes : list (ascii * ascii) :=
  [(quote, quote); (backslash, backslash); ("/"%char, "/"%char); ("b"%char, "008"%char); ("f"%char, "012"%char);
   ("n"%char, "010"%char); ("r"%char, "013"%char); ("t"%char, "009"%char)].
Fixpoint char_lookup (c : ascii) (table : list (ascii * ascii)) : option ascii :=
  match table with
  | [] => None
  | (a, b) :: rest => if (a =? c)%char then Some b else char_lookup c rest
  end.
Definition simple_escape (c : ascii) : option ascii := char_lookup c simple_escapes.

(** The case of a backslash in a string. *)
Definition scan_escape (l : lexer) : round :=
  let l := get l in
  let forbidden := stop_with "invalid string: forbidden character after backslash" l in
  match current l with
  | Some c =>
      match simple_escape c with
      | Some b => inl (add b l)
      | None => if (c =? "u")%char then scan_unicode_escape l else forbidden
      end
  | None => forbidden
  end.

(** The names of the control characters 0 to 31. *)
Definition control_names : list string :=
  ["NUL"; "SOH"; "STX"; "ETX"; "EOT"; "ENQ"; "ACK"; "BEL"; "BS"; "HT"; "LF"; "VT"; "FF"; "CR"; "SO"; "SI";
   "DLE"; "DC1"; "DC2"; "DC3"; "DC4"; "NAK"; "SYN"; "ETB"; "CAN"; "EM"; "SUB"; "ESC"; "FS"; "GS"; "RS"; "US"].

Definition hex_digit (d : Z) : ascii := byte_of (if d <? 10 then d + 48 else d + 55).
Definition hex_byte (z : Z) : string := String (hex_digit (z / 16)) (one (hex_digit (z mod 16))).

(** The short escape of some control characters. *)
Definition control_hint (z : Z) : string :=
  if z =? 8 then " or \b" else if z =? 9 then " or \t" else if z =? 10 then " or \n"
  else if z =? 12 then " or \f" else if z =? 13 then " or \r" else "".

Definition control_message (z : Z) : string :=
  "invalid string: control character U+00" +:+ hex_byte z +:+ " (" +:+ nth (Z.to_nat z) control_names "" +:+
  ") must be escaped to \u00" +:+ hex_byte z +:+ control_hint z.

(** The ranges of the bytes that may follow a leading byte. *)
Definition following_ranges (c : Z) : option (list (Z * Z)) :=
  if between 0xC2 c 0xDF then Some [(0x80, 0xBF)]
  else if c =? 0xE0 then Some [(0xA0, 0xBF); (0x80, 0xBF)]
  else if between 0xE1 c 0xEC || between 0xEE c 0xEF then Some [(0x80, 0xBF); (0x80, 0xBF)]
  else if c =? 0xED then Some [(0x80, 0x9F); (0x80, 0xBF)]
  else if c =? 0xF0 then Some [(0x90, 0xBF); (0x80, 0xBF); (0x80, 0xBF)]
  else if between 0xF1 c 0xF3 then Some [(0x80, 0xBF); (0x80, 0xBF); (0x80, 0xBF)]
  else if c =? 0xF4 then Some [(0x80, 0x8F); (0x80, 0xBF); (0x80, 0xBF)]
  else None.

(** One round of the loop of [scan_string]. *)
Definition string_round (l : lexer) : round :=
  let l := get l in
  match current l with
  | None => stop_with "invalid string: missing closing quote" l
  | Some c =>
      let z := byte_value c in
      if (c =? quote)%char then inr (value_string, l)
      else if (c =? backslash)%char then scan_escape l
      else if z <=? 0x1F then stop_with (control_message z) l
      else if z <=? 0x7F then inl (add_current l)
      else
        match following_ranges z with
        | Some ranges =>
            let '(ok, l) := next_byte_in_range ranges l in
            if ok then inl l else inr (parse_error, l)
        | None => stop_with "invalid string: ill-formed UTF-8 byte" l
        end
  end.

Fixpoint string_loop (fuel : nat) (l : lexer) : token_type * lexer :=
  match fuel with
  | O => (parse_error, l)
  | S fuel' =>
      match string_round l with
      | inl l' => string_loop fuel' l'
      | inr stop => stop
      end
  end.

Definition scan_string (l : lexer) : token_type * lexer :=
  let l := reset l in string_loop (budget l) l.

(** ** Numbers *)

(** The functions of the C library on a text in the format of a number:
    [None] is [errno == ERANGE]. *)
Definition strtoull (s : string) : option Z :=
  let '(negative, d, _) := strto_prefix s in
  let n := digits_value 0 d in
  if n >? UINT64_MAX then None else Some (if negative then u64 (- n) else n).
Definition strtoll (s : string) : option Z :=
  let '(negative, d, _) := strto_prefix s in
  let z := if negative then - digits_value 0 d else digits_value 0 d in
  if (z <? INT64_MIN) || (z >? INT64_MAX) then None else Some z.

(** [num / den] rounded to a double, to nearest with ties to even, for
    [den > 0]. *)
Definition round_ratio (num den : Z) : double :=
  if num =? 0 then Finite 0 0
  else
    let a := Z.abs num in
    let scaled (e : Z) := if 0 <=? e then (a, den * 2 ^ e) else (a * 2 ^ (- e), den) in
    let e0 := Z.log2 a - Z.log2 den - 53 in
    let '(n0, d0) := scaled e0 in
    let e := Z.max (-1074) (if n0 / d0 <? 2 ^ 53 then e0 else e0 + 1) in
    let '(n, d) := scaled e in
    let q := n / d in
    let r := n mod d in
    let q := if (2 * r >? d) || ((2 * r =? d) && Z.odd q) then q + 1 else q in
    if Z.log2 q + e >=? 1024 then Infinite else Finite (Z.sgn num * q) e.

(** The digits of a number text with the decimal point removed, and the power
    of ten they are to be multiplied with. *)
Definition decimal_parts (s : string) : Z * Z :=
  let '(negative, d, r) := strto_prefix s in
  let '(f, r) := match r with
                 | String c r' => if (c =? ".")%char then digit_prefix r' else (EmptyString, r)
                 | EmptyString => (EmptyString, r)
                 end in
  let exponent := match r with
                  | String c r' =>
                      if (c =? "e")%char || (c =? "E")%char then
                        let '(n, x, _) := strto_prefix r' in
                        if n then - digits_value 0 x else digits_value 0 x
                      else 0
                  | EmptyString => 0
                  end in
  let m := digits_value 0 (d +:+ f) in
  (if negative then - m else m, exponent - Z.of_nat (String.length f)).

Definition strtod (s : string) : double :=
  let '(m, k) := decimal_parts s in
  if 0 <=? k then round_ratio (m * 10 ^ k) 1 else round_ratio m (10 ^ (- k)).

(** The labels of [scan_number]: the states of its automaton. *)
Inductive number_label :=
  | scan_number_minus
  | scan_number_zero
  | scan_number_any1
  | scan_number_decimal1
  | scan_number_decimal2
  | scan_number_exponent
  | scan_number_sign
  | scan_number_any2.

(** Where control goes from a label. *)
Inductive number_next :=
  | Goto (label : number_label) (l : lexer)
  | Number_done (l : lexer)
  | Number_error (message : string) (l : lexer).

(** What the labels assign to [number_type]. *)
Definition label_type (label : number_label) (number_type : token_type) : token_type :=
  match label with
  | scan_number_minus => value_integer
  | scan_number_decimal1 | scan_number_exponent => value_float
  | _ => number_type
  end.

Definition number_step (label : number_label) (l : lexer) : number_next :=
  let l := get l in
  let goto label := Goto label (add_current l) in
  let digit := match current l with Some c => is_digit c | None => false end in
  let exponent := is_current "e" l || is_current "E" l in
  match label with
  | scan_number_minus =>
      if is_current "0" l then goto scan_number_zero
      else if digit then goto scan_number_any1
      else Number_error "invalid number; expected digit after '-'" l
  | scan_number_zero =>
      if is_current "." l then goto scan_number_decimal1
      else if exponent then goto scan_number_exponent
      else Number_done l
  | scan_number_any1 =>
      if digit then goto scan_number_any1
      else if is_current "." l then goto scan_number_decimal1
      else if exponent then goto scan_number_exponent
      else Number_done l
  | scan_number_decimal1 =>
      if digit then goto scan_number_decimal2
      else Number_error "invalid number; expected digit after '.'" l
  | scan_number_decimal2 =>
      if digit then goto scan_number_decimal2
      else if exponent then goto scan_number_exponent
      else Number_done l
  | scan_number_exponent =>
      if is_current "+" l || is_current "-" l then goto scan_number_sign
      else if digit then goto scan_number_any2
      else Number_error "invalid number; expected '+', '-', or digit after exponent" l
  | scan_number_sign =>
      if digit then goto scan_number_any2
      else Number_error "invalid number; expected digit after exponent sign" l
  | scan_number_any2 =>
      if digit then goto scan_number_any2 else Number_done l
  end.

(** [scan_number_done]: integers first, then a double. *)
Definition number_done (number_type : token_type) (l : lexer) : token_type * lexer :=
  let l := unget l in
  let as_float := (value_float, l <| number_float := strtod (token_buffer l) |>) in
  match number_type with
  | value_unsigned =>
      match strtoull (token_buffer l) with
      | Some x => (value_unsigned, l <| number_unsigned := x |>)
      | None => as_float
      end
  | value_integer =>
      match strtoll (token_buffer l) with
      | Some x => (value_integer, l <| number_integer := x |>)
      | None => as_float
      end
  | _ => as_float
  end.

Fixpoint number_loop (fuel : nat) (label : number_label) (number_type : token_type) (l : lexer) : token_type * lexer :=
  match fuel with
  | O => (parse_error, l)
  | S fuel' =>
      let number_type := label_type label number_type in
      match number_step label l with
      | Goto label' l' => number_loop fuel' label' number_type l'
      | Number_done l' => number_done number_type l'
      | Number_error message l' => fail_with message l'
      end
  end.

(** [scan_number], whose first character is [current]. *)
Definition scan_number (l : lexer) : token_type * lexer :=
  let l := reset l in
  let label := if is_current "-" l then scan_number_minus
               else if is_current "0" l then scan_number_zero else scan_number_any1 in
  let l := add_current l in
  number_loop (budget l) label value_unsigned l.

(** ** Tokens *)

Fixpoint literal_loop (expected : string) (l : lexer) : bool * lexer :=
  match expected with
  | EmptyString => (true, l)
  | String c rest =>
      let l := get l in
      if is_current c l then literal_loop rest l
      else (false, l <| error_message := "invalid literal" |>)
  end.

(** [scan_literal], [rest] being the literal without its first character. *)
Definition scan_literal (rest : string) (return_type : token_type) (l : lexer) : token_type * lexer :=
  let '(ok, l) := literal_loop rest l in
  (if ok then return_type else parse_error, l).

Definition skip_bom (l : lexer) : bool * lexer :=
  let l := get l in
  if code l =? 0xEF then
    let l := get l in
    if code l =? 0xBB then
      let l := get l in (code l =? 0xBF, l)
    else (false, l)
  else (true, unget l).

Definition is_whitespace (c : ascii) : bool :=
  (c =? " ")%char || (c =? "009")%char || (c =? "010")%char || (c =? "013")%char.

Fixpoint whitespace_loop (fuel : nat) (l : lexer) : lexer :=
  match fuel with
  | O => l
  | S fuel' =>
      let l := get l in
      match current l with
      | Some c => if is_whitespace c then whitespace_loop fuel' l else l
      | None => l
      end
  end.
Definition skip_whitespace (l : lexer) : lexer := whitespace_loop (budget l) l.

(** The single characters that are tokens. *)
Definition structural (c : ascii) : option token_type :=
  if (c =? "[")%char then Some begin_array
  else if (c =? "]")%char then Some end_array
  else if (c =? "{")%char then Some begin_object
  else if (c =? "}")%char then Some end_object
  else if (c =? ":")%char then Some name_separator
  else if (c =? ",")%char then Some value_separator
  else if (c =? "000")%char then Some end_of_input
  else None.

(** The switch of [scan], after the white space. *)
Definition scan_token (l : lexer) : token_type * lexer :=
  match current l with
  | None => (end_of_input, l)
  | Some c =>
      match structural c with
      | Some t => (t, l)
      | None =>
          if (c =? "t")%char then scan_literal "rue" literal_true l
          else if (c =? "f")%char then scan_literal "alse" literal_false l
          else if (c =? "n")%char then scan_literal "ull" literal_null l
          else if (c =? quote)%char then scan_string l
          else if (c =? "-")%char || is_digit c then scan_number l
          else fail_with "invalid literal" l
      end
  end.

Definition scan (l : lexer) : token_type * lexer :=
  let '(ok, l) := if chars_read_total (position l) =? 0 then skip_bom l else (true, l) in
  if ok then scan_token (skip_whitespace l)
  else fail_with "invalid BOM; must be 0xEF 0xBB 0xBF if given" l.

(** ** Diagnostics *)

(** [get_token_string]: control characters are made visible. *)
Fixpoint get_token_string (s : string) : string :=
  match s with
  | EmptyString => EmptyString
  | String c rest =>
      (if byte_value c <=? 0x1F then "<U+00" +:+ hex_byte (byte_value c) +:+ ">" else one c) +:+ get_token_string rest
  end.

(** ** Examples *)

Example strtod_tenth : strtod "0.1" = Finite 7205759403792794 (-56).
Proof. by vm_compute. Qed.
Example strtod_ends :
  (strtod "1e308" ≠ Infinite ∧ strtod "1.7976931348623159e308" = Infinite) ∧ strtod "2e-324" = Finite 0 (-1074)
  ∧ strtod "-9007199254740993" = Finite (-4503599627370496) 1.
Proof. by vm_compute. Qed.
