(* ===== verification/JsonParser.v ===== *)
(** * The parser of [nlohmann::json]

    [detail::parser] and [detail::json_sax_dom_parser] of
    third_party/nlohmann/json.hpp, as [json::parse] runs them: strict, with
    exceptions and without a callback.  The parser is iterative; it keeps the
    kinds of the open containers in [states] and calls the handler, which
    builds the document.

    One round of the loop of [sax_parse_internal] is [iteration], a function
    from the variables of the loop to what happens next. *)

From S2P Require Import Prelude.
From S2P Require Import Text.
From S2P Require Import Json.
From S2P Require Import JsonLexer.

Open Scope Z_scope.

(** ** The document under construction

    [ref_stack] holds pointers to the open containers, the innermost last.
    Here it holds the containers themselves, the innermost first; a container
    is put in its place in the one around it when its pointer is popped.
    [object_element] points to the member whose key was read last. *)
Inductive open_container :=
  | OpenArray (elements : list json)
  | OpenObject (members : list (string * json)) (object_element : option string).

Record json_sax_dom_parser := mkSax {
  root : json;
  ref_stack : list open_container;
}.

Definition handle_value (v : json) (sax : json_sax_dom_parser) : json_sax_dom_parser :=
  match ref_stack sax with
  | [] => mkSax v []
  | OpenArray es :: outer => mkSax (root sax) (OpenArray (es ++ [v]) :: outer)
  | OpenObject ms (Some key) :: outer => mkSax (root sax) (OpenObject (set_member key v ms) (Some key) :: outer)
  | OpenObject ms None :: _ => sax
  end.

Definition start_object (sax : json_sax_dom_parser) : json_sax_dom_parser :=
  mkSax (root sax) (OpenObject [] None :: ref_stack sax).
Definition start_array (sax : json_sax_dom_parser) : json_sax_dom_parser :=
  mkSax (root sax) (OpenArray [] :: ref_stack sax).

(** [operator[](val)] adds a null when the key is new. *)
Definition sax_key (key : string) (sax : json_sax_dom_parser) : json_sax_dom_parser :=
  match ref_stack sax with
  | OpenObject ms _ :: outer =>
      let ms := match member key ms with Some _ => ms | None => set_member key JNull ms end in
      mkSax (root sax) (OpenObject ms (Some key) :: outer)
  | _ => sax
  end.

(** [end_object] and [end_array] *)
Definition end_container (sax : json_sax_dom_parser) : json_sax_dom_parser :=
  match ref_stack sax with
  | OpenArray es :: outer => handle_value (JArray es) (mkSax (root sax) outer)
  | OpenObject ms _ :: outer => handle_value (JObject ms) (mkSax (root sax) outer)
  | [] => sax
  end.

(** ** The parser *)

Record parser := mkParser {
  last_token : token_type;
  m_lexer : lexer;
}.

Definition get_token (p : parser) : parser :=
  let '(t, l) := scan (m_lexer p) in mkParser t l.

(** The constructor, which reads the first token. *)
Definition parser_of (input : string) : parser := get_token (mkParser uninitialized (lexer_of input)).

Definition position_string (pos : position_t) : string :=
  " at line " +:+ to_string (lines_read pos + 1) +:+ ", column " +:+ to_string (chars_read_current_line pos).

(** [parse_error::create] *)
Definition parse_error_at (pos : position_t) (what_arg : string) : exn :=
  json_exception "parse_error" 101 ("parse error" +:+ position_string pos +:+ ": " +:+ what_arg).

Definition exception_message (expected : token_type) (context : string) (p : parser) : string :=
  "syntax error while parsing " +:+ context +:+ " - " +:+
  (match last_token p with
   | parse_error =>
       error_message (m_lexer p) +:+ "; last read: '" +:+ get_token_string (token_string (m_lexer p)) +:+ "'"
   | t => "unexpected " +:+ token_type_name t
   end) +:+
  (match expected with
   | uninitialized => ""
   | t => "; expected " +:+ token_type_name t
   end).

Definition syntax_error (expected : token_type) (context : string) (p : parser) : exn :=
  parse_error_at (position (m_lexer p)) (exception_message expected context p).

(** The variables of the loop; [states] has the innermost container first,
    [true] for an array. *)
Record loop_state := mkLoop {
  loop_parser : parser;
  states : list bool;
  skip_to_state_evaluation : bool;
  loop_sax : json_sax_dom_parser;
}.

(** What a round ends with: [continue], [return true] or an exception. *)
Inductive loop_next :=
  | Continue (s : loop_state)
  | Return (p : parser) (sax : json_sax_dom_parser)
  | Error (e : exn).

(** A key, the separator and the first token of the value. *)
Definition parse_member (p : parser) (sts : list bool) (sax : json_sax_dom_parser) : loop_next :=
  match last_token p with
  | value_string =>
      let sax := sax_key (token_buffer (m_lexer p)) sax in
      let p := get_token p in
      match last_token p with
      | name_separator => Continue (mkLoop (get_token p) sts false sax)
      | _ => Error (syntax_error name_separator "object separator" p)
      end
  | _ => Error (syntax_error value_string "object key" p)
  end.

(** The part of a round after a value was read. *)
Definition state_evaluation (p : parser) (sts : list bool) (sax : json_sax_dom_parser) : loop_next :=
  match sts with
  | [] => Return p sax
  | true :: outer =>
      let p := get_token p in
      match last_token p with
      | value_separator => Continue (mkLoop (get_token p) sts false sax)
      | end_array => Continue (mkLoop p outer true (end_container sax))
      | _ => Error (syntax_error end_array "array" p)
      end
  | false :: outer =>
      let p := get_token p in
      match last_token p with
      | value_separator => parse_member (get_token p) sts sax
      | end_object => Continue (mkLoop p outer true (end_container sax))
      | _ => Error (syntax_error end_object "object" p)
      end
  end.

(** The text of a number too large for a double. *)
Definition number_overflow (p : parser) : exn :=
  json_out_of_range 406
    ("number overflow parsing '" +:+ get_token_string (token_string (m_lexer p)) +:+ "'").

Definition empty_input_message : string :=
  "attempting to parse an empty input; check that your input string or stream contains the expected JSON".

Definition iteration (s : loop_state) : loop_next :=
  let 'mkLoop p sts skip sax := s in
  let l := m_lexer p in
  let value v := state_evaluation p sts (handle_value v sax) in
  if skip then state_evaluation p sts sax
  else
    match last_token p with
    | begin_object =>
        let sax := start_object sax in
        let p := get_token p in
        match last_token p with
        | end_object => state_evaluation p sts (end_container sax)
        | _ => parse_member p (false :: sts) sax
        end
    | begin_array =>
        let sax := start_array sax in
        let p := get_token p in
        match last_token p with
        | end_array => state_evaluation p sts (end_container sax)
        | _ => Continue (mkLoop p (true :: sts) false sax)
        end
    | value_float =>
        match number_float l with
        | Infinite => Error (number_overflow p)
        | Finite m e => value (JFloat m e)
        end
    | literal_false => value (JBool false)
    | literal_null => value JNull
    | literal_true => value (JBool true)
    | value_integer => value (JInteger (number_integer l))
    | value_string => value (JString (token_buffer l))
    | value_unsigned => value (JUnsigned (number_unsigned l))
    | parse_error => Error (syntax_error uninitialized "value" p)
    | end_of_input =>
        if chars_read_total (position l) =? 1 then Error (parse_error_at (position l) empty_input_message)
        else Error (syntax_error literal_or_value "value" p)
    | _ => Error (syntax_error literal_or_value "value" p)
    end.

Fixpoint sax_parse_internal (fuel : nat) (s : loop_state) : option (result (parser * json_sax_dom_parser)) :=
  match fuel with
  | O => None
  | S fuel' =>
      match iteration s with
      | Continue s' => sax_parse_internal fuel' s'
      | Return p sax => Some (Ok (p, sax))
      | Error e => Some (Throw e)
      end
  end.

(** Every round reads a token, and every token but the last a character. *)
Definition parse_fuel (input : string) : nat := S (S (String.length input)).

(** [parser::parse(true, result)] *)
Definition run_parser (input : string) : option (result json) :=
  let start := mkLoop (parser_of input) [] false (mkSax JNull []) in
  match sax_parse_internal (parse_fuel input) start with
  | Some (Ok (p, sax)) =>
      let p := get_token p in
      Some (match last_token p with
            | end_of_input => Ok (root sax)
            | _ => Throw (syntax_error end_of_input "value" p)
            end)
  | Some (Throw e) => Some (Throw e)
  | None => None
  end.

(** [json::parse]; [parse_total] shows that the fuel suffices. *)
Definition parse (input : string) : result json :=
  match run_parser input with
  | Some r => r
  | None => Throw (json_exception "parse_error" 101 "")
  end.

(** ** Examples *)

Example parse_document :
  parse ("{" +:+ one quote +:+ "b" +:+ one quote +:+ ": [1, -2,2.5e1 ,null], " +:+ one quote +:+ "a" +:+ one quote
         +:+ ":{}, " +:+ one quote +:+ "b" +:+ one quote +:+ ":" +:+ one quote +:+ "\u20AC" +:+ one quote +:+ "}") =
  Ok (JObject [("a", JObject []); ("b", JString (String.string_of_list_ascii (map byte_of [0xE2; 0x82; 0xAC])))]).
Proof. by vm_compute. Qed.

Example parse_error_text :
  (parse ("[1," +:+ one newline +:+ " x]") =
     Throw (JsonError ("[json.exception.parse_error.101] parse error at line 2, column 2: " +:+
       "syntax error while parsing value - invalid literal; last read: '1,<U+000A> x'"))) ∧
  parse "" =
     Throw (JsonError ("[json.exception.parse_error.101] parse error at line 1, column 1: " +:+
       "attempting to parse an empty input; check that your input string or stream contains the expected JSON")).
Proof. by vm_compute. Qed.
