(* ===== verification/JsonSerializer.v ===== *)
(** * The serializer of [nlohmann::json]

    [detail::serializer] of third_party/nlohmann/json.hpp as [json::dump]
    calls it: the strict error handler, characters outside ASCII not escaped.
    What the output adapter receives is the returned text; the string buffer,
    which only collects the output, has no counterpart.  Doubles are formatted
    by an argument. *)

From S2P Require Import Prelude.
From S2P Require Import Text.
From S2P Require Import Json.
From S2P Require Import JsonLexer.

Open Scope Z_scope.

(** ** UTF-8 *)

Definition UTF8_ACCEPT : Z := 0.
Definition UTF8_REJECT : Z := 1.

(** The table [utf8d]: the types of the bytes, then the transitions, 16 of
    each state. *)
Definition utf8d : list Z :=
  repeat 0 128 ++ repeat 1 16 ++ repeat 9 16 ++ repeat 7 32 ++ [8; 8] ++ repeat 2 30 ++
  [0xA; 0x3; 0x3; 0x3; 0x3; 0x3; 0x3; 0x3; 0x3; 0x3; 0x3; 0x3; 0x3; 0x4; 0x3; 0x3;
   0xB; 0x6; 0x6; 0x6; 0x5; 0x8; 0x8; 0x8; 0x8; 0x8; 0x8; 0x8; 0x8; 0x8; 0x8; 0x8;
   0x0; 0x1; 0x2; 0x3; 0x5; 0x8; 0x7; 0x1; 0x1; 0x1; 0x4; 0x6; 0x1; 0x1; 0x1; 0x1;
   1; 1; 1; 1; 1; 1; 1; 1; 1; 1; 1; 1; 1; 1; 1; 1; 1; 0; 1; 1; 1; 1; 1; 0; 1; 0; 1; 1; 1; 1; 1; 1;
   1; 2; 1; 1; 1; 1; 1; 2; 1; 2; 1; 1; 1; 1; 1; 1; 1; 1; 1; 1; 1; 1; 1; 2; 1; 1; 1; 1; 1; 1; 1; 1;
   1; 2; 1; 1; 1; 1; 1; 1; 1; 2; 1; 1; 1; 1; 1; 1; 1; 1; 1; 1; 1; 1; 1; 3; 1; 3; 1; 1; 1; 1; 1; 1;
   1; 3; 1; 1; 1; 1; 1; 3; 1; 3; 1; 1; 1; 1; 1; 1; 1; 3; 1; 1; 1; 1; 1; 1; 1; 1; 1; 1; 1; 1; 1; 1].

Definition u32 (z : Z) : Z := z mod 4294967296.

(** The new state and code point. *)
Definition decode (state codep byte : Z) : Z * Z :=
  let type := nth (Z.to_nat byte) utf8d UTF8_REJECT in
  let codep := if state =? UTF8_ACCEPT then Z.land (Z.shiftr 0xFF type) byte
               else Z.lor (Z.land byte 0x3F) (u32 (Z.shiftl codep 6)) in
  (nth (Z.to_nat (256 + state * 16 + type)) utf8d UTF8_REJECT, codep).

(** ** Strings *)

(** [%04x] of a value below 65536. *)
Definition hex4 (z : Z) : string :=
  let digit (d : Z) := byte_of (if d <? 10 then d + 48 else d + 87) in
  String (digit (z / 4096)) (String (digit (z / 256 mod 16)) (String (digit (z / 16 mod 16)) (one (digit (z mod 16))))).

(** What an accepted code point, ending with the byte [c], adds to the output. *)
Definition escape (codepoint : Z) (c : ascii) : string :=
  if codepoint =? 0x08 then "\b"
  else if codepoint =? 0x09 then "\t"
  else if codepoint =? 0x0A then "\n"
  else if codepoint =? 0x0C then "\f"
  else if codepoint =? 0x0D then "\r"
  else if codepoint =? 0x22 then String backslash (one quote)
  else if codepoint =? 0x5C then String backslash (one backslash)
  else if codepoint <=? 0x1F then "\u" +:+ hex4 codepoint
  else one c.

(** The loop of [dump_escaped] at the byte [i]; [last] is the byte before. *)
Fixpoint escaped_loop (i : Z) (last : ascii) (state codep : Z) (s : string) : result string :=
  match s with
  | EmptyString =>
      if state =? UTF8_ACCEPT then Ok EmptyString
      else Throw (type_error 316 ("incomplete UTF-8 string; last byte: 0x" +:+ hex_byte (byte_value last)))
  | String c rest =>
      let '(state, codep) := decode state codep (byte_value c) in
      if state =? UTF8_REJECT then
        Throw (type_error 316 ("invalid UTF-8 byte at index " +:+ to_string i +:+ ": 0x" +:+ hex_byte (byte_value c)))
      else
        tail ← escaped_loop (i + 1) c state codep rest;
        Ok ((if state =? UTF8_ACCEPT then escape codep c else one c) +:+ tail)
  end.
Definition dump_escaped (s : string) : result string := escaped_loop 0 Ascii.zero UTF8_ACCEPT 0 s.

(** ** Integers *)

(** Four digits a round; a 64-bit number needs five. *)
Fixpoint count_digits_loop (fuel : nat) (x : Z) (n_digits : nat) : nat :=
  match fuel with
  | O => n_digits
  | S fuel' =>
      if x <? 10 then n_digits
      else if x <? 100 then (n_digits + 1)%nat
      else if x <? 1000 then (n_digits + 2)%nat
      else if x <? 10000 then (n_digits + 3)%nat
      else count_digits_loop fuel' (x / 10000) (n_digits + 4)
  end.
Definition count_digits (x : Z) : nat := count_digits_loop 5 x 1.

(** [number_buffer] *)
Definition buffer : Type := list ascii.

(** The digits of [abs_value] below the position [ptr], two a round, from the
    right; a 64-bit number needs ten rounds. *)
Fixpoint fill_digits (fuel : nat) (abs_value : Z) (ptr : nat) (b : buffer) : buffer :=
  if abs_value >=? 100 then
    match fuel with
    | O => b
    | S fuel' =>
        let digits_index := abs_value mod 100 in
        let b := <[(ptr - 1)%nat := digit_char (digits_index mod 10)]> b in
        let b := <[(ptr - 2)%nat := digit_char (digits_index / 10)]> b in
        fill_digits fuel' (abs_value / 100) (ptr - 2) b
    end
  else if abs_value >=? 10 then
    <[(ptr - 2)%nat := digit_char (abs_value / 10)]> (<[(ptr - 1)%nat := digit_char (abs_value mod 10)]> b)
  else <[(ptr - 1)%nat := digit_char abs_value]> b.

(** [remove_sign]: the absolute value as an unsigned number. *)
Definition remove_sign (x : Z) : Z := u64 (u64 (- (x + 1)) + 1).

Definition dump_integer (x : Z) : string :=
  if x =? 0 then "0"
  else
    let b := replicate 64 Ascii.zero in
    let '(b, abs_value, n_chars) :=
      if x <? 0 then (<[0%nat := "-"%char]> b, remove_sign x, (1 + count_digits (remove_sign x))%nat)
      else (b, x, count_digits x) in
    String.string_of_list_ascii (take n_chars (fill_digits 10 abs_value n_chars b)).

(** ** Documents *)

Fixpoint spaces (n : nat) : string :=
  match n with O => EmptyString | S n' => String " " (spaces n') end.

Section dump.

(** [dump_float] *)
Context (dump_float : Z → Z → string).

(** The texts around the parts of a container at the indentation [indent]:
    [pretty] is [pretty_print].  [indent_string] grows before it is read, so
    [n] of its characters are [n] spaces. *)
Definition opening (pretty : bool) (c : ascii) : string := if pretty then String c (one newline) else one c.
Definition separator (pretty : bool) : string := if pretty then String "," (one newline) else ",".
Definition closing (pretty : bool) (indent : nat) (c : ascii) : string :=
  if pretty then String newline (spaces indent +:+ one c) else one c.
Definition indentation (pretty : bool) (indent : nat) : string := if pretty then spaces indent else EmptyString.
Definition colon (pretty : bool) : string := String quote (if pretty then ": " else ":").

Fixpoint dump_value (pretty : bool) (indent_step current_indent : nat) (val : json) : result string :=
  let new_indent := (current_indent + indent_step)%nat in
  match val with
  | JObject [] => Ok "{}"
  | JObject ms =>
      body ← (fix members (ms : list (string * json)) : result string :=
        match ms with
        | [] => Ok EmptyString
        | (key, v) :: rest =>
            k ← dump_escaped key;
            t ← dump_value pretty indent_step new_indent v;
            let text := indentation pretty new_indent +:+ one quote +:+ k +:+ colon pretty +:+ t in
            match rest with
            | [] => Ok text
            | _ => tail ← members rest; Ok (text +:+ separator pretty +:+ tail)
            end
        end) ms;
      Ok (opening pretty "{" +:+ body +:+ closing pretty current_indent "}")
  | JArray [] => Ok "[]"
  | JArray es =>
      body ← (fix elements (es : list json) : result string :=
        match es with
        | [] => Ok EmptyString
        | v :: rest =>
            t ← dump_value pretty indent_step new_indent v;
            let text := indentation pretty new_indent +:+ t in
            match rest with
            | [] => Ok text
            | _ => tail ← elements rest; Ok (text +:+ separator pretty +:+ tail)
            end
        end) es;
      Ok (opening pretty "[" +:+ body +:+ closing pretty current_indent "]")
  | JString s => t ← dump_escaped s; Ok (one quote +:+ t +:+ one quote)
  | JBool true => Ok "true"
  | JBool false => Ok "false"
  | JInteger z => Ok (dump_integer z)
  | JUnsigned n => Ok (dump_integer n)
  | JFloat m e => Ok (dump_float m e)
  | JNull => Ok "null"
  end.

(** [json::dump(indent)]: not indented when [indent] is negative. *)
Definition dump (indent : Z) (j : json) : result string :=
  if 0 <=? indent then dump_value true (Z.to_nat indent) 0 j else dump_value false 0 0 j.

End dump.

(** ** Examples *)

Example dump_document :
  dump (λ _ _, "") (-1) (JObject [("a", JArray [JInteger (-9223372036854775808); JUnsigned 18446744073709551615]);
                                   ("b", JString (String "009" (String "001" (one quote))))]) =
  Ok ("{" +:+ one quote +:+ "a" +:+ one quote +:+ ":[-9223372036854775808,18446744073709551615]," +:+ one quote +:+ "b"
      +:+ one quote +:+ ":" +:+ one quote +:+ "\t\u0001\" +:+ one quote +:+ one quote +:+ "}").
Proof. by vm_compute. Qed.

Example dump_indented :
  dump (λ _ _, "") 2 (JArray [JNull; JArray []; JArray [JBool true]]) =
  Ok ("[" +:+ one newline +:+ "  null," +:+ one newline +:+ "  []," +:+ one newline +:+ "  [" +:+ one newline
      +:+ "    true" +:+ one newline +:+ "  ]" +:+ one newline +:+ "]").
Proof. by vm_compute. Qed.

Example dump_invalid :
  dump (λ _ _, "") (-1) (JString (String "a" (one "200"))) =
  Throw (JsonError "[json.exception.type_error.316] incomplete UTF-8 string; last byte: 0xC8").
Proof. by vm_compute. Qed.
