(* ===== verification/JsonGrammar.v ===== *)
(** * The grammar of JSON texts

    What RFC 8259 calls a JSON text, as inductive relations between a text and
    the document it denotes: the specification of [JsonParser.parse].  Beyond
    the RFC they fix what it leaves open: the kinds of numbers, the meaning of
    a repeated key (the last value counts), a byte order mark at the start and
    a zero byte, which ends the text. *)

From S2P Require Import Prelude.
From S2P Require Import Text.
From S2P Require Import Json.
From S2P Require Import JsonLexer.

Open Scope Z_scope.

(** ** Characters *)

Definition scalar_value (cp : Z) : Prop := 0 ≤ cp ≤ 0x10FFFF ∧ ¬ (0xD800 ≤ cp ≤ 0xDFFF).

Definition bytes (zs : list Z) : string := String.string_of_list_ascii (map byte_of zs).

(** The UTF-8 encoding of a code point. *)
Definition utf8 (cp : Z) : string :=
  bytes (if cp <? 0x80 then [cp]
         else if cp <? 0x800 then [0xC0 + cp / 64; 0x80 + cp mod 64]
         else if cp <? 0x10000 then [0xE0 + cp / 4096; 0x80 + cp / 64 mod 64; 0x80 + cp mod 64]
         else [0xF0 + cp / 262144; 0x80 + cp / 4096 mod 64; 0x80 + cp / 64 mod 64; 0x80 + cp mod 64]).

(** Four hexadecimal digits and their value. *)
Inductive hex_quad : string → Z → Prop :=
  | hex_quad_intro a b c d va vb vc vd :
      hex_value (byte_value a) = Some va → hex_value (byte_value b) = Some vb →
      hex_value (byte_value c) = Some vc → hex_value (byte_value d) = Some vd →
      hex_quad (String a (String b (String c (one d)))) (va * 4096 + vb * 256 + vc * 16 + vd).

(** A character of a string: its text and the bytes it stands for. *)
Inductive string_char : string → string → Prop :=
  | char_plain cp :
      scalar_value cp → 0x20 ≤ cp → cp ≠ byte_value quote → cp ≠ byte_value backslash →
      string_char (utf8 cp) (utf8 cp)
  | char_simple c b :
      simple_escape c = Some b → string_char (String backslash (one c)) (one b)
  | char_unicode h cp :
      hex_quad h cp → scalar_value cp →
      string_char (String backslash (String "u" h)) (utf8 cp)
  | char_pair h1 cp1 h2 cp2 :
      hex_quad h1 cp1 → 0xD800 ≤ cp1 ≤ 0xDBFF → hex_quad h2 cp2 → 0xDC00 ≤ cp2 ≤ 0xDFFF →
      string_char (String backslash (String "u" (h1 +:+ String backslash (String "u" h2))))
        (utf8 (0x10000 + (cp1 - 0xD800) * 1024 + (cp2 - 0xDC00))).

(** The inside of a string and its value. *)
Inductive string_body : string → string → Prop :=
  | body_nil : string_body EmptyString EmptyString
  | body_cons u v b s : string_char u v → string_body b s → string_body (u +:+ b) (v +:+ s).

(** ** Numbers *)

(** Zero, or digits that do not begin with a zero. *)
Definition integer_part (s : string) : bool :=
  match s with
  | String c rest => if (c =? "0")%char then String.eqb rest "" else is_digit c && all_digits rest
  | EmptyString => false
  end.

Definition some_digits (s : string) : bool := negb (String.eqb s "") && all_digits s.

(** Nothing, or a point and digits. *)
Definition fraction_part (s : string) : bool :=
  match s with
  | EmptyString => true
  | String c rest => (c =? ".")%char && some_digits rest
  end.

(** Nothing, or an exponent with an optional sign. *)
Definition exponent_part (s : string) : bool :=
  match s with
  | EmptyString => true
  | String c rest =>
      ((c =? "e")%char || (c =? "E")%char) &&
      match rest with
      | String sign digits =>
          if (sign =? "+")%char || (sign =? "-")%char then some_digits digits else some_digits rest
      | EmptyString => false
      end
  end.

Definition minus (negative : bool) : string := if negative then "-" else "".

(** An integer whose digits do not fit in 64 bits. *)
Definition out_of_width (negative : bool) (i : string) : Prop :=
  (if negative then - INT64_MIN else UINT64_MAX) < digits_value 0 i.

Inductive number : string → json → Prop :=
  | number_natural i :
      integer_part i = true → ¬ out_of_width false i → number i (JUnsigned (digits_value 0 i))
  | number_negative i :
      integer_part i = true → ¬ out_of_width true i → number (String "-" i) (JInteger (- digits_value 0 i))
  | number_real negative i f x m e :
      integer_part i = true → fraction_part f = true → exponent_part x = true →
      (f +:+ x = EmptyString → out_of_width negative i) →
      strtod (minus negative +:+ i +:+ f +:+ x) = Finite m e →
      number (minus negative +:+ i +:+ f +:+ x) (JFloat m e).

(** ** Documents *)

Fixpoint white (s : string) : bool :=
  match s with EmptyString => true | String c rest => is_whitespace c && white rest end.

Definition quoted (b : string) : string := one quote +:+ b +:+ one quote.

Inductive value : string → json → Prop :=
  | value_null : value "null" JNull
  | value_true : value "true" (JBool true)
  | value_false : value "false" (JBool false)
  | value_of_number t j : number t j → value t j
  | value_of_string b s : string_body b s → value (quoted b) (JString s)
  | value_empty_array w : white w = true → value ("[" +:+ w +:+ "]") (JArray [])
  | value_array t es : elements t es → value ("[" +:+ t +:+ "]") (JArray es)
  | value_empty_object w : white w = true → value ("{" +:+ w +:+ "}") (JObject [])
  | value_object t kvs : members t kvs → value ("{" +:+ t +:+ "}") (JObject (set_members kvs []))
with elements : string → list json → Prop :=
  | elements_last w t w' j :
      white w = true → value t j → white w' = true → elements (w +:+ t +:+ w') [j]
  | elements_more w t w' j rest es :
      white w = true → value t j → white w' = true → elements rest es →
      elements (w +:+ t +:+ w' +:+ "," +:+ rest) (j :: es)
with members : string → list (string * json) → Prop :=
  | members_last m k j : member_text m k j → members m [(k, j)]
  | members_more m k j rest kvs :
      member_text m k j → members rest kvs → members (m +:+ "," +:+ rest) ((k, j) :: kvs)
with member_text : string → string → json → Prop :=
  | member_intro w b k w1 w2 t w3 j :
      white w = true → string_body b k → white w1 = true → white w2 = true → value t j → white w3 = true →
      member_text (w +:+ quoted b +:+ w1 +:+ ":" +:+ w2 +:+ t +:+ w3) k j.

(** The byte order mark. *)
Definition bom : string := bytes [0xEF; 0xBB; 0xBF].

(** The end of a text: nothing, or a zero byte and anything. *)
Definition ended (s : string) : bool :=
  match s with EmptyString => true | String c _ => (c =? "000")%char end.

Inductive json_text : string → json → Prop :=
  | json_text_intro mark w t w' tail j :
      mark = EmptyString ∨ mark = bom → white w = true → value t j → white w' = true → ended tail = true →
      json_text (mark +:+ w +:+ t +:+ w' +:+ tail) j.

Scheme value_mut := Minimality for value Sort Prop
  with elements_mut := Minimality for elements Sort Prop
  with members_mut := Minimality for members Sort Prop
  with member_text_mut := Minimality for member_text Sort Prop.
Combined Scheme grammar_ind from value_mut, elements_mut, members_mut, member_text_mut.
