(* ===== verification/JsonScanning.v ===== *)
(** * The lexer scans the tokens of the grammar

    Every function of [JsonLexer] against the grammar of [JsonGrammar]: what
    is scanned is a lexeme of the grammar and the rest of the input is left,
    and a lexeme of the grammar is scanned.  [rest_of] is the input a lexer
    has not handed out; the position and the text kept for messages do not
    matter here. *)

From S2P Require Import Prelude.
From S2P Require Import Text.
From S2P Require Import Json.
From S2P Require Import JsonLexer.
From S2P Require Import JsonGrammar.

Open Scope Z_scope.

(** ** Bytes *)

Lemma byte_value_range c : 0 ≤ byte_value c < 256.
Proof. unfold byte_value. pose proof (Ascii.N_ascii_bounded c). lia. Qed.

Lemma byte_of_value c : byte_of (byte_value c) = c.
Proof. unfold byte_of, byte_value. by rewrite N2Z.id, Ascii.ascii_N_embedding. Qed.

Lemma byte_value_of z : 0 ≤ z < 256 → byte_value (byte_of z) = z.
Proof. unfold byte_of, byte_value. intros. rewrite Ascii.N_ascii_embedding by lia. lia. Qed.

Lemma byte_value_eqb c d : (c =? d)%char = (byte_value c =? byte_value d).
Proof.
  destruct (Ascii.eqb_spec c d) as [->|Hne]; symmetry; [apply Z.eqb_refl|]. apply Z.eqb_neq. intros Heq.
  apply Hne. by rewrite <- (byte_of_value c), <- (byte_of_value d), Heq.
Qed.

(** ** Input management *)

Definition str_head (s : string) : option ascii := match s with String c _ => Some c | EmptyString => None end.
Definition str_tail (s : string) : string := match s with String _ r => r | EmptyString => EmptyString end.

(** The input not yet handed out; between tokens only a number leaves a
    character to be read again. *)
Definition rest_of (l : lexer) : string :=
  if next_unget l then match current l with Some c => String c (ia l) | None => ia l end else ia l.
Definition count (l : lexer) : Z := chars_read_total (position l).
Definition settled (l : lexer) : Prop :=
  (next_unget l = true → current l = None → ia l = EmptyString) ∧ 0 ≤ count l.
Definition fresh (l : lexer) : Prop := next_unget l = false ∧ 0 < count l.

Lemma fresh_rest l : fresh l → rest_of l = ia l.
Proof. unfold fresh, rest_of. by intros [-> _]. Qed.
Lemma fresh_settled l : fresh l → settled l.
Proof. unfold fresh, settled. intros [-> Hc]. split; [done|lia]. Qed.

Lemma count_get l : count (get l) = count l + 1.
Proof.
  unfold get, get_character, is_current, count. destruct l as [i c u p ts tb em n1 n2 n3]; cbn -[newline].
  destruct u, i, c; cbn -[newline]; repeat split_match; done.
Qed.

Lemma get_spec l : settled l →
  current (get l) = str_head (rest_of l) ∧ ia (get l) = str_tail (rest_of l) ∧
  token_buffer (get l) = token_buffer l ∧ fresh (get l).
Proof.
  intros [Hs Hc]. assert (0 < count (get l)) as Hc' by (rewrite count_get; lia). revert Hs. clear Hc.
  revert Hc'. unfold rest_of, get, get_character, is_current, fresh.
  destruct l as [i c u p ts tb em n1 n2 n3]; cbn -[newline]. intros Hc Hs.
  destruct u; cbn -[newline] in *.
  - destruct c as [c|]; cbn -[newline] in *; [by destruct (c =? newline)%char|]. rewrite Hs by done. done.
  - destruct i as [|a i]; cbn -[newline] in *; [done|]. by destruct (a =? newline)%char.
Qed.

Lemma get_cons l c r : settled l → rest_of l = String c r →
  current (get l) = Some c ∧ ia (get l) = r ∧ token_buffer (get l) = token_buffer l ∧ fresh (get l).
Proof. intros Hs Hr. destruct (get_spec l Hs) as (H1 & H2 & H3 & H4). by rewrite Hr in *. Qed.

Lemma get_nil l : settled l → rest_of l = EmptyString →
  current (get l) = None ∧ ia (get l) = EmptyString ∧ token_buffer (get l) = token_buffer l ∧ fresh (get l).
Proof. intros Hs Hr. destruct (get_spec l Hs) as (H1 & H2 & H3 & H4). by rewrite Hr in *. Qed.

(** Whether a lexer is at a fixed point of its input, with a given buffer. *)
Definition at_input (l : lexer) (r b : string) : Prop := fresh l ∧ ia l = r ∧ token_buffer l = b.

Lemma get_at l c r b : at_input l (String c r) b → current (get l) = Some c ∧ at_input (get l) r b.
Proof.
  intros (Hf & Hi & Hb). destruct (get_cons l c r) as (H1 & H2 & H3 & H4);
    [by apply fresh_settled|by rewrite fresh_rest|]. split; [done|]. split_and!; congruence.
Qed.

Lemma get_at_end l b : at_input l EmptyString b → current (get l) = None ∧ at_input (get l) EmptyString b.
Proof.
  intros (Hf & Hi & Hb). destruct (get_nil l) as (H1 & H2 & H3 & H4);
    [by apply fresh_settled|by rewrite fresh_rest|]. split; [done|]. split_and!; congruence.
Qed.

(** The next character, or the end. *)
Lemma get_cases l r b : at_input l r b →
  (∃ c r', r = String c r' ∧ current (get l) = Some c ∧ at_input (get l) r' b) ∨
  (r = EmptyString ∧ current (get l) = None ∧ at_input (get l) EmptyString b).
Proof.
  intros H. destruct r as [|c r]; [right|left].
  - apply get_at_end in H as [??]. done.
  - apply get_at in H as [??]. eauto.
Qed.

Lemma add_at l r b c : at_input l r b → at_input (add c l) r (b +:+ one c).
Proof. unfold at_input. intros (? & ? & <-). done. Qed.

Lemma add_current_at l r b c : current l = Some c → at_input l r b → at_input (add_current l) r (b +:+ one c).
Proof. unfold add_current. intros ->. apply add_at. Qed.

Lemma error_at l r b m : at_input l r b → at_input (l <| error_message := m |>) r b.
Proof. done. Qed.

Lemma add_bytes_at zs l r b : at_input l r b → at_input (add_bytes zs l) r (b +:+ bytes zs).
Proof.
  unfold add_bytes. revert l b. induction zs as [|z zs IH]; intros l b Hl; cbn [foldl].
  - cbn. by rewrite string_app_nil.
  - assert (b +:+ bytes (z :: zs) = (b +:+ one (byte_of z)) +:+ bytes zs) as -> by by rewrite <- string_app_assoc.
    by apply IH, add_at.
Qed.

Lemma code_current l c : current l = Some c → code l = byte_value c.
Proof. unfold code. by intros ->. Qed.
Lemma is_current_some l a c : current l = Some a → is_current c l = (a =? c)%char.
Proof. unfold is_current. by intros ->. Qed.
Lemma is_current_none l c : current l = None → is_current c l = false.
Proof. unfold is_current. by intros ->. Qed.

(** ** Hexadecimal digits *)

Lemma hex_value_range z v : hex_value z = Some v → 0 ≤ v < 16.
Proof. unfold hex_value, between. intros. repeat split_match; simplify_eq; zbool; lia. Qed.

Lemma hex_quad_range h cp : hex_quad h cp → 0 ≤ cp ≤ 0xFFFF.
Proof.
  intros [a b c d va vb vc vd Ha Hb Hc Hd]. apply hex_value_range in Ha, Hb, Hc, Hd. lia.
Qed.

Lemma hex_value_eof : hex_value (-1) = None.
Proof. done. Qed.

(** One digit of [get_codepoint]. *)
Lemma codepoint_step factors f acc l r b cp l' :
  at_input l r b → codepoint_loop (f :: factors) acc l = (cp, l') → cp ≠ -1 →
  ∃ c r' v, r = String c r' ∧ hex_value (byte_value c) = Some v ∧ at_input (get l) r' b ∧
    codepoint_loop factors (acc + Z.shiftl v f) (get l) = (cp, l').
Proof.
  intros Hl Hc Hne. cbn in Hc.
  destruct (get_cases _ _ _ Hl) as [(c & r' & -> & Hcur & Hg)|(-> & Hcur & Hg)].
  - rewrite (code_current _ c Hcur) in Hc. destruct (hex_value (byte_value c)) as [v|] eqn:Hv; [|congruence].
    by exists c, r', v.
  - unfold code in Hc. rewrite Hcur, hex_value_eof in Hc. congruence.
Qed.

Lemma get_codepoint_sound l r b cp l' :
  at_input l r b → get_codepoint l = (cp, l') → cp ≠ -1 →
  ∃ h r', r = h +:+ r' ∧ hex_quad h cp ∧ at_input l' r' b.
Proof.
  intros Hl Hc Hne. unfold get_codepoint in Hc.
  destruct (codepoint_step _ _ _ _ _ _ _ _ Hl Hc Hne) as (a & r1 & va & -> & Ha & H1 & Hc'); clear Hc; rename Hc' into Hc.
  destruct (codepoint_step _ _ _ _ _ _ _ _ H1 Hc Hne) as (a2 & r2 & vb & -> & Hb & H2 & Hc'); clear Hc; rename Hc' into Hc.
  destruct (codepoint_step _ _ _ _ _ _ _ _ H2 Hc Hne) as (a3 & r3 & vc & -> & Hcv & H3 & Hc'); clear Hc; rename Hc' into Hc.
  destruct (codepoint_step _ _ _ _ _ _ _ _ H3 Hc Hne) as (a4 & r4 & vd & -> & Hd & H4 & Hc'); clear Hc; rename Hc' into Hc.
  cbn [codepoint_loop] in Hc. injection Hc as <- <-. rewrite !Z.shiftl_mul_pow2 by lia.
  exists (String a (String a2 (String a3 (one a4)))), r4. split_and!; [reflexivity| |done].
  replace (0 + va * 2 ^ 12 + vb * 2 ^ 8 + vc * 2 ^ 4 + vd * 2 ^ 0) with (va * 4096 + vb * 256 + vc * 16 + vd) by lia.
  by constructor.
Qed.

Lemma codepoint_digit factors f acc l c r b v :
  at_input l (String c r) b → hex_value (byte_value c) = Some v →
  at_input (get l) r b ∧ codepoint_loop (f :: factors) acc l = codepoint_loop factors (acc + Z.shiftl v f) (get l).
Proof.
  intros Hl Hv. apply get_at in Hl as [Hc Hg]. split; [done|]. cbn. by rewrite (code_current _ c Hc), Hv.
Qed.

Lemma get_codepoint_complete l h r b cp :
  at_input l (h +:+ r) b → hex_quad h cp → ∃ l', get_codepoint l = (cp, l') ∧ at_input l' r b.
Proof.
  intros Hl Hq. destruct Hq as [c1 c2 c3 c4 v1 v2 v3 v4 H1 H2 H3 H4]. unfold get_codepoint. cbn in Hl.
  do 4 (eapply codepoint_digit in Hl as [Hl ->]; [|eassumption]).
  eexists. split; [|exact Hl]. cbn [codepoint_loop]. f_equal. rewrite !Z.shiftl_mul_pow2 by lia. lia.
Qed.

(** ** UTF-8 *)

(** A property of the numbers below [n], by evaluation. *)
Lemma below (P : Z → bool) n z :
  forallb P (map Z.of_nat (seq 0 n)) = true → 0 ≤ z < Z.of_nat n → P z = true.
Proof.
  intros Hall Hz. rewrite forallb_forall in Hall. apply Hall, in_map_iff. exists (Z.to_nat z).
  split; [lia|]. apply in_seq. lia.
Qed.

Lemma continuation_bits z : Z.lor 0x80 (Z.land z 0x3F) = 0x80 + z mod 64.
Proof.
  change 0x3F with (Z.ones 6). rewrite Z.land_ones by lia. change (2 ^ 6) with 64.
  apply Z.eqb_eq, (below (λ d, Z.lor 0x80 d =? 0x80 + d) 64); [done|]. apply Z.mod_pos_bound. lia.
Qed.

Lemma leading_bits base n d :
  forallb (λ d, Z.lor base d =? base + d) (map Z.of_nat (seq 0 n)) = true → 0 ≤ d < Z.of_nat n →
  Z.lor base d = base + d.
Proof. intros Hall Hd. apply Z.eqb_eq. by apply (below (λ d, Z.lor base d =? base + d) n). Qed.

Lemma utf8_bytes_spec cp : 0 ≤ cp ≤ 0x10FFFF → bytes (utf8_bytes cp) = utf8 cp.
Proof.
  intros Hcp. unfold utf8, utf8_bytes. f_equal. rewrite !continuation_bits, !Z.shiftr_div_pow2 by lia.
  change (2 ^ 6) with 64. change (2 ^ 12) with 4096. change (2 ^ 18) with 262144.
  destruct (cp <? 0x80) eqn:E1; zbool; [done|].
  replace (cp <=? 0x7FF) with (cp <? 0x800) by (destruct (cp <? 0x800) eqn:E, (cp <=? 0x7FF) eqn:E'; zbool; lia).
  destruct (cp <? 0x800) eqn:E2; zbool.
  { f_equal. apply (leading_bits 0xC0 32); [done|]. Z.div_mod_to_equations; lia. }
  replace (cp <=? 0xFFFF) with (cp <? 0x10000) by (destruct (cp <? 0x10000) eqn:E, (cp <=? 0xFFFF) eqn:E'; zbool; lia).
  destruct (cp <? 0x10000) eqn:E3; zbool; f_equal.
  - apply (leading_bits 0xE0 16); [done|]. Z.div_mod_to_equations; lia.
  - apply (leading_bits 0xF0 8); [done|]. Z.div_mod_to_equations; lia.
Qed.

(** Bytes in the given ranges. *)
Fixpoint in_ranges (ranges : list (Z * Z)) (s : string) : bool :=
  match ranges, s with
  | [], EmptyString => true
  | (lo, hi) :: ranges', String c s' => between lo (byte_value c) hi && in_ranges ranges' s'
  | _, _ => false
  end.

Lemma ranges_loop_sound ranges l r b l' :
  Forall (λ p, 0 ≤ p.1) ranges → at_input l r b → ranges_loop ranges l = (true, l') →
  ∃ s r', r = s +:+ r' ∧ in_ranges ranges s = true ∧ at_input l' r' (b +:+ s).
Proof.
  intros Hlo. revert l r b. induction Hlo as [|[lo hi] ranges Hp _ IH]; intros l r b Hl; cbn [ranges_loop].
  - intros [= <-]. exists EmptyString, r. by rewrite string_app_nil.
  - intros Hr. destruct (between lo (code (get l)) hi) eqn:E; [|congruence].
    destruct (get_cases _ _ _ Hl) as [(c & r' & -> & Hcur & Hg)|(-> & Hcur & Hg)].
    + destruct (IH _ _ _ (add_current_at _ _ _ _ Hcur Hg) Hr) as (s & r2 & -> & Hs & Hl').
      exists (String c s), r2. rewrite (code_current _ _ Hcur) in E. cbn [in_ranges]. by rewrite E, Hs, <- string_app_assoc in *.
    + unfold code, between in E. rewrite Hcur in E. cbn in Hp. zbool. lia.
Qed.

Lemma ranges_loop_complete ranges l s r b :
  in_ranges ranges s = true → at_input l (s +:+ r) b →
  ∃ l', ranges_loop ranges l = (true, l') ∧ at_input l' r (b +:+ s).
Proof.
  revert l s b. induction ranges as [|[lo hi] ranges IH]; intros l [|c s] b; try done; cbn [in_ranges ranges_loop].
  - intros _ Hl. exists l. by rewrite string_app_nil.
  - intros [Hc Hs]%andb_true_iff Hl. cbn in Hl. apply get_at in Hl as [Hcur Hg]. rewrite (code_current _ _ Hcur), Hc.
    destruct (IH (add_current (get l)) s (b +:+ one c)) as (l' & Hr & Hl'); [done|by apply add_current_at|].
    exists l'. by rewrite <- string_app_assoc in Hl'.
Qed.

(** The encodings of the scalar values above ASCII are the leading bytes with
    the bytes the lexer lets follow. *)
Ltac utf8_branch :=
  unfold utf8;
  repeat match goal with |- context [?a <? ?b] => destruct (a <? b) eqn:?; zbool; try lia end;
  f_equal; repeat match goal with |- _ :: _ = _ :: _ => f_equal end; Z.div_mod_to_equations; lia.

Lemma bytes_cons c zs : bytes (byte_value c :: zs) = String c (bytes zs).
Proof. unfold bytes. cbn. by rewrite byte_of_value. Qed.

(** A character above ASCII, with its encoding. *)
Definition encoded (s : string) : Prop := ∃ cp, scalar_value cp ∧ 0x80 ≤ cp ∧ utf8 cp = s.

Lemma encoded_two a b :
  0xC2 ≤ byte_value a ≤ 0xDF → 0x80 ≤ byte_value b ≤ 0xBF → encoded (String a (one b)).
Proof.
  set (x := byte_value a). set (y := byte_value b). intros Hx Hy. exists ((x - 0xC0) * 64 + (y - 0x80)).
  unfold scalar_value. split_and!; [lia..|]. trans (bytes [x; y]); [utf8_branch|]. unfold x, y. by rewrite !bytes_cons.
Qed.

Lemma encoded_three a b c :
  0xE0 ≤ byte_value a ≤ 0xEF → 0x80 ≤ byte_value b ≤ 0xBF → 0x80 ≤ byte_value c ≤ 0xBF →
  (byte_value a = 0xE0 → 0xA0 ≤ byte_value b) → (byte_value a = 0xED → byte_value b ≤ 0x9F) →
  encoded (String a (String b (one c))).
Proof.
  set (x := byte_value a). set (y := byte_value b). set (z := byte_value c). intros Hx Hy Hz H0 Hd.
  exists ((x - 0xE0) * 4096 + (y - 0x80) * 64 + (z - 0x80)).
  unfold scalar_value. split_and!; [lia..|]. trans (bytes [x; y; z]); [utf8_branch|].
  unfold x, y, z. by rewrite !bytes_cons.
Qed.

Lemma encoded_four a b c d :
  0xF0 ≤ byte_value a ≤ 0xF4 → 0x80 ≤ byte_value b ≤ 0xBF → 0x80 ≤ byte_value c ≤ 0xBF →
  0x80 ≤ byte_value d ≤ 0xBF → (byte_value a = 0xF0 → 0x90 ≤ byte_value b) →
  (byte_value a = 0xF4 → byte_value b ≤ 0x8F) → encoded (String a (String b (String c (one d)))).
Proof.
  set (x := byte_value a). set (y := byte_value b). set (z := byte_value c). set (w := byte_value d).
  intros Hx Hy Hz Hw H0 H4. exists ((x - 0xF0) * 262144 + (y - 0x80) * 4096 + (z - 0x80) * 64 + (w - 0x80)).
  unfold scalar_value. split_and!; [lia..|]. trans (bytes [x; y; z; w]); [utf8_branch|].
  unfold x, y, z, w. by rewrite !bytes_cons.
Qed.

Lemma following_ranges_low z ranges : following_ranges z = Some ranges → Forall (λ p, 0 ≤ p.1) ranges ∧ 0xC2 ≤ z.
Proof.
  unfold following_ranges, between. intros. repeat split_match; simplify_eq; zbool; (split; [repeat constructor; cbn; lia|]).
  all: try lia. all: destruct_or!; zbool; lia.
Qed.

Lemma in_ranges_nil s : in_ranges [] s = true → s = EmptyString.
Proof. by destruct s. Qed.
Lemma in_ranges_cons lo hi ranges s : in_ranges ((lo, hi) :: ranges) s = true →
  ∃ c s', s = String c s' ∧ lo ≤ byte_value c ≤ hi ∧ in_ranges ranges s' = true.
Proof.
  destruct s as [|c s]; cbn; [done|]. unfold between. intros [H1 H2]%andb_true_iff. zbool. by exists c, s.
Qed.

Lemma ranges_utf8 c ranges s :
  following_ranges (byte_value c) = Some ranges → in_ranges ranges s = true → encoded (String c s).
Proof.
  intros Hr Hs. unfold following_ranges, between in Hr.
  repeat split_match; simplify_eq; zbool;
    repeat (apply in_ranges_cons in Hs; destruct Hs as (? & ? & -> & ? & Hs)); apply in_ranges_nil in Hs as ->;
    first [apply encoded_two; lia|apply encoded_three; destruct_or?; zbool; lia|apply encoded_four; lia].
Qed.

(** The leading bytes, by the length of the encoding. *)
Lemma following_two x : 0xC2 ≤ x ≤ 0xDF → following_ranges x = Some [(0x80, 0xBF)].
Proof. intros. unfold following_ranges, between. repeat split_match; zbool; done || (destruct_or?; zbool; lia). Qed.
Lemma following_three x : 0xE0 ≤ x ≤ 0xEF →
  following_ranges x = Some [(if x =? 0xE0 then 0xA0 else 0x80, if x =? 0xED then 0x9F else 0xBF); (0x80, 0xBF)].
Proof. intros. unfold following_ranges, between. repeat split_match; zbool; done || (destruct_or?; zbool; lia). Qed.
Lemma following_four x : 0xF0 ≤ x ≤ 0xF4 →
  following_ranges x = Some [(if x =? 0xF0 then 0x90 else 0x80, if x =? 0xF4 then 0x8F else 0xBF); (0x80, 0xBF); (0x80, 0xBF)].
Proof. intros. unfold following_ranges, between. repeat split_match; zbool; done || (destruct_or?; zbool; lia). Qed.

Lemma between_true lo z hi : lo ≤ z ≤ hi → between lo z hi = true.
Proof. unfold between. intros. apply andb_true_iff. split; apply Z.leb_le; lia. Qed.

Lemma utf8_ranges c s :
  encoded (String c s) → ∃ ranges, following_ranges (byte_value c) = Some ranges ∧ in_ranges ranges s = true.
Proof.
  intros (cp & [Hcp Hsur] & Hlow & Hu). unfold utf8, bytes in Hu.
  repeat match type of Hu with context [?a <? ?b] => destruct (a <? b) eqn:?; zbool; try lia end;
    cbn in Hu; injection Hu as <- <-; cbn [in_ranges];
    eexists; (split; [rewrite byte_value_of by (Z.div_mod_to_equations; lia);
      first [apply following_two; Z.div_mod_to_equations; lia|apply following_three; Z.div_mod_to_equations; lia
            |apply following_four; Z.div_mod_to_equations; lia]|]);
    cbn [in_ranges]; rewrite !byte_value_of by (Z.div_mod_to_equations; lia);
    rewrite !between_true; [done|repeat split_match; zbool; Z.div_mod_to_equations; lia..].
Qed.

(** ** Strings *)

Lemma unicode_escape_bytes h cp l r b :
  hex_quad h cp → at_input l r b → at_input (add_bytes (utf8_bytes cp) l) r (b +:+ utf8 cp).
Proof. intros Hh Hl. apply hex_quad_range in Hh. rewrite <- utf8_bytes_spec by lia. by apply add_bytes_at. Qed.

Lemma pair_bytes cp1 cp2 l r b :
  0xD800 ≤ cp1 ≤ 0xDBFF → 0xDC00 ≤ cp2 ≤ 0xDFFF → at_input l r b →
  at_input (add_bytes (utf8_bytes (Z.shiftl cp1 10 + cp2 - 0x35FDC00)) l) r
    (b +:+ utf8 (0x10000 + (cp1 - 0xD800) * 1024 + (cp2 - 0xDC00))).
Proof.
  intros H1 H2 Hl. rewrite Z.shiftl_mul_pow2 by lia. rewrite <- utf8_bytes_spec by lia.
  replace (cp1 * 2 ^ 10 + cp2 - 0x35FDC00) with (0x10000 + (cp1 - 0xD800) * 1024 + (cp2 - 0xDC00)) by lia.
  by apply add_bytes_at.
Qed.

Lemma between_iff lo z hi : between lo z hi = true ↔ lo ≤ z ≤ hi.
Proof. unfold between. rewrite andb_true_iff, !Z.leb_le. lia. Qed.
Lemma between_not lo z hi : between lo z hi = false ↔ ¬ lo ≤ z ≤ hi.
Proof. rewrite <- between_iff. by destruct (between lo z hi). Qed.

(** Reads a character that the code compares with [c]. *)
Lemma get_is l r b c : at_input l r b → is_current c (get l) = true →
  ∃ r', r = String c r' ∧ at_input (get l) r' b.
Proof.
  intros Hl Hc. destruct (get_cases _ _ _ Hl) as [(a & r' & -> & Hcur & Hg)|(-> & Hcur & Hg)].
  - rewrite (is_current_some _ _ _ Hcur) in Hc. apply Ascii.eqb_eq in Hc as ->. by exists r'.
  - by rewrite is_current_none in Hc.
Qed.

Lemma get_this l r b c : at_input l (String c r) b → is_current c (get l) = true ∧ at_input (get l) r b.
Proof. intros Hl. apply get_at in Hl as [Hc Hg]. by rewrite (is_current_some _ _ _ Hc), Ascii.eqb_refl. Qed.

Lemma scan_low_surrogate_sound cp1 l r b l' :
  at_input l r b → 0xD800 ≤ cp1 ≤ 0xDBFF → scan_low_surrogate cp1 l = inl l' →
  ∃ h2 cp2 r', r = String backslash (String "u" h2) +:+ r' ∧ hex_quad h2 cp2 ∧ 0xDC00 ≤ cp2 ≤ 0xDFFF ∧
    at_input l' r' (b +:+ utf8 (0x10000 + (cp1 - 0xD800) * 1024 + (cp2 - 0xDC00))).
Proof.
  intros Hl H1 Hr. unfold scan_low_surrogate, stop_with in Hr.
  destruct (is_current backslash (get l)) eqn:E1; [|done]. apply (get_is _ _ _ _ Hl) in E1 as (r1 & -> & Hl1).
  destruct (is_current "u" (get (get l))) eqn:E2; [|done]. apply (get_is _ _ _ _ Hl1) in E2 as (r2 & -> & Hl2).
  destruct (get_codepoint (get (get l))) as [cp2 l2] eqn:E3.
  destruct (cp2 =? -1) eqn:E4; [done|]. destruct (between 0xDC00 cp2 0xDFFF) eqn:E5; [|done]. zbool.
  apply between_iff in E5. injection Hr as <-.
  destruct (get_codepoint_sound _ _ _ _ _ Hl2 E3 E4) as (h2 & r3 & -> & Hh2 & Hl3).
  exists h2, cp2, r3. split_and!; [done..|lia|lia|]. by apply pair_bytes.
Qed.

Lemma scan_unicode_escape_sound l r b l' :
  at_input l r b → scan_unicode_escape l = inl l' →
  ∃ u v r', r = u +:+ r' ∧ string_char (String backslash (String "u" u)) v ∧ at_input l' r' (b +:+ v).
Proof.
  intros Hl Hr. unfold scan_unicode_escape, stop_with in Hr. destruct (get_codepoint l) as [cp l1] eqn:E.
  destruct (cp =? -1) eqn:E1; [done|]. zbool.
  destruct (get_codepoint_sound _ _ _ _ _ Hl E E1) as (h & r1 & -> & Hh & Hl1).
  destruct (between 0xD800 cp 0xDBFF) eqn:E2.
  - apply between_iff in E2.
    destruct (scan_low_surrogate_sound _ _ _ _ _ Hl1 E2 Hr) as (h2 & cp2 & r2 & -> & Hh2 & Hcp2 & Hl2).
    eexists (h +:+ String backslash (String "u" h2)), _, r2. split_and!; [by rewrite <- string_app_assoc| |exact Hl2].
    by constructor.
  - destruct (between 0xDC00 cp 0xDFFF) eqn:E3; [done|]. injection Hr as <-. apply between_not in E2, E3.
    exists h, (utf8 cp), r1. split_and!; [done| |by eapply unicode_escape_bytes].
    constructor; [done|]. apply hex_quad_range in Hh. unfold scalar_value. lia.
Qed.

Lemma simple_escape_u : simple_escape "u" = None.
Proof. done. Qed.

Lemma scan_escape_sound l r b l' :
  at_input l r b → scan_escape l = inl l' →
  ∃ u v r', r = u +:+ r' ∧ string_char (String backslash u) v ∧ at_input l' r' (b +:+ v).
Proof.
  intros Hl Hr. unfold scan_escape, stop_with in Hr.
  destruct (get_cases _ _ _ Hl) as [(c & r1 & -> & Hcur & Hg)|(-> & Hcur & Hg)]; rewrite Hcur in Hr; [|done].
  destruct (simple_escape c) as [e|] eqn:E.
  - injection Hr as <-. exists (one c), (one e), r1. split_and!; [done|by constructor|by apply add_at].
  - destruct (Ascii.eqb_spec c "u") as [->|]; [|done].
    destruct (scan_unicode_escape_sound _ _ _ _ Hg Hr) as (u & v & r2 & -> & Hc & Hl2). by exists (String "u" u), v, r2.
Qed.

Lemma utf8_ascii c : byte_value c < 0x80 → utf8 (byte_value c) = one c.
Proof.
  intros Hc. unfold utf8. destruct (byte_value c <? 0x80) eqn:E; zbool; [|lia]. by rewrite bytes_cons.
Qed.

Lemma encoded_char s : encoded s → string_char s s.
Proof.
  intros (cp & Hcp & Hlow & <-). constructor; [done|lia|..].
  all: unfold quote, backslash, byte_value; cbn; lia.
Qed.

Lemma string_round_sound l r b l' :
  at_input l r b → string_round l = inl l' →
  ∃ u v r', r = u +:+ r' ∧ string_char u v ∧ at_input l' r' (b +:+ v).
Proof.
  intros Hl Hr. unfold string_round, stop_with in Hr.
  destruct (get_cases _ _ _ Hl) as [(c & r1 & -> & Hcur & Hg)|(-> & Hcur & Hg)]; rewrite Hcur in Hr; [|done].
  destruct (Ascii.eqb_spec c quote) as [|Hq]; [done|]. destruct (Ascii.eqb_spec c backslash) as [->|Hb].
  { destruct (scan_escape_sound _ _ _ _ Hg Hr) as (u & v & r2 & -> & Hc & Hl2). by exists (String backslash u), v, r2. }
  destruct (byte_value c <=? 0x1F) eqn:E1; [done|]. destruct (byte_value c <=? 0x7F) eqn:E2; zbool.
  - injection Hr as <-. exists (one c), (one c), r1. split_and!; [done| |by apply add_current_at].
    rewrite <- (utf8_ascii c) by lia. pose proof (byte_value_range c).
    apply char_plain; [unfold scalar_value; lia|lia|..]; intros Heq;
      [apply Hq|apply Hb]; by rewrite <- (byte_of_value c), Heq, byte_of_value.
  - destruct (following_ranges (byte_value c)) as [ranges|] eqn:E3; [|done].
    unfold next_byte_in_range in Hr. destruct (ranges_loop ranges (add_current (get l))) as [[] l2] eqn:E4; [|done].
    injection Hr as <-.
    destruct (ranges_loop_sound ranges _ _ _ _ (proj1 (following_ranges_low _ _ E3)) (add_current_at _ _ _ _ Hcur Hg) E4)
      as (s & r2 & -> & Hs & Hl2).
    exists (String c s), (String c s), r2. split_and!; [done| |by rewrite <- string_app_assoc in Hl2].
    by eapply encoded_char, ranges_utf8.
Qed.

(** A round stops with an error, except at the quote. *)
Lemma stop_token m l t l' : stop_with m l = inr (t, l') → t = parse_error.
Proof. unfold stop_with, fail_with. congruence. Qed.

Lemma scan_low_surrogate_token cp l t l' : scan_low_surrogate cp l = inr (t, l') → t = parse_error.
Proof. unfold scan_low_surrogate. repeat split_match; try done; apply stop_token. Qed.

Lemma scan_unicode_escape_token l t l' : scan_unicode_escape l = inr (t, l') → t = parse_error.
Proof.
  unfold scan_unicode_escape. repeat split_match; try done; apply stop_token || apply scan_low_surrogate_token.
Qed.

Lemma scan_escape_token l t l' : scan_escape l = inr (t, l') → t = parse_error.
Proof. unfold scan_escape. repeat split_match; try done; apply stop_token || apply scan_unicode_escape_token. Qed.

Lemma string_round_token l r b t l' :
  at_input l r b → string_round l = inr (t, l') →
  t = parse_error ∨ t = value_string ∧ ∃ r', r = String quote r' ∧ at_input l' r' b.
Proof.
  intros Hl Hr. unfold string_round in Hr.
  destruct (get_cases _ _ _ Hl) as [(c & r1 & -> & Hcur & Hg)|(-> & Hcur & Hg)]; rewrite Hcur in Hr.
  2: { left. by eapply stop_token. }
  destruct (Ascii.eqb_spec c quote) as [->|Hq]; [injection Hr as <- <-; right; eauto|left].
  destruct (c =? backslash)%char; [by eapply scan_escape_token|].
  destruct (byte_value c <=? 0x1F); [by eapply stop_token|]. destruct (byte_value c <=? 0x7F); [done|].
  destruct (following_ranges _); [|by eapply stop_token]. destruct (next_byte_in_range _ _) as [[] ?]; congruence.
Qed.

(** What the grammar allows is scanned. *)
Lemma scan_low_surrogate_complete cp1 h2 cp2 l r b :
  at_input l (String backslash (String "u" h2) +:+ r) b → hex_quad h2 cp2 →
  0xD800 ≤ cp1 ≤ 0xDBFF → 0xDC00 ≤ cp2 ≤ 0xDFFF →
  ∃ l', scan_low_surrogate cp1 l = inl l' ∧
    at_input l' r (b +:+ utf8 (0x10000 + (cp1 - 0xD800) * 1024 + (cp2 - 0xDC00))).
Proof.
  intros Hl Hh H1 H2. cbn in Hl. unfold scan_low_surrogate.
  apply get_this in Hl as [-> Hl]. apply get_this in Hl as [-> Hl].
  destruct (get_codepoint_complete _ _ _ _ _ Hl Hh) as (l' & -> & Hl').
  destruct (cp2 =? -1) eqn:E; zbool; [lia|]. rewrite between_true by lia. eexists. split; [done|]. by apply pair_bytes.
Qed.

Lemma scan_unicode_escape_complete h cp l r b :
  at_input l (h +:+ r) b → hex_quad h cp → scalar_value cp →
  ∃ l', scan_unicode_escape l = inl l' ∧ at_input l' r (b +:+ utf8 cp).
Proof.
  intros Hl Hh [Hcp Hs]. unfold scan_unicode_escape.
  destruct (get_codepoint_complete _ _ _ _ _ Hl Hh) as (l' & -> & Hl').
  destruct (cp =? -1) eqn:E; zbool; [lia|]. destruct (between 0xD800 cp 0xDBFF) eqn:E1.
  { apply between_iff in E1. lia. }
  destruct (between 0xDC00 cp 0xDFFF) eqn:E2; [apply between_iff in E2; lia|].
  eexists. split; [done|]. by eapply unicode_escape_bytes.
Qed.

Lemma scan_pair_complete h1 cp1 h2 cp2 l r b :
  at_input l ((h1 +:+ String backslash (String "u" h2)) +:+ r) b →
  hex_quad h1 cp1 → 0xD800 ≤ cp1 ≤ 0xDBFF → hex_quad h2 cp2 → 0xDC00 ≤ cp2 ≤ 0xDFFF →
  ∃ l', scan_unicode_escape l = inl l' ∧
    at_input l' r (b +:+ utf8 (0x10000 + (cp1 - 0xD800) * 1024 + (cp2 - 0xDC00))).
Proof.
  intros Hl Hh1 H1 Hh2 H2. rewrite <- string_app_assoc in Hl. unfold scan_unicode_escape.
  destruct (get_codepoint_complete _ _ _ _ _ Hl Hh1) as (l' & -> & Hl').
  destruct (cp1 =? -1) eqn:E; zbool; [lia|]. rewrite between_true by lia. by apply (scan_low_surrogate_complete _ h2).
Qed.

Lemma scan_escape_u l r b :
  at_input l (String "u" r) b → at_input (get l) r b ∧ scan_escape l = scan_unicode_escape (get l).
Proof. intros Hl. apply get_at in Hl as [Hc Hg]. split; [done|]. unfold scan_escape. by rewrite Hc. Qed.

(** The first byte of a plain character decides the branch of the scanner. *)
Lemma plain_round cp l r b :
  scalar_value cp → 0x20 ≤ cp → cp ≠ byte_value quote → cp ≠ byte_value backslash →
  at_input l (utf8 cp +:+ r) b → ∃ l', string_round l = inl l' ∧ at_input l' r (b +:+ utf8 cp).
Proof.
  intros Hs Hlow Hq Hb Hl. unfold string_round. destruct (Z.ltb_spec cp 0x80) as [Hascii|Hhigh].
  - assert (utf8 cp = one (byte_of cp)) as Hu by (unfold utf8; by destruct (Z.ltb_spec cp 0x80); [|lia]).
    rewrite Hu in *. cbn in Hl. apply get_at in Hl as [Hc Hg]. rewrite Hc, !byte_value_eqb, !byte_value_of by lia.
    destruct (Z.eqb_spec cp (byte_value quote)); [done|]. destruct (Z.eqb_spec cp (byte_value backslash)); [done|].
    destruct (Z.leb_spec cp 0x1F); [lia|]. destruct (Z.leb_spec cp 0x7F); [|lia].
    eexists. split; [done|]. by apply add_current_at.
  - assert (encoded (utf8 cp)) as He by by exists cp. destruct (utf8 cp) as [|c s].
    { by destruct He as (? & ? & ? & Hn); unfold utf8 in Hn; repeat split_match. }
    destruct (utf8_ranges _ _ He) as (ranges & Hr & Hs'). destruct (following_ranges_low _ _ Hr) as [_ Hc2].
    cbn in Hl. apply get_at in Hl as [Hc Hg]. rewrite Hc, Hr, !byte_value_eqb.
    change (byte_value quote) with 34. change (byte_value backslash) with 92.
    repeat match goal with |- context [byte_value c =? ?k] => destruct (Z.eqb_spec (byte_value c) k); [lia|] end.
    destruct (Z.leb_spec (byte_value c) 0x1F); [lia|]. destruct (Z.leb_spec (byte_value c) 0x7F); [lia|].
    unfold next_byte_in_range.
    destruct (ranges_loop_complete ranges (add_current (get l)) s r (b +:+ one c)) as (l' & -> & Hl');
      [done|by apply add_current_at|]. exists l'. by rewrite <- string_app_assoc in Hl'.
Qed.

Lemma string_round_complete u v l r b :
  string_char u v → at_input l (u +:+ r) b → ∃ l', string_round l = inl l' ∧ at_input l' r (b +:+ v).
Proof.
  intros Hc Hl. destruct Hc as [cp Hs Hlow Hq Hb|c e He|h cp Hh Hs|h1 cp1 h2 cp2 Hh1 H1 Hh2 H2]; [by apply plain_round|..];
    cbn in Hl; apply get_at in Hl as [Hcur Hl]; unfold string_round; rewrite Hcur; cbn.
  - apply get_at in Hl as [Hcur' Hl]. unfold scan_escape. rewrite Hcur', He. eexists. split; [done|]. by apply add_at.
  - apply scan_escape_u in Hl as [Hl ->]. by eapply scan_unicode_escape_complete.
  - apply scan_escape_u in Hl as [Hl ->]. by eapply scan_pair_complete.
Qed.

Lemma string_round_quote l r b :
  at_input l (String quote r) b → string_round l = inr (value_string, get l) ∧ at_input (get l) r b.
Proof. intros Hl. apply get_at in Hl as [Hc Hg]. split; [|done]. unfold string_round. by rewrite Hc. Qed.

Lemma at_budget l r b : at_input l r b → budget l = S (S (String.length r)).
Proof. unfold budget. by intros (_ & -> & _). Qed.

Lemma reset_at l : fresh l → at_input (reset l) (ia l) EmptyString.
Proof. done. Qed.

Lemma string_char_length u v : string_char u v → (0 < String.length u)%nat.
Proof.
  intros Hc. destruct Hc; [|cbn; lia..]. unfold utf8. repeat split_match; cbn; lia.
Qed.

Lemma string_loop_sound fuel l r b l' :
  at_input l r b → string_loop fuel l = (value_string, l') →
  ∃ u s r', r = u +:+ String quote r' ∧ string_body u s ∧ at_input l' r' (b +:+ s).
Proof.
  revert l r b. induction fuel as [|fuel IH]; intros l r b Hl Hr; cbn in Hr; [done|].
  destruct (string_round l) as [l1|[t l1]] eqn:E.
  - destruct (string_round_sound _ _ _ _ Hl E) as (u & v & r1 & -> & Hc & Hl1).
    destruct (IH _ _ _ Hl1 Hr) as (u' & s & r2 & -> & Hb & Hl2).
    exists (u +:+ u'), (v +:+ s), r2. rewrite string_app_assoc. split_and!; [done|by constructor|].
    by rewrite <- string_app_assoc in Hl2.
  - injection Hr as -> ->. destruct (string_round_token _ _ _ _ _ Hl E) as [?|(_ & r1 & -> & Hl1)]; [done|].
    exists EmptyString, EmptyString, r1. rewrite string_app_nil. split_and!; [done|constructor|done].
Qed.

Lemma string_loop_token fuel l r b t l' :
  at_input l r b → string_loop fuel l = (t, l') → t = parse_error ∨ t = value_string.
Proof.
  revert l r b. induction fuel as [|fuel IH]; intros l r b Hl Hr; cbn in Hr; [left; congruence|].
  destruct (string_round l) as [l1|[t1 l1]] eqn:E.
  - destruct (string_round_sound _ _ _ _ Hl E) as (u & v & r1 & -> & Hc & Hl1). by eapply IH.
  - injection Hr as -> ->. destruct (string_round_token _ _ _ _ _ Hl E) as [?|(? & _)]; auto.
Qed.

Lemma string_loop_complete u s : string_body u s → ∀ fuel l r b,
  at_input l (u +:+ String quote r) b → (String.length u < fuel)%nat →
  ∃ l', string_loop fuel l = (value_string, l') ∧ at_input l' r (b +:+ s).
Proof.
  induction 1 as [|u v b' s Hc Hb IH]; intros fuel l r b Hl Hf; (destruct fuel as [|fuel]; [lia|]); cbn [string_loop].
  - destruct (string_round_quote _ _ _ Hl) as [-> Hl']. exists (get l). by rewrite string_app_nil.
  - rewrite <- string_app_assoc in Hl. destruct (string_round_complete _ _ _ _ _ Hc Hl) as (l1 & -> & Hl1).
    apply string_char_length in Hc. rewrite string_length_app in Hf.
    destruct (IH fuel l1 r (b +:+ v) Hl1) as (l' & -> & Hl'); [lia|]. exists l'. by rewrite <- string_app_assoc in Hl'.
Qed.

Lemma scan_string_sound l l' : fresh l → scan_string l = (value_string, l') →
  ∃ u s r', ia l = u +:+ String quote r' ∧ string_body u s ∧ at_input l' r' s.
Proof. intros Hf Hr. by apply (string_loop_sound _ _ _ _ _ (reset_at l Hf)) in Hr. Qed.

Lemma scan_string_complete l u s r : fresh l → ia l = u +:+ String quote r → string_body u s →
  ∃ l', scan_string l = (value_string, l') ∧ at_input l' r s.
Proof.
  intros Hf Hi Hb. pose proof (reset_at l Hf) as Hl. rewrite Hi in Hl. unfold scan_string.
  apply (string_loop_complete _ _ Hb _ _ _ _ Hl). rewrite (at_budget _ _ _ Hl), string_length_app. lia.
Qed.
