(* ===== verification/JsonNumbers.v ===== *)
(** * The lexer scans the numbers of the grammar

    The automaton of [scan_number] against the relation [number]: the labels
    as a function on characters, what they accept, and the conversions. *)

From S2P Require Import Prelude.
From S2P Require Import Text.
From S2P Require Import Json.
From S2P Require Import JsonLexer.
From S2P Require Import JsonGrammar.
From S2P Require Import JsonScanning.

Open Scope Z_scope.

(** The automaton of [scan_number] on characters alone. *)
Definition number_goto (label : number_label) (c : ascii) : option number_label :=
  let exponent := (c =? "e")%char || (c =? "E")%char in
  match label with
  | scan_number_minus =>
      if (c =? "0")%char then Some scan_number_zero else if is_digit c then Some scan_number_any1 else None
  | scan_number_zero =>
      if (c =? ".")%char then Some scan_number_decimal1 else if exponent then Some scan_number_exponent else None
  | scan_number_any1 =>
      if is_digit c then Some scan_number_any1
      else if (c =? ".")%char then Some scan_number_decimal1 else if exponent then Some scan_number_exponent else None
  | scan_number_decimal1 => if is_digit c then Some scan_number_decimal2 else None
  | scan_number_decimal2 =>
      if is_digit c then Some scan_number_decimal2 else if exponent then Some scan_number_exponent else None
  | scan_number_exponent =>
      if (c =? "+")%char || (c =? "-")%char then Some scan_number_sign
      else if is_digit c then Some scan_number_any2 else None
  | scan_number_sign | scan_number_any2 => if is_digit c then Some scan_number_any2 else None
  end.

Definition accepting (label : number_label) : bool :=
  match label with
  | scan_number_zero | scan_number_any1 | scan_number_decimal2 | scan_number_any2 => true
  | _ => false
  end.

Fixpoint number_run (label : number_label) (s : string) : option number_label :=
  match s with
  | EmptyString => Some label
  | String c rest => match number_goto label c with Some label' => number_run label' rest | None => None end
  end.

Lemma number_step_goto label l r b c label' :
  at_input l (String c r) b → number_goto label c = Some label' →
  ∃ l', number_step label l = Goto label' l' ∧ at_input l' r (b +:+ one c).
Proof.
  intros Hl Hg. apply get_at in Hl as [Hc Hl]. unfold number_step. rewrite Hc, !(is_current_some _ _ _ Hc).
  exists (add_current (get l)). split; [|by apply add_current_at].
  destruct label; cbn [number_goto] in Hg; repeat split_match; congruence.
Qed.

(** The next character, if any, does not continue the number. *)
Definition number_ends (label : number_label) (r : string) : Prop :=
  match r with EmptyString => True | String c _ => number_goto label c = None end.

Lemma number_step_end label l r b :
  at_input l r b → number_ends label r → ∃ l', at_input l' (str_tail r) b ∧ current l' = str_head r ∧ 1 < count l' ∧
  (if accepting label then number_step label l = Number_done l' else ∃ m, number_step label l = Number_error m l').
Proof.
  intros Hl Hg. exists (get l).
  assert (1 < count (get l)) as Hcount by (rewrite count_get; destruct Hl as ((_ & ?) & _); lia).
  destruct (get_cases _ _ _ Hl) as [(c & r' & -> & Hc & Hl')|(-> & Hc & Hl')]; cbn in Hg |- *; (split_and!; [done..|]);
    unfold number_step; rewrite Hc, ?(is_current_some _ _ _ Hc), ?(is_current_none _ _ Hc).
  - destruct label; cbn [number_goto accepting] in *; repeat split_match; try done; eauto.
  - destruct label; cbn; eauto.
Qed.

(** The type the automaton has decided on at a label, for a number with or
    without a sign. *)
Definition integer_type (negative : bool) : token_type := if negative then value_integer else value_unsigned.
Definition is_integral (label : number_label) : bool :=
  match label with scan_number_zero | scan_number_any1 => true | _ => false end.
Definition typed (negative : bool) (label : number_label) (type : token_type) : Prop :=
  match label with
  | scan_number_minus => negative = true
  | scan_number_zero | scan_number_any1 => type = integer_type negative
  | scan_number_decimal1 | scan_number_exponent => True
  | _ => type = value_float
  end.
Definition final_type (negative : bool) (label : number_label) : token_type :=
  if is_integral label then integer_type negative else value_float.

Lemma typed_goto negative label type c label' :
  typed negative label type → number_goto label c = Some label' → typed negative label' (label_type label type).
Proof.
  destruct label; cbn -[integer_type]; intros Ht Hg; repeat split_match; simplify_eq; cbn; congruence || done.
Qed.

Lemma typed_final negative label type :
  accepting label = true → typed negative label type → label_type label type = final_type negative label.
Proof. by destruct label. Qed.

Lemma number_loop_run s label label' negative type fuel l r b :
  number_run label s = Some label' → typed negative label type → at_input l (s +:+ r) b →
  ∃ type' l', number_loop (String.length s + fuel) label type l = number_loop fuel label' type' l' ∧
    at_input l' r (b +:+ s) ∧ typed negative label' type'.
Proof.
  revert label type l b. induction s as [|c s IH]; intros label type l b; cbn [number_run].
  - intros [= <-] Ht Hl. exists type, l. by rewrite string_app_nil.
  - destruct (number_goto label c) as [label1|] eqn:Hg; [|done]. intros Hr Ht Hl. cbn in Hl.
    destruct (number_step_goto _ _ _ _ _ _ Hl Hg) as (l1 & Hs & Hl1).
    destruct (IH label1 (label_type label type) l1 (b +:+ one c) Hr) as (type' & l' & Heq & Hl' & Ht');
      [by eapply typed_goto|done|].
    exists type', l'. rewrite <- string_app_assoc in Hl'. cbn. by rewrite Hs, Heq.
Qed.

(** A lexer after a token: the rest of its input and its buffer. *)
Definition handed_back (l : lexer) (r b : string) : Prop :=
  settled l ∧ 0 < count l ∧ rest_of l = r ∧ token_buffer l = b.

Lemma at_handed_back l r b : at_input l r b → handed_back l r b.
Proof. intros (Hf & <- & <-). split_and!; [by apply fresh_settled|apply Hf|by apply fresh_rest|done]. Qed.

Lemma unget_back l r b :
  at_input l (str_tail r) b → current l = str_head r → 1 < count l → handed_back (unget l) r b.
Proof.
  intros (Hf & Hi & Hb) Hc Hn. assert (0 < count (unget l)) as Hu.
  { unfold unget, count in *. destruct l as [i [c|] u p ts tb em n1 n2 n3]; cbn in *; split_match; cbn; lia. }
  revert Hu. unfold handed_back, settled, rest_of, unget.
  destruct l as [i c u p ts tb em n1 n2 n3]; cbn in *. subst. destruct r; cbn; intros; split_and!; done || lia.
Qed.

(** The document of a token that is a value. *)
Definition token_json (t : token_type) (l : lexer) : option json :=
  match t with
  | literal_null => Some JNull
  | literal_true => Some (JBool true)
  | literal_false => Some (JBool false)
  | value_unsigned => Some (JUnsigned (number_unsigned l))
  | value_integer => Some (JInteger (number_integer l))
  | value_float => match number_float l with Finite m e => Some (JFloat m e) | Infinite => None end
  | value_string => Some (JString (token_buffer l))
  | _ => None
  end.

Definition float_json (s : string) : option json :=
  match strtod s with Finite m e => Some (JFloat m e) | Infinite => None end.
(** The document of a number text that the automaton gave a type. *)
Definition number_json (type : token_type) (s : string) : option json :=
  match type with
  | value_unsigned => match strtoull s with Some x => Some (JUnsigned x) | None => float_json s end
  | value_integer => match strtoll s with Some x => Some (JInteger x) | None => float_json s end
  | _ => float_json s
  end.

Definition is_number_token (t : token_type) : bool :=
  match t with value_unsigned | value_integer | value_float => true | _ => false end.

Lemma handed_back_numbers l r b n v : handed_back l r b →
  handed_back (l <| number_unsigned := n |>) r b ∧ handed_back (l <| number_integer := n |>) r b ∧
  handed_back (l <| number_float := v |>) r b.
Proof. by destruct l. Qed.

Lemma number_done_spec type l r b t l' :
  at_input l (str_tail r) b → current l = str_head r → 1 < count l → number_done type l = (t, l') →
  is_number_token t = true ∧ token_json t l' = number_json type b ∧ handed_back l' r b.
Proof.
  intros Hl Hc Hn Hd. pose proof (unget_back _ _ _ Hl Hc Hn) as Hu. pose proof (proj2 (proj2 (proj2 Hu))) as Hb.
  unfold number_done in Hd. rewrite Hb in Hd. unfold number_json, float_json.
  clear Hb. revert Hu Hd. generalize (unget l). intros l1 Hu Hd.
  pose proof (λ n v, handed_back_numbers l1 r b n v Hu) as Hback. clear Hu Hl.
  destruct type; try (injection Hd as <- <-; split_and!; [done|done|by apply (Hback 0)]);
    [destruct (strtoull b)|destruct (strtoll b)]; injection Hd as <- <-;
    (split_and!; [done|done|
    first [apply (proj1 (Hback _ (Finite 0 0)))|apply (proj1 (proj2 (Hback _ (Finite 0 0))))|apply (proj2 (proj2 (Hback 0 _)))]]).
Qed.

Lemma number_loop_accept fuel label negative type l r b :
  accepting label = true → number_ends label r → typed negative label type → at_input l r b →
  ∃ t l', number_loop (S fuel) label type l = (t, l') ∧ is_number_token t = true ∧
    token_json t l' = number_json (final_type negative label) b ∧ handed_back l' r b.
Proof.
  intros Ha He Ht Hl. destruct (number_step_end _ _ _ _ Hl He) as (l1 & Hl1 & Hc1 & Hn1 & Hs). rewrite Ha in Hs.
  cbn [number_loop]. rewrite Hs, (typed_final negative) by done.
  destruct (number_done (final_type negative label) l1) as [t l'] eqn:Hd.
  exists t, l'. split; [done|]. by eapply number_done_spec.
Qed.

Lemma number_loop_sound fuel label negative type l r b t l' :
  typed negative label type → at_input l r b → number_loop fuel label type l = (t, l') → t ≠ parse_error →
  ∃ s r' label', r = s +:+ r' ∧ number_run label s = Some label' ∧ accepting label' = true ∧
    is_number_token t = true ∧ token_json t l' = number_json (final_type negative label') (b +:+ s) ∧
    handed_back l' r' (b +:+ s).
Proof.
  revert label type l r b. induction fuel as [|fuel IH]; intros label type l r b Ht Hl Hn Hne; [cbn in Hn; congruence|].
  assert (number_ends label r ∨ ∃ c r1 label1, r = String c r1 ∧ number_goto label c = Some label1) as [He|(c & r1 & label1 & -> & Hg)].
  { destruct r as [|c r]; [by left|]. cbn. destruct (number_goto label c) eqn:E; [right; eauto|by left]. }
  - destruct (accepting label) eqn:Ha.
    + destruct (number_loop_accept fuel label negative type l r b Ha He Ht Hl) as (t' & l1 & Heq & H1 & H2 & H3).
      rewrite Hn in Heq. injection Heq as <- <-. exists EmptyString, r, label. by rewrite string_app_nil.
    + destruct (number_step_end _ _ _ _ Hl He) as (l1 & _ & _ & _ & Hs). rewrite Ha in Hs. destruct Hs as [m Hs].
      cbn in Hn. rewrite Hs in Hn. unfold fail_with in Hn. congruence.
  - destruct (number_step_goto _ _ _ _ _ _ Hl Hg) as (l1 & Hs & Hl1). cbn in Hn. rewrite Hs in Hn.
    destruct (IH _ _ _ _ _ (typed_goto _ _ _ _ _ Ht Hg) Hl1 Hn Hne) as (s & r2 & label' & -> & Hr & H).
    exists (String c s), r2, label'. cbn. rewrite Hg, <- string_app_assoc in *. done.
Qed.

(** What the automaton accepts from a label, ending at [final]. *)
Definition exponent_digits (s : string) : bool :=
  match s with
  | String sign digits => if (sign =? "+")%char || (sign =? "-")%char then some_digits digits else some_digits s
  | EmptyString => false
  end.

Definition accepted (label final : number_label) (s : string) : Prop :=
  match label with
  | scan_number_any2 => all_digits s = true ∧ is_integral final = false
  | scan_number_sign => some_digits s = true ∧ is_integral final = false
  | scan_number_exponent => exponent_digits s = true ∧ is_integral final = false
  | scan_number_decimal2 =>
      ∃ d x, s = d +:+ x ∧ all_digits d = true ∧ exponent_part x = true ∧ is_integral final = false
  | scan_number_decimal1 =>
      ∃ d x, s = d +:+ x ∧ some_digits d = true ∧ exponent_part x = true ∧ is_integral final = false
  | scan_number_zero =>
      ∃ f x, s = f +:+ x ∧ fraction_part f = true ∧ exponent_part x = true ∧
        is_integral final = String.eqb (f +:+ x) ""
  | scan_number_any1 =>
      ∃ d f x, s = d +:+ f +:+ x ∧ all_digits d = true ∧ fraction_part f = true ∧ exponent_part x = true ∧
        is_integral final = String.eqb (f +:+ x) ""
  | scan_number_minus =>
      ∃ i f x, s = i +:+ f +:+ x ∧ integer_part i = true ∧ fraction_part f = true ∧ exponent_part x = true ∧
        is_integral final = String.eqb (f +:+ x) ""
  end.

Lemma digit_not_sign c : is_digit c = true → (c =? "+")%char || (c =? "-")%char = false.
Proof. intros Hc. apply digit_not_space in Hc as (_ & -> & ->). done. Qed.

Lemma accepted_nil label : accepting label = true → accepted label label EmptyString.
Proof. destruct label; cbn; try done; intros _; [by exists "", ""|by exists "", "", ""|by exists "", ""]. Qed.

Lemma accepted_cons label c label1 final s :
  number_goto label c = Some label1 → accepted label1 final s → accepted label final (String c s).
Proof.
  assert (∀ x, all_digits x = true → is_digit c = true → some_digits (String c x) = true) as Hsome.
  { intros x Hx Hc. unfold some_digits. cbn. by rewrite Hc, Hx. }
  destruct label; cbn [number_goto]; intros Hg Ha; repeat split_match; simplify_eq; cbn [accepted] in *.
  - destruct Ha as (f & x & -> & Hf & Hx & Hi). exists (one c), f, x. cbn. by rewrite Heqb.
  - destruct Ha as (d & f & x & -> & Hd & Hf & Hx & Hi). exists (String c d), f, x. cbn. by rewrite Heqb, Heqb0, Hd.
  - destruct Ha as (d & x & -> & Hd & Hx & Hi). exists (String c d), x. cbn [fraction_part]. by rewrite Heqb, Hd.
  - destruct Ha as [Hx Hi]. exists "", (String c s). cbn [exponent_part]. by rewrite Heqb0.
  - destruct Ha as (d & f & x & -> & Hd & Hf & Hx & Hi). exists (String c d), f, x. cbn [all_digits]. by rewrite Heqb, Hd.
  - destruct Ha as (d & x & -> & Hd & Hx & Hi). exists "", (String c d), x. cbn [fraction_part]. by rewrite Heqb0, Hd.
  - destruct Ha as [Hx Hi]. exists "", "", (String c s). cbn [exponent_part]. by rewrite Heqb1.
  - destruct Ha as (d & x & -> & Hd & Hx & Hi). exists (String c d), x. by rewrite Hsome.
  - destruct Ha as (d & x & -> & Hd & Hx & Hi). exists (String c d), x. cbn [all_digits]. by rewrite Heqb, Hd.
  - destruct Ha as [Hx Hi]. exists "", (String c s). cbn [exponent_part]. by rewrite Heqb0.
  - destruct Ha as [Hx Hi]. cbn [exponent_digits]. by rewrite Heqb.
  - destruct Ha as [Hx Hi]. cbn [exponent_digits]. by rewrite Heqb, Hsome.
  - destruct Ha as [Hx Hi]. by rewrite Hsome.
  - destruct Ha as [Hx Hi]. cbn. by rewrite Heqb, Hx.
Qed.

Lemma number_run_accepted label s final :
  number_run label s = Some final → accepting final = true → accepted label final s.
Proof.
  revert label. induction s as [|c s IH]; intros label; cbn [number_run].
  - intros [= ->]. apply accepted_nil.
  - destruct (number_goto label c) as [label1|] eqn:Hg; [|done]. intros Hr Ha. eapply accepted_cons; eauto.
Qed.

(** The texts of the grammar run through the automaton. *)
Lemma number_run_app label s1 s2 label1 :
  number_run label s1 = Some label1 → number_run label (s1 +:+ s2) = number_run label1 s2.
Proof.
  revert label. induction s1 as [|c s1 IH]; intros label; cbn; [congruence|]. destruct (number_goto label c); [apply IH|done].
Qed.

Lemma run_digits label s : (∀ c, is_digit c = true → number_goto label c = Some label) → all_digits s = true →
  number_run label s = Some label.
Proof.
  intros Hl. induction s as [|c s IH]; cbn; [done|]. intros [Hc Hs]%andb_true_iff. by rewrite (Hl c Hc), IH.
Qed.

Lemma digit_goto c : is_digit c = true →
  number_goto scan_number_any1 c = Some scan_number_any1 ∧ number_goto scan_number_decimal1 c = Some scan_number_decimal2 ∧
  number_goto scan_number_decimal2 c = Some scan_number_decimal2 ∧ number_goto scan_number_exponent c = Some scan_number_any2 ∧
  number_goto scan_number_sign c = Some scan_number_any2 ∧ number_goto scan_number_any2 c = Some scan_number_any2.
Proof. intros Hc. cbn. rewrite Hc. rewrite digit_not_sign by done. done. Qed.

Lemma run_some_digits label label' s :
  (∀ c, is_digit c = true → number_goto label c = Some label') →
  (∀ c, is_digit c = true → number_goto label' c = Some label') → some_digits s = true →
  number_run label s = Some label'.
Proof.
  intros Hl Hl'. destruct s as [|c s]; [done|]. unfold some_digits. cbn. intros [Hc Hs]%andb_true_iff.
  rewrite (Hl c Hc). by apply run_digits.
Qed.

Lemma run_exponent_digits s : exponent_digits s = true → number_run scan_number_exponent s = Some scan_number_any2.
Proof.
  destruct s as [|c s]; [done|]. cbn [exponent_digits]. destruct (_ || _) eqn:E.
  - intros Hs. cbn. rewrite E. apply run_some_digits; [apply digit_goto..|done].
  - intros Hs. apply run_some_digits; [apply digit_goto..|done].
Qed.

Definition takes_exponent (label : number_label) : bool :=
  match label with scan_number_zero | scan_number_any1 | scan_number_decimal2 => true | _ => false end.

Lemma run_exponent_part label s : takes_exponent label = true → exponent_part s = true →
  ∃ final, number_run label s = Some final ∧ accepting final = true ∧
    is_integral final = is_integral label && String.eqb s "".
Proof.
  intros Hl. destruct s as [|c s]; [exists label; by destruct label|]. cbn [exponent_part]. intros [Hc Hs]%andb_true_iff.
  exists scan_number_any2. rewrite andb_false_r. split_and!; [|done..]. cbn [number_run].
  assert (number_goto label c = Some scan_number_exponent) as ->; [|by apply run_exponent_digits].
  assert (is_digit c = false ∧ (c =? ".")%char = false) as [Hd Hp].
  { apply orb_true_iff in Hc as [->%Ascii.eqb_eq| ->%Ascii.eqb_eq]; done. }
  destruct label; try done; cbn; by rewrite ?Hd, ?Hp, Hc.
Qed.

Lemma run_fraction_exponent label f x :
  label = scan_number_zero ∨ label = scan_number_any1 → fraction_part f = true → exponent_part x = true →
  ∃ final, number_run label (f +:+ x) = Some final ∧ accepting final = true ∧
    is_integral final = String.eqb (f +:+ x) "".
Proof.
  intros Hl Hf Hx. destruct f as [|c f].
  - destruct (run_exponent_part label x) as (final & ? & ? & Hi); [by destruct Hl as [->| ->]|done|].
    exists final. split_and!; [done..|]. rewrite Hi. by destruct Hl as [->| ->].
  - cbn [fraction_part] in Hf. apply andb_true_iff in Hf as [->%Ascii.eqb_eq Hf].
    assert (number_run label (String "." f) = Some scan_number_decimal2) as Hrun.
    { cbn. destruct Hl as [->| ->]; cbn; (apply run_some_digits; [apply digit_goto..|done]). }
    rewrite (number_run_app _ _ x _ Hrun).
    destruct (run_exponent_part scan_number_decimal2 x) as (final & ? & ? & Hi); [done..|]. by exists final.
Qed.

Lemma integer_part_digits i : integer_part i = true → i ≠ EmptyString ∧ all_digits i = true.
Proof.
  destruct i as [|c i]; [done|]. cbn. destruct (Ascii.eqb_spec c "0") as [->|_]; [|done].
  intros ->%String.eqb_eq. done.
Qed.

(** The conversions of the integers. *)
Lemma strtoull_integer i : integer_part i = true →
  strtoull i = if UINT64_MAX <? digits_value 0 i then None else Some (digits_value 0 i).
Proof.
  intros [Hne Hd]%integer_part_digits. unfold strtoull. rewrite strto_digits by done. by rewrite Z.gtb_ltb.
Qed.

Lemma strtoll_integer i : integer_part i = true →
  strtoll (String "-" i) = if - INT64_MIN <? digits_value 0 i then None else Some (- digits_value 0 i).
Proof.
  intros [Hne Hd]%integer_part_digits. unfold strtoll. rewrite (strto_signed true) by done.
  pose proof (digits_value_ge 0 i ltac:(lia) Hd). unfold INT64_MIN, INT64_MAX in *.
  destruct (- digits_value 0 i <? -9223372036854775808) eqn:E1, (- digits_value 0 i >? 9223372036854775807) eqn:E2,
    (- -9223372036854775808 <? digits_value 0 i) eqn:E3; zbool; cbn; try done; lia.
Qed.

Lemma float_json_some s j : float_json s = Some j ↔ ∃ m e, strtod s = Finite m e ∧ j = JFloat m e.
Proof. unfold float_json. destruct (strtod s); naive_solver. Qed.

(** Integers and doubles are told apart by the label the automaton ends at. *)
Lemma number_json_sound negative i f x final j :
  integer_part i = true → fraction_part f = true → exponent_part x = true →
  is_integral final = String.eqb (f +:+ x) "" →
  number_json (final_type negative final) (minus negative +:+ i +:+ f +:+ x) = Some j →
  number (minus negative +:+ i +:+ f +:+ x) j.
Proof.
  intros Hi Hf Hx Hint. unfold final_type. rewrite Hint.
  assert (∀ s, (f +:+ x = EmptyString → out_of_width negative i) → s = minus negative +:+ i +:+ f +:+ x →
            float_json s = Some j → number s j) as Hfloat.
  { intros s Hw -> (m & e & Hs & ->)%float_json_some. by constructor. }
  destruct (String.eqb_spec (f +:+ x) "") as [He|He]; [|by apply Hfloat].
  destruct f, x; try done. rewrite !string_app_nil in *. unfold number_json, integer_type.
  destruct negative; cbn [minus String.append]; cbn in Hfloat.
  - rewrite strtoll_integer by done. destruct (Z.ltb_spec (- INT64_MIN) (digits_value 0 i)) as [Hw|Hw].
    + by apply Hfloat.
    + intros [= <-]. constructor; [done|]. unfold out_of_width. lia.
  - rewrite strtoull_integer by done. destruct (Z.ltb_spec UINT64_MAX (digits_value 0 i)) as [Hw|Hw].
    + by apply Hfloat.
    + intros [= <-]. constructor; [done|]. unfold out_of_width. lia.
Qed.

Lemma number_parts s j : number s j → ∃ negative i f x,
  s = minus negative +:+ i +:+ f +:+ x ∧ integer_part i = true ∧ fraction_part f = true ∧ exponent_part x = true ∧
  ∀ final, is_integral final = String.eqb (f +:+ x) "" → number_json (final_type negative final) s = Some j.
Proof.
  intros [i Hi Hw|i Hi Hw|negative i f x m e Hi Hf Hx Hw Hs].
  - exists false, i, "", "". rewrite !string_app_nil. split_and!; [done..|]. intros final Hint.
    unfold final_type. rewrite Hint. cbn. rewrite strtoull_integer by done. unfold out_of_width in Hw.
    by destruct (Z.ltb_spec UINT64_MAX (digits_value 0 i)).
  - exists true, i, "", "". rewrite !string_app_nil. split_and!; [done..|]. intros final Hint.
    unfold final_type. rewrite Hint. cbn. rewrite strtoll_integer by done. unfold out_of_width in Hw.
    by destruct (Z.ltb_spec (- INT64_MIN) (digits_value 0 i)).
  - exists negative, i, f, x. split_and!; [done..|]. intros final Hint.
    assert (float_json (minus negative +:+ i +:+ f +:+ x) = Some (JFloat m e)) as Hfl by (apply float_json_some; eauto).
    unfold final_type. rewrite Hint. destruct (String.eqb_spec (f +:+ x) "") as [He|He]; [|done].
    specialize (Hw He). destruct f, x; try done. rewrite !string_app_nil in *. unfold out_of_width in Hw.
    destruct negative; cbn [minus String.append integer_type number_json] in *.
    + rewrite strtoll_integer by done. by destruct (Z.ltb_spec (- INT64_MIN) (digits_value 0 i)); [|lia].
    + rewrite strtoull_integer by done. by destruct (Z.ltb_spec UINT64_MAX (digits_value 0 i)); [|lia].
Qed.

(** The label at which [scan_number] starts. *)
Definition start_label (c : ascii) : number_label :=
  if (c =? "-")%char then scan_number_minus else if (c =? "0")%char then scan_number_zero else scan_number_any1.
Definition starts_number (c : ascii) : bool := (c =? "-")%char || is_digit c.

Lemma scan_number_start l c : fresh l → current l = Some c →
  ∃ l1, at_input l1 (ia l) (one c) ∧ scan_number l = number_loop (budget l1) (start_label c) value_unsigned l1.
Proof.
  intros Hf Hc. pose proof (reset_at l Hf) as Hr. assert (current (reset l) = Some c) as Hc' by done.
  exists (add_current (reset l)). split; [by apply (add_current_at _ _ EmptyString)|].
  unfold scan_number. rewrite !(is_current_some _ _ _ Hc'). done.
Qed.

Lemma start_typed c : is_digit c || (c =? "-")%char = true → typed (c =? "-")%char (start_label c) value_unsigned.
Proof. unfold start_label. destruct (c =? "-")%char; [done|]. by destruct (c =? "0")%char. Qed.

Lemma start_accepted c s final : starts_number c = true → accepted (start_label c) final s →
  ∃ i f x, String c s = minus (c =? "-")%char +:+ i +:+ f +:+ x ∧ integer_part i = true ∧ fraction_part f = true ∧
    exponent_part x = true ∧ is_integral final = String.eqb (f +:+ x) "".
Proof.
  unfold starts_number, start_label. destruct (Ascii.eqb_spec c "-") as [->|Hm]; cbn [orb minus String.append].
  - intros _ (i & f & x & -> & H). by exists i, f, x.
  - intros Hd. destruct (Ascii.eqb_spec c "0") as [->|H0].
    + intros (f & x & -> & H). by exists "0", f, x.
    + intros (d & f & x & -> & Hds & H). exists (String c d), f, x. cbn [integer_part].
      destruct (Ascii.eqb_spec c "0"); [done|]. by rewrite Hd, Hds.
Qed.

Lemma scan_number_sound l c t l' :
  fresh l → current l = Some c → starts_number c = true → scan_number l = (t, l') → t ≠ parse_error →
  ∃ s r', ia l = s +:+ r' ∧ is_number_token t = true ∧ handed_back l' r' (String c s) ∧
    ∀ j, token_json t l' = Some j → number (String c s) j.
Proof.
  intros Hf Hc Hs Hn Hne. destruct (scan_number_start l c Hf Hc) as (l1 & Hl1 & Heq). rewrite Heq in Hn.
  destruct (number_loop_sound _ _ (c =? "-")%char _ _ _ _ _ _ (start_typed c ltac:(by rewrite orb_comm)) Hl1 Hn Hne)
    as (s & r' & final & Hr & Hrun & Ha & Ht & Hj & Hb).
  exists s, r'. cbn in Hb, Hj. split_and!; [done..|]. intros j Hj'. rewrite Hj in Hj'.
  destruct (start_accepted c s final Hs (number_run_accepted _ _ _ Hrun Ha)) as (i & f & x & Heq' & Hi & Hfr & Hx & Hint).
  rewrite Heq' in *. by apply number_json_sound with final.
Qed.

Lemma run_integer_part negative i f x c s :
  String c s = minus negative +:+ i +:+ f +:+ x → integer_part i = true → fraction_part f = true → exponent_part x = true →
  starts_number c = true ∧ negative = (c =? "-")%char ∧
  ∃ final, number_run (start_label c) s = Some final ∧ accepting final = true ∧ is_integral final = String.eqb (f +:+ x) "".
Proof.
  intros Heq Hi Hf Hx. destruct i as [|d i]; [done|].
  assert (is_digit d = true ∧ all_digits i = true) as [Hd Hds].
  { apply integer_part_digits in Hi as [_ Hi]. cbn in Hi. by apply andb_true_iff in Hi. }
  assert ((d =? "-")%char = false) as Hdm by (by apply digit_not_space in Hd as (_ & -> & _)).
  assert (∀ label, label = (if (d =? "0")%char then scan_number_zero else scan_number_any1) →
    ∃ final, number_run label (i +:+ f +:+ x) = Some final ∧ accepting final = true ∧
      is_integral final = String.eqb (f +:+ x) "") as Hrun.
  { intros label ->. cbn in Hi. destruct (d =? "0")%char.
    - apply String.eqb_eq in Hi as ->. apply (run_fraction_exponent _ f x); auto.
    - rewrite (number_run_app scan_number_any1 i _ scan_number_any1); [apply run_fraction_exponent; auto|].
      apply run_digits; [apply digit_goto|done]. }
  unfold starts_number, start_label. destruct negative; cbn in Heq; injection Heq as -> ->.
  - split_and!; [done..|]. destruct (Hrun _ eq_refl) as (final & Hr & H). exists final.
    split; [|done]. change (number_run scan_number_minus (String d (i +:+ f +:+ x)) = Some final).
    cbn [number_run number_goto]. destruct (d =? "0")%char; [done|]. by rewrite Hd.
  - rewrite Hdm, Hd. split_and!; [done..|]. by apply Hrun.
Qed.

(** What may follow a value. *)
Definition terminates (r : string) : bool :=
  match r with
  | EmptyString => true
  | String c _ => is_whitespace c || (c =? ",")%char || (c =? "]")%char || (c =? "}")%char || (c =? "000")%char
  end.

Lemma terminates_number label r : terminates r = true → accepting label = true → number_ends label r.
Proof.
  destruct r as [|c r]; [done|]. cbn [terminates number_ends]. unfold is_whitespace. intros Hc.
  rewrite !orb_true_iff, !Ascii.eqb_eq in Hc. by destruct label; destruct_or! Hc; subst.
Qed.

Lemma scan_number_complete l c s r j :
  fresh l → current l = Some c → number (String c s) j → ia l = s +:+ r → terminates r = true →
  starts_number c = true ∧
  ∃ t l', scan_number l = (t, l') ∧ is_number_token t = true ∧ token_json t l' = Some j ∧ handed_back l' r (String c s).
Proof.
  intros Hf Hc Hn Hi Hr. destruct (number_parts _ _ Hn) as (negative & i & f & x & Heq & Hip & Hfp & Hxp & Hj).
  destruct (run_integer_part negative i f x c s Heq Hip Hfp Hxp) as (Hs & -> & final & Hrun & Ha & Hint).
  split; [done|]. destruct (scan_number_start l c Hf Hc) as (l1 & Hl1 & ->). rewrite Hi in Hl1.
  rewrite (at_budget _ _ _ Hl1), string_length_app.
  replace (S (S (String.length s + String.length r))) with (String.length s + S (S (String.length r)))%nat by lia.
  destruct (number_loop_run s (start_label c) final (c =? "-")%char value_unsigned (S (S (String.length r))) l1 r (one c))
    as (type & l2 & -> & Hl2 & Hty); [done|apply start_typed; by rewrite orb_comm|done|].
  destruct (number_loop_accept (S (String.length r)) final (c =? "-")%char type l2 r _ Ha (terminates_number _ _ Hr Ha) Hty Hl2)
    as (t & l' & Heq' & Ht & Hj' & Hb).
  exists t, l'. split_and!; [done..| |done]. rewrite Hj'. by apply Hj.
Qed.
