(* ===== verification/JsonTokens.v ===== *)
(** * Tokens

    [scan] against the grammar: it skips white space and a byte order mark,
    and then scans one lexeme.  [scan_sound] says what a scanned token is,
    the lemmas [scan_...] after it that every lexeme of the grammar is scanned
    as its token. *)

From S2P Require Import Prelude.
From S2P Require Import Text.
From S2P Require Import Json.
From S2P Require Import JsonLexer.
From S2P Require Import JsonGrammar.
From S2P Require Import JsonScanning.
From S2P Require Import JsonNumbers.

Open Scope Z_scope.

(** A lexer between two tokens, at the input [r]. *)
Definition ready (l : lexer) (r : string) : Prop := settled l ∧ 0 < count l ∧ rest_of l = r.

Lemma at_ready l r b : at_input l r b → ready l r.
Proof. intros (Hf & <- & _). split_and!; [by apply fresh_settled|apply Hf|by apply fresh_rest]. Qed.
Lemma handed_back_ready l r b : handed_back l r b → ready l r.
Proof. intros (Hs & Hc & Hr & _). done. Qed.

(** A lexer inside [scan] whose current character begins [s]. *)
Definition facing (l : lexer) (s : string) : Prop := fresh l ∧ current l = str_head s ∧ ia l = str_tail s.

Lemma get_facing l : settled l → facing (get l) (rest_of l).
Proof. intros Hs. destruct (get_spec l Hs) as (H1 & H2 & _ & H4). done. Qed.

(** ** White space *)

Fixpoint skip_white (s : string) : string :=
  match s with
  | String c rest => if is_whitespace c then skip_white rest else s
  | EmptyString => s
  end.

Lemma skip_white_split s : ∃ w, white w = true ∧ s = w +:+ skip_white s.
Proof.
  induction s as [|c s (w & Hw & Hs)]; [by exists ""|]. cbn. destruct (is_whitespace c) eqn:E.
  - exists (String c w). cbn. by rewrite E, <- Hs.
  - by exists "".
Qed.

Lemma skip_white_app w s : white w = true → skip_white (w +:+ s) = skip_white s.
Proof. induction w as [|c w IH]; cbn; [done|]. by intros [-> Hw]%andb_true_iff; apply IH. Qed.

Lemma whitespace_loop_spec fuel l :
  settled l → (String.length (rest_of l) < fuel)%nat → facing (whitespace_loop fuel l) (skip_white (rest_of l)).
Proof.
  revert l. induction fuel as [|fuel IH]; intros l Hs Hf; [lia|]. cbn [whitespace_loop].
  pose proof (get_facing l Hs) as (Hfr & Hc & Hi). rewrite Hc.
  destruct (rest_of l) as [|c r] eqn:Hr; cbn [str_head str_tail skip_white] in *; [done|].
  destruct (is_whitespace c); [|done]. rewrite <- Hi, <- fresh_rest by done. apply IH; [by apply fresh_settled|].
  rewrite fresh_rest, Hi by done. cbn in Hf. lia.
Qed.

Lemma skip_whitespace_spec l : settled l → facing (skip_whitespace l) (skip_white (rest_of l)).
Proof.
  intros Hs. apply whitespace_loop_spec; [done|]. unfold budget, rest_of.
  destruct (next_unget l), (current l); cbn; lia.
Qed.

(** A lexer about to skip white space in the input [r], and [scan] from there:
    all but the first scan of a lexer. *)
Definition paused (l : lexer) (r : string) : Prop := settled l ∧ rest_of l = r.
Definition scan_rest (l : lexer) : token_type * lexer := scan_token (skip_whitespace l).

Lemma scan_ready l r : ready l r → scan l = scan_rest l ∧ paused l r.
Proof.
  intros (Hs & Hc & Hr). split; [|done]. unfold scan, count in *.
  destruct (Z.eqb_spec (chars_read_total (position l)) 0); [lia|]. by unfold scan_rest.
Qed.

(** ** The lexemes *)

(** [s] is the text of the token [t] just scanned by [l]. *)
Definition token_text (t : token_type) (l : lexer) (s : string) : Prop :=
  match t with
  | begin_array => s = "["
  | end_array => s = "]"
  | begin_object => s = "{"
  | end_object => s = "}"
  | name_separator => s = ":"
  | value_separator => s = ","
  | literal_true => s = "true"
  | literal_false => s = "false"
  | literal_null => s = "null"
  | value_string => ∃ b, s = quoted b ∧ string_body b (token_buffer l)
  | value_unsigned | value_integer | value_float => s ≠ EmptyString ∧ ∀ j, token_json t l = Some j → number s j
  | _ => False
  end.

Lemma token_text_some t l s : token_text t l s → s ≠ EmptyString.
Proof. destruct t; cbn; try done; try (by intros ->); try (by intros [??]). by intros (b & -> & _). Qed.

Lemma literal_loop_sound s l r b l' :
  at_input l r b → literal_loop s l = (true, l') → ∃ r', r = s +:+ r' ∧ at_input l' r' b.
Proof.
  revert l r. induction s as [|c s IH]; intros l r Hl; cbn [literal_loop].
  - intros [= <-]. by exists r.
  - destruct (is_current c (get l)) eqn:E; [|done]. apply (get_is _ _ _ _ Hl) in E as (r1 & -> & Hl1).
    intros Hr. destruct (IH _ _ Hl1 Hr) as (r2 & -> & Hl2). by exists r2.
Qed.

Lemma literal_loop_complete s l r b :
  at_input l (s +:+ r) b → ∃ l', literal_loop s l = (true, l') ∧ at_input l' r b.
Proof.
  revert l. induction s as [|c s IH]; intros l Hl; cbn [literal_loop]; [by exists l|].
  cbn in Hl. apply get_this in Hl as [-> Hl]. by apply IH.
Qed.

Lemma scan_literal_sound s t l l' :
  fresh l → scan_literal s t l = (t, l') → t ≠ parse_error → ∃ r, ia l = s +:+ r ∧ ready l' r.
Proof.
  unfold scan_literal. intros Hf Hs Hne. destruct (literal_loop s l) as [[] l1] eqn:E; [|congruence].
  injection Hs as <-. destruct (literal_loop_sound s l (ia l) (token_buffer l) l1 (conj Hf (conj eq_refl eq_refl)) E)
    as (r & Hr & Hl1). exists r. split; [done|]. by eapply at_ready.
Qed.

Lemma scan_literal_token s t l t' l' : scan_literal s t l = (t', l') → t' = t ∨ t' = parse_error.
Proof. unfold scan_literal. destruct (literal_loop s l) as [[] ?]; intros [= <- _]; auto. Qed.

Lemma structural_text c t l : structural c = Some t → t = end_of_input ∧ c = "000"%char ∨ token_text t l (one c).
Proof.
  unfold structural. intros. repeat split_match; simplify_eq;
    match goal with H : (c =? _)%char = true |- _ => apply Ascii.eqb_eq in H as -> end; by (left + right).
Qed.

(** The character at which a token starts. *)
Lemma scan_token_sound l s t l' :
  facing l s → scan_token l = (t, l') → t ≠ parse_error →
  t = end_of_input ∧ ended s = true ∨ ∃ u r, s = u +:+ r ∧ token_text t l' u ∧ ready l' r.
Proof.
  intros (Hf & Hc & Hi) Ht Hne. unfold scan_token in Ht. rewrite Hc in Ht.
  destruct s as [|c s]; cbn in Hc, Hi; [injection Ht as <- <-; by left|]. cbn [str_head] in Ht.
  assert (∀ v t0, scan_literal v t0 l = (t, l') → t0 ≠ parse_error → token_text t0 l' (String c v) →
            ∃ u r, String c s = u +:+ r ∧ token_text t l' u ∧ ready l' r) as Hlit.
  { intros v t0 Hs Hne0 Htx. destruct (scan_literal_token _ _ _ _ _ Hs) as [->|]; [|done].
    destruct (scan_literal_sound _ _ _ _ Hf Hs Hne) as (r & Hr & Hl'). rewrite Hi in Hr.
    exists (String c v), r. by rewrite Hr. }
  destruct (structural c) as [t0|] eqn:Es.
  { injection Ht as <- <-. destruct (structural_text _ _ l Es) as [[-> ->]|Htx]; [by left|right].
    exists (one c), s. split_and!; [done..|]. rewrite <- Hi.
    by apply (at_ready l _ (token_buffer l)). }
  right. destruct (Ascii.eqb_spec c "t") as [->|_]; [by eapply Hlit|].
  destruct (Ascii.eqb_spec c "f") as [->|_]; [by eapply Hlit|].
  destruct (Ascii.eqb_spec c "n") as [->|_]; [by eapply Hlit|].
  destruct (Ascii.eqb_spec c quote) as [->|_].
  { assert (t = value_string) as ->.
    { destruct (string_loop_token _ _ _ _ _ _ (reset_at l Hf) Ht); done. }
    destruct (scan_string_sound _ _ Hf Ht) as (b & v & r & Hr & Hb & Hl'). rewrite Hi in Hr.
    exists (quoted b), r. split_and!; [unfold quoted; cbn; by rewrite Hr, <- string_app_assoc| |by eapply at_ready].
    destruct Hl' as (_ & _ & <-). by exists b. }
  destruct ((c =? "-")%char || is_digit c) eqn:En; [|unfold fail_with in Ht; congruence].
  destruct (scan_number_sound l c t l' Hf Hc En Ht Hne) as (v & r & Hr & Htn & Hb & Hj). rewrite Hi in Hr.
  exists (String c v), r. split_and!; [by rewrite Hr| |by eapply handed_back_ready]. by destruct t.
Qed.

Lemma scan_sound l r t l' : paused l r → scan_rest l = (t, l') → t ≠ parse_error →
  ∃ w s, white w = true ∧ r = w +:+ s ∧
    (t = end_of_input ∧ ended s = true ∨ ∃ u r', s = u +:+ r' ∧ token_text t l' u ∧ ready l' r').
Proof.
  intros (Hs & <-) Ht Hne.
  destruct (skip_white_split (rest_of l)) as (w & Hw & Heq). exists w, (skip_white (rest_of l)). split_and!; [done..|].
  by eapply scan_token_sound; [apply skip_whitespace_spec|..].
Qed.

(** ** Lexemes are scanned *)

(** A lexer that reaches [s] behind white space. *)
Lemma scan_at l w s : paused l (w +:+ s) → white w = true → skip_white s = s →
  ∃ l1, scan_rest l = scan_token l1 ∧ facing l1 s.
Proof.
  intros (Hs & Hr) Hw He. exists (skip_whitespace l). split; [done|].
  pose proof (skip_whitespace_spec l Hs) as Hf. by rewrite Hr, skip_white_app, He in Hf.
Qed.

Lemma scan_structural l w c t r :
  paused l (w +:+ String c r) → white w = true → structural c = Some t → ∃ l', scan_rest l = (t, l') ∧ ready l' r.
Proof.
  intros Hl Hw Hs. destruct (scan_at l w (String c r)) as (l1 & -> & Hf & Hc & Hi); [done..| |].
  { cbn. assert (is_whitespace c = false) as ->; [|done]. unfold structural, is_whitespace in *.
    repeat match type of Hs with context [(c =? ?d)%char] => destruct (Ascii.eqb_spec c d) as [->|]; [done|] end. done. }
  exists l1. unfold scan_token. rewrite Hc. cbn [str_head]. rewrite Hs. split; [done|].
  by apply (at_ready l1 r (token_buffer l1)).
Qed.

Lemma scan_end l w s : paused l (w +:+ s) → white w = true → ended s = true → ∃ l', scan_rest l = (end_of_input, l').
Proof.
  intros Hl Hw He. destruct (scan_at l w s) as (l1 & -> & Hf & Hc & Hi); [done..| |].
  { destruct s as [|c s]; [done|]. cbn in He. by apply Ascii.eqb_eq in He as ->. }
  exists l1. unfold scan_token. rewrite Hc. destruct s as [|c s]; [done|]. cbn in He. by apply Ascii.eqb_eq in He as ->.
Qed.

Lemma scan_quoted l w b v r :
  paused l (w +:+ quoted b +:+ r) → white w = true → string_body b v →
  ∃ l', scan_rest l = (value_string, l') ∧ token_buffer l' = v ∧ ready l' r.
Proof.
  intros Hl Hw Hb. unfold quoted in Hl. rewrite <- !string_app_assoc in Hl.
  destruct (scan_at l w (String quote (b +:+ String quote r))) as (l1 & -> & Hf & Hc & Hi); [done..|].
  destruct (scan_string_complete l1 b v r) as (l' & Hs & Hl'); [done..|]. exists l'.
  split_and!; [|apply Hl'|by eapply at_ready]. unfold scan_token. by rewrite Hc.
Qed.

(** A literal: its first character chooses the branch. *)
Definition literal_token (s : string) : option (token_type * json) :=
  if String.eqb s "true" then Some (literal_true, JBool true)
  else if String.eqb s "false" then Some (literal_false, JBool false)
  else if String.eqb s "null" then Some (literal_null, JNull) else None.

Lemma scan_literal_at l w s t j r :
  paused l (w +:+ s +:+ r) → white w = true → literal_token s = Some (t, j) →
  ∃ l', scan_rest l = (t, l') ∧ token_json t l' = Some j ∧ ready l' r.
Proof.
  intros Hl Hw Hs.
  assert (∃ c v, s = String c v ∧ is_whitespace c = false ∧
    (∀ l1, current l1 = Some c → scan_token l1 = scan_literal v t l1) ∧ ∀ l', token_json t l' = Some j) as (c & v & -> & Hcw & Hscan & Hj).
  { unfold literal_token in Hs. repeat match type of Hs with context [String.eqb s ?k] => destruct (String.eqb_spec s k) as [->|] end;
      simplify_eq; (eexists _, _; split_and!; [done..|intros l1 Hc; unfold scan_token; by rewrite Hc|done]). }
  destruct (scan_at l w (String c (v +:+ r))) as (l1 & -> & Hf & Hc & Hi); [done..|cbn; by rewrite Hcw|].
  rewrite Hscan by done. unfold scan_literal.
  destruct (literal_loop_complete v l1 r (token_buffer l1)) as (l' & -> & Hl'); [done|].
  exists l'. split_and!; [done|done|by eapply at_ready].
Qed.

Lemma starts_number_spec c : starts_number c = true →
  is_whitespace c = false ∧ structural c = None ∧ (c =? "t")%char = false ∧ (c =? "f")%char = false ∧
  (c =? "n")%char = false ∧ (c =? quote)%char = false.
Proof.
  intros Hc. assert (∀ d, starts_number d = false → (c =? d)%char = false) as Hd.
  { intros d Hd. apply Ascii.eqb_neq. intros ->. congruence. }
  unfold is_whitespace, structural. by rewrite !Hd.
Qed.

Lemma scan_number_at l w s j r :
  paused l (w +:+ s +:+ r) → white w = true → number s j → terminates r = true →
  ∃ t l', scan_rest l = (t, l') ∧ is_number_token t = true ∧ token_json t l' = Some j ∧ ready l' r.
Proof.
  intros Hl Hw Hn Hr. destruct s as [|c s].
  { destruct (number_parts _ _ Hn) as ([] & i & f & x & Heq & Hi & _); [done|]. by destruct i. }
  assert (starts_number c = true) as Hc.
  { destruct (number_parts _ _ Hn) as (negative & i & f & x & Heq & Hi & Hf & Hx & _). by eapply run_integer_part. }
  destruct (starts_number_spec c Hc) as (Hcw & Hst & H1 & H2 & H3 & H4).
  destruct (scan_at l w (String c (s +:+ r))) as (l1 & -> & Hf & Hcur & Hi); [done..|cbn; by rewrite Hcw|].
  destruct (scan_number_complete l1 c s r j Hf Hcur Hn Hi Hr) as (_ & t & l' & Hs & Ht & Hj & Hb).
  exists t, l'. split_and!; [|done..|by eapply handed_back_ready].
  unfold scan_token. rewrite Hcur. cbn [str_head]. rewrite Hst, H1, H2, H3, H4. unfold starts_number in Hc. by rewrite Hc.
Qed.

(** ** The first token *)

Lemma bom_bytes : bom = String (byte_of 0xEF) (String (byte_of 0xBB) (one (byte_of 0xBF))).
Proof. done. Qed.

Lemma get_code l c r : settled l → rest_of l = String c r →
  code (get l) = byte_value c ∧ fresh (get l) ∧ rest_of (get l) = r.
Proof.
  intros Hs Hr. destruct (get_cons l c r Hs Hr) as (Hc & Hi & _ & Hf). split_and!; [by apply code_current|done|].
  by rewrite fresh_rest.
Qed.

Lemma get_code_end l : settled l → rest_of l = EmptyString → code (get l) = -1.
Proof. intros Hs Hr. destruct (get_nil l Hs Hr) as (Hc & _). unfold code. by rewrite Hc. Qed.

(** One byte of the mark: it is there, or the code differs. *)
Lemma bom_byte l z : settled l → 0 ≤ z < 256 → code (get l) = z →
  ∃ r, rest_of l = String (byte_of z) r ∧ fresh (get l) ∧ rest_of (get l) = r.
Proof.
  intros Hs Hz Hc. destruct (rest_of l) as [|c r] eqn:Hr; [rewrite get_code_end in Hc by done; lia|].
  destruct (get_code l c r Hs Hr) as (Hcode & Hf & Hr'). exists r. split_and!; [|done..]. f_equal.
  by rewrite <- Hc, Hcode, byte_of_value.
Qed.

Lemma lexer_of_settled s : settled (lexer_of s) ∧ rest_of (lexer_of s) = s ∧ count (lexer_of s) = 0.
Proof. by split_and!. Qed.

Lemma unget_first s : settled (unget (get (lexer_of s))) ∧ rest_of (unget (get (lexer_of s))) = s.
Proof.
  unfold settled, rest_of, unget, get, lexer_of, get_character, is_current, count.
  destruct s as [|c s]; cbn -[newline]; [done|]. by destruct (c =? newline)%char; cbn.
Qed.

Definition starts_with_ef (s : string) : bool :=
  match s with String c _ => byte_value c =? 0xEF | EmptyString => false end.

(** No mark: the first scan reads from the start. *)
Lemma first_scan_plain s : starts_with_ef s = false →
  ∃ l, paused l s ∧ scan (lexer_of s) = scan_rest l.
Proof.
  intros Hs. pose proof (unget_first s) as Hu. destruct (lexer_of_settled s) as (Hset & Hr & Hz).
  revert Hu Hset Hr Hz. generalize (lexer_of s). intros l Hu Hset Hr Hz. exists (unget (get l)). split; [done|].
  assert ((code (get l) =? 0xEF) = false) as Hc.
  { destruct s as [|c s]; [by rewrite get_code_end|]. destruct (get_code l c s Hset Hr) as (-> & _). done. }
  unfold scan, skip_bom, count in *. rewrite Hz, Hc. change (0 =? 0) with true. cbv beta iota zeta. by unfold scan_rest.
Qed.

Lemma first_scan_bom s : ∃ l, paused l s ∧ scan (lexer_of (bom +:+ s)) = scan_rest l.
Proof.
  rewrite bom_bytes. cbn [String.append one].
  destruct (lexer_of_settled (String (byte_of 0xEF) (String (byte_of 0xBB) (String (byte_of 0xBF) s)))) as (Hs & Hr & Hz).
  revert Hs Hr Hz. generalize (lexer_of (String (byte_of 0xEF) (String (byte_of 0xBB) (String (byte_of 0xBF) s)))).
  intros l Hs Hr Hz. destruct (get_code l _ _ Hs Hr) as (H1 & Hf1 & Hr1).
  destruct (get_code (get l) _ _ (fresh_settled _ Hf1) Hr1) as (H2 & Hf2 & Hr2).
  destruct (get_code (get (get l)) _ _ (fresh_settled _ Hf2) Hr2) as (H3 & Hf3 & Hr3).
  exists (get (get (get l))). split; [split; [by apply fresh_settled|done]|].
  rewrite byte_value_of in H1, H2, H3 by lia. unfold scan, skip_bom, count in *. rewrite Hz, H1, H2, H3. change (0 =? 0) with true. change (0xEF =? 0xEF) with true.
  change (0xBB =? 0xBB) with true. change (0xBF =? 0xBF) with true. cbv beta iota zeta. by unfold scan_rest.
Qed.

Lemma first_scan_sound s t l' : scan (lexer_of s) = (t, l') → t ≠ parse_error →
  ∃ mark r l, (mark = EmptyString ∨ mark = bom) ∧ s = mark +:+ r ∧ paused l r ∧ scan_rest l = (t, l').
Proof.
  intros Ht Hne. destruct (starts_with_ef s) eqn:Hs.
  - destruct (lexer_of_settled s) as (Hset & Hr & Hz). revert Ht Hset Hr Hz. generalize (lexer_of s).
    intros l Ht Hset Hr Hz. unfold scan, skip_bom, count in *. rewrite Hz in Ht. cbn [Z.eqb] in Ht.
    destruct (Z.eqb_spec (code (get l)) 0xEF) as [H1|H1].
    2: { destruct s as [|c s]; [done|]. destruct (get_code l c s Hset Hr) as (Hc & _). cbn in Hs. apply Z.eqb_eq in Hs. congruence. }
    destruct (bom_byte _ 0xEF Hset ltac:(lia) H1) as (r1 & Hr1 & Hf1 & Hrest1).
    destruct (Z.eqb_spec (code (get (get l))) 0xBB) as [H2|]; [|unfold fail_with in Ht; congruence].
    destruct (bom_byte _ 0xBB (fresh_settled _ Hf1) ltac:(lia) H2) as (r2 & Hr2 & Hf2 & Hrest2).
    destruct (Z.eqb_spec (code (get (get (get l)))) 0xBF) as [H3|]; [|unfold fail_with in Ht; congruence].
    destruct (bom_byte _ 0xBF (fresh_settled _ Hf2) ltac:(lia) H3) as (r3 & Hr3 & Hf3 & Hrest3).
    exists bom, r3, (get (get (get l))). split_and!; [auto| |split; [by apply fresh_settled|done]|done].
    rewrite bom_bytes. cbn [String.append one]. congruence.
  - destruct (first_scan_plain s Hs) as (l & Hl & Heq). exists "", s, l. rewrite <- Heq. auto.
Qed.
