(* ===== verification/JsonParsing.v ===== *)
(** * The parser accepts the grammar

    Termination of the loop, and that the texts of the grammar are parsed to
    the documents they denote.  [leads] is the loop without fuel; a value of
    the grammar leads from the round in which it begins to the part of the
    loop that follows a value, with the value handed to the handler. *)

From S2P Require Import Prelude.
From S2P Require Import Text.
From S2P Require Import Json.
From S2P Require Import JsonLexer.
From S2P Require Import JsonParser.
From S2P Require Import JsonGrammar.
From S2P Require Import JsonScanning.
From S2P Require Import JsonNumbers.
From S2P Require Import JsonTokens.

Open Scope Z_scope.

(** The parser that has scanned the next token. *)
Definition next (l : lexer) : parser := let '(t, l') := scan_rest l in mkParser t l'.

Lemma get_token_ready p r : ready (m_lexer p) r → get_token p = next (m_lexer p) ∧ paused (m_lexer p) r.
Proof. intros Hr. destruct (scan_ready _ _ Hr) as [Hs Hp]. split; [|done]. unfold get_token, next. by rewrite Hs. Qed.

(** A parser whose token ends the loop in the next round. *)
Definition stuck (p : parser) : bool :=
  match last_token p with parse_error | end_of_input => true | _ => false end.

(** The token of a parser at [r], read from the input before it. *)
Lemma next_sound l r : paused l r → stuck (next l) = true ∨
  ∃ w u r', white w = true ∧ r = w +:+ u +:+ r' ∧ token_text (last_token (next l)) (m_lexer (next l)) u ∧
    ready (m_lexer (next l)) r'.
Proof.
  intros Hl. unfold next. destruct (scan_rest l) as [t l'] eqn:E. cbn.
  destruct (decide (t = parse_error)) as [->|Hne]; [by left|].
  destruct (scan_sound l r t l' Hl E Hne) as (w & s & Hw & -> & [[-> _]|(u & r' & -> & Ht & Hr)]); [by left|right].
  exists w, u, r'. done.
Qed.

(** ** Termination *)

(** A round of the loop that follows reads a token that takes a character. *)
Definition loop_ready (s : loop_state) : Prop :=
  if stuck (loop_parser s) then skip_to_state_evaluation s = false
  else ready (m_lexer (loop_parser s)) (rest_of (m_lexer (loop_parser s))).
Definition measure (s : loop_state) : nat :=
  if stuck (loop_parser s) then 0 else S (String.length (rest_of (m_lexer (loop_parser s)))).

Lemma ready_rest l r : ready l r → ready l (rest_of l) ∧ rest_of l = r.
Proof. intros (Hs & Hc & Hr). by split_and!. Qed.

(** Reading a token: the parser is stuck, or closer to the end. *)
Lemma get_token_shorter p n :
  ready (m_lexer p) (rest_of (m_lexer p)) → (String.length (rest_of (m_lexer p)) ≤ n)%nat →
  stuck (get_token p) = true ∨
  ready (m_lexer (get_token p)) (rest_of (m_lexer (get_token p))) ∧ (String.length (rest_of (m_lexer (get_token p))) < n)%nat.
Proof.
  intros Hr Hn. destruct (get_token_ready _ _ Hr) as [-> Hp].
  destruct (next_sound _ _ Hp) as [|(w & u & r' & _ & Heq & Ht & Hr')]; [by left|right].
  destruct (ready_rest _ _ Hr') as [Hr'' ->]. split; [done|].
  apply token_text_some in Ht. rewrite Heq, !string_length_app in Hn. destruct u; [done|]. cbn in Hn. lia.
Qed.

Lemma loop_ready_not_stuck p sts skip sax n :
  ready (m_lexer p) (rest_of (m_lexer p)) → (String.length (rest_of (m_lexer p)) < n)%nat → stuck p = false ∨ skip = false →
  loop_ready (mkLoop p sts skip sax) ∧ (measure (mkLoop p sts skip sax) < S n)%nat.
Proof.
  intros Hr Hn Hs. unfold loop_ready, measure. cbn. destruct (stuck p); [|split; [done|lia]]. split; [naive_solver|lia].
Qed.

Lemma loop_ready_get p sts sax n :
  ready (m_lexer p) (rest_of (m_lexer p)) → (String.length (rest_of (m_lexer p)) ≤ n)%nat →
  loop_ready (mkLoop (get_token p) sts false sax) ∧ (measure (mkLoop (get_token p) sts false sax) < S n)%nat.
Proof.
  intros Hr Hn. destruct (get_token_shorter p n Hr Hn) as [Hs|[Hr' Hn']].
  - unfold loop_ready, measure. cbn. rewrite Hs. split; [done|lia].
  - apply loop_ready_not_stuck; auto.
Qed.

(** What a round may continue with, given [n] characters before it. *)
Definition continues_within (n : nat) (o : loop_next) : Prop :=
  ∀ s, o = Continue s → loop_ready s ∧ (measure s < S n)%nat.

Lemma stuck_token p t : last_token p = t → t ≠ parse_error → t ≠ end_of_input → stuck p = false.
Proof. unfold stuck. intros ->. by destruct t. Qed.

Lemma parse_member_continues p sts sax n :
  stuck p = false → ready (m_lexer p) (rest_of (m_lexer p)) → (String.length (rest_of (m_lexer p)) ≤ n)%nat →
  continues_within n (parse_member p sts sax).
Proof.
  intros Hs Hr Hn s. unfold parse_member. destruct (last_token p); try done.
  destruct (get_token_shorter p n Hr Hn) as [Hst|[Hr' Hn']].
  - unfold stuck in Hst. destruct (last_token (get_token p)); done.
  - destruct (last_token (get_token p)); try done. intros [= <-]. apply loop_ready_get; [done|lia].
Qed.

Lemma state_evaluation_continues p sts sax n :
  ready (m_lexer p) (rest_of (m_lexer p)) → (String.length (rest_of (m_lexer p)) ≤ n)%nat →
  continues_within n (state_evaluation p sts sax).
Proof.
  intros Hr Hn s. unfold state_evaluation. destruct sts as [|[] sts]; [done|..];
    (destruct (get_token_shorter p n Hr Hn) as [Hst|[Hr' Hn']];
      [unfold stuck in Hst; destruct (last_token (get_token p)); done|]);
    destruct (last_token (get_token p)) eqn:Et; try done.
  - intros [= <-]. apply loop_ready_not_stuck; [done..|]. left. by eapply stuck_token.
  - intros [= <-]. apply loop_ready_get; [done|lia].
  - intros [= <-]. apply loop_ready_not_stuck; [done..|]. left. by eapply stuck_token.
  - destruct (get_token_shorter (get_token p) n Hr' ltac:(lia)) as [Hst|[Hr2 Hn2]].
    + unfold parse_member, stuck in *. destruct (last_token (get_token (get_token p))); done.
    + destruct (stuck (get_token (get_token p))) eqn:Hst.
      * unfold parse_member, stuck in *. destruct (last_token (get_token (get_token p))); done.
      * apply parse_member_continues; [done..|lia].
Qed.

Lemma iteration_continues s s' :
  loop_ready s → iteration s = Continue s' → loop_ready s' ∧ (measure s' < measure s)%nat.
Proof.
  destruct s as [p sts skip sax]. unfold loop_ready, measure. cbn [loop_parser skip_to_state_evaluation].
  destruct (stuck p) eqn:Hst.
  { intros ->. unfold iteration, stuck in *. destruct (last_token p); try done. destruct (_ =? 1); done. }
  intros Hr Hi. pose proof (λ sax, state_evaluation_continues p sts sax _ Hr (le_n _)) as Heval.
  unfold iteration in Hi. destruct skip; [by eapply Heval|].
  unfold stuck in Hst. destruct (last_token p); try done; try (by eapply Heval).
  - destruct (number_float (m_lexer p)); [by eapply Heval|done].
  - destruct (get_token_shorter p _ Hr (le_n _)) as [Hst'|[Hr' Hn']].
    + unfold stuck in Hst'. destruct (last_token (get_token p)) eqn:Et; try done; injection Hi as <-;
        unfold loop_ready, measure, stuck; cbn; rewrite Et; (split; [done|lia]).
    + destruct (last_token (get_token p)) eqn:Et;
        try (injection Hi as <-; apply loop_ready_not_stuck; auto).
      eapply state_evaluation_continues; [done| |exact Hi]; lia.
  - destruct (get_token_shorter p _ Hr (le_n _)) as [Hst'|[Hr' Hn']].
    + unfold parse_member, stuck in *. destruct (last_token (get_token p)); done.
    + destruct (stuck (get_token p)) eqn:Hst'.
      * unfold parse_member, stuck in *. destruct (last_token (get_token p)); done.
      * assert (Hm := parse_member_continues (get_token p) (false :: sts) (start_object sax) _ Hst' Hr' (Nat.lt_le_incl _ _ Hn')).
        destruct (last_token (get_token p)); try (by eapply Hm).
        eapply state_evaluation_continues; [done| |exact Hi]; lia.
Qed.

Lemma loop_total fuel s : loop_ready s → (measure s < fuel)%nat → is_Some (sax_parse_internal fuel s).
Proof.
  revert s. induction fuel as [|fuel IH]; intros s Hs Hf; [lia|]. cbn.
  destruct (iteration s) as [s'| |] eqn:E; [|by eexists..].
  destruct (iteration_continues s s' Hs E) as [Hs' Hm]. apply IH; [done|lia].
Qed.

Lemma loop_more fuel fuel' s r :
  sax_parse_internal fuel s = Some r → (fuel ≤ fuel')%nat → sax_parse_internal fuel' s = Some r.
Proof.
  revert fuel' s. induction fuel as [|fuel IH]; intros [|fuel'] s; cbn; try done; [lia|].
  destruct (iteration s); [|done..]. intros Hr Hf. apply IH; [done|lia].
Qed.

(** The fuel of [run_parser] is enough for any text. *)
Lemma parser_of_ready s :
  loop_ready (mkLoop (parser_of s) [] false (mkSax JNull [])) ∧
  (measure (mkLoop (parser_of s) [] false (mkSax JNull [])) < parse_fuel s)%nat.
Proof.
  unfold parser_of, get_token. cbn [m_lexer]. destruct (scan (lexer_of s)) as [t l'] eqn:E.
  unfold loop_ready, measure. cbn [loop_parser skip_to_state_evaluation m_lexer].
  destruct (stuck (mkParser t l')) eqn:Hst; [split; [done|unfold parse_fuel; lia]|].
  destruct (decide (t = parse_error)) as [->|Hne]; [done|].
  destruct (first_scan_sound s t l' E Hne) as (mark & r & l & _ & -> & Hl & Hs).
  destruct (next_sound l r Hl) as [Hn|(w & u & r' & _ & -> & Ht & Hr)]; unfold next in *; rewrite Hs in *; cbn in *; [congruence|].
  destruct (ready_rest _ _ Hr) as [Hr' ->]. split; [done|]. unfold parse_fuel. rewrite !string_length_app. lia.
Qed.

Lemma run_parser_total s : is_Some (run_parser s).
Proof.
  destruct (parser_of_ready s) as [Hr Hm]. destruct (loop_total _ _ Hr Hm) as [[[p sax]|e] Hl];
    unfold run_parser; rewrite Hl; by eexists.
Qed.

(** ** The loop without fuel *)

Inductive leads : loop_next → loop_next → Prop :=
  | leads_refl o : leads o o
  | leads_step s o : leads (iteration s) o → leads (Continue s) o.

Lemma leads_trans o1 o2 o3 : leads o1 o2 → leads o2 o3 → leads o1 o3.
Proof. induction 1; [done|]. intros. by apply leads_step, IHleads. Qed.

(** One round, then more. *)
Lemma leads_round s o1 o2 : iteration s = o1 → leads o1 o2 → leads (Continue s) o2.
Proof. intros <-. apply leads_step. Qed.

Lemma leads_loop s p sax : leads (Continue s) (Return p sax) → ∃ fuel, sax_parse_internal fuel s = Some (Ok (p, sax)).
Proof.
  intros Hl. remember (Continue s) as o eqn:Ho. remember (Return p sax) as o' eqn:Ho'. revert s Ho.
  induction Hl as [|s' o Hl IH]; intros s Ho; subst; [done|]. injection Ho as ->.
  destruct (iteration s) as [s'|p' sax'|e] eqn:E.
  - destruct (IH eq_refl s' eq_refl) as [fuel Hf]. exists (S fuel). cbn. by rewrite E.
  - inversion Hl; subst. exists 1%nat. cbn. by rewrite E.
  - inversion Hl.
Qed.

Lemma leads_parser s p sax :
  leads (Continue (mkLoop (parser_of s) [] false (mkSax JNull []))) (Return p sax) →
  sax_parse_internal (parse_fuel s) (mkLoop (parser_of s) [] false (mkSax JNull [])) = Some (Ok (p, sax)).
Proof.
  intros [fuel Hf]%leads_loop. destruct (parser_of_ready s) as [Hr Hm]. destruct (loop_total _ _ Hr Hm) as [r Hl].
  pose proof (loop_more _ (Nat.max fuel (parse_fuel s)) _ _ Hf ltac:(lia)) as H1.
  pose proof (loop_more _ (Nat.max fuel (parse_fuel s)) _ _ Hl ltac:(lia)) as H2. congruence.
Qed.

(** ** The handler *)

Lemma set_member_again k v w ms : set_member k v (set_member k w ms) = set_member k v ms.
Proof.
  assert (∀ a, String.compare a a = Eq) as Hrefl.
  { intros a. pose proof (String.compare_antisym a a) as Ha. by destruct (String.compare a a). }
  induction ms as [|[k1 u] ms IH]; cbn; [by rewrite Hrefl|]. destruct (String.compare k k1) eqn:E; cbn.
  - by rewrite E.
  - by rewrite Hrefl.
  - by rewrite E, IH.
Qed.

Lemma sax_key_value k v ms k0 outer rt :
  handle_value v (sax_key k (mkSax rt (OpenObject ms k0 :: outer))) = mkSax rt (OpenObject (set_member k v ms) (Some k) :: outer).
Proof. cbn. destruct (member k ms); [done|]. by rewrite set_member_again. Qed.

(** ** Values *)

(** A token that is a value by itself. *)
Lemma iteration_scalar t l j sts sax :
  token_json t l = Some j →
  iteration (mkLoop (mkParser t l) sts false sax) = state_evaluation (mkParser t l) sts (handle_value j sax).
Proof. destruct t; cbn; try done; [congruence..|]. destruct (number_float l); [congruence|done]. Qed.

(** The token at which a value begins. *)
Definition begins_value (t : token_type) : bool :=
  match t with
  | literal_true | literal_false | literal_null | value_string | value_unsigned | value_integer | value_float
  | begin_array | begin_object => true
  | _ => false
  end.

Lemma next_scan l t l' : scan_rest l = (t, l') → next l = mkParser t l'.
Proof. unfold next. by intros ->. Qed.

(** A value that is one token. *)
Lemma scalar_token l w t j r :
  paused l (w +:+ t +:+ r) → white w = true → terminates r = true →
  (∃ tok, literal_token t = Some (tok, j)) ∨ number t j ∨ (∃ b s, t = quoted b ∧ j = JString s ∧ string_body b s) →
  ∃ tok l', next l = mkParser tok l' ∧ begins_value tok = true ∧ token_json tok l' = Some j ∧ ready l' r.
Proof.
  intros Hl Hw Hr [[tok Ht]|[Hn|(b & s & -> & -> & Hb)]].
  - destruct (scan_literal_at l w t tok j r Hl Hw Ht) as (l' & Hs & Hj & Hl'). exists tok, l'.
    split_and!; [by apply next_scan| |done..]. unfold literal_token in Ht. repeat split_match; by simplify_eq.
  - destruct (scan_number_at l w t j r Hl Hw Hn Hr) as (tok & l' & Hs & Htok & Hj & Hl'). exists tok, l'.
    split_and!; [by apply next_scan|by destruct tok|done..].
  - destruct (scan_quoted l w b s r Hl Hw Hb) as (l' & Hs & Hv & Hl'). exists value_string, l'.
    split_and!; [by apply next_scan|done|cbn; by rewrite Hv|done].
Qed.

Lemma structural_token l w c t r :
  paused l (w +:+ String c r) → white w = true → structural c = Some t →
  ∃ l', next l = mkParser t l' ∧ ready l' r.
Proof.
  intros Hl Hw Hc. destruct (scan_structural l w c t r Hl Hw Hc) as (l' & Hs & Hl'). exists l'.
  split; [by apply next_scan|done].
Qed.

(** Reading on after a value. *)
Lemma structural_next p w c t r :
  ready (m_lexer p) (w +:+ String c r) → white w = true → structural c = Some t →
  ∃ l', get_token p = mkParser t l' ∧ ready l' r.
Proof. intros Hp Hw Hc. destruct (get_token_ready _ _ Hp) as [-> Hl]. by eapply structural_token. Qed.

Lemma white_app w1 w2 : white (w1 +:+ w2) = white w1 && white w2.
Proof. induction w1 as [|c w1 IH]; cbn; [done|]. by rewrite IH, andb_assoc. Qed.

Lemma terminates_white w r : white w = true → terminates r = true → terminates (w +:+ r) = true.
Proof. destruct w as [|c w]; [done|]. cbn. by intros [-> _]%andb_true_iff. Qed.

Definition leads_value (t : string) (j : json) : Prop := ∀ l w r sts sax,
  paused l (w +:+ t +:+ r) → white w = true → terminates r = true →
  begins_value (last_token (next l)) = true ∧
  ∃ p, ready (m_lexer p) r ∧
    leads (Continue (mkLoop (next l) sts false sax)) (state_evaluation p sts (handle_value j sax)).

Definition leads_elements (t : string) (es : list json) : Prop := ∀ l r sts rt read outer,
  paused l (t +:+ String "]" r) →
  begins_value (last_token (next l)) = true ∧
  ∃ p, ready (m_lexer p) r ∧
    leads (Continue (mkLoop (next l) (true :: sts) false (mkSax rt (OpenArray read :: outer))))
      (Continue (mkLoop p sts true (handle_value (JArray (read ++ es)) (mkSax rt outer)))).

Definition leads_member (m : string) (k : string) (j : json) : Prop := ∀ l r sts rt ms k0 outer,
  paused l (m +:+ r) → terminates r = true →
  last_token (next l) = value_string ∧
  ∃ p w, white w = true ∧ ready (m_lexer p) (w +:+ r) ∧
    leads (parse_member (next l) sts (mkSax rt (OpenObject ms k0 :: outer)))
      (state_evaluation p sts (mkSax rt (OpenObject (set_member k j ms) (Some k) :: outer))).

Definition leads_members (t : string) (kvs : list (string * json)) : Prop := ∀ l r sts rt ms k0 outer,
  paused l (t +:+ String "}" r) →
  last_token (next l) = value_string ∧
  ∃ p, ready (m_lexer p) r ∧
    leads (parse_member (next l) (false :: sts) (mkSax rt (OpenObject ms k0 :: outer)))
      (Continue (mkLoop p sts true (handle_value (JObject (set_members kvs ms)) (mkSax rt outer)))).

Lemma leads_scalar t j :
  (∃ tok, literal_token t = Some (tok, j)) ∨ number t j ∨ (∃ b s, t = quoted b ∧ j = JString s ∧ string_body b s) →
  leads_value t j.
Proof.
  intros Ht l w r sts sax Hl Hw Hr. destruct (scalar_token l w t j r Hl Hw Hr Ht) as (tok & l' & -> & Hb & Hj & Hl').
  split; [done|]. exists (mkParser tok l'). split; [done|].
  eapply leads_round; [by apply iteration_scalar|apply leads_refl].
Qed.

Lemma end_array_value rt es outer : end_container (mkSax rt (OpenArray es :: outer)) = handle_value (JArray es) (mkSax rt outer).
Proof. done. Qed.
Lemma end_object_value rt ms k outer :
  end_container (mkSax rt (OpenObject ms k :: outer)) = handle_value (JObject ms) (mkSax rt outer).
Proof. done. Qed.

(** The container in whose state a value was closed goes on with the state
    around it. *)
Lemma leads_closed p sts sax : leads (Continue (mkLoop p sts true sax)) (state_evaluation p sts sax).
Proof. by eapply leads_round; [|apply leads_refl]. Qed.

Lemma leads_empty_array w : white w = true → leads_value ("[" +:+ w +:+ "]") (JArray []).
Proof.
  intros Hwa l w0 r sts [rt stack] Hl Hw Hr. rewrite <- string_app_assoc in Hl. cbn in Hl.
  destruct (structural_token l w0 "[" begin_array _ Hl Hw) as (l1 & -> & Hl1); [done|]. split; [done|].
  rewrite <- string_app_assoc in Hl1. cbn in Hl1.
  destruct (structural_next (mkParser begin_array l1) w "]" end_array r) as (l2 & Hn & Hl2); [done..|].
  exists (mkParser end_array l2). split; [done|]. eapply leads_round; [|apply leads_refl]. cbn [iteration last_token].
  by rewrite Hn.
Qed.

Lemma leads_array t es : leads_elements t es → leads_value ("[" +:+ t +:+ "]") (JArray es).
Proof.
  intros He l w0 r sts [rt stack] Hl Hw Hr. rewrite <- string_app_assoc in Hl. cbn in Hl.
  destruct (structural_token l w0 "[" begin_array _ Hl Hw) as (l1 & -> & Hl1); [done|]. split; [done|].
  rewrite <- string_app_assoc in Hl1. cbn in Hl1.
  destruct (get_token_ready (mkParser begin_array l1) _ Hl1) as [Hn Hl2]. cbn [m_lexer] in Hn, Hl2.
  destruct (He l1 r sts rt [] stack Hl2) as (Hb & p & Hp & Hlead). exists p. split; [done|].
  eapply leads_round with (o1 := Continue (mkLoop (next l1) (true :: sts) false (mkSax rt (OpenArray [] :: stack)))).
  - cbn [iteration last_token]. rewrite Hn. by destruct (last_token (next l1)).
  - eapply leads_trans; [exact Hlead|]. apply leads_closed.
Qed.

Lemma leads_last_element w t w' j : white w = true → leads_value t j → white w' = true → leads_elements (w +:+ t +:+ w') [j].
Proof.
  intros Hw Hv Hw' l r sts rt read outer Hl. rewrite <- !string_app_assoc in Hl.
  destruct (Hv l w (w' +:+ String "]" r) (true :: sts) (mkSax rt (OpenArray read :: outer)) Hl Hw) as (Hb & p & Hp & Hlead);
    [by apply terminates_white|]. split; [done|].
  destruct (structural_next p w' "]" end_array r Hp Hw') as (l' & Hn & Hl'); [done|].
  exists (mkParser end_array l'). split; [done|]. eapply leads_trans; [exact Hlead|].
  cbn [state_evaluation handle_value ref_stack root]. rewrite Hn. cbn [last_token]. rewrite end_array_value. apply leads_refl.
Qed.

Lemma leads_more_elements w t w' j rest es :
  white w = true → leads_value t j → white w' = true → leads_elements rest es →
  leads_elements (w +:+ t +:+ w' +:+ "," +:+ rest) (j :: es).
Proof.
  intros Hw Hv Hw' He l r sts rt read outer Hl. rewrite <- !string_app_assoc in Hl. cbn in Hl.
  destruct (Hv l w (w' +:+ String "," (rest +:+ String "]" r)) (true :: sts) (mkSax rt (OpenArray read :: outer)) Hl Hw)
    as (Hb & p & Hp & Hlead); [by apply terminates_white|]. split; [done|].
  destruct (structural_next p w' "," value_separator _ Hp Hw') as (l' & Hn & Hl'); [done|].
  destruct (get_token_ready (mkParser value_separator l') _ Hl') as [Hn' Hp']. cbn [m_lexer] in Hn', Hp'.
  destruct (He l' r sts rt (read ++ [j]) outer Hp') as (_ & p2 & Hp2 & Hlead2). exists p2. split; [done|].
  eapply leads_trans; [exact Hlead|]. cbn [state_evaluation handle_value ref_stack root]. rewrite Hn. cbn [last_token].
  rewrite Hn'. by rewrite <- app_assoc in Hlead2.
Qed.

Lemma leads_empty_object w : white w = true → leads_value ("{" +:+ w +:+ "}") (JObject []).
Proof.
  intros Hwa l w0 r sts [rt stack] Hl Hw Hr. rewrite <- string_app_assoc in Hl. cbn in Hl.
  destruct (structural_token l w0 "{" begin_object _ Hl Hw) as (l1 & -> & Hl1); [done|]. split; [done|].
  rewrite <- string_app_assoc in Hl1. cbn in Hl1.
  destruct (structural_next (mkParser begin_object l1) w "}" end_object r) as (l2 & Hn & Hl2); [done..|].
  exists (mkParser end_object l2). split; [done|]. eapply leads_round; [|apply leads_refl]. cbn [iteration last_token].
  by rewrite Hn.
Qed.

Lemma leads_object t kvs : leads_members t kvs → leads_value ("{" +:+ t +:+ "}") (JObject (set_members kvs [])).
Proof.
  intros Hm l w0 r sts [rt stack] Hl Hw Hr. rewrite <- string_app_assoc in Hl. cbn in Hl.
  destruct (structural_token l w0 "{" begin_object _ Hl Hw) as (l1 & -> & Hl1); [done|]. split; [done|].
  rewrite <- string_app_assoc in Hl1. cbn in Hl1.
  destruct (get_token_ready (mkParser begin_object l1) _ Hl1) as [Hn Hl2]. cbn [m_lexer] in Hn, Hl2.
  destruct (Hm l1 r sts rt [] None stack Hl2) as (Hb & p & Hp & Hlead). exists p. split; [done|].
  eapply leads_round with (o1 := parse_member (next l1) (false :: sts) (mkSax rt (OpenObject [] None :: stack))).
  - cbn [iteration last_token]. by rewrite Hn, Hb.
  - eapply leads_trans; [exact Hlead|]. apply leads_closed.
Qed.

Lemma leads_last_member m k j : leads_member m k j → leads_members m [(k, j)].
Proof.
  intros Hm l r sts rt ms k0 outer Hl.
  destruct (Hm l (String "}" r) (false :: sts) rt ms k0 outer Hl) as (Hb & p & w & Hw & Hp & Hlead); [done|].
  split; [done|]. destruct (structural_next p w "}" end_object r Hp Hw) as (l' & Hn & Hl'); [done|].
  exists (mkParser end_object l'). split; [done|]. eapply leads_trans; [exact Hlead|].
  cbn [state_evaluation]. rewrite Hn. cbn [last_token]. rewrite end_object_value. apply leads_refl.
Qed.

Lemma leads_more_members m k j rest kvs :
  leads_member m k j → leads_members rest kvs → leads_members (m +:+ "," +:+ rest) ((k, j) :: kvs).
Proof.
  intros Hm Hms l r sts rt ms k0 outer Hl. rewrite <- !string_app_assoc in Hl. cbn in Hl.
  destruct (Hm l (String "," (rest +:+ String "}" r)) (false :: sts) rt ms k0 outer Hl) as (Hb & p & w & Hw & Hp & Hlead);
    [done|]. split; [done|]. destruct (structural_next p w "," value_separator _ Hp Hw) as (l' & Hn & Hl'); [done|].
  destruct (get_token_ready (mkParser value_separator l') _ Hl') as [Hn' Hp']. cbn [m_lexer] in Hn', Hp'.
  destruct (Hms l' r sts rt (set_member k j ms) (Some k) outer Hp') as (_ & p2 & Hp2 & Hlead2). exists p2. split; [done|].
  eapply leads_trans; [exact Hlead|]. cbn [state_evaluation]. rewrite Hn. cbn [last_token]. rewrite Hn'. exact Hlead2.
Qed.

Lemma leads_member_intro w b k w1 w2 t w3 j :
  white w = true → string_body b k → white w1 = true → white w2 = true → leads_value t j → white w3 = true →
  leads_member (w +:+ quoted b +:+ w1 +:+ ":" +:+ w2 +:+ t +:+ w3) k j.
Proof.
  intros Hw Hb Hw1 Hw2 Hv Hw3 l r sts rt ms k0 outer Hl Hr. rewrite <- !string_app_assoc in Hl. cbn in Hl.
  destruct (scan_quoted l w b k _ Hl Hw Hb) as (l1 & Hs & Hk & Hl1). rewrite (next_scan _ _ _ Hs). split; [done|].
  destruct (structural_next (mkParser value_string l1) w1 ":" name_separator _ Hl1 Hw1) as (l2 & Hn & Hl2); [done|].
  destruct (get_token_ready (mkParser name_separator l2) _ Hl2) as [Hn' Hp']. cbn [m_lexer] in Hn', Hp'.
  destruct (Hv l2 w2 (w3 +:+ r) sts (sax_key k (mkSax rt (OpenObject ms k0 :: outer))) Hp' Hw2) as (_ & p & Hp & Hlead);
    [by apply terminates_white|]. exists p, w3. split_and!; [done..|].
  rewrite sax_key_value in Hlead. unfold parse_member. cbn [last_token m_lexer]. rewrite Hn, Hk. cbn [last_token].
  rewrite Hn'. exact Hlead.
Qed.

(** Every value of the grammar is read. *)
Lemma grammar_leads :
  (∀ t j, value t j → leads_value t j) ∧ (∀ t es, elements t es → leads_elements t es) ∧
  (∀ t kvs, members t kvs → leads_members t kvs) ∧ (∀ m k j, member_text m k j → leads_member m k j).
Proof.
  apply grammar_ind; intros; try (apply leads_scalar; first [by left; eexists|by right; left|by right; right; eexists _, _]).
  - by apply leads_empty_array.
  - by apply leads_array.
  - by apply leads_empty_object.
  - by apply leads_object.
  - by apply leads_last_element.
  - by apply leads_more_elements.
  - by apply leads_last_member.
  - by apply leads_more_members.
  - by apply leads_member_intro.
Qed.
