(* ===== verification/JsonSoundness.v ===== *)
(** * What the parser accepts is in the grammar

    The invariant of the loop: the text consumed so far is the beginning of a
    document, of which [states] and [ref_stack] hold the open containers.  A
    round keeps it, so that the loop returns only behind a whole value.  With
    [JsonParsing] this makes the parser exact. *)

From S2P Require Import Prelude.
From S2P Require Import Text.
From S2P Require Import Json.
From S2P Require Import JsonLexer.
From S2P Require Import JsonParser.
From S2P Require Import JsonGrammar.
From S2P Require Import JsonScanning.
From S2P Require Import JsonNumbers.
From S2P Require Import JsonTokens.
From S2P Require Import JsonParsing.

Open Scope Z_scope.

(** ** Open containers *)

(** The elements of an array up to a separator, and the members of an
    object. *)
Inductive array_prefix : string → list json → Prop :=
  | array_prefix_nil : array_prefix "" []
  | array_prefix_more t es w u j w' :
      array_prefix t es → white w = true → value u j → white w' = true →
      array_prefix (t +:+ w +:+ u +:+ w' +:+ ",") (es ++ [j]).

Inductive object_prefix : string → list (string * json) → Prop :=
  | object_prefix_nil : object_prefix "" []
  | object_prefix_more t kvs m k j :
      object_prefix t kvs → member_text m k j → object_prefix (t +:+ m +:+ ",") (kvs ++ [(k, j)]).

(** Normalises the association of concatenations. *)
Ltac assoc :=
  unfold quoted, one; repeat first [progress rewrite <- !string_app_assoc|progress cbn [String.append]]; rewrite ?string_app_nil.

Lemma array_prefix_elements t es s fs :
  array_prefix t es → elements s fs → elements (t +:+ s) (es ++ fs).
Proof.
  intros Hp. revert s fs. induction Hp as [|t es w u j w' Hp IH Hw Hv Hw']; intros s fs Hs; [done|].
  rewrite <- !string_app_assoc, <- app_assoc. apply IH. by constructor.
Qed.

Lemma object_prefix_members t kvs s fs :
  object_prefix t kvs → members s fs → members (t +:+ s) (kvs ++ fs).
Proof.
  intros Hp. revert s fs. induction Hp as [|t kvs m k j Hp IH Hm]; intros s fs Hs; [done|].
  rewrite <- !string_app_assoc, <- app_assoc. apply IH. by constructor.
Qed.

(** [t] is the text before a value, read into [sts] and [sax]. *)
Inductive expecting : string → list bool → json_sax_dom_parser → Prop :=
  | expecting_root rt : expecting "" [] (mkSax rt [])
  | expecting_element t sts rt outer w u es :
      expecting t sts (mkSax rt outer) → white w = true → array_prefix u es →
      expecting (t +:+ w +:+ "[" +:+ u) (true :: sts) (mkSax rt (OpenArray es :: outer))
  | expecting_member t sts rt outer w u kvs w0 b k w1 :
      expecting t sts (mkSax rt outer) → white w = true → object_prefix u kvs →
      white w0 = true → string_body b k → white w1 = true →
      expecting (t +:+ w +:+ "{" +:+ u +:+ w0 +:+ quoted b +:+ w1 +:+ ":") (false :: sts)
        (sax_key k (mkSax rt (OpenObject (set_members kvs []) None :: outer))).

(** [t] is the text up to the end of a value. *)
Definition evaluated (t : string) (sts : list bool) (sax : json_sax_dom_parser) : Prop :=
  ∃ t0 w u j sax0, expecting t0 sts sax0 ∧ white w = true ∧ value u j ∧ t = t0 +:+ w +:+ u ∧ sax = handle_value j sax0.

(** ** The invariant *)

(** The parser has scanned a token [u] behind [t] and stands at [r]. *)
Definition token_at (p : parser) (s t : string) : Prop :=
  stuck p = true ∨ ∃ w u r, s = t +:+ w +:+ u +:+ r ∧ white w = true ∧
    token_text (last_token p) (m_lexer p) u ∧ ready (m_lexer p) r.

Definition loop_invariant (s : string) (st : loop_state) : Prop :=
  let 'mkLoop p sts skip sax := st in
  if skip then ∃ t r, s = t +:+ r ∧ ready (m_lexer p) r ∧ evaluated t sts sax
  else ∃ t, expecting t sts sax ∧ token_at p s t.

(** What a round may end with. *)
Definition loop_outcome (s : string) (o : loop_next) : Prop :=
  match o with
  | Continue st => loop_invariant s st
  | Return p sax => ∃ w u r j, s = w +:+ u +:+ r ∧ white w = true ∧ value u j ∧ ready (m_lexer p) r ∧ root sax = j
  | Error _ => True
  end.

(** Reading a token at the end of [t]. *)
Lemma get_token_at p s t r : s = t +:+ r → ready (m_lexer p) r → token_at (get_token p) s t.
Proof.
  intros -> Hr. destruct (get_token_ready _ _ Hr) as [-> Hp].
  destruct (next_sound _ _ Hp) as [Hs|(w & u & r' & Hw & -> & Ht & Hr')]; [by left|right].
  by exists w, u, r'.
Qed.

(** The token of a parser that is not stuck, by its type. *)
Lemma token_at_last p s t tok :
  token_at p s t → last_token p = tok → tok ≠ parse_error → tok ≠ end_of_input →
  ∃ w u r, s = t +:+ w +:+ u +:+ r ∧ white w = true ∧ token_text tok (m_lexer p) u ∧ ready (m_lexer p) r.
Proof.
  intros [Hs|H] <- Hne1 Hne2; [|done]. unfold stuck in Hs. by destruct (last_token p).
Qed.

Lemma expecting_text t t' sts sax : expecting t sts sax → t = t' → expecting t' sts sax.
Proof. by intros ? <-. Qed.
Lemma value_text u u' j : value u j → u = u' → value u' j.
Proof. by intros ? <-. Qed.

(** A key, its separator and the token after it. *)
Lemma parse_member_outcome p s t w u kvs sts rt outer k0 :
  expecting t sts (mkSax rt outer) → white w = true → object_prefix u kvs →
  token_at p s (t +:+ w +:+ "{" +:+ u) →
  loop_outcome s (parse_member p (false :: sts) (mkSax rt (OpenObject (set_members kvs []) k0 :: outer))).
Proof.
  intros He Hw Hu Hp. unfold parse_member. destruct (last_token p) eqn:Et; try exact I.
  destruct (token_at_last _ _ _ _ Hp Et) as (w0 & q & r & -> & Hw0 & (b & -> & Hb) & Hr); [done..|].
  destruct (last_token (get_token p)) eqn:En; try exact I.
  set (t1 := t +:+ w +:+ "{" +:+ u +:+ w0 +:+ quoted b).
  pose proof (get_token_at p _ t1 r eq_refl Hr) as Hp1.
  destruct (token_at_last _ _ _ _ Hp1 En) as (w1 & q1 & r1 & Heq & Hw1 & -> & Hr1); [done..|].
  cbn [loop_outcome loop_invariant]. exists (t1 +:+ w1 +:+ ":"). split.
  - eapply expecting_text; [by eapply (expecting_member t sts rt outer w u kvs w0 b _ w1)|]. unfold t1. by assoc.
  - apply get_token_at with r1; [|done]. revert Heq. unfold t1. by assoc.
Qed.

Lemma evaluated_root t sax : evaluated t [] sax → ∃ w u j, t = w +:+ u ∧ white w = true ∧ value u j ∧ root sax = j.
Proof.
  intros (t0 & w & u & j & sax0 & He & Hw & Hv & -> & ->). inversion He; subst. by exists w, u, j.
Qed.

(** The container that a closing token completes is a value. *)
Lemma evaluated_array t sts sax w : evaluated t (true :: sts) sax → white w = true →
  evaluated (t +:+ w +:+ "]") sts (end_container sax).
Proof.
  intros (t0 & w0 & u & j & sax0 & He & Hw0 & Hv & -> & ->) Hw.
  inversion He as [|t1 sts1 rt outer w1 u1 es He1 Hw1 Hp|]; subst. cbn [handle_value ref_stack root].
  rewrite end_array_value.
  exists t1, w1, ("[" +:+ (u1 +:+ w0 +:+ u +:+ w) +:+ "]"), (JArray (es ++ [j])), (mkSax rt outer). split_and!; [done..| |by assoc|done].
  apply value_array. apply array_prefix_elements; [done|]. by constructor.
Qed.

Lemma evaluated_object t sts sax w : evaluated t (false :: sts) sax → white w = true →
  evaluated (t +:+ w +:+ "}") sts (end_container sax).
Proof.
  intros (t0 & w0 & u & j & sax0 & He & Hw0 & Hv & -> & ->) Hw.
  inversion He as [| |t1 sts1 rt outer w1 u1 kvs w2 b k w3 He1 Hw1 Hp Hw2 Hb Hw3]; subst.
  rewrite sax_key_value, end_object_value.
  exists t1, w1, ("{" +:+ (u1 +:+ w2 +:+ quoted b +:+ w3 +:+ ":" +:+ w0 +:+ u +:+ w) +:+ "}"),
    (JObject (set_members (kvs ++ [(k, j)]) [])), (mkSax rt outer). split_and!; [done..| |by assoc|].
  - apply value_object. apply object_prefix_members; [done|]. by constructor; constructor.
  - unfold set_members. by rewrite foldl_app.
Qed.

(** The separator after an element or a member. *)
Lemma evaluated_more_elements t sts sax w : evaluated t (true :: sts) sax → white w = true →
  expecting (t +:+ w +:+ ",") (true :: sts) sax.
Proof.
  intros (t0 & w0 & u & j & sax0 & He & Hw0 & Hv & -> & ->) Hw.
  inversion He as [|t1 sts1 rt outer w1 u1 es He1 Hw1 Hp|]; subst. cbn [handle_value ref_stack root].
  pose proof (array_prefix_more _ _ w0 u j w Hp Hw0 Hv Hw) as Hp'.
  eapply expecting_text; [exact (expecting_element t1 sts rt outer w1 _ _ He1 Hw1 Hp')|]. by assoc.
Qed.

Lemma evaluated_more_members t sts sax w : evaluated t (false :: sts) sax → white w = true →
  ∃ t1 w1 u1 kvs rt outer k, expecting t1 sts (mkSax rt outer) ∧ white w1 = true ∧ object_prefix u1 kvs ∧
    t +:+ w +:+ "," = t1 +:+ w1 +:+ "{" +:+ u1 ∧ sax = mkSax rt (OpenObject (set_members kvs []) k :: outer).
Proof.
  intros (t0 & w0 & u & j & sax0 & He & Hw0 & Hv & -> & ->) Hw.
  inversion He as [| |t1 sts1 rt outer w1 u1 kvs w2 b k w3 He1 Hw1 Hp Hw2 Hb Hw3]; subst.
  rewrite sax_key_value.
  exists t1, w1, (u1 +:+ (w2 +:+ quoted b +:+ w3 +:+ ":" +:+ w0 +:+ u +:+ w) +:+ ","), (kvs ++ [(k, j)]), rt, outer, (Some k).
  split_and!; [done..| |by assoc|].
  - apply object_prefix_more; [done|]. by constructor.
  - unfold set_members. by rewrite foldl_app.
Qed.

(** What follows a value. *)
Lemma state_evaluation_outcome p s t r sts sax :
  s = t +:+ r → ready (m_lexer p) r → evaluated t sts sax → loop_outcome s (state_evaluation p sts sax).
Proof.
  intros -> Hr He. pose proof (get_token_at p _ t r eq_refl Hr) as Hp. unfold state_evaluation.
  destruct sts as [|[] sts].
  - destruct (evaluated_root _ _ He) as (w & u & j & -> & Hw & Hv & Hj). exists w, u, r, j. split_and!; [by assoc|done..].
  - destruct (last_token (get_token p)) eqn:Et; try exact I;
      destruct (token_at_last _ _ _ _ Hp Et) as (w & q & r1 & Heq & Hw & -> & Hr1); try done.
    + exists (t +:+ w +:+ "]"), r1. split_and!; [rewrite Heq; by assoc|done|by apply evaluated_array].
    + exists (t +:+ w +:+ ","). split; [by apply evaluated_more_elements|].
      apply get_token_at with r1; [rewrite Heq; by assoc|done].
  - destruct (last_token (get_token p)) eqn:Et; try exact I;
      destruct (token_at_last _ _ _ _ Hp Et) as (w & q & r1 & Heq & Hw & -> & Hr1); try done.
    + exists (t +:+ w +:+ "}"), r1. split_and!; [rewrite Heq; by assoc|done|by apply evaluated_object].
    + destruct (evaluated_more_members _ _ _ _ He Hw) as (t1 & w1 & u1 & kvs & rt & outer & k & He1 & Hw1 & Hu1 & Ht & ->).
      apply parse_member_outcome with t1 w1 u1; [done..|]. rewrite <- Ht.
      apply get_token_at with r1; [rewrite Heq; by assoc|done].
Qed.

(** A token that is a value by itself. *)
Lemma scalar_text t l u j : token_json t l = Some j → token_text t l u → value u j.
Proof.
  destruct t; cbn; try done; try (by intros [= <-] ->; constructor).
  - intros [= <-] (b & -> & Hb). by constructor.
  - intros Hj [_ Hn]. by apply value_of_number, Hn.
  - intros Hj [_ Hn]. by apply value_of_number, Hn.
  - intros Hj [_ Hn]. by apply value_of_number, Hn.
Qed.

Lemma scalar_outcome p s t sts sax j :
  expecting t sts sax → token_at p s t → token_json (last_token p) (m_lexer p) = Some j →
  loop_outcome s (state_evaluation p sts (handle_value j sax)).
Proof.
  intros He [Hst|(w & u & r & -> & Hw & Ht & Hr)] Hj.
  { unfold stuck in Hst. by destruct (last_token p). }
  apply state_evaluation_outcome with (t +:+ w +:+ u) r; [by assoc|done|].
  exists t, w, u, j, sax. split_and!; [done..|by eapply scalar_text|done|done].
Qed.

Lemma iteration_outcome s st : loop_invariant s st → loop_outcome s (iteration st).
Proof.
  destruct st as [p sts skip [rt stack]]. unfold loop_invariant. destruct skip.
  { intros (t & r & Hs & Hr & He). by eapply state_evaluation_outcome. }
  intros (t & He & Hp). pose proof (λ j, scalar_outcome p s t sts (mkSax rt stack) j He Hp) as Hscalar. unfold iteration.
  destruct (last_token p) eqn:Et; try exact I;
    try (apply Hscalar; by rewrite ?Et).
  - destruct (number_float (m_lexer p)) eqn:Ef; [|exact I]. apply Hscalar. rewrite ?Et. cbn. by rewrite Ef.
  - destruct (token_at_last _ _ _ _ Hp Et) as (w & q & r & -> & Hw & -> & Hr); [done..|].
    pose proof (get_token_at p _ (t +:+ w +:+ "[") r eq_refl Hr) as Hp1.
    assert (loop_outcome (t +:+ w +:+ "[" +:+ r) (Continue (mkLoop (get_token p) (true :: sts) false (start_array (mkSax rt stack))))) as Hc.
    { exists (t +:+ w +:+ "["). split; [|revert Hp1; by assoc].
      eapply expecting_text; [by apply (expecting_element t sts rt stack w "" [] He Hw), array_prefix_nil|]. by assoc. }
    destruct (last_token (get_token p)) eqn:Et1; try exact Hc.
    destruct (token_at_last _ _ _ _ Hp1 Et1) as (w1 & q1 & r1 & Heq & Hw1 & -> & Hr1); [done..|].
    apply state_evaluation_outcome with (t +:+ w +:+ "[" +:+ w1 +:+ "]") r1; [revert Heq; by assoc|done|].
    exists t, w, ("[" +:+ w1 +:+ "]"), (JArray []), (mkSax rt stack). split_and!; [done..|by constructor|done|done].
  - destruct (token_at_last _ _ _ _ Hp Et) as (w & q & r & -> & Hw & -> & Hr); [done..|].
    pose proof (get_token_at p _ (t +:+ w +:+ "{") r eq_refl Hr) as Hp1.
    assert (loop_outcome (t +:+ w +:+ "{" +:+ r) (parse_member (get_token p) (false :: sts) (start_object (mkSax rt stack)))) as Hc.
    { apply (parse_member_outcome _ _ t w "" []); [done..|constructor|]. revert Hp1. by assoc. }
    destruct (last_token (get_token p)) eqn:Et1; try exact Hc.
    destruct (token_at_last _ _ _ _ Hp1 Et1) as (w1 & q1 & r1 & Heq & Hw1 & -> & Hr1); [done..|].
    apply state_evaluation_outcome with (t +:+ w +:+ "{" +:+ w1 +:+ "}") r1; [revert Heq; by assoc|done|].
    exists t, w, ("{" +:+ w1 +:+ "}"), (JObject []), (mkSax rt stack). split_and!; [done..|by constructor|done|done].
  - by destruct (_ =? 1).
Qed.

Lemma loop_sound fuel s st p sax :
  loop_invariant s st → sax_parse_internal fuel st = Some (Ok (p, sax)) → loop_outcome s (Return p sax).
Proof.
  revert st. induction fuel as [|fuel IH]; intros st Hi Hr; [done|]. cbn in Hr.
  pose proof (iteration_outcome s st Hi) as Ho. destruct (iteration st) as [st'|p' sax'|e] eqn:E; [by eapply IH| |done].
  by injection Hr as <- <-.
Qed.

(** ** Exactness *)

Lemma parser_of_token s : stuck (parser_of s) = true ∨
  ∃ mark s', (mark = EmptyString ∨ mark = bom) ∧ s = mark +:+ s' ∧ token_at (parser_of s) s' "".
Proof.
  unfold parser_of, get_token. cbn [m_lexer]. destruct (scan (lexer_of s)) as [t l'] eqn:E.
  destruct (decide (t = parse_error)) as [->|Hne]; [by left|right].
  destruct (first_scan_sound s t l' E Hne) as (mark & r & l & Hm & -> & Hl & Hs). exists mark, r. split_and!; [done..|].
  destruct (next_sound l r Hl) as [Hn|(w & u & r' & Hw & -> & Ht & Hr)]; unfold next in *; rewrite Hs in *.
  - by left.
  - right. by exists w, u, r'.
Qed.

Lemma parse_sound s j : parse s = Ok j → json_text s j.
Proof.
  unfold parse, run_parser. intros Hp.
  destruct (sax_parse_internal _ _) as [[[p sax]|]|] eqn:Hl; [|done..].
  destruct (last_token (get_token p)) eqn:Et; try done. injection Hp as <-.
  destruct (parser_of_token s) as [Hst|(mark & s' & Hm & -> & Ht)].
  { revert Hl. unfold parse_fuel. cbn [sax_parse_internal iteration]. unfold stuck in Hst.
    destruct (last_token (parser_of s)); try done. by destruct (_ =? 1). }
  assert (loop_invariant s' (mkLoop (parser_of (mark +:+ s')) [] false (mkSax JNull []))) as Hi.
  { exists "". split; [constructor|done]. }
  destruct (loop_sound _ s' _ p sax Hi Hl)
    as (w & u & r & j & -> & Hw & Hv & Hr & Hj).
  destruct (get_token_ready p r Hr) as [Heq Hpr]. rewrite Heq in Et. unfold next in Et.
  destruct (scan_rest (m_lexer p)) as [t l'] eqn:Es. cbn in Et. subst t.
  destruct (scan_sound _ _ _ _ Hpr Es) as (w' & tail & Hw' & -> & [[_ He]|(u' & r' & _ & Hx & _)]); [done|..|done].
  subst j. by constructor.
Qed.

(** A value does not begin like a byte order mark. *)
Lemma value_start t j : value t j → starts_with_ef t = false ∧ t ≠ EmptyString.
Proof.
  intros Hv. destruct Hv as [| | |t j Hn| | | | |]; try done.
  destruct t as [|c s]; [by destruct (number_parts _ _ Hn) as ([] & [|] & f & x & Heq & Hi & _)|].
  destruct (number_parts _ _ Hn) as (negative & i & f & x & Heq & Hi & Hf & Hx & _).
  destruct (run_integer_part negative i f x c s Heq Hi Hf Hx) as (Hc & _). split; [|done]. cbn.
  apply Z.eqb_neq. unfold starts_number, is_digit in Hc. intros Hb.
  assert (c = byte_of 0xEF) as -> by (by rewrite <- Hb, byte_of_value). done.
Qed.

Lemma white_start w s : white w = true → starts_with_ef s = false → starts_with_ef (w +:+ s) = false.
Proof.
  destruct w as [|c w]; [done|]. cbn. unfold is_whitespace. intros [Hc _]%andb_true_iff _.
  rewrite !orb_true_iff, !Ascii.eqb_eq in Hc. by destruct_or! Hc; subst.
Qed.

Lemma first_token s mark r : s = mark +:+ r → mark = EmptyString ∨ mark = bom → starts_with_ef r = false →
  ∃ l, paused l r ∧ parser_of s = next l.
Proof.
  intros -> Hm Hr. assert (∃ l, paused l r ∧ scan (lexer_of (mark +:+ r)) = scan_rest l) as (l & Hl & Hs).
  { destruct Hm as [->| ->]; [by apply first_scan_plain|apply first_scan_bom]. }
  exists l. split; [done|]. unfold parser_of, get_token, next. cbn [m_lexer]. by rewrite Hs.
Qed.

Lemma parse_complete s j : json_text s j → parse s = Ok j.
Proof.
  intros [mark w t w' tail v Hm Hw Hv Hw' Ht]. destruct (value_start t v Hv) as [Hef Hne].
  destruct (first_token _ mark (w +:+ t +:+ w' +:+ tail) eq_refl Hm) as (l & Hl & Hp).
  { apply white_start; [done|]. destruct t; done. }
  destruct (proj1 grammar_leads t v Hv l w (w' +:+ tail) [] (mkSax JNull []) Hl Hw) as (_ & p & Hr & Hlead).
  { apply terminates_white; [done|]. destruct tail as [|c tail]; [done|]. cbn in Ht |- *. by rewrite Ht, !orb_true_r. }
  rewrite <- Hp in Hlead. apply leads_parser in Hlead. unfold parse, run_parser. rewrite Hlead.
  destruct (get_token_ready p _ Hr) as [-> Hpr]. destruct (scan_end _ _ _ Hpr Hw' Ht) as (l' & Hs).
  rewrite (next_scan _ _ _ Hs). done.
Qed.
