(* ===== verification/JsonRoundtrip.v ===== *)
(** * What the serializer writes is parsed back

    The texts of [JsonSerializer.dump] are in the grammar and denote the
    document that was written, so the parser reads them back.  This makes the
    library an instance of [JsonLib] with the laws [JsonLaws] and [JsonText]
    that the rest of the development assumes of it. *)

From S2P Require Import Prelude.
From S2P Require Import Text.
From S2P Require Import Json.
From S2P Require Import JsonLexer.
From S2P Require Import JsonParser.
From S2P Require Import JsonSerializer.
From S2P Require Import JsonGrammar.
From S2P Require Import JsonScanning.
From S2P Require Import JsonNumbers.
From S2P Require Import JsonParsing.
From S2P Require Import JsonSoundness.

Open Scope Z_scope.

(** ** The automaton of UTF-8 *)

(** The bytes that lead from a state back to acceptance. *)
Definition awaited (state : Z) : list (Z * Z) :=
  if state =? 2 then [(0x80, 0xBF)]
  else if state =? 3 then [(0x80, 0xBF); (0x80, 0xBF)]
  else if state =? 4 then [(0xA0, 0xBF); (0x80, 0xBF)]
  else if state =? 5 then [(0x80, 0x9F); (0x80, 0xBF)]
  else if state =? 6 then [(0x90, 0xBF); (0x80, 0xBF); (0x80, 0xBF)]
  else if state =? 7 then [(0x80, 0xBF); (0x80, 0xBF); (0x80, 0xBF)]
  else if state =? 8 then [(0x80, 0x8F); (0x80, 0xBF); (0x80, 0xBF)]
  else [].

(** The least code point a state may have accumulated, and a bound. *)
Definition least (state : Z) : Z := if state =? 2 then 2 else if (state =? 4) || (state =? 6) then 0 else 1.
Definition bound (state : Z) : Z := if state =? 2 then 65536 else if state =? 3 then 1024 else 16.

Definition ranges_eqb (a b : list (Z * Z)) : bool := bool_decide (a = b).
Definition waiting (state : Z) : bool := between 2 state 8.

Definition state_after (state byte : Z) : Z := fst (decode state 0 byte).
Lemma decode_state state codep byte : fst (decode state codep byte) = state_after state byte.
Proof. done. Qed.

(** From acceptance: an ASCII byte is accepted, a leading byte starts its
    sequence, anything else is rejected. *)
Definition leading_ok (byte : Z) : bool :=
  let '(state, codep) := decode 0 0 byte in
  if byte <? 0x80 then (state =? 0) && (codep =? byte)
  else (state =? 1) ||
    (waiting state && ranges_eqb (awaited state) (default [] (following_ranges byte)) &&
     bool_decide (is_Some (following_ranges byte)) && (least state <=? codep) && (codep <? bound state)).

Lemma leading_all byte : 0 ≤ byte < 256 → leading_ok byte = true.
Proof. apply (below leading_ok 256). by vm_compute. Qed.

Lemma decode_leading codep byte : decode 0 codep byte = decode 0 0 byte.
Proof. done. Qed.

(** From a waiting state: the byte is awaited, or rejected. *)
Definition continuing_ok (state byte : Z) : bool :=
  let st := state_after state byte in
  (st =? 1) ||
  match awaited state with
  | (lo, hi) :: rest =>
      between lo byte hi && ranges_eqb (awaited st) rest && (64 * bound state <=? (if st =? 0 then 4194304 else bound st)) &&
      ((if st =? 0 then 128 else least st) <=? 64 * least state + byte mod 64) && ((st =? 0) || waiting st)
  | [] => false
  end.

Lemma continuing_all state byte : waiting state = true → 0 ≤ byte < 256 → continuing_ok state byte = true.
Proof.
  intros Hs Hb. apply between_iff in Hs. replace state with (2 + (state - 2)) by lia.
  apply (below (λ b, continuing_ok (2 + (state - 2)) b) 256); [|done].
  apply (below (λ s, forallb (λ b, continuing_ok (2 + s) b) (map Z.of_nat (seq 0 256))) 7); [by vm_compute|lia].
Qed.

(** The code point after another byte. *)
Lemma decode_codepoint state codep byte : state ≠ 0 → 0 ≤ codep < 65536 →
  decode state codep byte = (state_after state byte, 64 * codep + byte mod 64).
Proof.
  intros Hs Hc. unfold state_after, decode. destruct (Z.eqb_spec state UTF8_ACCEPT) as [|_]; [done|]. cbn [fst]. f_equal.
  unfold u32. rewrite Z.shiftl_mul_pow2 by lia. rewrite (Z.mod_small (codep * 2 ^ 6)) by lia.
  change 0x3F with (Z.ones 6). rewrite Z.land_ones by lia. rewrite <- Z.add_nocarry_lor; [change (2 ^ 6) with 64; lia|].
  rewrite <- Z.shiftl_mul_pow2 by lia. apply Z.bits_inj'. intros n Hn. rewrite Z.land_spec, Z.bits_0.
  destruct (Z.ltb_spec n 6).
  - rewrite (Z.shiftl_spec_low codep 6 n) by lia. apply andb_false_r.
  - rewrite Z.mod_pow2_bits_high by lia. done.
Qed.

(** ** Strings *)

Lemma hex4_digits z : 0 ≤ z < 32 → hex_quad (hex4 z) z.
Proof.
  intros Hz. assert (z = z / 4096 * 4096 + z / 256 mod 16 * 256 + z / 16 mod 16 * 16 + z mod 16) as Heq.
  { Z.div_mod_to_equations; lia. }
  assert (∀ d, 0 ≤ d < 16 → hex_value (byte_value (byte_of (if d <? 10 then d + 48 else d + 87))) = Some d) as Hdigit.
  { set (ok := λ d, match hex_value (byte_value (byte_of (if d <? 10 then d + 48 else d + 87))) with
                   | Some v => v =? d | None => false end).
    intros d Hd. assert (ok d = true) as Hok by (apply (below ok 16); [by vm_compute|done]). revert Hok. unfold ok.
    destruct (hex_value _); [|done]. by intros ->%Z.eqb_eq. }
  rewrite Heq at 2. unfold hex4. constructor; apply Hdigit; Z.div_mod_to_equations; lia.
Qed.

(** A byte accepted by itself: what is written is its character. *)
Lemma escape_ascii c : byte_value c < 0x80 → string_char (escape (byte_value c) c) (one c).
Proof.
  intros Hc. pose proof (byte_value_range c). assert (∀ z, byte_value c = z → c = byte_of z) as Hbyte.
  { intros z <-. by rewrite byte_of_value. }
  unfold escape.
  repeat match goal with |- context [byte_value c =? ?z] =>
    destruct (Z.eqb_spec (byte_value c) z) as [E|?]; [apply Hbyte in E as ->; by apply char_simple|] end.
  destruct (Z.leb_spec (byte_value c) 0x1F).
  - rewrite <- (utf8_ascii c) by done. apply (char_unicode (hex4 (byte_value c))); [apply hex4_digits; lia|].
    unfold scalar_value. lia.
  - rewrite <- (utf8_ascii c) by done. apply char_plain;
      change (byte_value quote) with 34; change (byte_value backslash) with 92; unfold scalar_value; lia.
Qed.

Lemma escape_large cp c : 128 ≤ cp → escape cp c = one c.
Proof.
  intros Hcp. unfold escape. repeat match goal with |- context [cp =? ?z] => destruct (Z.eqb_spec cp z); [lia|] end.
  by destruct (Z.leb_spec cp 0x1F); [lia|].
Qed.

(** The two cases of a byte that is not rejected. *)
Lemma leading_cases codep c st cp :
  decode 0 codep (byte_value c) = (st, cp) → st ≠ 1 →
  byte_value c < 0x80 ∧ st = 0 ∧ cp = byte_value c ∨
  following_ranges (byte_value c) = Some (awaited st) ∧ waiting st = true ∧ st ≠ 0 ∧ least st ≤ cp < bound st.
Proof.
  intros Ed Hne. rewrite decode_leading in Ed. pose proof (leading_all _ (byte_value_range c)) as Hl. unfold leading_ok in Hl.
  rewrite Ed in Hl. destruct (Z.ltb_spec (byte_value c) 0x80) as [Ha|Ha]; [left|right].
  - apply andb_true_iff in Hl as [Hst Hcp]. by zbool.
  - apply orb_true_iff in Hl as [Hl|Hl]; zbool; [done|].
    repeat match goal with H : ranges_eqb _ _ = true |- _ => unfold ranges_eqb in H; apply bool_decide_eq_true in H
                         | H : bool_decide _ = true |- _ => apply bool_decide_eq_true in H as [ranges Hr] end.
    rewrite Hr in *. cbn in *. subst. split_and!; [done..| |done|done]. intros ->. done.
Qed.

Lemma waiting_not_zero st : waiting st = true → st ≠ 0.
Proof. intros H ->. done. Qed.

Lemma continuing_cases state codep c st cp :
  decode state codep (byte_value c) = (st, cp) → st ≠ 1 → waiting state = true → least state ≤ codep < bound state →
  ∃ lo hi rest, awaited state = (lo, hi) :: rest ∧ between lo (byte_value c) hi = true ∧ awaited st = rest ∧
    (st = 0 ∧ 128 ≤ cp ∨ waiting st = true ∧ least st ≤ cp < bound st).
Proof.
  intros Ed Hne Hw Hcp. pose proof (continuing_all state _ Hw (byte_value_range c)) as Hl.
  assert (codep < 65536) as Hsmall.
  { unfold bound in Hcp. repeat split_match; lia. }
  assert (0 ≤ codep) as Hpos by (unfold least in Hcp; repeat split_match; lia).
  rewrite decode_codepoint in Ed by (by apply waiting_not_zero || lia). injection Ed as <- <-. unfold continuing_ok in Hl.
  destruct (Z.eqb_spec (state_after state (byte_value c)) 1) as [|_]; [done|]. cbn [orb] in Hl.
  destruct (awaited state) as [|[lo hi] rest]; [done|]. exists lo, hi, rest.
  apply andb_true_iff in Hl as [[[[Hb Hr]%andb_true_iff Hhi]%andb_true_iff Hlo]%andb_true_iff Hst].
  unfold ranges_eqb in Hr. apply bool_decide_eq_true in Hr. split_and!; [done..|].
  pose proof (Z.mod_pos_bound (byte_value c) 64 ltac:(lia)).
  destruct (Z.eqb_spec (state_after state (byte_value c)) 0) as [E|E]; zbool; [left; lia|right]. destruct Hst as [|Hst]; [done|].
  split; [done|]. lia.
Qed.

(** The rest of the text from a state: the awaited bytes stand as they are,
    and what follows them is escaped. *)
Lemma escaped_loop_sound s : ∀ i last state codep t,
  escaped_loop i last state codep s = Ok t →
  (state = 0 → string_body t s) ∧
  (waiting state = true → least state ≤ codep < bound state →
   ∃ u s' t', s = u +:+ s' ∧ t = u +:+ t' ∧ in_ranges (awaited state) u = true ∧ string_body t' s').
Proof.
  induction s as [|c s IH]; intros i last state codep t; cbn [escaped_loop].
  { destruct (Z.eqb_spec state UTF8_ACCEPT) as [->|Hs]; [|done]. intros [= <-]. split; [constructor|done]. }
  destruct (decode state codep (byte_value c)) as [st cp] eqn:Ed. destruct (Z.eqb_spec st UTF8_REJECT) as [|Hrej]; [done|].
  intros (tail & Ht & [= <-])%bind_Ok. destruct (IH _ _ _ _ _ Ht) as [IH0 IHw]. split.
  - intros ->. destruct (leading_cases _ _ _ _ Ed Hrej) as [(Ha & -> & ->)|(Hr & Hw & Hne & Hcp)].
    + apply (body_cons _ (one c)); [by apply escape_ascii|by apply IH0].
    + destruct (IHw Hw Hcp) as (u & s' & t' & -> & -> & Hu & Hb).
      destruct (Z.eqb_spec st UTF8_ACCEPT); [done|]. pose proof (ranges_utf8 c _ u Hr Hu) as He.
      apply (body_cons (String c u) (String c u)); [by apply encoded_char|done].
  - intros Hw Hcp. destruct (continuing_cases _ _ _ _ _ Ed Hrej Hw Hcp) as (lo & hi & rest & -> & Hb & Hr & Hst).
    destruct Hst as [[-> Hlow]|[Hwst Hcpst]].
    + exists (String c EmptyString), s, tail. rewrite escape_large by done. cbn [in_ranges]. rewrite Hb. split_and!; [done..| |by apply IH0].
      by rewrite <- Hr.
    + destruct (IHw Hwst Hcpst) as (u & s' & t' & -> & -> & Hu & Hbody).
      destruct (Z.eqb_spec st UTF8_ACCEPT) as [->|]; [done|]. exists (String c u), s', t'. cbn [in_ranges].
      rewrite Hb, <- Hr, Hu. done.
Qed.

Lemma dump_escaped_body s t : dump_escaped s = Ok t → string_body t s.
Proof. intros Ht. by apply (escaped_loop_sound _ _ _ _ _ _ Ht). Qed.

(** ** Integers *)

Lemma pow10_S k : 10 ^ Z.of_nat (S k) = 10 * 10 ^ Z.of_nat k.
Proof. rewrite Nat2Z.inj_succ, Z.pow_succ_r by lia. done. Qed.

Lemma count_digits_loop_spec fuel x n : 1 ≤ x < 10 ^ Z.of_nat (4 * fuel) →
  ∃ k, count_digits_loop fuel x n = (n + k)%nat ∧ 10 ^ Z.of_nat k ≤ x < 10 ^ Z.of_nat (S k).
Proof.
  revert x n. induction fuel as [|fuel IH]; intros x n Hx; [cbn in Hx; lia|]. cbn [count_digits_loop].
  destruct (Z.ltb_spec x 10); [exists 0%nat; split; [lia|cbn; lia]|].
  destruct (Z.ltb_spec x 100); [exists 1%nat; split; [lia|cbn; lia]|].
  destruct (Z.ltb_spec x 1000); [exists 2%nat; split; [lia|cbn; lia]|].
  destruct (Z.ltb_spec x 10000); [exists 3%nat; split; [lia|cbn; lia]|].
  replace (4 * S fuel)%nat with (S (S (S (S (4 * fuel))))) in Hx by lia. rewrite !pow10_S in Hx.
  destruct (IH (x / 10000) (n + 4)%nat) as (k & -> & Hk).
  { split; [apply Z.div_le_lower_bound; lia|apply Z.div_lt_upper_bound; lia]. }
  exists (S (S (S (S k)))). split; [lia|]. rewrite pow10_S in Hk. rewrite !pow10_S. Z.div_mod_to_equations; lia.
Qed.

Lemma count_digits_spec x : 1 ≤ x ≤ UINT64_MAX →
  ∃ k, count_digits x = S k ∧ 10 ^ Z.of_nat k ≤ x < 10 ^ Z.of_nat (S k).
Proof.
  unfold UINT64_MAX. intros Hx. destruct (count_digits_loop_spec 5 x 1) as (k & Hc & Hk).
  { change (10 ^ Z.of_nat (4 * 5)) with 100000000000000000000. lia. }
  exists k. unfold count_digits. rewrite Hc. split; [lia|done].
Qed.

(** The decimal digits of a positive number, the first of which is not zero. *)
Definition decimal (d : list ascii) (v : Z) : Prop :=
  integer_part (String.string_of_list_ascii d) = true ∧ digits_value 0 (String.string_of_list_ascii d) = v ∧
  (length d = 1%nat ∨ 10 ^ Z.of_nat (length d - 1) ≤ v).

Lemma string_of_list_app a b :
  String.string_of_list_ascii (a ++ b) = String.string_of_list_ascii a +:+ String.string_of_list_ascii b.
Proof. induction a as [|c a IH]; cbn; [done|]. by rewrite IH. Qed.
Lemma string_of_list_length a : String.length (String.string_of_list_ascii a) = length a.
Proof. induction a as [|c a IH]; cbn; [done|]. by rewrite IH. Qed.

Lemma insert_middle (a b : list ascii) x y : <[length a := y]> (a ++ x :: b) = a ++ y :: b.
Proof. rewrite insert_app_r_alt by lia. by rewrite Nat.sub_diag. Qed.

(** A buffer around a position, and the digits written below it. *)
Lemma buffer_split (b : buffer) n ptr : (n ≤ ptr)%nat → (ptr ≤ length b)%nat →
  ∃ m, length m = n ∧ b = take (ptr - n) b ++ m ++ drop ptr b.
Proof.
  intros Hn Hp. exists (take n (drop (ptr - n) b)). split; [rewrite length_take, length_drop; lia|].
  rewrite <- (take_drop (ptr - n) b) at 1. f_equal. rewrite <- (take_drop n (drop (ptr - n) b)) at 1.
  by rewrite drop_drop, Nat.sub_add.
Qed.

Lemma write_one (b : buffer) ptr x : (1 ≤ ptr)%nat → (ptr ≤ length b)%nat →
  <[(ptr - 1)%nat := x]> b = take (ptr - 1) b ++ [x] ++ drop ptr b.
Proof.
  intros H1 Hp. destruct (buffer_split b 1 ptr H1 Hp) as ([|y [|]] & Hm & Hb); try done. rewrite Hb at 1.
  assert (length (take (ptr - 1) b) = (ptr - 1)%nat) as Hl by (rewrite length_take; lia).
  rewrite <- Hl at 1. apply insert_middle.
Qed.

Lemma write_pair (b : buffer) ptr x y : (2 ≤ ptr)%nat → (ptr ≤ length b)%nat →
  <[(ptr - 2)%nat := x]> (<[(ptr - 1)%nat := y]> b) = take (ptr - 2) b ++ [x; y] ++ drop ptr b.
Proof.
  intros H2 Hp. destruct (buffer_split b 2 ptr H2 Hp) as ([|x' [|y' [|]]] & Hm & Hb); try done.
  assert (length (take (ptr - 2) b) = (ptr - 2)%nat) as Hl by (rewrite length_take; lia).
  rewrite Hb at 1. change (take (ptr - 2) b ++ [x'; y'] ++ drop ptr b) with (take (ptr - 2) b ++ [x'] ++ y' :: drop ptr b).
  rewrite app_assoc. replace (ptr - 1)%nat with (length (take (ptr - 2) b ++ [x'])) by (rewrite length_app, Hl; cbn; lia).
  rewrite insert_middle, <- app_assoc. rewrite <- Hl at 1. apply insert_middle.
Qed.

Lemma decimal_one v : 1 ≤ v < 10 → decimal [digit_char v] v.
Proof.
  intros Hv. destruct (digit_char_spec v) as [Hd Hval]; [lia|]. unfold decimal. cbn. rewrite Hd, Hval.
  split_and!; [|lia|by left]. destruct (Ascii.eqb_spec (digit_char v) "0") as [E|]; [|done].
  rewrite E in Hval. cbn in Hval. lia.
Qed.

Lemma decimal_snoc d v x : decimal d v → 0 ≤ x ≤ 9 → 1 ≤ v → decimal (d ++ [digit_char x]) (10 * v + x).
Proof.
  intros (Hi & Hv & Hl) Hx Hpos. destruct (digit_char_spec x Hx) as [Hd Hval]. unfold decimal.
  rewrite string_of_list_app, digits_value_app, Hv, length_app. cbn. rewrite Hval. split_and!; [|lia|right].
  - destruct d as [|c d]; [done|]. cbn in Hi |- *. destruct (Ascii.eqb_spec c "0") as [->|].
    + apply String.eqb_eq in Hi. destruct d; [|done]. vm_compute in Hv. lia.
    + apply andb_true_iff in Hi as [-> Hds]. rewrite all_digits_app, Hds. cbn. by rewrite Hd.
  - replace (length d + 1 - 1)%nat with (length d) by lia. destruct Hl as [Hl|Hl]; [rewrite Hl; cbn; lia|].
    destruct d as [|c d]; [done|]. cbn [length] in *. replace (S (length d) - 1)%nat with (length d) in Hl by lia.
    rewrite pow10_S. lia.
Qed.

Lemma decimal_length d v k : decimal d v → 10 ^ Z.of_nat k ≤ v < 10 ^ Z.of_nat (S k) → 1 ≤ v → length d = S k.
Proof.
  intros (Hi & Hv & Hl) [Hlow Hhigh] Hpos. apply integer_part_digits in Hi as [Hne Hd]. pose proof (digits_value_bound _ Hd) as Hb.
  rewrite Hv, string_of_list_length in Hb. destruct d as [|c d]; [done|]. cbn [length] in *.
  replace (S (length d) - 1)%nat with (length d) in Hl by lia.
  destruct (decide (length d < k)%nat) as [Hlt|].
  { pose proof (Z.pow_le_mono_r 10 (Z.of_nat (S (length d))) (Z.of_nat k)). lia. }
  destruct (decide (k < length d)%nat) as [Hgt|]; [|lia]. destruct Hl as [Hl|Hl]; [lia|].
  pose proof (Z.pow_le_mono_r 10 (Z.of_nat (S k)) (Z.of_nat (length d))). lia.
Qed.

Lemma fill_digits_spec fuel : ∀ v ptr b k, 1 ≤ v < 10 ^ Z.of_nat (2 * fuel + 2) →
  10 ^ Z.of_nat k ≤ v < 10 ^ Z.of_nat (S k) → (S k ≤ ptr)%nat → (ptr ≤ length b)%nat →
  ∃ d, decimal d v ∧ length d = S k ∧ fill_digits fuel v ptr b = take (ptr - S k) b ++ d ++ drop ptr b.
Proof.
  assert (∀ v, 10 ≤ v < 100 → decimal [digit_char (v / 10); digit_char (v mod 10)] v) as Htwo.
  { intros v Hv. pose proof (decimal_snoc [digit_char (v / 10)] (v / 10) (v mod 10)) as Hd.
    replace (10 * (v / 10) + v mod 10) with v in Hd by (Z.div_mod_to_equations; lia).
    apply Hd; [apply decimal_one|..]; Z.div_mod_to_equations; lia. }
  assert (∀ v ptr b k, 1 ≤ v < 100 → 10 ^ Z.of_nat k ≤ v < 10 ^ Z.of_nat (S k) → (S k ≤ ptr)%nat → (ptr ≤ length b)%nat →
    ∃ d, decimal d v ∧ length d = S k ∧
      (if v >=? 10 then <[(ptr - 2)%nat := digit_char (v / 10)]> (<[(ptr - 1)%nat := digit_char (v mod 10)]> b)
       else <[(ptr - 1)%nat := digit_char v]> b) = take (ptr - S k) b ++ d ++ drop ptr b) as Hlast.
  { intros v ptr b k Hv Hk Hptr Hb. rewrite Z.geb_leb. destruct (Z.leb_spec 10 v).
    - pose proof (decimal_length _ _ _ (Htwo v ltac:(lia)) Hk ltac:(lia)) as Hl. cbn in Hl. injection Hl as <-.
      eexists. split; [apply Htwo; lia|]. split; [done|]. by apply write_pair.
    - pose proof (decimal_length _ _ _ (decimal_one v ltac:(lia)) Hk ltac:(lia)) as Hl. cbn in Hl. injection Hl as <-.
      eexists. split; [apply decimal_one; lia|]. split; [done|]. by apply write_one. }
  induction fuel as [|fuel IH]; intros v ptr b k Hv Hk Hptr Hb; cbn [fill_digits]; rewrite Z.geb_leb;
    (destruct (Z.leb_spec 100 v) as [H100|H100]; [|by apply Hlast; [lia|..]]).
  { cbn in Hv. lia. }
  replace (2 * S fuel + 2)%nat with (S (S (2 * fuel + 2))) in Hv by lia. rewrite !pow10_S in Hv.
  destruct k as [|[|k]]; [cbn in Hk; lia..|]. rewrite !pow10_S in Hk.
  set (q := v / 100). set (r := v mod 100).
  assert (v = 100 * q + r ∧ 0 ≤ r < 100) as [Hqr Hr] by (unfold q, r; Z.div_mod_to_equations; lia).
  rewrite write_pair by lia.
  destruct (IH q (ptr - 2)%nat (take (ptr - 2) b ++ [digit_char (r / 10); digit_char (r mod 10)] ++ drop ptr b) k)
    as (d & Hd & Hl & ->); [lia|rewrite pow10_S; lia|lia|rewrite length_app, length_take; lia|].
  exists (d ++ [digit_char (r / 10)] ++ [digit_char (r mod 10)]). split_and!.
  - rewrite app_assoc. replace v with (10 * (10 * q + r / 10) + r mod 10) by (Z.div_mod_to_equations; lia).
    apply decimal_snoc; [apply decimal_snoc; [done|..]|..]; Z.div_mod_to_equations; lia.
  - rewrite !length_app, Hl. cbn. lia.
  - assert (length (take (ptr - 2) b) = (ptr - 2)%nat) as Htl by (rewrite length_take; lia).
    rewrite take_app_le, take_take by lia. rewrite drop_app_length' by lia. rewrite <- !app_assoc.
    f_equal. f_equal. lia.
Qed.

(** The digits of a 64-bit number fill the buffer exactly. *)
Lemma fill_number v ptr (b : buffer) : 1 ≤ v ≤ UINT64_MAX → (ptr + count_digits v ≤ length b)%nat →
  ∃ d, decimal d v ∧ take (ptr + count_digits v) (fill_digits 10 v (ptr + count_digits v) b) = take ptr b ++ d.
Proof.
  intros Hv Hb. destruct (count_digits_spec v Hv) as (k & Hc & Hk). rewrite Hc in *.
  destruct (fill_digits_spec 10 v (ptr + S k) b k) as (d & Hd & Hl & ->); [|done|lia|done|].
  { change (10 ^ Z.of_nat (2 * 10 + 2)) with 10000000000000000000000. unfold UINT64_MAX in Hv. lia. }
  exists d. split; [done|]. replace (ptr + S k - S k)%nat with ptr by lia.
  rewrite app_assoc, take_app_le by (rewrite length_app, length_take; lia).
  apply take_ge. rewrite length_app, length_take. lia.
Qed.

Lemma remove_sign_spec z : INT64_MIN ≤ z < 0 → remove_sign z = - z.
Proof.
  unfold INT64_MIN, remove_sign. intros Hz. assert (in_uint64 (- (z + 1))) by (unfold in_uint64, UINT64_MAX; lia).
  rewrite (u64_small (- (z + 1))) by done. rewrite u64_small; [lia|]. unfold in_uint64, UINT64_MAX. lia.
Qed.

Lemma count_digits_most v : 1 ≤ v ≤ UINT64_MAX → (count_digits v ≤ 20)%nat.
Proof.
  intros Hv. destruct (count_digits_spec v Hv) as (k & -> & [Hk _]).
  destruct (decide (20 ≤ k)%nat); [|lia]. pose proof (Z.pow_le_mono_r 10 20 (Z.of_nat k) ltac:(lia) ltac:(lia)).
  change (10 ^ 20) with 100000000000000000000 in *. unfold UINT64_MAX in Hv. lia.
Qed.

Lemma dump_integer_number z : INT64_MIN ≤ z ≤ UINT64_MAX →
  number (dump_integer z) (if 0 <=? z then JUnsigned z else JInteger z).
Proof.
  intros Hz. unfold dump_integer. destruct (Z.eqb_spec z 0) as [->|H0].
  { by apply (number_natural "0"); [|vm_compute]. }
  destruct (Z.ltb_spec z 0) as [Hneg|Hpos].
  - rewrite remove_sign_spec by lia. assert (1 ≤ - z ≤ UINT64_MAX) as Hr by (unfold INT64_MIN, UINT64_MAX in *; lia).
    pose proof (count_digits_most _ Hr) as Hcount.
    destruct (fill_number (- z) 1 (<[0%nat := "-"%char]> (replicate 64 Ascii.zero)) Hr) as (d & (Hi & Hv & _) & ->).
    { rewrite length_insert, length_replicate. lia. }
    destruct (Z.leb_spec 0 z); [lia|]. cbn [replicate take app insert list_insert].
    assert (z = - digits_value 0 (String.string_of_list_ascii d)) as Hzd by lia. rewrite Hzd.
    apply (number_negative (String.string_of_list_ascii d) Hi). unfold out_of_width. rewrite Hv. unfold INT64_MIN in *. lia.
  - assert (1 ≤ z ≤ UINT64_MAX) as Hr by lia. pose proof (count_digits_most _ Hr) as Hcount.
    destruct (fill_number z 0 (replicate 64 Ascii.zero) Hr) as (d & (Hi & Hv & _) & Hf).
    { rewrite length_replicate. lia. }
    cbn [Nat.add] in Hf. rewrite Hf. destruct (Z.leb_spec 0 z); [|lia]. cbn [take app].
    rewrite <- Hv. apply number_natural; [done|]. unfold out_of_width. rewrite Hv. lia.
Qed.

(** ** Documents *)

Lemma spaces_white n : white (spaces n) = true.
Proof. by induction n. Qed.

(** The white space the layout puts before an element and before a closing
    bracket. *)
Definition lead (pretty : bool) (indent : nat) : string :=
  if pretty then String newline (spaces indent) else EmptyString.
Definition newline_if (pretty : bool) : string := if pretty then one newline else EmptyString.

Lemma lead_white pretty n : white (lead pretty n) = true.
Proof. destruct pretty; [|done]. cbn. apply spaces_white. Qed.
Lemma lead_indentation pretty n : newline_if pretty +:+ indentation pretty n = lead pretty n.
Proof. by destruct pretty. Qed.
Lemma opening_text pretty c : opening pretty c = one c +:+ newline_if pretty.
Proof. by destruct pretty. Qed.
Lemma separator_text pretty : separator pretty = "," +:+ newline_if pretty.
Proof. by destruct pretty. Qed.
Lemma closing_text pretty n c : closing pretty n c = lead pretty n +:+ one c.
Proof. by destruct pretty. Qed.
Lemma colon_text pretty : ∃ w, white w = true ∧ colon pretty = one quote +:+ ":" +:+ w.
Proof. destruct pretty; [by exists " "|by exists ""]. Qed.

(** A sorted list of members is its own map. *)
Lemma set_member_last k v ms :
  Forall (λ m, String.compare k m.1 = Gt) ms → set_member k v ms = ms ++ [(k, v)].
Proof. induction 1 as [|[k1 w] ms Hk _ IH]; cbn in *; [done|]. by rewrite Hk, IH. Qed.

Lemma ascii_compare_cases a b :
  (Ascii.compare a b = Eq ∧ a = b) ∨ (Ascii.compare a b = Lt ∧ (N_of_ascii a < N_of_ascii b)%N) ∨
  (Ascii.compare a b = Gt ∧ (N_of_ascii b < N_of_ascii a)%N).
Proof.
  destruct (Ascii.compare a b) eqn:E; [left; split; [done|by apply Ascii.compare_eq_iff]|right; left|right; right];
    (split; [done|]); unfold Ascii.compare in E; [by apply N.compare_lt_iff|by apply N.compare_gt_iff].
Qed.

Lemma string_compare_trans s1 s2 s3 :
  String.compare s1 s2 = Lt → String.compare s2 s3 = Lt → String.compare s1 s3 = Lt.
Proof.
  revert s2 s3. induction s1 as [|a s1 IH]; intros [|b s2] [|c s3]; cbn; try done; try by intros.
  destruct (ascii_compare_cases a b) as [[-> <-]|[[-> Hab]|[-> _]]]; [|intros _|done].
  - destruct (Ascii.compare a c); [apply IH|done..].
  - destruct (ascii_compare_cases b c) as [[-> E]|[[-> Hbc]|[-> _]]]; [intros _|intros _|done].
    + subst c. destruct (ascii_compare_cases a b) as [[_ ->]|[[-> _]|[_ ?]]]; [lia|done|lia].
    + destruct (ascii_compare_cases a c) as [[_ ->]|[[-> _]|[_ ?]]]; [lia|done|lia].
Qed.

Lemma sorted_keys_tail k v ms : sorted_keys ((k, v) :: ms) = true →
  sorted_keys ms = true ∧ Forall (λ m, String.compare k m.1 = Lt) ms.
Proof.
  revert k v. induction ms as [|[k1 w] ms IH]; intros k v; [done|]. rewrite sorted_keys_cons.
  destruct (String.compare k k1) eqn:E; try done. intros Hs. split; [done|]. destruct (IH k1 w Hs) as [_ Hall].
  constructor; [done|]. eapply Forall_impl; [exact Hall|]. intros m Hm. by eapply string_compare_trans.
Qed.

Lemma set_members_sorted ms ms' : sorted_keys (ms ++ ms') = true → set_members ms' ms = ms ++ ms'.
Proof.
  unfold set_members. revert ms. induction ms' as [|[k v] ms' IH]; intros ms Hs; cbn [foldl fst snd]; [by rewrite app_nil_r|].
  assert (∀ l : list (string * json), sorted_keys (l ++ (k, v) :: ms') = true → Forall (λ m, String.compare k m.1 = Gt) l) as Hgt.
  { induction l as [|[k1 w] l IHl]; intros Hl; [done|]. apply sorted_keys_tail in Hl as [Hl Hall].
    constructor; [|by apply IHl]. apply Forall_app in Hall as [_ Hall]. apply Forall_cons in Hall as [Hk _]. cbn in Hk |- *.
    rewrite String.compare_antisym, Hk. done. }
  rewrite set_member_last by by apply Hgt. rewrite IH, <- app_assoc; [done|]. by rewrite <- app_assoc.
Qed.

Lemma sorted_keys_map (f : json → json) ms : sorted_keys (map (λ m, (m.1, f m.2)) ms) = sorted_keys ms.
Proof.
  induction ms as [|[k v] ms IH]; [done|]. cbn [map fst snd]. rewrite !sorted_keys_cons. destruct ms as [|[k1 w] ms]; [done|].
  cbn [map fst snd] in *. by rewrite IH.
Qed.

Section dump.
Context (dump_float : Z → Z → string).

(** The elements of a written array, as the loop of [dump] lays them out. *)
Definition array_body (pretty : bool) (step indent : nat) : list json → result string :=
  fix elements (es : list json) : result string :=
    match es with
    | [] => Ok EmptyString
    | v :: rest =>
        t ← dump_value dump_float pretty step (indent + step) v;
        let text := indentation pretty (indent + step) +:+ t in
        match rest with
        | [] => Ok text
        | _ => tail ← elements rest; Ok (text +:+ separator pretty +:+ tail)
        end
    end.
Definition object_body (pretty : bool) (step indent : nat) : list (string * json) → result string :=
  fix members (ms : list (string * json)) : result string :=
    match ms with
    | [] => Ok EmptyString
    | (key, v) :: rest =>
        k ← dump_escaped key;
        t ← dump_value dump_float pretty step (indent + step) v;
        let text := indentation pretty (indent + step) +:+ one quote +:+ k +:+ colon pretty +:+ t in
        match rest with
        | [] => Ok text
        | _ => tail ← members rest; Ok (text +:+ separator pretty +:+ tail)
        end
    end.

Lemma dump_array pretty step indent es : es ≠ [] →
  dump_value dump_float pretty step indent (JArray es) =
  (body ← array_body pretty step indent es; Ok (opening pretty "[" +:+ body +:+ closing pretty indent "]")).
Proof. by destruct es. Qed.
Lemma dump_object pretty step indent ms : ms ≠ [] →
  dump_value dump_float pretty step indent (JObject ms) =
  (body ← object_body pretty step indent ms; Ok (opening pretty "{" +:+ body +:+ closing pretty indent "}")).
Proof. by destruct ms. Qed.

(** [j] is written as a text of the grammar for what it is read back as. *)
Definition dumped (j : json) : Prop := ∀ pretty step indent t,
  writable j = true → dump_value dump_float pretty step indent j = Ok t → value t (reparsed j).

Lemma array_body_elements pretty step indent w es : Forall dumped es → es ≠ [] → forallb writable es = true → white w = true →
  ∀ body, array_body pretty step indent es = Ok body → elements (newline_if pretty +:+ body +:+ w) (map reparsed es).
Proof.
  intros Hes Hne Hwr Hw. induction Hes as [|v es Hv Hes IH]; [done|]. cbn in Hwr. apply andb_true_iff in Hwr as [Hwv Hwr].
  intros body Hb. cbn [array_body] in Hb. apply bind_Ok in Hb as (t & Ht & Hb). specialize (Hv _ _ _ _ Hwv Ht).
  destruct es as [|v' es].
  - injection Hb as <-. rewrite !string_app_assoc, lead_indentation, <- !string_app_assoc.
    apply elements_last; [apply lead_white|done|done].
  - fold (array_body pretty step indent) in Hb. apply bind_Ok in Hb as (tail & Htail & [= <-]).
    specialize (IH ltac:(done) Hwr _ Htail).
    assert (newline_if pretty +:+ ((indentation pretty (indent + step) +:+ t) +:+ separator pretty +:+ tail) +:+ w =
      lead pretty (indent + step) +:+ t +:+ "" +:+ "," +:+ (newline_if pretty +:+ tail +:+ w)) as ->.
    { rewrite <- lead_indentation, separator_text. by assoc. }
    apply elements_more; [apply lead_white|done|done|done].
Qed.

Lemma members_text s s' kvs : members s kvs → s = s' → members s' kvs.
Proof. by intros ? <-. Qed.

Lemma object_body_members pretty step indent w ms : Forall (λ m, dumped m.2) ms → ms ≠ [] →
  forallb (λ m, writable m.2) ms = true → white w = true →
  ∀ body, object_body pretty step indent ms = Ok body →
  members (newline_if pretty +:+ body +:+ w) (map (λ m, (m.1, reparsed m.2)) ms).
Proof.
  intros Hms Hne Hwr Hw. destruct (colon_text pretty) as (wc & Hwc & Hcolon).
  induction Hms as [|[k v] ms Hv Hms IH]; [done|]. cbn in Hwr. apply andb_true_iff in Hwr as [Hwv Hwr].
  intros body Hb. cbn [object_body] in Hb. apply bind_Ok in Hb as (kt & Hk & Hb). apply bind_Ok in Hb as (t & Ht & Hb).
  specialize (Hv _ _ _ _ Hwv Ht). apply dump_escaped_body in Hk.
  assert (∀ w', white w' = true → member_text (lead pretty (indent + step) +:+ quoted kt +:+ "" +:+ ":" +:+ wc +:+ t +:+ w') k (reparsed v))
    as Hmember by (intros w' Hw'; constructor; [apply lead_white|done..]).
  destruct ms as [|m ms].
  - assert (body = indentation pretty (indent + step) +:+ one quote +:+ kt +:+ colon pretty +:+ t) as -> by congruence.
    eapply members_text; [by apply members_last, (Hmember w)|].
    rewrite <- lead_indentation, Hcolon. unfold quoted. by assoc.
  - fold (object_body pretty step indent) in Hb. apply bind_Ok in Hb as (tail & Htail & Hb).
    assert (body = (indentation pretty (indent + step) +:+ one quote +:+ kt +:+ colon pretty +:+ t) +:+ separator pretty +:+ tail)
      as -> by congruence.
    specialize (IH ltac:(done) Hwr _ Htail).
    eapply members_text; [by apply members_more, IH; apply (Hmember "")|].
    rewrite <- lead_indentation, Hcolon, separator_text. unfold quoted. by assoc.
Qed.

Lemma dump_value_grammar j : dumped j.
Proof.
  induction j as [|b|z|n|m e|s|es IH|ms IH] using json_ind'; intros pretty step indent t Hw Hd.
  - injection Hd as <-. constructor.
  - destruct b; injection Hd as <-; constructor.
  - injection Hd as <-. cbn in Hw. zbool. constructor. apply dump_integer_number. unfold INT64_MAX, UINT64_MAX in *. lia.
  - injection Hd as <-. cbn in Hw. zbool. constructor. pose proof (dump_integer_number n) as Hn.
    destruct (Z.leb_spec 0 n); [|lia]. apply Hn. unfold INT64_MIN. lia.
  - done.
  - cbn in Hd. apply bind_Ok in Hd as (b & Hb & [= <-]). by apply (value_of_string b), dump_escaped_body.
  - destruct (decide (es = [])) as [->|Hne]; [injection Hd as <-; by apply (value_empty_array "")|].
    rewrite dump_array in Hd by done. apply bind_Ok in Hd as (body & Hb & [= <-]).
    rewrite opening_text, closing_text. cbn [reparsed].
    pose proof (array_body_elements pretty step indent (lead pretty indent) es IH Hne Hw (lead_white _ _) body Hb) as He.
    apply value_array in He. eapply value_text; [exact He|]. by assoc.
  - destruct (decide (ms = [])) as [->|Hne]; [injection Hd as <-; by apply (value_empty_object "")|].
    rewrite dump_object in Hd by done. apply bind_Ok in Hd as (body & Hb & [= <-]).
    cbn in Hw. apply andb_true_iff in Hw as [Hw Hs]. rewrite opening_text, closing_text. cbn [reparsed].
    pose proof (object_body_members pretty step indent (lead pretty indent) ms IH Hne Hw (lead_white _ _) body Hb) as He.
    apply value_object in He. rewrite set_members_sorted in He by (cbn; by rewrite sorted_keys_map).
    eapply value_text; [exact He|]. by assoc.
Qed.
End dump.
