(* ===== verification/JsonDocuments.v ===== *)
(** * The documents that can be written

    [dump] fails only for text that is not UTF-8, and every document of the
    grammar has only UTF-8 strings, members in the order of their keys and
    integers of their width: what was parsed can be written again. *)

From S2P Require Import Prelude.
From S2P Require Import Text.
From S2P Require Import Json.
From S2P Require Import JsonLexer.
From S2P Require Import JsonSerializer.
From S2P Require Import JsonGrammar.
From S2P Require Import JsonScanning.
From S2P Require Import JsonNumbers.
From S2P Require Import JsonRoundtrip.

Open Scope Z_scope.

(** ** UTF-8 text *)

Inductive utf8_text : string → Prop :=
  | utf8_nil : utf8_text EmptyString
  | utf8_cons cp s : scalar_value cp → utf8_text s → utf8_text (utf8 cp +:+ s).

Lemma utf8_text_app s1 s2 : utf8_text s1 → utf8_text s2 → utf8_text (s1 +:+ s2).
Proof. induction 1 as [|cp s Hcp _ IH]; [done|]. intros Hs. rewrite <- string_app_assoc. constructor; [done|by apply IH]. Qed.
Lemma utf8_text_char cp : scalar_value cp → utf8_text (utf8 cp).
Proof. intros Hcp. rewrite <- (string_app_nil (utf8 cp)). by apply utf8_cons, utf8_nil. Qed.

Lemma utf8_text_ascii s : none (λ c, 0x80 <=? byte_value c) s = true → utf8_text s.
Proof.
  induction s as [|c s IH]; cbn [none]; [constructor|]. intros [Hc%negb_true_iff Hs]%andb_true_iff.
  pose proof (byte_value_range c). zbool. change (String c s) with (one c +:+ s).
  rewrite <- (utf8_ascii c) by lia. apply utf8_cons; [unfold scalar_value; lia|by apply IH].
Qed.

Lemma hex_quad_pair cp1 cp2 : 0xD800 ≤ cp1 ≤ 0xDBFF → 0xDC00 ≤ cp2 ≤ 0xDFFF →
  scalar_value (0x10000 + (cp1 - 0xD800) * 1024 + (cp2 - 0xDC00)).
Proof. unfold scalar_value. lia. Qed.

(** The character of a simple escape is ASCII. *)
Lemma simple_escape_ascii c b : simple_escape c = Some b → utf8_text (one b).
Proof.
  unfold simple_escape, simple_escapes. cbn [char_lookup]. intros Hc. assert (byte_value b < 0x80) as Hb.
  { repeat split_match; simplify_eq; done. }
  pose proof (byte_value_range b). rewrite <- (utf8_ascii b) by done. apply utf8_text_char. unfold scalar_value. lia.
Qed.

Lemma string_body_utf8 b s : string_body b s → utf8_text s.
Proof.
  induction 1 as [|u v b s Hu _ IH]; [constructor|]. apply utf8_text_app; [|done].
  destruct Hu; [by apply utf8_text_char|by eapply simple_escape_ascii|by apply utf8_text_char|].
  by apply utf8_text_char, hex_quad_pair.
Qed.

(** ** The automaton accepts it *)

Definition leading_live (byte : Z) : bool :=
  let st := state_after 0 byte in
  if byte <? 0x80 then st =? 0
  else match following_ranges byte with
       | Some ranges => waiting st && ranges_eqb (awaited st) ranges
       | None => true
       end.

Definition continuing_live (state byte : Z) : bool :=
  match awaited state with
  | (lo, hi) :: rest =>
      negb (between lo byte hi) ||
      (let st := state_after state byte in ((st =? 0) || waiting st) && ranges_eqb (awaited st) rest)
  | [] => true
  end.

Lemma leading_live_all byte : 0 ≤ byte < 256 → leading_live byte = true.
Proof. apply (below leading_live 256). by vm_compute. Qed.

Lemma continuing_live_all state byte : waiting state = true → 0 ≤ byte < 256 → continuing_live state byte = true.
Proof.
  intros Hs Hb. apply between_iff in Hs. replace state with (2 + (state - 2)) by lia.
  apply (below (λ b, continuing_live (2 + (state - 2)) b) 256); [|done].
  apply (below (λ s, forallb (λ b, continuing_live (2 + s) b) (map Z.of_nat (seq 0 256))) 7); [by vm_compute|lia].
Qed.

Lemma continuing_ranges state : waiting state = true → awaited state ≠ [].
Proof.
  intros Hs. apply between_iff in Hs. unfold awaited. repeat split_match; zbool; try done. lia.
Qed.

(** The rest [s] is written from the state. *)
Definition accepted (state : Z) (s : string) : Prop := ∀ i last codep, ∃ t, escaped_loop i last state codep s = Ok t.

Lemma accepted_step state st c s :
  state_after state (byte_value c) = st → st ≠ UTF8_REJECT → accepted st s → accepted state (String c s).
Proof.
  intros Hst Hne Hs i last codep. cbn [escaped_loop]. rewrite <- (decode_state state codep) in Hst.
  destruct (decode state codep (byte_value c)) as [st' cp]. cbn in Hst. subst st'.
  destruct (Z.eqb_spec st UTF8_REJECT); [done|]. destruct (Hs (i + 1) c cp) as [t ->]. by eexists.
Qed.

Lemma accepted_continuing u : ∀ state s, state = 0 ∨ waiting state = true →
  in_ranges (awaited state) u = true → accepted 0 s → accepted state (u +:+ s).
Proof.
  induction u as [|c u IH]; intros state s Hst Hu Hs.
  - destruct Hst as [->|Hw]; [done|]. destruct (awaited state) as [|[]] eqn:E; [|done].
    pose proof (continuing_ranges state Hw) as Hne. by rewrite E in Hne.
  - destruct Hst as [->|Hw]; [done|]. pose proof (continuing_live_all state _ Hw (byte_value_range c)) as Hl.
    unfold continuing_live in Hl. destruct (awaited state) as [|[lo hi] rest] eqn:E; [done|].
    cbn [in_ranges] in Hu. apply andb_true_iff in Hu as [Hb Hu]. rewrite Hb in Hl. cbn [negb orb] in Hl.
    apply andb_true_iff in Hl as [Hw' Hr]. unfold ranges_eqb in Hr. apply bool_decide_eq_true in Hr.
    apply (accepted_step _ (state_after state (byte_value c))); [done|by intros Hx; rewrite Hx in Hw'|].
    apply IH; [|by rewrite Hr|done]. apply orb_true_iff in Hw' as [?%Z.eqb_eq|?]; [by left|by right].
Qed.

Lemma accepted_character cp s : scalar_value cp → accepted 0 s → accepted 0 (utf8 cp +:+ s).
Proof.
  intros Hcp Hs. destruct (utf8 cp) as [|c u] eqn:Hu; [done|]. cbn [String.append].
  pose proof (leading_live_all _ (byte_value_range c)) as Hl. unfold leading_live in Hl.
  destruct (Z.ltb_spec cp 0x80) as [Hlow|Hhigh].
  - assert (utf8 cp = one (byte_of cp)) as Hone by (unfold utf8; by destruct (Z.ltb_spec cp 0x80); [|lia]).
    rewrite Hone in Hu. injection Hu as <- <-. unfold scalar_value in Hcp. rewrite byte_value_of in Hl by lia.
    destruct (Z.ltb_spec cp 0x80); [|lia]. apply Z.eqb_eq in Hl.
    apply (accepted_step _ 0); [by rewrite byte_value_of by lia|done|done].
  - destruct (utf8_ranges c u) as (ranges & Hr & Hin); [by exists cp|].
    destruct (following_ranges_low _ _ Hr) as [_ Hc]. destruct (Z.ltb_spec (byte_value c) 0x80); [lia|].
    rewrite Hr in Hl. apply andb_true_iff in Hl as [Hw Heq]. unfold ranges_eqb in Heq. apply bool_decide_eq_true in Heq.
    apply (accepted_step _ (state_after 0 (byte_value c))); [done|by intros Hx; rewrite Hx in Hw|].
    apply accepted_continuing; [by right|by rewrite Heq|done].
Qed.

Lemma utf8_accepted s : utf8_text s → accepted 0 s.
Proof. induction 1 as [|cp s Hcp _ IH]; [by eexists|by apply accepted_character]. Qed.

Lemma dump_escaped_ok s : utf8_text s → ∃ t, dump_escaped s = Ok t.
Proof. intros Hs. by apply utf8_accepted. Qed.
Lemma dump_escaped_utf8 s t : dump_escaped s = Ok t → utf8_text s.
Proof. intros Ht%dump_escaped_body. by eapply string_body_utf8. Qed.

(** ** Documents *)

(** A document of the library: its text is UTF-8, its integers have their
    width and its objects are in the order of their keys. *)
Inductive document : json → Prop :=
  | document_null : document JNull
  | document_bool b : document (JBool b)
  | document_integer z : INT64_MIN ≤ z ≤ INT64_MAX → document (JInteger z)
  | document_unsigned n : 0 ≤ n ≤ UINT64_MAX → document (JUnsigned n)
  | document_float m e : document (JFloat m e)
  | document_string s : utf8_text s → document (JString s)
  | document_array es : Forall document es → document (JArray es)
  | document_object ms :
      Forall (λ m, utf8_text m.1) ms → Forall (λ m, document m.2) ms → sorted_keys ms = true → document (JObject ms).

Fixpoint no_doubles (j : json) : bool :=
  match j with
  | JFloat _ _ => false
  | JArray es => forallb no_doubles es
  | JObject ms => forallb (λ m, no_doubles m.2) ms
  | _ => true
  end.

Lemma document_writable j : document j → no_doubles j = true → writable j = true.
Proof.
  induction j as [|b|z|n|m e|s|es IH|ms IH] using json_ind'; intros Hd Hn; inversion Hd as [| |? Hz|? Hz| | |? He|? Hk Hv Hs]; subst;
    try done; cbn in *.
  - apply andb_true_iff. split; apply Z.leb_le; lia.
  - apply andb_true_iff. split; apply Z.leb_le; lia.
  - clear Hd. induction He as [|e es He _ IHe]; [done|]. apply Forall_cons in IH as [IHx IH]. cbn in *.
    apply andb_true_iff in Hn as [Hn Hns]. by rewrite (IHx He Hn), (IHe IH Hns).
  - rewrite Hs, andb_true_r. clear Hd Hk Hs. induction Hv as [|m ms Hv _ IHv]; [done|]. apply Forall_cons in IH as [IHx IH].
    cbn in *. apply andb_true_iff in Hn as [Hn Hns]. by rewrite (IHx Hv Hn), (IHv IH Hns).
Qed.

(** Every document is written. *)
Lemma document_dumped dump_float j : document j → ∀ pretty step indent, ∃ t, dump_value dump_float pretty step indent j = Ok t.
Proof.
  induction j as [|[]|z|n|m e|s|es IH|ms IH] using json_ind'; intros Hd pretty step indent;
    inversion Hd as [| |? Hz|? Hz| |? Hs|? He|? Hk Hv Hs]; subst; try (by eexists).
  - cbn. destruct (dump_escaped_ok s Hs) as [t ->]. by eexists.
  - destruct (decide (es = [])) as [->|Hne]; [by eexists|]. rewrite dump_array by done.
    assert (∃ body, array_body dump_float pretty step indent es = Ok body) as [body ->]; [|by eexists]. clear Hne Hd.
    induction He as [|v es Hv _ IHe]; [by eexists|]. apply Forall_cons in IH as [IHv IH]. cbn [array_body].
    destruct (IHv Hv pretty step (indent + step)%nat) as [t ->]. cbn [mbind result_bind]. destruct es; [by eexists|].
    destruct (IHe IH) as [tail ->]. by eexists.
  - destruct (decide (ms = [])) as [->|Hne]; [by eexists|]. rewrite dump_object by done. clear Hs.
    assert (∃ body, object_body dump_float pretty step indent ms = Ok body) as [body ->]; [|by eexists]. clear Hne Hd.
    induction Hv as [|[k v] ms Hv _ IHe]; [by eexists|]. apply Forall_cons in IH as [IHv IH], Hk as [Hkey Hk]. cbn [object_body].
    destruct (dump_escaped_ok k Hkey) as [kt ->]. cbn [mbind result_bind].
    destruct (IHv Hv pretty step (indent + step)%nat) as [t Ht]. cbn [snd] in Ht. rewrite Ht. cbn [mbind result_bind].
    destruct ms; [by eexists|].
    destruct (IHe IH Hk) as [tail ->]. by eexists.
Qed.

(** ** Parsed documents *)

Lemma number_document t j : number t j → document j.
Proof.
  intros [i Hi Hw|i Hi Hw|negative i f x m e _ _ _ _ _]; [| |apply document_float]; unfold out_of_width in Hw;
    apply integer_part_digits in Hi as [_ Hd]; pose proof (digits_value_bound i Hd).
  - apply document_unsigned. lia.
  - apply document_integer. unfold INT64_MIN, INT64_MAX in *. lia.
Qed.

Lemma document_members_set k v ms : utf8_text k → document v → document (JObject ms) → document (JObject (set_member k v ms)).
Proof.
  intros Hk Hv Hd. inversion Hd as [| | | | | | |? Hks Hvs Hs]; subst. constructor; [| |by apply sorted_keys_set].
  - clear Hvs Hs Hd. induction Hks as [|[k1 w] ms Hk1 Hks IH]; cbn; [by repeat constructor|].
    destruct (String.compare k k1); by repeat constructor.
  - clear Hks Hs Hd. induction Hvs as [|[k1 w] ms Hw Hvs IH]; cbn; [by repeat constructor|].
    destruct (String.compare k k1); by repeat constructor.
Qed.

Lemma document_members kvs : ∀ ms, Forall (λ m, utf8_text m.1 ∧ document m.2) kvs → document (JObject ms) →
  document (JObject (set_members kvs ms)).
Proof.
  unfold set_members. induction kvs as [|[k v] kvs IH]; intros ms Hkvs Hms; [done|].
  apply Forall_cons in Hkvs as [[Hk Hv] Hkvs]. apply IH; [done|]. by apply document_members_set.
Qed.

Lemma grammar_documents :
  (∀ t j, value t j → document j) ∧ (∀ t es, elements t es → Forall document es) ∧
  (∀ t kvs, members t kvs → Forall (λ m, utf8_text m.1 ∧ document m.2) kvs) ∧
  (∀ m k j, member_text m k j → utf8_text k ∧ document j).
Proof.
  apply grammar_ind; intros; try by repeat constructor.
  - by eapply number_document.
  - constructor. by eapply string_body_utf8.
  - apply document_members; [done|by repeat constructor].
  - by apply Forall_singleton.
  - by apply Forall_cons.
  - split; [by eapply string_body_utf8|done].
Qed.

Lemma json_text_document s j : json_text s j → document j.
Proof. intros [mark w t w' tail v _ _ Hv _ _]. by apply (proj1 grammar_documents) in Hv. Qed.
