(* ===== verification/JsonLibrary.v ===== *)
(** * The JSON library

    The parser and the serializer as an instance of [JsonLib], with the laws
    [JsonLaws] and [JsonText] that the rest of the development assumes of the
    library; and the properties of the library by itself: the parser always
    terminates, accepts exactly the texts of the grammar with the document
    they denote, and reads back what the serializer writes.  Doubles are
    formatted by a parameter, of which the compact text needs that it is one
    line. *)

From S2P Require Import Prelude.
From S2P Require Import Text.
From S2P Require Import Json.
From S2P Require Import JsonLexer.
From S2P Require Import JsonParser.
From S2P Require Import JsonSerializer.
From S2P Require Import JsonGrammar.
From S2P Require Import JsonScanning.
From S2P Require Import JsonParsing.
From S2P Require Import JsonSoundness.
From S2P Require Import JsonRoundtrip.
From S2P Require Import JsonDocuments.

Open Scope Z_scope.

(** ** Lines *)

(** [s] has no newline. *)
Definition one_line (s : string) : Prop := none is_newline s = true.

Lemma one_line_app s1 s2 : one_line s1 → one_line s2 → one_line (s1 +:+ s2).
Proof. unfold one_line. by rewrite none_app, andb_true_iff. Qed.
Lemma one_line_char c s : is_newline c = false → one_line s → one_line (String c s).
Proof. unfold one_line. cbn [none]. by intros ->. Qed.

Lemma is_newline_value c : is_newline c = (byte_value c =? 10).
Proof. apply byte_value_eqb. Qed.

Lemma bytes_line zs : Forall (λ z, 11 ≤ z < 256) zs → one_line (bytes zs).
Proof.
  induction 1 as [|z zs Hz _ IH]; [done|]. apply one_line_char; [|done].
  rewrite is_newline_value, byte_value_of by lia. lia.
Qed.

Lemma utf8_line cp : scalar_value cp → 0x20 ≤ cp → one_line (utf8 cp).
Proof.
  unfold scalar_value. intros [Hcp _] Hlow. unfold utf8. apply bytes_line. repeat split_match; zbool;
    repeat constructor; Z.div_mod_to_equations; lia.
Qed.

Lemma hex_digit_line c v : hex_value (byte_value c) = Some v → is_newline c = false.
Proof. rewrite is_newline_value. intros Hv. apply Z.eqb_neq. intros Hc. by rewrite Hc in Hv. Qed.
Lemma hex_quad_line h cp : hex_quad h cp → one_line h.
Proof. intros []. by repeat (apply one_line_char; [by eapply hex_digit_line|]). Qed.

Lemma string_char_line u v : string_char u v → one_line u.
Proof.
  intros [cp Hs Hlow _ _|c b Hc|h cp Hh _|h1 cp1 h2 cp2 H1 _ H2 _].
  - by apply utf8_line.
  - apply one_line_char; [done|]. apply one_line_char; [|done]. rewrite is_newline_value. apply Z.eqb_neq.
    intros He. by rewrite <- (byte_of_value c), He in Hc.
  - apply one_line_char; [done|]. apply one_line_char; [done|]. by eapply hex_quad_line.
  - apply one_line_char; [done|]. apply one_line_char; [done|]. apply one_line_app; [by eapply hex_quad_line|].
    apply one_line_char; [done|]. apply one_line_char; [done|]. by eapply hex_quad_line.
Qed.

Lemma string_body_line b s : string_body b s → one_line b.
Proof. induction 1 as [|u v b s Hu _ IH]; [done|]. apply one_line_app; [by eapply string_char_line|done]. Qed.

(** The buffer of an integer holds digits, a sign and zero bytes. *)
Definition plain_buffer (b : buffer) : Prop := Forall (λ c, is_newline c = false) b.

Lemma digit_char_line d : 0 ≤ d ≤ 9 → is_newline (digit_char d) = false.
Proof.
  intros [Hd _]%digit_char_spec. destruct (is_newline (digit_char d)) eqn:E; [|done].
  apply Ascii.eqb_eq in E. by rewrite E in Hd.
Qed.

Lemma fill_digits_plain fuel : ∀ v ptr b, 0 ≤ v → plain_buffer b → plain_buffer (fill_digits fuel v ptr b).
Proof.
  induction fuel as [|fuel IH]; intros v ptr b Hv Hb; cbn [fill_digits];
    repeat split_match; zbool; try done; try apply IH; repeat apply Forall_insert; try done; try apply digit_char_line;
    Z.div_mod_to_equations; lia.
Qed.

Lemma buffer_line b : plain_buffer b → one_line (String.string_of_list_ascii b).
Proof. induction 1 as [|c b Hc _ IH]; [done|]. by apply one_line_char. Qed.

Lemma dump_integer_line z : one_line (dump_integer z).
Proof.
  unfold dump_integer. destruct (Z.eqb_spec z 0) as [|H0]; [done|].
  assert (plain_buffer (replicate 64 Ascii.zero)) as Hb by (by apply Forall_replicate).
  destruct (Z.ltb_spec z 0); apply buffer_line, Forall_take, fill_digits_plain; [apply u64_range|by apply Forall_insert|lia|done].
Qed.

(** ** Exceptions *)

Lemma bind_failure {A B} (r : result A) (f : A → result B) e :
  (r ≫= f) = Throw e → (∀ x, r = Throw x → json_failure x) → (∀ a x, f a = Throw x → json_failure x) → json_failure e.
Proof. intros [Hr|(a & _ & Ha)]%bind_Throw H1 H2; [by apply H1|by eapply H2]. Qed.

Definition fails_with_json (o : loop_next) : Prop := match o with Error e => json_failure e | _ => True end.

Lemma parse_member_throws p sts sax : fails_with_json (parse_member p sts sax).
Proof.
  unfold parse_member. destruct (last_token p); try apply json_exception_failure.
  generalize (get_token p). intros p'. destruct (last_token p'); try apply json_exception_failure. done.
Qed.

Lemma state_evaluation_throws p sts sax : fails_with_json (state_evaluation p sts sax).
Proof.
  unfold state_evaluation. destruct sts as [|[] sts]; [done|..]; generalize (get_token p); intros p';
    destruct (last_token p'); try apply json_exception_failure; first [done|apply parse_member_throws].
Qed.

Lemma iteration_throws s : fails_with_json (iteration s).
Proof.
  destruct s as [p sts skip sax]. unfold iteration. destruct skip; [apply state_evaluation_throws|].
  destruct (last_token p); try apply json_exception_failure; try apply state_evaluation_throws.
  - destruct (number_float _); [apply state_evaluation_throws|apply json_exception_failure].
  - generalize (get_token p). intros p'. destruct (last_token p'); first [exact I|apply state_evaluation_throws].
  - generalize (get_token p). intros p'.
    destruct (last_token p'); first [apply parse_member_throws|apply state_evaluation_throws].
  - destruct (_ =? _); apply json_exception_failure.
Qed.

Lemma sax_parse_throws fuel s e : sax_parse_internal fuel s = Some (Throw e) → json_failure e.
Proof.
  revert s. induction fuel as [|fuel IH]; intros s; cbn; [done|].
  pose proof (iteration_throws s) as Hi. destruct (iteration s); [apply IH|done|]. by intros [= <-].
Qed.

Lemma parse_throws s e : parse s = Throw e → json_failure e.
Proof.
  unfold parse, run_parser. destruct (sax_parse_internal _ _) as [[[p sax]|x]|] eqn:E.
  - destruct (last_token (get_token p)); intros; simplify_eq; apply json_exception_failure.
  - intros [= <-]. by eapply sax_parse_throws.
  - intros [= <-]. apply json_exception_failure.
Qed.

Lemma escaped_loop_throws s : ∀ i last state codep e, escaped_loop i last state codep s = Throw e → json_failure e.
Proof.
  induction s as [|c s IH]; intros i last state codep e; cbn [escaped_loop].
  - destruct (_ =? _); intros; simplify_eq. apply json_exception_failure.
  - destruct (decode _ _ _) as [state' codep']. destruct (_ =? _); [intros; simplify_eq; apply json_exception_failure|].
    intros Hb. eapply bind_failure; [exact Hb|apply IH|done].
Qed.

Section dump.
Context (dump_float : Z → Z → string).

Lemma dump_value_throws j : ∀ pretty step indent e, dump_value dump_float pretty step indent j = Throw e → json_failure e.
Proof.
  induction j as [|[]|z|n|m x|s|es IH|ms IH] using json_ind'; intros pretty step indent e Hd; try done.
  - cbn in Hd. eapply bind_failure; [exact Hd|apply escaped_loop_throws|done].
  - destruct (decide (es = [])) as [->|Hne]; [done|]. rewrite dump_array in Hd by done.
    eapply bind_failure; [exact Hd|clear Hd Hne e|done]. induction IH as [|v es Hv _ IH]; intros e Hd; [done|].
    cbn [array_body] in Hd. eapply bind_failure; [exact Hd|apply Hv|]. intros t x Ht. destruct es; [done|].
    eapply bind_failure; [exact Ht|apply IH|done].
  - destruct (decide (ms = [])) as [->|Hne]; [done|]. rewrite dump_object in Hd by done.
    eapply bind_failure; [exact Hd|clear Hd Hne e|done]. induction IH as [|[k v] ms Hv _ IH]; intros e Hd; [done|].
    cbn [object_body] in Hd. eapply bind_failure; [exact Hd|apply escaped_loop_throws|]. intros kt x Hk.
    eapply bind_failure; [exact Hk|apply Hv|]. intros t y Ht. destruct ms; [done|].
    eapply bind_failure; [exact Ht|apply IH|done].
Qed.

(** ** The compact text *)

Context (float_line : ∀ m e, one_line (dump_float m e)).

Lemma dump_escaped_line s t : dump_escaped s = Ok t → one_line (one quote +:+ t +:+ one quote).
Proof.
  intros Hs%dump_escaped_body%string_body_line. apply one_line_app; [done|]. by apply one_line_app.
Qed.

Lemma compact_line j : ∀ s, dump_value dump_float false 0 0 j = Ok s → one_line s.
Proof.
  induction j as [|[]|z|n|m x|s|es IH|ms IH] using json_ind'; intros t Hd; try (by injection Hd as <-).
  - injection Hd as <-. apply dump_integer_line.
  - injection Hd as <-. apply dump_integer_line.
  - cbn in Hd. apply bind_Ok in Hd as (b & Hb & [= <-]). by apply dump_escaped_line in Hb.
  - destruct (decide (es = [])) as [->|Hne]; [by injection Hd as <-|]. rewrite dump_array in Hd by done.
    apply bind_Ok in Hd as (body & Hb & [= <-]). apply one_line_char; [done|]. apply one_line_app; [|done].
    clear Hne. revert body Hb. induction IH as [|v es Hv _ IH]; intros body Hb; [by injection Hb as <-|].
    cbn [array_body] in Hb. apply bind_Ok in Hb as (u & Hu & Hb). apply Hv in Hu.
    destruct es; [by injection Hb as <-|]. apply bind_Ok in Hb as (tail & Htail & [= <-]).
    apply one_line_app; [done|]. apply one_line_char; [done|]. by apply IH.
  - destruct (decide (ms = [])) as [->|Hne]; [by injection Hd as <-|]. rewrite dump_object in Hd by done.
    apply bind_Ok in Hd as (body & Hb & [= <-]). apply one_line_char; [done|]. apply one_line_app; [|done].
    clear Hne. revert body Hb. induction IH as [|[k v] ms Hv _ IH]; intros body Hb; [by injection Hb as <-|].
    cbn [object_body] in Hb. apply bind_Ok in Hb as (kt & Hk & Hb). apply dump_escaped_line in Hk.
    apply bind_Ok in Hb as (u & Hu & Hb). apply Hv in Hu.
    assert (one_line (one quote +:+ kt +:+ colon false +:+ u)) as Htext.
    { change (colon false) with (one quote +:+ ":").
      assert (one quote +:+ kt +:+ (one quote +:+ ":") +:+ u = (one quote +:+ kt +:+ one quote) +:+ ":" +:+ u) as -> by by assoc.
      by apply one_line_app, one_line_char. }
    destruct ms; [by injection Hb as <-|]. apply bind_Ok in Hb as (tail & Htail & [= <-]).
    apply one_line_app; [done|]. apply one_line_char; [done|]. by apply IH.
Qed.

Lemma dump_reparsed j : ∀ pretty step indent,
  dump_value dump_float pretty step indent (reparsed j) = dump_value dump_float pretty step indent j.
Proof.
  induction j as [|[]|z|n|m x|s|es IH|ms IH] using json_ind'; intros pretty step indent; try done.
  - cbn. by destruct (0 <=? z).
  - destruct (decide (es = [])) as [->|Hne]; [done|]. cbn [reparsed]. rewrite !dump_array by (by destruct es).
    f_equal. clear Hne. induction IH as [|v es Hv _ IH]; [done|]. cbn [map array_body]. rewrite Hv.
    destruct es; [done|]. cbn [map] in *. by rewrite IH.
  - destruct (decide (ms = [])) as [->|Hne]; [done|]. cbn [reparsed]. rewrite !dump_object by (by destruct ms).
    f_equal. clear Hne. induction IH as [|[k v] ms Hv _ IH]; [done|]. cbn in Hv. cbn [map object_body fst snd]. rewrite Hv.
    destruct ms as [|[k1 v1] ms]; [done|]. cbn [map fst snd] in *. by rewrite IH.
Qed.

(** ** The round trip *)

Lemma value_json_text w t j : white w = true → value t j → json_text (t +:+ w) j.
Proof.
  intros Hw Hv. pose proof (json_text_intro "" "" t w "" j (or_introl eq_refl) eq_refl Hv Hw eq_refl) as Hj.
  cbn in Hj. by rewrite string_app_nil in Hj.
Qed.

Lemma dump_parse indent w j s : white w = true → writable j = true → dump dump_float indent j = Ok s →
  parse (s +:+ w) = Ok (reparsed j).
Proof.
  intros Hw Hj Hd. apply parse_complete, value_json_text; [done|]. unfold dump in Hd.
  destruct (0 <=? indent); by eapply dump_value_grammar.
Qed.

End dump.

(** ** The instance *)

Definition nlohmann (dump_float : Z → Z → string) : JsonLib := {|
  json_parse := parse;
  json_dump := dump dump_float (-1);
  json_dump2 := dump dump_float 2;
|}.

Lemma nlohmann_laws dump_float : @JsonLaws (nlohmann dump_float).
Proof. split; [apply parse_throws|]. intros j e. apply dump_value_throws. Qed.

Lemma nlohmann_text dump_float : (∀ m e, one_line (dump_float m e)) → @JsonText (nlohmann dump_float).
Proof.
  intros Hf. split.
  - intros j s. by apply compact_line.
  - intros j s Hj Hd. rewrite <- (string_app_nil s). by apply (dump_parse dump_float (-1)).
  - intros j s Hj Hd. by apply (dump_parse dump_float 2).
  - intros j _. apply dump_reparsed.
Qed.

(** ** Properties *)

(** C12: [json::parse] accepts exactly the JSON texts of the grammar (RFC 8259
    with a byte order mark and a zero byte that ends the text) and returns the
    document they denote, whose text is UTF-8, whose integers have their width
    and whose members are in the order of their keys; every other text is
    refused with a [json::exception] that has a message. *)
Theorem parse_exact s :
  (∀ j, parse s = Ok j ↔ json_text s j) ∧ (∀ j, parse s = Ok j → document j) ∧
  ((∀ j, ¬ json_text s j) → ∃ m, parse s = Throw (JsonError m) ∧ m ≠ EmptyString).
Proof.
  split; [split; [apply parse_sound|apply parse_complete]|]. split; [by intros j Hp%parse_sound%json_text_document|].
  intros Hs. destruct (parse s) as [j|e] eqn:E.
  - by apply parse_sound, Hs in E.
  - destruct (parse_throws _ _ E) as (m & -> & Hm). by exists m.
Qed.


(** C13: every document without doubles is written, compact or indented, and
    what is written is read back as the document, where an integer that is not
    negative is unsigned. *)
Theorem json_roundtrip dump_float indent j :
  document j → no_doubles j = true → ∃ s, dump dump_float indent j = Ok s ∧ parse s = Ok (reparsed j).
Proof.
  intros Hd Hn. assert (∃ s, dump dump_float indent j = Ok s) as [s Hs].
  { unfold dump. destruct (0 <=? indent); by apply document_dumped. }
  exists s. split; [done|]. rewrite <- (string_app_nil s). by eapply dump_parse; [|apply document_writable|].
Qed.

(** ** Concrete texts *)

(** The library with a format for doubles; the witnesses write none. *)
Definition ex_json : JsonLib := nlohmann (λ _ _, "0.0"%string).
Definition ex_json_laws : @JsonLaws ex_json := nlohmann_laws _.
Lemma ex_json_text : @JsonText ex_json.
Proof. by apply nlohmann_text. Qed.

(** The compact text of a document. *)
Definition ex_text (j : json) : string := match @json_dump ex_json j with Ok s => s | Throw _ => EmptyString end.

Definition ex_document : json :=
  JObject [("ids", JArray [JInteger (-9223372036854775808); JUnsigned 18446744073709551615; JInteger 7]);
           ("name", JString (bytes [0x22; 0x0A; 0xE2; 0x82; 0xAC])); ("none", JNull)]%string.

Lemma ex_document_ok : document ex_document.
Proof.
  constructor; [| |done].
  - by repeat (apply Forall_cons; split; [by apply utf8_text_ascii|]).
  - repeat (apply Forall_cons; split); [constructor|constructor|constructor|done].
    { repeat (apply Forall_cons; split); constructor; unfold INT64_MIN, INT64_MAX, UINT64_MAX; lia. }
    apply (utf8_text_app (utf8 0x22)); [|apply (utf8_text_app (utf8 0x0A)); [|apply (utf8_text_char 0x20AC)]];
      try apply utf8_text_char; unfold scalar_value; lia.
Qed.

Lemma json_roundtrip_witness :
  ∃ s, dump (λ _ _, "0.0"%string) 2 ex_document = Ok s ∧ parse s = Ok (reparsed ex_document).
Proof. exact (json_roundtrip (λ _ _, "0.0"%string) 2 ex_document ex_document_ok eq_refl). Defined.

(** A text with its quotation marks written as apostrophes. *)
Fixpoint unquoted (s : string) : string :=
  match s with
  | EmptyString => EmptyString
  | String c rest => String (if (c =? "'")%char then quote else c) (unquoted rest)
  end.
