(* ===== verification/Timestamps.v ===== *)
(** * UTC timestamps

    [parse_timestamp], the same code in both adapters up to its error text:
    a fixed-layout UTC timestamp with up to nine fractional digits becomes
    nanoseconds since the epoch, or an exception when it is malformed, not a
    calendar date, or outside the signed 64-bit range. *)

From S2P Require Import Prelude.
From S2P Require Import Text.
From S2P Require Import StdMap.
From S2P Require Import CoreTypes.

Open Scope Z_scope.

(** ** The civil calendar of [std::chrono] *)

Definition is_leap (y : Z) : bool :=
  (y mod 4 =? 0) && (negb (y mod 100 =? 0) || (y mod 400 =? 0)).

Definition last_day (y m : Z) : Z :=
  if m =? 2 then (if is_leap y then 29 else 28)
  else if (m =? 4) || (m =? 6) || (m =? 9) || (m =? 11) then 30 else 31.

(** [year_month_day::ok()] *)
Definition date_ok (y m d : Z) : bool :=
  (1 <=? m) && (m <=? 12) && (1 <=? d) && (d <=? last_day y m).

(** [sys_days{date}.time_since_epoch().count()]: the standard algorithm on
    years that start in March, in eras of 400 years. *)
Definition sys_days (y m d : Z) : Z :=
  let y' := if m <=? 2 then y - 1 else y in
  let era := y' / 400 in
  let yoe := y' - era * 400 in
  let doy := (153 * (if m >? 2 then m - 3 else m + 9) + 2) / 5 + d - 1 in
  let doe := yoe * 365 + yoe / 4 - yoe / 100 + doy in
  era * 146097 + doe - 719468.

(** ** The parser *)

Section parse.
Context (error : string).     (* the text of the adapter's exception *)

Definition invalid {A} : result A := Throw (InvalidArgument error).

(** The [number] lambda: [length] digits at [offset]. *)
Fixpoint number_loop (value : string) (i length : nat) (acc : Z) : result Z :=
  match length with
  | O => Ok acc
  | S length' =>
      let c := char_at value i in
      if negb (is_digit c) then invalid
      else number_loop value (S i) length' (acc * 10 + digit_value c)
  end.

Definition number (value : string) (offset length : nat) : result Z :=
  number_loop value offset length 0.

Definition char_is (value : string) (i : nat) (c : ascii) : bool :=
  Ascii.eqb (char_at value i) c.

(** [for (auto i = digits; i < 9; ++i) fraction *= 10;] *)
Fixpoint scale_fraction (n : nat) (fraction : Z) : Z :=
  match n with O => fraction | S n' => scale_fraction n' (fraction * 10) end.

Definition billion : Z := 1000000000.

Definition parse_fraction (value : string) : result Z :=
  let size := String.length value in
  if (size =? 20)%nat then Ok 0
  else if negb (char_is value 19 ".") || (size <? 22)%nat || (30 <? size)%nat then invalid
  else
    let digits := (size - 21)%nat in
    fraction ← number value 20 digits;
    Ok (scale_fraction (9 - digits) fraction).

(** The final range check and combination. *)
Definition to_nanoseconds (seconds fraction : Z) : result ExchangeTimestamp :=
  if seconds >=? 0 then
    if seconds >? Z.quot (INT64_MAX - fraction) billion then invalid
    else Ok {| exchange_ns := seconds * billion + fraction |}
  else if (seconds <? Z.quot INT64_MIN billion - 1) ||
          ((seconds =? Z.quot INT64_MIN billion - 1) &&
           (fraction <? billion + Z.rem INT64_MIN billion)) then invalid
  else Ok {| exchange_ns := (seconds + 1) * billion + (fraction - billion) |}.

Definition parse_timestamp (value : string) : result ExchangeTimestamp :=
  let size := String.length value in
  if (size <? 20)%nat || negb (char_is value 4 "-") || negb (char_is value 7 "-") ||
     negb (char_is value 10 "T") || negb (char_is value 13 ":") || negb (char_is value 16 ":") ||
     negb (char_is value (size - 1) "Z")
  then invalid
  else
    year ← number value 0 4;
    month ← number value 5 2;
    day ← number value 8 2;
    hour ← number value 11 2;
    minute ← number value 14 2;
    second ← number value 17 2;
    if (year =? 0) || negb (date_ok year month day) || (hour >? 23) || (minute >? 59) ||
       (second >? 59)
    then invalid
    else
      fraction ← parse_fraction value;
      let seconds := sys_days year month day * 86400 + hour * 3600 + minute * 60 + second in
      to_nanoseconds seconds fraction.
End parse.

(** The two adapters' instances. *)
Definition coinbase_parse_timestamp : string → result ExchangeTimestamp :=
  parse_timestamp "invalid Coinbase UTC timestamp".
Definition kraken_parse_timestamp : string → result ExchangeTimestamp :=
  parse_timestamp "invalid Kraken UTC timestamp".

(** ** Specification *)

(** The day after a calendar day. *)
Definition next_day (y m d : Z) : Z * Z * Z :=
  if d <? last_day y m then (y, m, d + 1)
  else if m <? 12 then (y, m + 1, 1)
  else (y + 1, 1, 1).

(** A digit string of length [n] with value [v]. *)
Definition field (n : nat) (s : string) (v : Z) : Prop :=
  String.length s = n ∧ all_digits s = true ∧ v = digits_value 0 s.

(** The text of a timestamp: [YYYY-MM-DDThh:mm:ss], an optional fraction
    [.f] with one to nine digits, and [Z]. *)
Definition timestamp_text (Y M D h m s f : string) : string :=
  Y +:+ "-" +:+ M +:+ "-" +:+ D +:+ "T" +:+ h +:+ ":" +:+ m +:+ ":" +:+ s +:+
  (if String.eqb f "" then "Z" else "." +:+ f +:+ "Z").

(** [ns] is the nanosecond count of the accepted text [v]. *)
Definition timestamp_denotes (v : string) (ns : Z) : Prop :=
  ∃ Y M D h m s f year month day hour minute second,
    v = timestamp_text Y M D h m s f ∧
    field 4 Y year ∧ field 2 M month ∧ field 2 D day ∧
    field 2 h hour ∧ field 2 m minute ∧ field 2 s second ∧
    all_digits f = true ∧ (String.length f ≤ 9)%nat ∧
    year ≠ 0 ∧ date_ok year month day = true ∧ hour ≤ 23 ∧ minute ≤ 59 ∧ second ≤ 59 ∧
    ns = (sys_days year month day * 86400 + hour * 3600 + minute * 60 + second) * billion
         + digits_value 0 f * 10 ^ (9 - Z.of_nat (String.length f)).

(** ** Lemmas *)

Lemma number_loop_tail err c s i n acc :
  number_loop err (String c s) (S i) n acc = number_loop err s i n acc.
Proof.
  revert i acc. induction n as [|n IH]; intros i acc; cbn; [done|].
  unfold char_at. cbn. by rewrite IH.
Qed.

Lemma char_at_app f rest i :
  (i < String.length f)%nat → char_at (f +:+ rest) i = char_at f i.
Proof.
  unfold char_at. revert i. induction f as [|c f IH]; intros i; cbn; [lia|].
  destruct i; [done|]. intros. apply IH. lia.
Qed.

(** [number] reads a field at the front of the text. *)
Lemma number_loop_spec err f rest acc :
  number_loop err (f +:+ rest) 0 (String.length f) acc =
    if all_digits f then Ok (digits_value acc f) else invalid err.
Proof.
  revert acc. induction f as [|c f IH]; intros acc; cbn; [done|].
  change (char_at (String c (f +:+ rest)) 0) with c.
  destruct (is_digit c); cbn; [|done]. by rewrite number_loop_tail, IH.
Qed.

Lemma scale_fraction_spec n x : scale_fraction n x = x * 10 ^ Z.of_nat n.
Proof.
  revert x. induction n as [|n IH]; intros x; cbn [scale_fraction]; [lia|].
  rewrite IH, Nat2Z.inj_succ, Z.pow_succ_r by lia. ring.
Qed.

Lemma to_nanoseconds_spec err seconds fraction :
  0 ≤ fraction < billion →
  to_nanoseconds err seconds fraction =
    (if bool_decide (in_int64 (seconds * billion + fraction))
     then Ok {| exchange_ns := seconds * billion + fraction |} else invalid err).
Proof.
  intros Hf. unfold to_nanoseconds.
  change (Z.quot INT64_MIN billion - 1) with (-9223372037).
  change (billion + Z.rem INT64_MIN billion) with 145224192.
  rewrite Z.quot_div_nonneg by (unfold billion, INT64_MAX in *; lia).
  unfold in_int64, INT64_MAX, INT64_MIN, billion in *.
  rewrite Z.geb_leb. destruct (0 <=? seconds) eqn:E0; zbool.
  - rewrite Z.gtb_ltb. destruct (_ <? seconds) eqn:E1; zbool; case_bool_decide as Hc; try done;
      exfalso; Z.div_mod_to_equations; lia.
  - destruct (_ || _) eqn:E1.
    + rewrite bool_decide_false; [done|]. apply orb_true_iff in E1 as [E1|E1]; zbool; lia.
    + apply orb_false_iff in E1 as [E1 E2]. zbool. rewrite bool_decide_true.
      * do 2 f_equal. lia.
      * destruct E2; zbool; lia.
Qed.

Lemma sys_days_closed y m d :
  sys_days y m d =
    let y' := if m <=? 2 then y - 1 else y in
    365 * y' + y' / 4 - y' / 100 + y' / 400 +
    (153 * (if m >? 2 then m - 3 else m + 9) + 2) / 5 + d - 1 - 719468.
Proof. unfold sys_days. cbn zeta. generalize (if m <=? 2 then y - 1 else y). intros. Z.div_mod_to_equations. lia. Qed.

Lemma last_day_pos y m : 28 ≤ last_day y m.
Proof. unfold last_day. repeat split_match; lia. Qed.

Lemma sys_days_next y m d y' m' d' :
  date_ok y m d = true → next_day y m d = (y', m', d') →
  sys_days y' m' d' = sys_days y m d + 1.
Proof.
  unfold date_ok. rewrite !andb_true_iff, !Z.leb_le. intros [[[Hm1 Hm2] Hd1] Hd2] Hn.
  rewrite !sys_days_closed. unfold next_day in Hn.
  destruct (d <? last_day y m) eqn:Ed.
  { injection Hn as <- <- <-. cbn zeta. lia. }
  zbool. assert (d = last_day y m) as -> by lia. clear Hd1 Hd2 Ed.
  assert (m = 1 ∨ m = 2 ∨ m = 3 ∨ m = 4 ∨ m = 5 ∨ m = 6 ∨ m = 7 ∨ m = 8 ∨ m = 9 ∨ m = 10 ∨
          m = 11 ∨ m = 12) as Hm by lia.
  destruct_or! Hm; subst m; injection Hn as <- <- <-; unfold last_day; cbn zeta;
    repeat match goal with
    | |- context [if ?c then _ else _] =>
        let v := eval vm_compute in c in
        lazymatch v with true => idtac | false => idtac end; change c with v; cbn iota
    end; try (Z.div_mod_to_equations; lia).
  unfold is_leap.
  destruct (y mod 4 =? 0) eqn:E4, (y mod 100 =? 0) eqn:E100, (y mod 400 =? 0) eqn:E400; zbool;
    cbn [negb andb orb]; Z.div_mod_to_equations; lia.
Qed.

Lemma number_loop_skip err p s i n acc :
  number_loop err (p +:+ s) (String.length p + i) n acc = number_loop err s i n acc.
Proof. induction p as [|c p IH]; cbn; [done|]. by rewrite number_loop_tail. Qed.

Lemma char_at_skip p s i : char_at (p +:+ s) (String.length p + i) = char_at s i.
Proof. unfold char_at. by induction p as [|c p IH]; cbn. Qed.

(** A field preceded by [p] and followed by [rest]. *)
Lemma number_field err v p f rest off n :
  v = p +:+ f +:+ rest → off = String.length p → n = String.length f →
  number err v off n = if all_digits f then Ok (digits_value 0 f) else invalid err.
Proof.
  intros -> -> ->. unfold number.
  rewrite <-(Nat.add_0_r (String.length p)), number_loop_skip. apply number_loop_spec.
Qed.

Lemma char_is_at v p c rest i c' :
  v = p +:+ String c rest → i = String.length p → char_is v i c' = Ascii.eqb c c'.
Proof.
  intros -> ->. unfold char_is. rewrite <-(Nat.add_0_r (String.length p)), char_at_skip. done.
Qed.

Lemma string_split n v :
  (n ≤ String.length v)%nat → ∃ a b, v = a +:+ b ∧ String.length a = n.
Proof.
  revert v. induction n as [|n IH]; intros v Hn; [by exists EmptyString, v|].
  destruct v as [|c v]; cbn in Hn; [lia|]. destruct (IH v ltac:(lia)) as (a & b & -> & Ha).
  exists (String c a), b. cbn. by rewrite Ha.
Qed.

Lemma string_split_char n v :
  (n < String.length v)%nat → ∃ a c b, v = a +:+ String c b ∧ String.length a = n.
Proof.
  intros Hn. destruct (string_split n v ltac:(lia)) as (a & b & -> & Ha).
  rewrite string_length_app in Hn. destruct b as [|c b]; [cbn in Hn; lia|]. eauto.
Qed.

(** The six fields, their separators and the rest of a long enough text. *)
Definition layout (Y M D h m s : string) (a b c d e : ascii) (tail : string) : string :=
  Y +:+ String a (M +:+ String b (D +:+ String c (h +:+ String d (m +:+ String e (s +:+ tail))))).

Definition layout_lengths (Y M D h m s : string) : Prop :=
  String.length Y = 4%nat ∧ String.length M = 2%nat ∧ String.length D = 2%nat ∧
  String.length h = 2%nat ∧ String.length m = 2%nat ∧ String.length s = 2%nat.

Lemma layout_exists v :
  (20 ≤ String.length v)%nat →
  ∃ Y M D h m s a b c d e tail, v = layout Y M D h m s a b c d e tail ∧
    layout_lengths Y M D h m s ∧ tail ≠ EmptyString.
Proof.
  intros Hv.
  destruct (string_split_char 4 v ltac:(lia)) as (Y & a & v1 & -> & HY).
  rewrite string_length_app in Hv; cbn in Hv.
  destruct (string_split_char 2 v1 ltac:(lia)) as (M & b & v2 & -> & HM).
  rewrite string_length_app in Hv; cbn in Hv.
  destruct (string_split_char 2 v2 ltac:(lia)) as (D & c & v3 & -> & HD).
  rewrite string_length_app in Hv; cbn in Hv.
  destruct (string_split_char 2 v3 ltac:(lia)) as (h & d & v4 & -> & Hh).
  rewrite string_length_app in Hv; cbn in Hv.
  destruct (string_split_char 2 v4 ltac:(lia)) as (m & e & v5 & -> & Hm).
  rewrite string_length_app in Hv; cbn in Hv.
  destruct (string_split 2 v5 ltac:(lia)) as (s & tail & -> & Hs).
  rewrite string_length_app in Hv; cbn in Hv.
  exists Y, M, D, h, m, s, a, b, c, d, e, tail. split; [done|]. split; [done|].
  intros ->. cbn in Hv. lia.
Qed.

(** [layout] as one prefix of 19 characters and the rest. *)
Lemma layout_prefix Y M D h m s a b c d e :
  layout_lengths Y M D h m s →
  ∃ p, String.length p = 19%nat ∧ ∀ tail, layout Y M D h m s a b c d e tail = p +:+ tail.
Proof.
  intros (HY & HM & HD & Hh & Hm & Hs).
  exists (Y +:+ String a (M +:+ String b (D +:+ String c (h +:+ String d (m +:+ String e s))))).
  split.
  - rewrite !string_length_app; cbn. repeat (rewrite !string_length_app; cbn). lia.
  - intros tail. unfold layout. repeat (rewrite <-string_app_assoc; cbn). done.
Qed.

Definition is_ok_digits (Y M D h m s : string) : bool :=
  all_digits Y && all_digits M && all_digits D && all_digits h && all_digits m && all_digits s.

Ltac solve_layout :=
  repeat (rewrite ?string_length_app; cbn); repeat (rewrite <-?string_app_assoc; cbn); (done || lia).

(** The checks on an arbitrary text of sufficient length. *)
Lemma parse_layout err Y M D h m s a b c d e tail :
  layout_lengths Y M D h m s → tail ≠ EmptyString →
  let v := layout Y M D h m s a b c d e tail in
  let n := digits_value 0 in
  parse_timestamp err v =
    if negb (Ascii.eqb a "-") || negb (Ascii.eqb b "-") || negb (Ascii.eqb c "T") ||
       negb (Ascii.eqb d ":") || negb (Ascii.eqb e ":") ||
       negb (char_is tail (String.length tail - 1) "Z") || negb (is_ok_digits Y M D h m s) ||
       ((n Y =? 0) || negb (date_ok (n Y) (n M) (n D)) || (n h >? 23) || (n m >? 59) || (n s >? 59))
    then invalid err
    else
      fraction ← parse_fraction err v;
      to_nanoseconds err (sys_days (n Y) (n M) (n D) * 86400 + n h * 3600 + n m * 60 + n s) fraction.
Proof.
  intros Hlen Htail v n. destruct (layout_prefix _ _ _ _ _ _ a b c d e Hlen) as (p & Hp & Hpre).
  destruct Hlen as (HY & HM & HD & Hh & Hm & Hs).
  assert (String.length v = (19 + String.length tail)%nat) as Hsz.
  { unfold v. by rewrite Hpre, string_length_app, Hp. }
  assert (0 < String.length tail)%nat by (destruct tail; [done|cbn; lia]).
  unfold parse_timestamp. cbn zeta. rewrite Hsz.
  rewrite (proj2 (Nat.ltb_ge _ _)) by lia.
  assert (char_is v (19 + String.length tail - 1) "Z" = char_is tail (String.length tail - 1) "Z") as ->.
  { unfold v, char_is. rewrite Hpre.
    replace (19 + String.length tail - 1)%nat with (String.length p + (String.length tail - 1))%nat by lia.
    by rewrite char_at_skip. }
  unfold v, layout.
  rewrite (char_is_at _ Y a _ 4) by done.
  rewrite (char_is_at _ (Y +:+ String a M) b (D +:+ String c (h +:+ String d (m +:+ String e (s +:+ tail)))) 7)
    by solve_layout.
  rewrite (char_is_at _ (Y +:+ String a (M +:+ String b D)) c (h +:+ String d (m +:+ String e (s +:+ tail))) 10)
    by solve_layout.
  rewrite (char_is_at _ (Y +:+ String a (M +:+ String b (D +:+ String c h))) d (m +:+ String e (s +:+ tail)) 13)
    by solve_layout.
  rewrite (char_is_at _ (Y +:+ String a (M +:+ String b (D +:+ String c (h +:+ String d m)))) e (s +:+ tail) 16)
    by solve_layout.
  rewrite (number_field err _ EmptyString Y (String a (M +:+ String b (D +:+ String c (h +:+ String d (m +:+ String e (s +:+ tail)))))) 0) by solve_layout.
  rewrite (number_field err _ (Y +:+ String a EmptyString) M (String b (D +:+ String c (h +:+ String d (m +:+ String e (s +:+ tail))))) 5) by solve_layout.
  rewrite (number_field err _ (Y +:+ String a (M +:+ String b EmptyString)) D (String c (h +:+ String d (m +:+ String e (s +:+ tail)))) 8) by solve_layout.
  rewrite (number_field err _ (Y +:+ String a (M +:+ String b (D +:+ String c EmptyString))) h (String d (m +:+ String e (s +:+ tail))) 11) by solve_layout.
  rewrite (number_field err _ (Y +:+ String a (M +:+ String b (D +:+ String c (h +:+ String d EmptyString)))) m (String e (s +:+ tail)) 14) by solve_layout.
  rewrite (number_field err _ (Y +:+ String a (M +:+ String b (D +:+ String c (h +:+ String d (m +:+ String e EmptyString))))) s tail 17) by solve_layout.
  unfold is_ok_digits, n.
  repeat match goal with
  | |- context [Ascii.eqb ?x ?y] => destruct (Ascii.eqb x y); cbn [negb orb]; [|done]
  end.
  destruct (char_is tail _ "Z"); cbn [negb orb]; [|done].
  repeat match goal with
  | |- context [all_digits ?x] =>
      destruct (all_digits x); cbn [negb orb andb mbind result_bind]; [|by repeat split_match]
  end.
  done.
Qed.

Lemma string_last t c :
  t ≠ EmptyString → char_is t (String.length t - 1) c = true →
  ∃ t', t = t' +:+ String c EmptyString.
Proof.
  unfold char_is, char_at. induction t as [|c0 t IH]; [done|]. intros _. destruct t as [|c1 t].
  - cbn. intros ->%Ascii.eqb_eq. by exists EmptyString.
  - intros H. destruct IH as [t' ->]; [done| |by exists (String c0 t')].
    cbn in *. by rewrite Nat.sub_0_r in *.
Qed.

Definition fraction_text (f : string) : string :=
  if String.eqb f "" then "Z" else "." +:+ f +:+ "Z".

Lemma string_app_char_inj f f' c : f +:+ String c "" = f' +:+ String c "" → f = f'.
Proof.
  revert f'. induction f as [|c1 f IH]; intros [|c2 f']; cbn; [done|by destruct f'|by destruct f|].
  intros [= -> Hf]. f_equal. by apply IH.
Qed.

Lemma fraction_text_inv c f f' :
  String c f +:+ "Z" = fraction_text f' → c = "."%char ∧ f = f' ∧ f ≠ EmptyString.
Proof.
  unfold fraction_text. destruct (String.eqb_spec f' ""); [by destruct f|].
  cbn. intros [= -> ->%string_app_char_inj]. done.
Qed.

Lemma parse_fraction_throws err v e : parse_fraction err v = Throw e → e = InvalidArgument err.
Proof.
  assert (∀ i n acc e, number_loop err v i n acc = Throw e → e = InvalidArgument err) as Hnum.
  { intros i n. revert i. induction n as [|n IH]; intros i acc e'; cbn; [done|].
    destruct (negb _); [|apply IH]. by intros [= <-]. }
  unfold parse_fraction. cbn zeta. destruct (_ =? 20)%nat; [done|].
  destruct (_ || _); [by intros [= <-]|]. intros H. result_inv. by eapply Hnum.
Qed.

Lemma parse_fraction_spec err p tail x :
  String.length p = 19%nat → tail ≠ EmptyString →
  char_is tail (String.length tail - 1) "Z" = true →
  parse_fraction err (p +:+ tail) = Ok x ↔
    ∃ f, tail = fraction_text f ∧ all_digits f = true ∧ (String.length f ≤ 9)%nat ∧
      x = digits_value 0 f * 10 ^ (9 - Z.of_nat (String.length f)).
Proof.
  intros Hp Hne [t ->]%string_last; [|done]. unfold parse_fraction. cbn zeta.
  rewrite !string_length_app, Hp. cbn [String.length].
  destruct t as [|c f].
  - cbn. split.
    + intros [= <-]. exists EmptyString. split_and!; [done..|cbn; lia|done].
    + intros (f & Hf & _ & _ & ->). unfold fraction_text in Hf.
      destruct (String.eqb_spec f ""); [by subst|done].
  - pose proof (fraction_text_inv c f) as Hinv.
    cbn [String.length]. rewrite (proj2 (Nat.eqb_neq _ 20)) by lia.
    rewrite (char_is_at _ p c (f +:+ "Z") 19) by done.
    destruct (Ascii.eqb_spec c "."); cbn [negb orb]; [subst c|].
    2: { split; [done|]. intros (f' & [-> _]%Hinv & _); done. }
    destruct (_ <? 22)%nat eqn:E1; cbn [orb].
    { apply Nat.ltb_lt in E1. split; [done|]. intros (f' & (_ & <- & Hn)%Hinv & _).
      destruct f; [done|cbn in E1; lia]. }
    destruct (30 <? _)%nat eqn:E2.
    { apply Nat.ltb_lt in E2. split; [done|]. intros (f' & (_ & <- & Hn)%Hinv & _ & Hl & _). lia. }
    apply Nat.ltb_ge in E1, E2. set (k := (19 + _ - 21)%nat).
    assert (k = String.length f) as Hk by lia.
    rewrite (number_field err _ (p +:+ ".") f "Z" 20 k)
      by (rewrite ?string_length_app, <-?string_app_assoc; cbn; lia || done).
    destruct (all_digits f) eqn:Ef; cbn [mbind result_bind].
    + rewrite scale_fraction_spec, Hk. split.
      * intros [= <-]. exists f. split_and!; [|done|lia|do 2 f_equal; lia].
        unfold fraction_text. destruct (String.eqb_spec f ""); [subst; cbn in *; lia|done].
      * intros (f' & (_ & <- & _)%Hinv & _ & _ & ->). do 3 f_equal. lia.
    + split; [done|]. intros (f' & (_ & <- & _)%Hinv & ? & _). congruence.
Qed.

Lemma is_ok_digits_spec Y M D h m s :
  is_ok_digits Y M D h m s = true ↔
    all_digits Y = true ∧ all_digits M = true ∧ all_digits D = true ∧
    all_digits h = true ∧ all_digits m = true ∧ all_digits s = true.
Proof. unfold is_ok_digits. rewrite !andb_true_iff. tauto. Qed.

Lemma fraction_range f :
  all_digits f = true → (String.length f ≤ 9)%nat →
  0 ≤ digits_value 0 f * 10 ^ (9 - Z.of_nat (String.length f)) < billion.
Proof.
  intros Hd Hl. pose proof (digits_value_bound f Hd) as Hb.
  set (k := Z.of_nat (String.length f)) in *.
  assert (10 ^ k * 10 ^ (9 - k) = billion) as Heq by (rewrite <-Z.pow_add_r by lia; replace (k + (9 - k)) with 9 by lia; done).
  pose proof (Z.pow_pos_nonneg 10 (9 - k) ltac:(lia) ltac:(lia)). nia.
Qed.

Lemma fraction_text_last f :
  fraction_text f ≠ EmptyString ∧ char_is (fraction_text f) (String.length (fraction_text f) - 1) "Z" = true.
Proof.
  unfold fraction_text. destruct (String.eqb_spec f ""); [done|]. split; [done|].
  rewrite (char_is_at _ ("." +:+ f) "Z" "") by solve_layout. done.
Qed.

Lemma timestamp_text_layout Y M D h m s f :
  timestamp_text Y M D h m s f = layout Y M D h m s "-" "-" "T" ":" ":" (fraction_text f).
Proof. done. Qed.

Lemma parse_timestamp_complete err v ns :
  timestamp_denotes v ns →
  parse_timestamp err v =
    (if bool_decide (in_int64 ns) then Ok {| exchange_ns := ns |} else invalid err).
Proof.
  intros (Y & M & D & h & m & s & f & year & month & day & hour & minute & second & -> &
    (HY & HdY & ->) & (HM & HdM & ->) & (HD & HdD & ->) & (Hh & Hdh & ->) & (Hm & Hdm & ->) &
    (Hs & Hds & ->) & Hf & Hfl & Hy0 & Hdate & Hhour & Hmin & Hsec & ->).
  destruct (fraction_text_last f) as [Hne Hz].
  assert (layout_lengths Y M D h m s) as Hlen by done.
  rewrite timestamp_text_layout, parse_layout by done. cbn zeta.
  rewrite Hz, (proj2 (is_ok_digits_spec Y M D h m s)), Hdate by done.
  rewrite (proj2 (Z.eqb_neq _ _)), !Z.gtb_ltb, !(proj2 (Z.ltb_ge _ _)) by done.
  cbn [negb orb Ascii.eqb Bool.eqb].
  destruct (layout_prefix _ _ _ _ _ _ "-" "-" "T" ":" ":" Hlen) as (p & Hp & ->).
  assert (parse_fraction err (p +:+ fraction_text f) =
    Ok (digits_value 0 f * 10 ^ (9 - Z.of_nat (String.length f)))) as ->
    by (apply parse_fraction_spec; [done..|by exists f]).
  cbn [mbind result_bind]. by rewrite to_nanoseconds_spec by (by apply fraction_range).
Qed.

Lemma parse_timestamp_sound err v t :
  parse_timestamp err v = Ok t → timestamp_denotes v (exchange_ns t) ∧ in_int64 (exchange_ns t).
Proof.
  intros Hp. destruct (decide (20 ≤ String.length v)%nat) as [Hv|Hv].
  2: { unfold parse_timestamp in Hp. cbn zeta in Hp. by rewrite (proj2 (Nat.ltb_lt _ _)) in Hp by lia. }
  destruct (layout_exists v Hv) as (Y & M & D & h & m & s & a & b & c & d & e & tail & -> & Hlen & Ht).
  rewrite parse_layout in Hp by done. cbn zeta in Hp.
  destruct (_ || _) eqn:Eg in Hp; [done|]. zbool. result_inv.
  repeat match goal with H : Ascii.eqb _ _ = true |- _ => apply Ascii.eqb_eq in H; subst end.
  destruct (layout_prefix _ _ _ _ _ _ "-" "-" "T" ":" ":" Hlen) as (p & Hpl & Hpre).
  match goal with H : parse_fraction _ _ = Ok _ |- _ => rewrite Hpre in H; rename H into Hfr end.
  apply parse_fraction_spec in Hfr as (f & -> & Hf & Hfl & ->); [|done..].
  rewrite to_nanoseconds_spec in Hp by (by apply fraction_range).
  case_bool_decide as Hr; [|done]. injection Hp as <-. cbn [exchange_ns]. split; [|done].
  match goal with H : is_ok_digits _ _ _ _ _ _ = true |- _ =>
    apply is_ok_digits_spec in H as (?&?&?&?&?&?) end.
  destruct Hlen as (?&?&?&?&?&?).
  exists Y, M, D, h, m, s, f, (digits_value 0 Y), (digits_value 0 M), (digits_value 0 D),
    (digits_value 0 h), (digits_value 0 m), (digits_value 0 s).
  unfold field. split_and!; done.
Qed.

Lemma parse_timestamp_throws err v e : parse_timestamp err v = Throw e → e = InvalidArgument err.
Proof.
  assert (∀ i n acc e, number_loop err v i n acc = Throw e → e = InvalidArgument err) as Hnum.
  { intros i n. revert i. induction n as [|n IH]; intros i acc e'; cbn; [done|].
    destruct (negb _); [|apply IH]. by intros [= <-]. }
  unfold parse_timestamp, invalid. cbn zeta. destruct (_ || _); [by intros [= <-]|].
  intros H. result_inv; try (by eapply Hnum).
  destruct (_ || _); [by result_inv|]. result_inv; [by eapply parse_fraction_throws|].
  unfold to_nanoseconds, invalid in *. by repeat split_match; result_inv.
Qed.

(** ** Theorems *)

(** C31: [parse_timestamp] accepts exactly the texts
    [YYYY-MM-DDThh:mm:ss[.fffffffff]Z] that denote an existing calendar day of
    the years 1 to 9999 and a time of day without leap seconds, and whose
    nanosecond count since the epoch fits in a signed 64-bit integer; it
    returns exactly that count.  Everything else is the adapter's
    [invalid_argument]. *)
Theorem parse_timestamp_exact err v :
  match parse_timestamp err v with
  | Ok t => timestamp_denotes v (exchange_ns t) ∧ in_int64 (exchange_ns t)
  | Throw e => e = InvalidArgument err ∧ ∀ ns, timestamp_denotes v ns → ¬ in_int64 ns
  end.
Proof.
  destruct (parse_timestamp err v) as [t|e] eqn:E; [by eapply parse_timestamp_sound|].
  split; [by eapply parse_timestamp_throws|]. intros ns Hns Hin.
  rewrite (parse_timestamp_complete err v ns Hns), bool_decide_true in E by done. done.
Qed.

(** The day number used by [parse_timestamp] counts calendar days since
    1970-01-01: that day is 0 and the day after any valid date has the next
    number. *)
Theorem sys_days_counts_days y m d :
  date_ok y m d = true →
  sys_days 1970 1 1 = 0 ∧
  let '(y', m', d') := next_day y m d in
  date_ok y' m' d' = true ∧ sys_days y' m' d' = sys_days y m d + 1.
Proof.
  intros Hok. split; [done|]. destruct (next_day y m d) as [[y' m'] d'] eqn:E.
  split; [|by eapply sys_days_next]. clear -Hok E. unfold date_ok, next_day in *.
  rewrite !andb_true_iff, !Z.leb_le in *. pose proof (last_day_pos y' m').
  destruct (d <? last_day y m) eqn:Ed; [|destruct (m <? 12) eqn:Em];
    injection E as <- <- <-; zbool; lia.
Qed.

Lemma sys_days_counts_days_witness :
  date_ok 2024 2 28 = true ∧ next_day 2024 2 28 = (2024, 2, 29) ∧
  sys_days 1970 1 1 = 0 ∧ date_ok 2024 2 29 = true ∧ sys_days 2024 2 29 = sys_days 2024 2 28 + 1.
Proof.
  split; [reflexivity|]. split; [reflexivity|].
  exact (sys_days_counts_days 2024 2 28 eq_refl).
Defined.

Example timestamp_fraction :
  coinbase_parse_timestamp "2023-02-09T20:32:50.714964855Z" = Ok {| exchange_ns := 1675974770714964855 |}.
Proof. vm_compute. reflexivity. Qed.

Example timestamp_leap_second :
  kraken_parse_timestamp "2016-12-31T23:59:60Z" = Throw (InvalidArgument "invalid Kraken UTC timestamp").
Proof. vm_compute. reflexivity. Qed.
