(* ===== verification/CoinbaseParser.v ===== *)
(** * Coinbase adapter: symbol mapper and message parsers

    [CoinbaseSymbolMapper], [CoinbaseL2Parser::parse] and [parse_heartbeat]:
    a raw envelope becomes canonical market events, an ignored control
    message, or an error that leaves no events.  Profiling timers are off. *)

From S2P Require Import Prelude.
From S2P Require Import Text.
From S2P Require Import StdMap.
From S2P Require Import CoreTypes.
From S2P Require Import FixedPoint.
From S2P Require Import OrderBook.
From S2P Require Import Json.
From S2P Require Import Timestamps.

Open Scope Z_scope.

(** ** Symbol mapper *)

Record CoinbaseProductConfig := {
  instrument : Instrument;
  price_scale : Z;       (* std::uint8_t *)
  quantity_scale : Z;    (* std::uint8_t *)
}.

(** [Products]: the members of the [std::map] in key order. *)
Definition Products := list (string * CoinbaseProductConfig).

(** The checked constructor [CoinbaseSymbolMapper(Products)]. *)
Definition make_symbol_mapper (products : Products) : result Products :=
  if existsb (λ sc, String.eqb sc.1 "" || (price_scale sc.2 >? 18) || (quantity_scale sc.2 >? 18))
       products
  then Throw (InvalidArgument "invalid Coinbase product configuration")
  else Ok products.

Definition default_products : Products :=
  [("BTC-USD", {| instrument := BTC_USD; price_scale := 2; quantity_scale := 8 |})].

Fixpoint lookup_product (products : Products) (product : string) : option CoinbaseProductConfig :=
  match products with
  | [] => None
  | (symbol, config) :: rest =>
      if String.eqb symbol product then Some config else lookup_product rest product
  end.

(** ** Level 2 parser *)

Inductive ParseStatus := Parsed | Ignored | Error.

#[export] Instance ParseStatus_eq_dec : EqDecision ParseStatus.
Proof. solve_decision. Defined.

Record CoinbaseParseResult := {
  status : ParseStatus;
  events : list MarketEvent;
  error : string;
  raw_message : string;
  sequence : option Z;
  heartbeat_channel : bool;
}.

#[export] Instance CoinbaseParseResult_eta : EtaRecord CoinbaseParseResult := λ r,
  {| status := status r; events := events r; error := error r; raw_message := raw_message r;
     sequence := sequence r; heartbeat_channel := heartbeat_channel r |}.

Definition string_field (object : json) (key : string) : result string :=
  v ← at_key object key; get_ref_string v.

(** [message.contains(key) ? string_field(message, key) : {}] *)
Definition optional_field (message : json) (key : string) : result string :=
  if contains message key then string_field message key else Ok EmptyString.

(** One element of an event's [updates] array. *)
Definition parse_level (config : CoinbaseProductConfig) (update : json) : result BookLevel :=
  side ← string_field update "side";
  if negb (String.eqb side "bid") && negb (String.eqb side "offer")
  then Throw (InvalidArgument "unknown Coinbase L2 side")
  else
    event_time ← string_field update "event_time";
    _ ← coinbase_parse_timestamp event_time;
    price_level ← string_field update "price_level";
    price ← parse_price price_level (price_scale config);
    new_quantity ← string_field update "new_quantity";
    quantity ← parse_quantity new_quantity (quantity_scale config);
    Ok (MkLevel (if String.eqb side "bid" then Bid else Ask) price quantity).

(** One element of the envelope's [events] array. *)
Definition parse_event (products : Products) (exchange_time : ExchangeTimestamp)
    (wall : ReceiveWallTimestamp) (mono : ReceiveMonotonicTimestamp) (sequence_num : Z)
    (event : json) : result MarketEvent :=
  type ← string_field event "type";
  if negb (String.eqb type "snapshot") && negb (String.eqb type "update")
  then Throw (InvalidArgument "unknown Coinbase L2 event type")
  else
    product ← string_field event "product_id";
    match lookup_product products product with
    | None => Throw (InvalidArgument "unsupported Coinbase product")
    | Some config =>
        updates_value ← at_key event "updates";
        updates ← get_ref_array updates_value;
        ls ← mapM (parse_level config) updates;
        Ok (if String.eqb type "snapshot"
            then SnapshotEvent (MkSnapshot Coinbase (instrument config) ls exchange_time wall mono
                                  (Some sequence_num))
            else UpdateEvent (MkUpdate Coinbase (instrument config) ls exchange_time wall mono
                                (Some sequence_num)))
    end.

(** [sequence_num]: required on L2, checked on every channel that has it. *)
Definition parse_sequence (message : json) (l2 : bool) : result (option Z) :=
  if l2 || contains message "sequence_num" then
    sequence ← at_key message "sequence_num";
    ok ← (if is_number_unsigned sequence then Ok true
          else if is_number_integer sequence
          then v ← get_int64 sequence; Ok (v >=? 0)
          else Ok false);
    if negb (ok : bool)
    then Throw (InvalidArgument "sequence_num must be a nonnegative uint64 integer")
    else n ← get_uint64 sequence; Ok (Some n)
  else Ok None.

(** The exceptions the catch clauses of [parse] handle: [json::exception],
    [std::logic_error] (the base of [invalid_argument] and [out_of_range]) and
    [std::overflow_error]. *)
Definition caught (e : exn) : bool :=
  match e with
  | JsonError _ | InvalidArgument _ | OutOfRange _ | OverflowError _ => true
  | RuntimeError _ => false
  end.

Section parser.
Context `{JsonLib} (products : Products).

(** The body of the [try] block, on the result object under construction;
    an exception keeps the fields assigned so far. *)
Definition parse_body (raw : string) (wall : ReceiveWallTimestamp)
    (mono : ReceiveMonotonicTimestamp) (result : CoinbaseParseResult)
    : CoinbaseParseResult * option exn :=
  let throw r e := (r, Some e) in
  match (message ← json_parse raw;
         _ ← throw_if (negb (is_object message)) (InvalidArgument "expected message object");
         _ ← throw_if (negb (contains message "channel") && negb (contains message "type"))
               (InvalidArgument "message requires channel or type");
         channel ← optional_field message "channel";
         type ← optional_field message "type";
         _ ← throw_if (String.eqb type "error" || String.eqb channel "error")
               (InvalidArgument ("explicit Coinbase error: " +:+ raw));
         Ok (message, channel)) with
  | Throw e => throw result e
  | Ok (message, channel) =>
      let l2 := String.eqb channel "l2_data" in
      let result := result <| heartbeat_channel := String.eqb channel "heartbeats" |> in
      match parse_sequence message l2 with
      | Throw e => throw result e
      | Ok seq =>
          let result := result <| sequence := seq |> in
          if negb l2 then (result <| status := Ignored |>, None)
          else
            match (timestamp ← string_field message "timestamp";
                   exchange_time ← coinbase_parse_timestamp timestamp;
                   events_value ← at_key message "events";
                   events ← get_ref_array events_value;
                   mapM (parse_event products exchange_time wall mono (default 0 seq)) events) with
            | Throw e => throw result e
            | Ok parsed =>
                (result <| sequence := Some (default 0 seq) |> <| events := parsed |>
                        <| status := Parsed |>, None)
            end
      end
  end.

(** [CoinbaseL2Parser::parse]: the [try] block and its catch clauses. *)
Definition parse (raw : string) (wall : ReceiveWallTimestamp) (mono : ReceiveMonotonicTimestamp)
    (retain_raw_message : bool) : result CoinbaseParseResult :=
  let initial :=
    {| status := Error; events := []; error := EmptyString;
       raw_message := if retain_raw_message then raw else EmptyString;
       sequence := None; heartbeat_channel := false |} in
  match parse_body raw wall mono initial with
  | (result, None) => Ok result
  | (result, Some e) => if caught e then Ok (result <| error := what e |>) else Throw e
  end.
End parser.

(** ** Heartbeat parser *)

Record Heartbeat := {
  hb_venue : Venue;
  hb_receive_wall_time : ReceiveWallTimestamp;
  hb_receive_monotonic_time : ReceiveMonotonicTimestamp;
  heartbeat_counter : option Z;
}.

(** [std::from_chars] on the whole of [s] for an unsigned 64-bit integer:
    [None] unless every character is a digit and the value fits. *)
Definition from_chars_uint64 (s : string) : option Z :=
  if negb (String.eqb s "") && all_digits s && (digits_value 0 s <=? UINT64_MAX)
  then Some (digits_value 0 s) else None.

Fixpoint heartbeat_events (es : list json) (counter : option Z) : result (option Z) :=
  match es with
  | [] => Ok counter
  | e :: rest =>
      if negb (is_object e) then Throw (InvalidArgument "invalid heartbeat event")
      else if negb (contains e "heartbeat_counter") then heartbeat_events rest counter
      else
        v ← at_key e "heartbeat_counter";
        match v with
        | JUnsigned n => heartbeat_events rest (Some n)
        | JString s =>
            match from_chars_uint64 s with
            | Some n => heartbeat_events rest (Some n)
            | None => Throw (InvalidArgument "invalid heartbeat counter")
            end
        | _ => Throw (InvalidArgument "invalid heartbeat counter")
        end
  end.

Definition parse_heartbeat `{JsonLib} (raw : string) (wall : ReceiveWallTimestamp)
    (mono : ReceiveMonotonicTimestamp) : result (option Heartbeat) :=
  j ← json_parse raw;
  channel ← value_string j "channel" EmptyString;
  if negb (String.eqb channel "heartbeats") then Ok None
  else
    events ← at_key j "events";
    match events with
    | JArray (e :: es) =>
        counter ← heartbeat_events (e :: es) None;
        Ok (Some {| hb_venue := Coinbase; hb_receive_wall_time := wall;
                    hb_receive_monotonic_time := mono; heartbeat_counter := counter |})
    | _ => Throw (InvalidArgument "invalid heartbeat events")
    end.

(** ** Lemmas: exceptions *)

(** An exception the parser handles, with a message. *)
Definition adapter_failure (e : exn) : Prop := caught e = true ∧ what e ≠ EmptyString.

Lemma json_adapter_failure e : json_failure e → adapter_failure e.
Proof. by intros (m & -> & Hm). Qed.

Lemma invalid_argument_failure m : m ≠ EmptyString → adapter_failure (InvalidArgument m).
Proof. done. Qed.

Create HintDb adapter discriminated.
#[export] Hint Resolve json_adapter_failure invalid_argument_failure : adapter.
#[export] Hint Resolve at_key_throws get_ref_string_throws get_string_throws get_ref_array_throws
  get_bool_throws get_uint64_throws value_string_throws : adapter.

(** Decimal and timestamp parsing. *)
Lemma scan_decimal_throws s i n b k e : scan_decimal s i n b k = Throw e → adapter_failure e.
Proof.
  revert i b k. induction s as [|c s IH]; intros i b k; cbn; [done|].
  repeat split_match; intros; simplify_eq; eauto with adapter; done.
Qed.

Lemma append_digit_throws raw d e : append_digit raw d = Throw e → adapter_failure e.
Proof. unfold append_digit. repeat split_match; intros; simplify_eq. done. Qed.

Lemma append_digits_throws s raw e : append_digits s raw = Throw e → adapter_failure e.
Proof.
  revert raw. induction s as [|c s IH]; intros raw; cbn; [done|].
  split_match; [apply IH|]. intros H. result_inv; eauto using append_digit_throws.
Qed.

Lemma append_zeros_throws n raw e : append_zeros n raw = Throw e → adapter_failure e.
Proof.
  revert raw. induction n as [|n IH]; intros raw; cbn; [done|].
  intros H. result_inv; eauto using append_digit_throws.
Qed.

Lemma parse_decimal_throws s scale e : parse_decimal s scale = Throw e → adapter_failure e.
Proof.
  unfold parse_decimal. repeat split_match; intros; simplify_eq; try done.
  result_inv; [by eapply scan_decimal_throws|]. split_match; result_inv;
    [done|by eapply append_digits_throws|by eapply append_zeros_throws].
Qed.

Lemma make_fixed_throws tag r e : @make_fixed tag r = Throw e → adapter_failure e.
Proof. unfold make_fixed. split_match; intros; simplify_eq. done. Qed.

Lemma parse_price_throws s scale e : parse_price s scale = Throw e → adapter_failure e.
Proof.
  unfold parse_price. intros. result_inv; eauto using parse_decimal_throws, make_fixed_throws.
Qed.

Lemma parse_quantity_throws s scale e : parse_quantity s scale = Throw e → adapter_failure e.
Proof.
  unfold parse_quantity. intros. result_inv; eauto using parse_decimal_throws, make_fixed_throws.
Qed.

Lemma coinbase_timestamp_throws s e : coinbase_parse_timestamp s = Throw e → adapter_failure e.
Proof. by intros ->%parse_timestamp_throws. Qed.

#[export] Hint Resolve parse_price_throws parse_quantity_throws coinbase_timestamp_throws : adapter.

(** Follows a failing computation to the step that threw. *)
Ltac follow_throw :=
  intros; result_inv; repeat (split_match; result_inv); simplify_eq; eauto with adapter; try done.

Lemma string_field_throws j k e : string_field j k = Throw e → adapter_failure e.
Proof. unfold string_field. follow_throw. Qed.
Lemma optional_field_throws j k e : optional_field j k = Throw e → adapter_failure e.
Proof. unfold optional_field. follow_throw. by eapply string_field_throws. Qed.
#[export] Hint Resolve string_field_throws optional_field_throws : adapter.

Lemma parse_level_throws config j e : parse_level config j = Throw e → adapter_failure e.
Proof. unfold parse_level. follow_throw. Qed.
#[export] Hint Resolve parse_level_throws : adapter.

Lemma mapM_adapter_failure {A B} (f : A → result B) l e :
  (∀ x e, f x = Throw e → adapter_failure e) → mapM f l = Throw e → adapter_failure e.
Proof. intros Hf (x & _ & Hx)%mapM_Throw. eauto. Qed.

Lemma parse_event_throws products t w m n j e :
  parse_event products t w m n j = Throw e → adapter_failure e.
Proof.
  unfold parse_event. follow_throw. eapply mapM_adapter_failure; [|done]. eauto with adapter.
Qed.
#[export] Hint Resolve parse_event_throws : adapter.

Lemma get_int64_throws j e : get_int64 j = Throw e → json_failure e.
Proof. unfold get_int64. json_failure_cases. Qed.
#[export] Hint Resolve get_int64_throws : adapter.

Lemma parse_sequence_throws j l2 e : parse_sequence j l2 = Throw e → adapter_failure e.
Proof. unfold parse_sequence. follow_throw. Qed.
#[export] Hint Resolve parse_sequence_throws : adapter.

Lemma heartbeat_events_throws es c e : heartbeat_events es c = Throw e → adapter_failure e.
Proof.
  revert c. induction es as [|j es IH]; intros c; cbn; [done|].
  intros. repeat (split_match; result_inv); simplify_eq; eauto with adapter; done.
Qed.
#[export] Hint Resolve heartbeat_events_throws : adapter.

(** ** Lemmas: the parsed events *)

(** The level a parsed event may contain, and the event itself. *)
Definition level_ok (l : BookLevel) : Prop := fixed_ok (price l) ∧ fixed_ok (quantity l).

Definition event_ok (wall : ReceiveWallTimestamp) (mono : ReceiveMonotonicTimestamp) (n : Z)
    (t : ExchangeTimestamp) (e : MarketEvent) : Prop :=
  match e with
  | SnapshotEvent s =>
      snap_venue s = Coinbase ∧ Forall level_ok (levels s) ∧ snap_exchange_time s = t ∧
      snap_receive_wall_time s = wall ∧ snap_receive_monotonic_time s = mono ∧
      snap_sequence s = Some n
  | UpdateEvent u =>
      upd_venue u = Coinbase ∧ Forall level_ok (changes u) ∧ upd_exchange_time u = t ∧
      upd_receive_wall_time u = wall ∧ upd_receive_monotonic_time u = mono ∧
      upd_sequence u = Some n
  end.

Lemma parse_level_ok config j l : parse_level config j = Ok l → level_ok l.
Proof.
  unfold parse_level. intros. result_inv. split_match; [done|]. result_inv. split; cbn;
    eauto using parse_price_fixed_ok, parse_quantity_fixed_ok.
Qed.

Lemma parse_levels_ok config js ls : mapM (parse_level config) js = Ok ls → Forall level_ok ls.
Proof. apply mapM_Forall. eauto using parse_level_ok. Qed.

Lemma parse_event_ok products t w m n j e :
  parse_event products t w m n j = Ok e → event_ok w m n t e.
Proof.
  unfold parse_event. intros. result_inv. split_match; [done|]. result_inv.
  split_match; [|done]. result_inv.
  split_match; repeat split; eauto using parse_levels_ok.
Qed.

(** ** Lemmas: the whole message *)

(** What a returned parse result satisfies, by its status. *)
Definition parse_result_ok (wall : ReceiveWallTimestamp) (mono : ReceiveMonotonicTimestamp)
    (r : CoinbaseParseResult) : Prop :=
  match status r with
  | Error => events r = [] ∧ error r ≠ EmptyString
  | Ignored => events r = [] ∧ error r = EmptyString
  | Parsed => error r = EmptyString ∧
      ∃ t n, sequence r = Some n ∧ Forall (event_ok wall mono n t) (events r)
  end.

(** The result object before the [try] block. *)
Definition initial_result (r : CoinbaseParseResult) : Prop :=
  status r = Error ∧ events r = [] ∧ error r = EmptyString.

Section body.
Context `{JsonLaws} (products : Products).

Lemma parse_failure raw e : json_parse raw = Throw e → adapter_failure e.
Proof. intros Hp%json_parse_throws. by apply json_adapter_failure. Qed.
#[local] Hint Resolve parse_failure : adapter.

Lemma parse_body_Throw raw wall mono r r' e :
  initial_result r → parse_body products raw wall mono r = (r', Some e) →
  adapter_failure e ∧ status r' = Error ∧ events r' = [].
Proof.
  intros (Hs & He & _). unfold parse_body.
  destruct (json_parse raw ≫= _) as [[message channel]|e1] eqn:E1.
  2:{ intros [= <- <-]. split; [|done]. follow_throw. }
  destruct (parse_sequence _ _) as [seq|e2] eqn:E2.
  2:{ intros [= <- <-]. split; [|done]. eauto with adapter. }
  destruct (negb _) eqn:El; [done|].
  destruct (string_field message "timestamp" ≫= _) as [evs|e3] eqn:E3; [done|].
  intros [= <- <-]. split; [|done]. follow_throw.
  eapply mapM_adapter_failure; [|done]. eauto with adapter.
Qed.

Lemma parse_body_Ok raw wall mono r r' :
  initial_result r → parse_body products raw wall mono r = (r', None) →
  parse_result_ok wall mono r' ∧ status r' ≠ Error.
Proof.
  intros (Hs & He & Her). unfold parse_body.
  destruct (json_parse raw ≫= _) as [[message channel]|e1] eqn:E1; [|done].
  destruct (parse_sequence _ _) as [seq|e2] eqn:E2; [|done].
  destruct (negb _) eqn:El; [by intros [= <-]|].
  destruct (string_field message "timestamp" ≫= _) as [evs|e3] eqn:E3; [|done].
  intros [= <-]. unfold parse_result_ok. split; [|done]. cbn. split; [done|].
  result_inv. eexists _, _. split; [done|].
  eapply mapM_Forall; [|done]. eauto using parse_event_ok.
Qed.

Lemma parse_Ok raw wall mono b :
  ∃ r, parse products raw wall mono b = Ok r ∧ parse_result_ok wall mono r.
Proof.
  unfold parse. set (initial := Build_CoinbaseParseResult _ _ _ _ _ _).
  assert (initial_result initial) as Hi by done.
  destruct (parse_body products raw wall mono initial) as [r [e|]] eqn:E.
  - apply parse_body_Throw in E as ([-> Hw] & Hs & He); [|done].
    eexists. split; [done|]. unfold parse_result_ok. cbn. by rewrite Hs.
  - apply parse_body_Ok in E as [? _]; [|done]. eauto.
Qed.
End body.

(** ** The message format

    The JSON document of a level 2 message, built from its parts; the texts
    are what the exchange sends. *)

Record LevelText := {
  lt_side : Side;
  lt_event_time : string;
  lt_price : string;
  lt_quantity : string;
}.

Record EventText := {
  et_snapshot : bool;
  et_product : string;
  et_updates : list LevelText;
}.

Definition level_document (l : LevelText) : json :=
  JObject [("event_time", JString (lt_event_time l)); ("new_quantity", JString (lt_quantity l));
           ("price_level", JString (lt_price l));
           ("side", JString (match lt_side l with Bid => "bid" | Ask => "offer" end))].

Definition event_document (e : EventText) : json :=
  JObject [("product_id", JString (et_product e));
           ("type", JString (if et_snapshot e then "snapshot" else "update"));
           ("updates", JArray (map level_document (et_updates e)))].

Definition l2_document (timestamp : string) (n : Z) (es : list EventText) : json :=
  JObject [("channel", JString "l2_data"); ("events", JArray (map event_document es));
           ("sequence_num", JUnsigned n); ("timestamp", JString timestamp)].

(** [text] is a decimal whose value scaled by [10^scale] is [v]. *)
Definition decimal_denotes (text : string) (scale v : Z) : Prop :=
  ∃ ip fp, decimal_syntax text ip fp ∧ Z.of_nat (String.length fp) ≤ scale ∧
    v = scaled_value ip fp scale ∧ 0 ≤ v ≤ INT64_MAX.

Definition level_denotes (config : CoinbaseProductConfig) (l : LevelText) (lv : BookLevel) : Prop :=
  side lv = lt_side l ∧ (∃ ns, timestamp_denotes (lt_event_time l) ns ∧ in_int64 ns) ∧
  decimal_denotes (lt_price l) (price_scale config) (raw (price lv)) ∧
  decimal_denotes (lt_quantity l) (quantity_scale config) (raw (quantity lv)).

Definition event_denotes (products : Products) (t : ExchangeTimestamp) (wall : ReceiveWallTimestamp)
    (mono : ReceiveMonotonicTimestamp) (n : Z) (e : EventText) (ev : MarketEvent) : Prop :=
  ∃ config ls, lookup_product products (et_product e) = Some config ∧
    0 ≤ price_scale config ≤ 18 ∧ 0 ≤ quantity_scale config ≤ 18 ∧
    Forall2 (level_denotes config) (et_updates e) ls ∧
    ev = if et_snapshot e
         then SnapshotEvent (MkSnapshot Coinbase (instrument config) ls t wall mono (Some n))
         else UpdateEvent (MkUpdate Coinbase (instrument config) ls t wall mono (Some n)).

Lemma mapM_Forall2 {A B C} (f : A → C) (g : C → result B) (P : A → B → Prop) l ys :
  (∀ x y, P x y → g (f x) = Ok y) → Forall2 P l ys → mapM g (map f l) = Ok ys.
Proof.
  intros Hf H. induction H as [|x y l ys Hxy _ IH]; cbn; [done|].
  by rewrite (Hf _ _ Hxy), IH.
Qed.

Lemma coinbase_timestamp_complete v ns :
  timestamp_denotes v ns → in_int64 ns → coinbase_parse_timestamp v = Ok {| exchange_ns := ns |}.
Proof.
  intros Ht Hns. unfold coinbase_parse_timestamp.
  rewrite (parse_timestamp_complete _ _ _ Ht). by rewrite bool_decide_true.
Qed.

Lemma parse_price_complete text scale (p : PriceTicks) :
  0 ≤ scale ≤ 18 → decimal_denotes text scale (raw p) → parse_price text scale = Ok p.
Proof. intros Hs Hd. apply parse_price_Ok. rewrite parse_decimal_Ok. done. Qed.

Lemma parse_quantity_complete text scale (q : QuantityAtoms) :
  0 ≤ scale ≤ 18 → decimal_denotes text scale (raw q) → parse_quantity text scale = Ok q.
Proof. intros Hs Hd. apply parse_quantity_Ok. rewrite parse_decimal_Ok. done. Qed.

Lemma parse_level_complete config l lv :
  0 ≤ price_scale config ≤ 18 → 0 ≤ quantity_scale config ≤ 18 →
  level_denotes config l lv → parse_level config (level_document l) = Ok lv.
Proof.
  intros Hp Hq (Hs & (ns & Ht & Hns) & Hpr & Hqu).
  destruct l as [sd et pt qt], lv as [sd' pr qu]; cbn in *. subst sd'.
  unfold parse_level. destruct sd; cbn;
    by rewrite (coinbase_timestamp_complete _ _ Ht Hns); cbn;
       rewrite (parse_price_complete _ _ _ Hp Hpr); cbn;
       rewrite (parse_quantity_complete _ _ _ Hq Hqu).
Qed.

Lemma parse_event_complete products t wall mono n e ev :
  event_denotes products t wall mono n e ev →
  parse_event products t wall mono n (event_document e) = Ok ev.
Proof.
  intros (config & ls & Hl & Hp & Hq & Hls & ->). destruct e as [snap product ups]; cbn in *.
  assert (mapM (parse_level config) (map level_document ups) = Ok ls) as Hm.
  { eapply mapM_Forall2; [|done]. intros. by apply parse_level_complete. }
  unfold parse_event. destruct snap; cbn; rewrite Hl; cbn; by rewrite Hm.
Qed.

(** ** Theorems *)

(** [CoinbaseL2Parser::parse] never lets an exception escape, and its
    status decides the shape of the result: an error carries a message and no
    events, an ignored control message neither, and a parsed message only
    Coinbase events with the envelope's sequence number, one exchange time,
    the caller's receive times and nonnegative 64-bit prices and quantities. *)
Theorem parse_outcomes `{JsonLaws} products raw wall mono b :
  ∃ r, parse products raw wall mono b = Ok r ∧ parse_result_ok wall mono r.
Proof. apply parse_Ok. Qed.

Lemma parse_outcomes_witness :
  ∃ r, @parse (table_lib []) default_products "x" {| wall_ns := 1 |} {| mono_ns := 2 |} false = Ok r ∧
       parse_result_ok {| wall_ns := 1 |} {| mono_ns := 2 |} r.
Proof. exact (@parse_outcomes (table_lib []) (table_laws []) _ _ _ _ _). Defined.

(** C29: a well-formed level 2 message is parsed to exactly the market events
    it denotes: every decimal at the product's scale without rounding, every
    level on its side and in order, the envelope's exchange time and sequence
    number on every event. *)
Theorem parse_l2_complete `{JsonLib} products raw timestamp ns n es evs wall mono b :
  json_parse raw = Ok (l2_document timestamp n es) →
  timestamp_denotes timestamp ns → in_int64 ns →
  Forall2 (event_denotes products {| exchange_ns := ns |} wall mono n) es evs →
  parse products raw wall mono b =
    Ok {| status := Parsed; events := evs; error := EmptyString;
          raw_message := if b then raw else EmptyString;
          sequence := Some n; heartbeat_channel := false |}.
Proof.
  intros Hj Ht Hns Hes. unfold parse, parse_body. rewrite Hj. cbn.
  rewrite (coinbase_timestamp_complete _ _ Ht Hns). cbn.
  by rewrite (mapM_Forall2 _ _ _ _ _ (parse_event_complete _ _ _ _ _) Hes).
Qed.

Definition ex_time : string := "1970-01-01T00:00:01.5Z".
Definition ex_update_text : EventText :=
  {| et_snapshot := false; et_product := "BTC-USD";
     et_updates := [{| lt_side := Bid; lt_event_time := ex_time; lt_price := "50000.01";
                       lt_quantity := "0.5" |}] |}.

Lemma ex_time_denotes : timestamp_denotes ex_time 1500000000.
Proof.
  exists "1970"%string, "01"%string, "01"%string, "00"%string, "00"%string, "01"%string, "5"%string,
    1970, 1, 1, 0, 0, 1. repeat split; cbn; lia.
Qed.

Lemma ex_update_denotes wall mono n :
  event_denotes default_products {| exchange_ns := 1500000000 |} wall mono n ex_update_text
    (UpdateEvent (MkUpdate Coinbase BTC_USD
       [MkLevel Bid (MkFixedPoint 5000001) (MkFixedPoint 50000000)]
       {| exchange_ns := 1500000000 |} wall mono (Some n))).
Proof.
  eexists _, _. split; [reflexivity|]. split_and!; cbn; [lia..| |reflexivity].
  repeat constructor.
  - exists 1500000000. split; [apply ex_time_denotes|done].
  - exists "50000"%string, "01"%string. split_and!; [|done..].
    by apply (decimal_fraction "50000" "01").
  - exists "0"%string, "5"%string. split_and!; [|done..]. by apply (decimal_fraction "0" "5").
Qed.

Lemma parse_l2_complete_witness :
  @parse (table_lib [("m", l2_document ex_time 7 [ex_update_text])]) default_products "m"
      {| wall_ns := 1 |} {| mono_ns := 2 |} true =
    Ok {| status := Parsed;
          events := [UpdateEvent (MkUpdate Coinbase BTC_USD
            [MkLevel Bid (MkFixedPoint 5000001) (MkFixedPoint 50000000)]
            {| exchange_ns := 1500000000 |} {| wall_ns := 1 |} {| mono_ns := 2 |} (Some 7))];
          error := EmptyString; raw_message := "m"; sequence := Some 7; heartbeat_channel := false |}.
Proof.
  apply (@parse_l2_complete (table_lib [("m"%string, l2_document ex_time 7 [ex_update_text])])
    default_products "m" ex_time 1500000000 7 [ex_update_text] _ _ _ true).
  - reflexivity.
  - apply ex_time_denotes.
  - done.
  - repeat constructor. apply ex_update_denotes.
Defined.
