(* ===== verification/FeedHealth.v ===== *)
(** * Feed health and reconnect back-off

    [FeedHealth] with its age checks, and [ReconnectPolicy].  Durations are in
    milliseconds, timestamps in nanoseconds. *)

From S2P Require Import Prelude.
From S2P Require Import Text.
From S2P Require Import StdMap.
From S2P Require Import CoreTypes.

Open Scope Z_scope.

(** ** Feed health *)

Record FeedHealthConfig := {
  check_interval : Z;
  max_any_message_age : Z;
  max_heartbeat_age : Z;
  max_instrument_message_age : option Z;
}.

Definition default_health_config : FeedHealthConfig :=
  {| check_interval := 1000; max_any_message_age := 5000; max_heartbeat_age := 5000;
     max_instrument_message_age := None |}.

Record FeedHealth := {
  last_any_message : option ReceiveMonotonicTimestamp;
  last_heartbeat : option ReceiveMonotonicTimestamp;
  last_l2_message : option ReceiveMonotonicTimestamp;
  heartbeat_count : Z;
  heartbeat_timeouts : Z;
  sequence_gaps : Z;
  duplicate_sequences : Z;
  out_of_order_sequences : Z;
  connected_at_ : ReceiveMonotonicTimestamp;
}.

#[export] Instance FeedHealth_eta : EtaRecord FeedHealth := λ r,
  {| last_any_message := last_any_message r; last_heartbeat := last_heartbeat r;
     last_l2_message := last_l2_message r; heartbeat_count := heartbeat_count r;
     heartbeat_timeouts := heartbeat_timeouts r; sequence_gaps := sequence_gaps r;
     duplicate_sequences := duplicate_sequences r;
     out_of_order_sequences := out_of_order_sequences r; connected_at_ := connected_at_ r |}.

Definition new_health : FeedHealth :=
  {| last_any_message := None; last_heartbeat := None; last_l2_message := None;
     heartbeat_count := 0; heartbeat_timeouts := 0; sequence_gaps := 0;
     duplicate_sequences := 0; out_of_order_sequences := 0; connected_at_ := {| mono_ns := 0 |} |}.

(** [FeedHealth::reset]: the counters are kept. *)
Definition health_reset (h : FeedHealth) (now : ReceiveMonotonicTimestamp) : FeedHealth :=
  h <| connected_at_ := now |> <| last_any_message := None |> <| last_heartbeat := None |>
    <| last_l2_message := None |>.

(** The [expired] lambda; [limit] in milliseconds. *)
Definition expired (h : FeedHealth) (now : ReceiveMonotonicTimestamp)
    (last : option ReceiveMonotonicTimestamp) (limit : Z) : bool :=
  mono_ns now - mono_ns (default (connected_at_ h) last) >? limit * 1000000.

Definition failure (h : FeedHealth) (now : ReceiveMonotonicTimestamp) (c : FeedHealthConfig) : string :=
  if expired h now (last_any_message h) (max_any_message_age c) then "No Coinbase messages"
  else if expired h now (last_heartbeat h) (max_heartbeat_age c) then "Coinbase heartbeat timeout"
  else if match max_instrument_message_age c with
          | Some limit => expired h now (last_l2_message h) limit
          | None => false
          end then "Coinbase instrument timeout"
  else EmptyString.

(** ** Reconnect policy *)

Record ReconnectPolicy := { delay_ : Z }.

Definition new_policy : ReconnectPolicy := {| delay_ := 250 |}.
Definition policy_reset (p : ReconnectPolicy) : ReconnectPolicy := {| delay_ := 250 |}.
Definition next_delay (p : ReconnectPolicy) : ReconnectPolicy * Z :=
  ({| delay_ := Z.min (delay_ p * 2) 10000 |}, delay_ p).

(** The policy after [n] calls of [next_delay]. *)
Definition policy_after (n : nat) (p : ReconnectPolicy) : ReconnectPolicy :=
  Nat.iter n (λ p, (next_delay p).1) p.

(** ** Lemmas *)

(** The delays a policy object can hold. *)
Definition policy_ok (p : ReconnectPolicy) : Prop := 250 ≤ delay_ p ≤ 10000.

Lemma next_delay_ok p : policy_ok p → policy_ok (next_delay p).1 ∧ 250 ≤ (next_delay p).2 ≤ 10000.
Proof. unfold policy_ok. cbn. lia. Qed.

Lemma policy_after_spec n : delay_ (policy_after n new_policy) = Z.min (250 * 2 ^ Z.of_nat n) 10000.
Proof.
  induction n as [|n IH]; [done|]. 
  change (delay_ (policy_after (S n) new_policy))
    with (Z.min (delay_ (policy_after n new_policy) * 2) 10000).
  rewrite IH, Nat2Z.inj_succ, Z.pow_succ_r by lia. lia.
Qed.

(** The feed is unhealthy when one of the watched ages exceeds its limit. *)
Lemma failure_spec h now c :
  failure h now c = EmptyString ↔
    mono_ns now - mono_ns (default (connected_at_ h) (last_any_message h)) ≤ max_any_message_age c * 1000000 ∧
    mono_ns now - mono_ns (default (connected_at_ h) (last_heartbeat h)) ≤ max_heartbeat_age c * 1000000 ∧
    ∀ limit, max_instrument_message_age c = Some limit →
      mono_ns now - mono_ns (default (connected_at_ h) (last_l2_message h)) ≤ limit * 1000000.
Proof.
  unfold failure, expired. destruct (_ >? max_any_message_age c * _) eqn:E1; zbool; [split; [done|lia]|].
  destruct (_ >? max_heartbeat_age c * _) eqn:E2; zbool; [split; [done|lia]|].
  destruct (max_instrument_message_age c) as [limit|]; [|naive_solver].
  destruct (_ >? limit * _) eqn:E3; zbool.
  - split; [done|]. intros (_ & _ & Hl). specialize (Hl _ eq_refl). lia.
  - naive_solver.
Qed.

(** ** Theorems *)

(** After [n] consecutive failures since the last reset the back-off is
    [min (250 * 2^n, 10000)] milliseconds. *)
Theorem reconnect_backoff n p :
  delay_ (policy_after n (policy_reset p)) = Z.min (250 * 2 ^ Z.of_nat n) 10000.
Proof. apply policy_after_spec. Qed.

(** The watchdog is exact and cannot be missed: [failure] reports nothing
    exactly when every watched age is within its limit, and a failure that is
    not cleared by a new message is still reported at any later time. *)
Theorem failure_exact_and_persistent h now c :
  (failure h now c = EmptyString ↔
    mono_ns now - mono_ns (default (connected_at_ h) (last_any_message h)) ≤ max_any_message_age c * 1000000 ∧
    mono_ns now - mono_ns (default (connected_at_ h) (last_heartbeat h)) ≤ max_heartbeat_age c * 1000000 ∧
    ∀ limit, max_instrument_message_age c = Some limit →
      mono_ns now - mono_ns (default (connected_at_ h) (last_l2_message h)) ≤ limit * 1000000) ∧
  ∀ later, mono_ns now ≤ mono_ns later → failure h now c ≠ EmptyString →
    failure h later c ≠ EmptyString.
Proof.
  split; [apply failure_spec|]. intros later Hle. rewrite !failure_spec. intros Hf Hl. apply Hf.
  destruct Hl as (H1 & H2 & H3). split_and!; [lia..|]. intros limit Hs. specialize (H3 _ Hs). lia.
Qed.
