(* ===== verification/RecordingQueue.v ===== *)
(** * The bounded raw recording queue

    [RawMessage] and [RawRecordingQueue]: the queue between the market thread
    (producer) and the writer thread (consumer).  Every method runs under the
    mutex, so a concurrent run is an interleaving of whole operations. *)

From S2P Require Import Prelude.
From S2P Require Import Text.
From S2P Require Import StdMap.
From S2P Require Import CoreTypes.

Open Scope Z_scope.

(** ** Data *)

Record RawMessage := {
  record_index : Z;
  venue : Venue;
  connection_id : Z;
  receive_wall_time : ReceiveWallTimestamp;
  receive_monotonic_time : ReceiveMonotonicTimestamp;
  payload : string;
}.
Definition RawEnvelope := RawMessage.

#[export] Instance RawMessage_eq_dec : EqDecision RawMessage.
Proof. solve_decision. Defined.

Record RawQueueConfig := { maximum_messages : Z; maximum_bytes : Z }.

Definition default_queue_config : RawQueueConfig :=
  {| maximum_messages := 4096; maximum_bytes := 64 * 1024 * 1024 |}.

Inductive PushResult := Accepted | Full | Closed.
#[export] Instance PushResult_eq_dec : EqDecision PushResult.
Proof. solve_decision. Defined.

Record RawRecordingQueue := {
  config_ : RawQueueConfig;
  messages_ : list RawEnvelope;
  bytes_ : Z;
  closed_ : bool;
}.

#[export] Instance RawRecordingQueue_eta : EtaRecord RawRecordingQueue := λ q,
  {| config_ := config_ q; messages_ := messages_ q; bytes_ := bytes_ q; closed_ := closed_ q |}.

Definition new_queue (config : RawQueueConfig) : RawRecordingQueue :=
  {| config_ := config; messages_ := []; bytes_ := 0; closed_ := false |}.

(** [payload.size()] *)
Definition payload_size (m : RawEnvelope) : Z := Z.of_nat (String.length (payload m)).

(** ** Operations (sizes are [std::size_t]) *)

Definition message_count (q : RawRecordingQueue) : Z := Z.of_nat (length (messages_ q)).
Definition payload_bytes (q : RawRecordingQueue) : Z := bytes_ q.

Definition try_push (q : RawRecordingQueue) (message : RawEnvelope) : RawRecordingQueue * PushResult :=
  if closed_ q then (q, Closed)
  else if (Z.of_nat (length (messages_ q)) >=? maximum_messages (config_ q)) ||
          (payload_size message >? u64 (maximum_bytes (config_ q) - bytes_ q))
  then (q, Full)
  else (q <| messages_ := messages_ q ++ [message] |>
          <| bytes_ := u64 (bytes_ q + payload_size message) |>, Accepted).

(** [wait_pop]: [None] while the condition variable blocks the caller,
    otherwise the new queue and the returned optional. *)
Definition wait_pop (q : RawRecordingQueue) : option (RawRecordingQueue * option RawEnvelope) :=
  match messages_ q with
  | [] => if closed_ q then Some (q, None) else None
  | message :: rest =>
      Some (q <| messages_ := rest |> <| bytes_ := u64 (bytes_ q - payload_size message) |>,
            Some message)
  end.

Definition close (q : RawRecordingQueue) : RawRecordingQueue := q <| closed_ := true |>.

(** ** Runs *)

Inductive queue_op := OpPush (m : RawEnvelope) | OpPop | OpClose.

(** The observable effect of one operation. *)
Inductive queue_event := Pushed (m : RawEnvelope) (r : PushResult) | Popped (m : option RawEnvelope) | DidClose.

Inductive queue_step : RawRecordingQueue → queue_event → RawRecordingQueue → Prop :=
  | step_push q m q' r : try_push q m = (q', r) → queue_step q (Pushed m r) q'
  | step_pop q m q' : wait_pop q = Some (q', m) → queue_step q (Popped m) q'
  | step_close q : queue_step q DidClose (close q).

Inductive queue_run : RawRecordingQueue → list queue_event → RawRecordingQueue → Prop :=
  | run_nil q : queue_run q [] q
  | run_snoc q es q' e q'' : queue_run q es q' → queue_step q' e q'' → queue_run q (es ++ [e]) q''.

Definition accepted_of (e : queue_event) : list RawEnvelope :=
  match e with Pushed m Accepted => [m] | _ => [] end.
Definition popped_of (e : queue_event) : list RawEnvelope :=
  match e with Popped (Some m) => [m] | _ => [] end.

#[global] Arguments payload_size : simpl never.

(** ** Invariant *)

Fixpoint total_bytes (ms : list RawEnvelope) : Z :=
  match ms with [] => 0 | m :: ms' => payload_size m + total_bytes ms' end.

Record queue_inv (q : RawRecordingQueue) : Prop := {
  inv_count : 0 ≤ message_count q ≤ maximum_messages (config_ q);
  inv_bytes : bytes_ q = total_bytes (messages_ q);
  inv_bound : bytes_ q ≤ maximum_bytes (config_ q) ≤ UINT64_MAX;
}.

Definition config_ok (c : RawQueueConfig) : Prop :=
  0 ≤ maximum_messages c ∧ 0 ≤ maximum_bytes c ≤ UINT64_MAX.

Lemma payload_size_nonneg m : 0 ≤ payload_size m.
Proof. unfold payload_size. lia. Qed.

Lemma total_bytes_nonneg ms : 0 ≤ total_bytes ms.
Proof. induction ms as [|m ms IH]; cbn; [lia|]. pose proof (payload_size_nonneg m). lia. Qed.

Lemma total_bytes_app ms ms' : total_bytes (ms ++ ms') = total_bytes ms + total_bytes ms'.
Proof. induction ms as [|m ms IH]; cbn; [done|]. rewrite IH. lia. Qed.

Lemma new_queue_inv c : config_ok c → queue_inv (new_queue c).
Proof. intros [? ?]. split; unfold message_count; cbn -[UINT64_MAX]; lia. Qed.

Lemma try_push_inv q m : queue_inv q → queue_inv (try_push q m).1.
Proof.
  intros [Hc Hb Hm]. unfold try_push. destruct (closed_ q); [done|].
  pose proof (total_bytes_nonneg (messages_ q)). pose proof (payload_size_nonneg m).
  rewrite u64_small by (unfold in_uint64; lia).
  destruct (_ || _) eqn:E; [done|]. apply orb_false_iff in E as [E1 E2].
  rewrite Z.geb_leb in E1. zbool. unfold message_count in *.
  split; unfold message_count; cbn -[UINT64_MAX]; [rewrite length_app; cbn; lia|..].
  - rewrite u64_small by (unfold in_uint64; lia). rewrite total_bytes_app, Hb. cbn. lia.
  - rewrite u64_small by (unfold in_uint64; lia). lia.
Qed.

Lemma wait_pop_inv q q' m : queue_inv q → wait_pop q = Some (q', m) → queue_inv q'.
Proof.
  intros [Hc Hb Hm] Hp. unfold wait_pop in Hp. unfold message_count in *.
  destruct (messages_ q) as [|m' rest] eqn:E.
  { destruct (closed_ q); [|done]. injection Hp as <- <-. split; [|by rewrite E|done].
    unfold message_count. by rewrite E. }
  injection Hp as <- <-. cbn in *. pose proof (total_bytes_nonneg rest).
  pose proof (payload_size_nonneg m').
  split; unfold message_count; cbn -[UINT64_MAX]; rewrite ?u64_small by (unfold in_uint64; lia); lia.
Qed.

Lemma close_inv q : queue_inv q → queue_inv (close q).
Proof. by intros []; split. Qed.
#[export] Hint Resolve try_push_inv wait_pop_inv close_inv new_queue_inv : arb.

Lemma queue_step_inv q e q' : queue_step q e q' → queue_inv q → queue_inv q'.
Proof.
  intros [q0 m q1 r Hp|q0 m q1 Hp|q0] Hq; [|exact (wait_pop_inv _ _ _ Hq Hp)|by apply close_inv].
  apply (try_push_inv q0 m) in Hq. by rewrite Hp in Hq.
Qed.

Lemma queue_run_inv q es q' : queue_inv q → queue_run q es q' → queue_inv q'.
Proof. intros Hq Hr. induction Hr; eauto using queue_step_inv. Qed.

Lemma queue_step_config q e q' : queue_step q e q' → config_ q' = config_ q.
Proof.
  intros [? ? ? ? H|? ? ? H|?]; [unfold try_push in H|unfold wait_pop in H|done];
    repeat split_match; by simplify_eq.
Qed.

(** ** Order of messages *)

Lemma queue_step_fifo q e q' :
  queue_step q e q' → messages_ q ++ accepted_of e = popped_of e ++ messages_ q'.
Proof.
  intros [? ? ? ? H|? ? ? H|?]; [unfold try_push in H|unfold wait_pop in H|];
    repeat split_match; simplify_eq; cbn; rewrite ?app_nil_r; try congruence; done.
Qed.

Lemma queue_run_fifo q es q' :
  queue_run q es q' →
  messages_ q ++ (es ≫= accepted_of) = (es ≫= popped_of) ++ messages_ q'.
Proof.
  intros Hr. induction Hr as [q|q es q' e q'' _ IH Hs]; [by rewrite app_nil_r|].
  rewrite !bind_app. cbn. rewrite !app_nil_r. apply queue_step_fifo in Hs.
  rewrite app_assoc, IH, <-app_assoc, Hs. by rewrite app_assoc.
Qed.

Lemma queue_step_closed q e q' : 
  queue_step q e q' → closed_ q = true → closed_ q' = true ∧ accepted_of e = [].
Proof.
  intros [? ? ? ? H|? ? ? H|?] Hc; [unfold try_push in H|unfold wait_pop in H|done];
    repeat split_match; by simplify_eq.
Qed.

Lemma queue_run_closed q es q' :
  closed_ q = true → queue_run q es q' → closed_ q' = true ∧ (es ≫= accepted_of) = [].
Proof.
  intros Hc Hr. induction Hr as [q|q es q' e q'' _ IH Hs]; [done|].
  destruct (IH Hc) as [Hc' Ha]. destruct (queue_step_closed _ _ _ Hs Hc') as [? He].
  rewrite bind_app, Ha. cbn. by rewrite He.
Qed.

Lemma queue_run_config q es q' : queue_run q es q' → config_ q' = config_ q.
Proof. intros Hr. induction Hr; [done|]. erewrite queue_step_config by done. done. Qed.

Lemma run_cons q e q' es q'' : queue_step q e q' → queue_run q' es q'' → queue_run q (e :: es) q''.
Proof.
  intros Hs Hr. induction Hr as [q'|q' es q1 e' q2 _ IH Hs'].
  - apply (run_snoc q [] q e); [constructor|done].
  - apply (run_snoc q (e :: es) q1 e'); auto.
Qed.

Lemma drain_run ms q :
  closed_ q = true → messages_ q = ms →
  ∃ q', queue_run q (map (λ m, Popped (Some m)) ms) q' ∧ closed_ q' = true ∧ messages_ q' = [].
Proof.
  revert q. induction ms as [|m ms IH]; intros q Hc Hm.
  { exists q. split_and!; [constructor|done..]. }
  set (q1 := q <| messages_ := ms |> <| bytes_ := u64 (bytes_ q - payload_size m) |>).
  destruct (IH q1) as (q' & Hr & Hc' & Hm'); [done..|]. exists q'. split_and!; [|done..].
  cbn. apply run_cons with q1; [|done]. constructor. unfold wait_pop. by rewrite Hm.
Qed.

(** ** Theorems *)

(** C38: in every interleaving of pushes, pops and closes the queue stays
    within its message and byte limits, and its [std::size_t] byte counter is
    the exact total of the queued payloads: neither its sum nor its
    differences wrap around. *)
Theorem queue_bounded c es q :
  config_ok c → queue_run (new_queue c) es q →
  message_count q ≤ maximum_messages c ∧ payload_bytes q ≤ maximum_bytes c ∧
  payload_bytes q = total_bytes (messages_ q).
Proof.
  intros Hc Hr. destruct (queue_run_inv _ _ _ (new_queue_inv _ Hc) Hr) as [H1 H2 H3].
  rewrite (queue_run_config _ _ _ Hr) in *. unfold payload_bytes. cbn in *. lia.
Qed.

(** The queue is first-in first-out and loses nothing: the accepted
    messages are the popped ones followed by those still queued, and after
    [close] nothing more is accepted. *)
Theorem queue_fifo c es q es' q' :
  queue_run (new_queue c) es q → queue_run (close q) es' q' →
  (es ≫= accepted_of) = (es ≫= popped_of) ++ messages_ q ∧
  (es' ≫= accepted_of) = [] ∧ messages_ q = (es' ≫= popped_of) ++ messages_ q'.
Proof.
  intros Hr Hr'. apply queue_run_fifo in Hr. cbn in Hr. split; [done|].
  destruct (queue_run_closed (close q) es' q' eq_refl Hr') as [_ He]. split; [done|].
  apply queue_run_fifo in Hr'. rewrite He, app_nil_r in Hr'. done.
Qed.

(** The consumer never blocks for ever once the producer has closed: it
    returns every queued message in order, and then the end marker. *)
Theorem queue_drains q :
  ∃ q', queue_run (close q) (map (λ m, Popped (Some m)) (messages_ q) ++ [Popped None]) q' ∧
    messages_ q' = [].
Proof.
  destruct (drain_run (messages_ q) (close q)) as (q' & Hr & Hc & Hm); [done..|].
  exists q'. split; [|done]. apply run_snoc with q'; [done|]. constructor.
  unfold wait_pop. by rewrite Hm, Hc.
Qed.

Definition ex_raw (i : Z) (text : string) : RawEnvelope :=
  {| record_index := i; venue := Coinbase; connection_id := 1;
     receive_wall_time := {| wall_ns := i |}; receive_monotonic_time := {| mono_ns := i |};
     payload := text |}.

(** A run on a queue of at most two messages and eight bytes, in which a third
    message is refused. *)
Definition ex_queue_config : RawQueueConfig := {| maximum_messages := 2; maximum_bytes := 8 |}.
Definition ex_queue : RawRecordingQueue :=
  (try_push (try_push (try_push (new_queue ex_queue_config) (ex_raw 0 "abc")).1
    (ex_raw 1 "defgh")).1 (ex_raw 2 "i")).1.

Lemma ex_queue_run :
  queue_run (new_queue ex_queue_config)
    [Pushed (ex_raw 0 "abc") Accepted; Pushed (ex_raw 1 "defgh") Accepted; Pushed (ex_raw 2 "i") Full]
    ex_queue.
Proof. do 3 (eapply run_cons; [by constructor|]). constructor. Qed.

Lemma queue_bounded_witness :
  message_count ex_queue ≤ 2 ∧ payload_bytes ex_queue ≤ 8 ∧
  payload_bytes ex_queue = total_bytes (messages_ ex_queue).
Proof. apply (queue_bounded ex_queue_config _ _ ltac:(done) ex_queue_run). Defined.

Lemma queue_fifo_witness :
  [ex_raw 0 "abc"; ex_raw 1 "defgh"] = messages_ ex_queue ∧
  messages_ ex_queue = [ex_raw 0 "abc"] ++ [ex_raw 1 "defgh"].
Proof.
  destruct (queue_fifo ex_queue_config _ ex_queue
    [Popped (Some (ex_raw 0 "abc")); Pushed (ex_raw 3 "") Closed] _ ex_queue_run
    ltac:(do 2 (eapply run_cons; [by constructor|]); constructor)) as (H1 & _ & H2).
  exact (conj H1 H2).
Defined.
