(* ===== verification/CommandLine.v ===== *)
(** * The command line

    [main]: the numbers and options it accepts, and the command they select.
    The arguments follow the program name; the clock reading names a capture
    directory that was not given. *)

From S2P Require Import Prelude.
From S2P Require Import Text.
From S2P Require Import CoreTypes.
From S2P Require Import RecordingQueue.

Open Scope Z_scope.

(** ** Numbers *)

Definition front_is_minus (value : string) : bool :=
  match value with String c _ => (c =? "-")%char | EmptyString => false end.

(** The [positive] lambda. *)
Definition positive (value : string) : result Z :=
  let error := InvalidArgument "expected positive integer" in
  if String.eqb value EmptyString || front_is_minus value then Throw error
  else
    '(number, consumed) ← stoull value;
    if (number =? 0) || negb (bool_decide (consumed = String.length value)) then Throw error else Ok number.

(** The value of [--force-disconnect-after-seconds] in the legacy options. *)
Definition force_value (value : string) : result Z :=
  let '(_, _, rest) := strto_prefix value in
  force_seconds ← stoi value;
  if (force_seconds <=? 0) || negb (String.eqb rest EmptyString)
  then Throw (InvalidArgument "force disconnect seconds must be positive") else Ok force_seconds.

Definition INT_MAX : Z := 2147483647.

(** ** Commands *)

Record CaptureCommand := {
  cc_venue : string; cc_directory : string; cc_depth : Z; cc_duration : Z; cc_queue : RawQueueConfig;
  cc_minimum_disk : Z; cc_force_seconds : Z;
}.

Inductive command :=
  | SessionReplay (directory output : string) (allow_incomplete include_final_book : bool)
  | SessionCapture (c : CaptureCommand)
  | LegacyReplay (path : string)
  | LegacyRecord (path : string) (force_seconds : Z) (queue : RawQueueConfig) (minimum_disk : Z).

(** The variables the session options set. *)
Record SessionOptions := {
  so_directory : string; so_output : string; so_venue : string; so_instrument : string; so_depth : Z;
  so_duration : Z; so_allow_incomplete : bool; so_include_final_book : bool; so_queue : RawQueueConfig;
  so_minimum_disk : Z; so_force_seconds : Z;
}.

#[export] Instance SessionOptions_eta : EtaRecord SessionOptions := λ o,
  {| so_directory := so_directory o; so_output := so_output o; so_venue := so_venue o;
     so_instrument := so_instrument o; so_depth := so_depth o; so_duration := so_duration o;
     so_allow_incomplete := so_allow_incomplete o; so_include_final_book := so_include_final_book o;
     so_queue := so_queue o; so_minimum_disk := so_minimum_disk o; so_force_seconds := so_force_seconds o |}.

#[export] Instance RawQueueConfig_eta : EtaRecord RawQueueConfig := λ q,
  {| maximum_messages := maximum_messages q; maximum_bytes := maximum_bytes q |}.

Definition default_minimum_disk : Z := 64 * 1024 * 1024.

Definition default_session_options : SessionOptions :=
  {| so_directory := EmptyString; so_output := EmptyString; so_venue := "coinbase"; so_instrument := "BTC_USD";
     so_depth := 100; so_duration := 0; so_allow_incomplete := false; so_include_final_book := false;
     so_queue := default_queue_config; so_minimum_disk := default_minimum_disk; so_force_seconds := 0 |}.

Definition is_option (opt : string) (names : list string) : bool := existsb (String.eqb opt) names.

(** A value that must fit an [int]. *)
Definition positive_int (value error : string) : result Z :=
  n ← positive value; if n >? INT_MAX then Throw (InvalidArgument error) else Ok n.

(** The options that only a capture takes: the first group and the second
    group of the loop. *)
Definition capture_option (opt value : string) (o : SessionOptions) : result SessionOptions :=
  if String.eqb opt "--venue" then Ok (o <| so_venue := value |>)
  else if String.eqb opt "--instrument" then Ok (o <| so_instrument := value |>)
  else if String.eqb opt "--depth" then n ← positive value; Ok (o <| so_depth := n |>)
  else n ← positive_int value "duration too large"; Ok (o <| so_duration := n |>).

Definition limit_option (opt value : string) (o : SessionOptions) : result SessionOptions :=
  if String.eqb opt "--queue-messages" then
    n ← positive value; Ok (o <| so_queue ::= λ q, q <| maximum_messages := n |> |>)
  else if String.eqb opt "--queue-bytes" then
    n ← positive value; Ok (o <| so_queue ::= λ q, q <| maximum_bytes := n |> |>)
  else if String.eqb opt "--minimum-free-disk-bytes" then n ← positive value; Ok (o <| so_minimum_disk := n |>)
  else n ← positive_int value "disconnect delay too large"; Ok (o <| so_force_seconds := n |>).

Definition path_option (opt value : string) (o : SessionOptions) : result SessionOptions :=
  let session := String.eqb opt "--session" in
  if negb (String.eqb (if session then so_directory o else so_output o) EmptyString)
  then Throw (InvalidArgument "duplicate option")
  else Ok (if session then o <| so_directory := value |> else o <| so_output := value |>).

(** One iteration of the loop: the options, and whether the next argument was
    consumed; [next] is that argument if there is one. *)
Definition session_option (replay : bool) (opt : string) (next : option string) (o : SessionOptions)
    : result (SessionOptions * bool) :=
  let consuming (r : result SessionOptions) := o ← r; Ok (o, true) in
  match next with
  | Some value =>
      if negb replay && is_option opt ["--venue"; "--instrument"; "--depth"; "--duration-seconds"]
      then consuming (capture_option opt value o)
      else if String.eqb opt "--allow-incomplete" && replay then Ok (o <| so_allow_incomplete := true |>, false)
      else if String.eqb opt "--include-final-book" && replay
      then Ok (o <| so_include_final_book := true |>, false)
      else if String.eqb opt "--session" || (String.eqb opt "--output" && replay)
      then consuming (path_option opt value o)
      else if negb replay && is_option opt ["--queue-messages"; "--queue-bytes"; "--minimum-free-disk-bytes";
                                               "--force-disconnect-after-seconds"]
      then consuming (limit_option opt value o)
      else Throw (InvalidArgument ("unknown or missing session option: " +:+ opt))
  | None =>
      if String.eqb opt "--allow-incomplete" && replay then Ok (o <| so_allow_incomplete := true |>, false)
      else if String.eqb opt "--include-final-book" && replay
      then Ok (o <| so_include_final_book := true |>, false)
      else Throw (InvalidArgument ("unknown or missing session option: " +:+ opt))
  end.

(** The loop. *)
Fixpoint session_options (replay : bool) (arguments : list string) (o : SessionOptions) : result SessionOptions :=
  match arguments with
  | [] => Ok o
  | opt :: rest =>
      '(o, consumed) ← session_option replay opt (head rest) o;
      match rest with
      | [] => Ok o
      | _ :: rest' => if consumed : bool then session_options replay rest' o else session_options replay rest o
      end
  end.

(** What follows the loop. *)
Definition session_command (replay : bool) (now : Z) (o : SessionOptions) : result command :=
  let o := if negb replay && String.eqb (so_directory o) EmptyString
           then o <| so_directory := "data/sessions/session-" +:+ to_string now |> else o in
  if String.eqb (so_directory o) EmptyString || (replay && String.eqb (so_output o) EmptyString)
  then Throw (InvalidArgument ("capture --session NEW_DIRECTORY | replay --session DIRECTORY --output " +:+
                               "NEW_RESULT [--allow-incomplete] [--include-final-book]"))
  else if replay
  then Ok (SessionReplay (so_directory o) (so_output o) (so_allow_incomplete o) (so_include_final_book o))
  else if negb (String.eqb (so_instrument o) "BTC_USD") &&
          negb (String.eqb (so_venue o) "coinbase" && String.eqb (so_instrument o) "BTC-USD")
  then Throw (InvalidArgument "unsupported instrument")
  else if negb (String.eqb (so_venue o) "kraken") && (negb (so_duration o =? 0) || negb (so_depth o =? 100))
  then Throw (InvalidArgument "depth and duration require Kraken capture")
  else Ok (SessionCapture
             {| cc_venue := so_venue o; cc_directory := so_directory o; cc_depth := so_depth o;
                cc_duration := so_duration o; cc_queue := so_queue o; cc_minimum_disk := so_minimum_disk o;
                cc_force_seconds := so_force_seconds o |}).

(** ** The legacy options *)

Record LegacyOptions := {
  lo_mode : string; lo_path : string; lo_venue : string; lo_instrument : string; lo_force_seconds : Z;
  lo_queue : RawQueueConfig; lo_minimum_disk : Z;
}.

#[export] Instance LegacyOptions_eta : EtaRecord LegacyOptions := λ o,
  {| lo_mode := lo_mode o; lo_path := lo_path o; lo_venue := lo_venue o; lo_instrument := lo_instrument o;
     lo_force_seconds := lo_force_seconds o; lo_queue := lo_queue o; lo_minimum_disk := lo_minimum_disk o |}.

Definition default_legacy_options : LegacyOptions :=
  {| lo_mode := EmptyString; lo_path := EmptyString; lo_venue := "coinbase"; lo_instrument := "BTC-USD";
     lo_force_seconds := 0; lo_queue := default_queue_config; lo_minimum_disk := default_minimum_disk |}.

Definition legacy_option (opt value : string) (o : LegacyOptions) : result LegacyOptions :=
  if is_option opt ["--record"; "--replay"; "--output"] then
    if negb (String.eqb (lo_path o) EmptyString) then Throw (InvalidArgument "choose one recording or replay path")
    else Ok (o <| lo_path := value |> <| lo_mode := if String.eqb opt "--replay" then "replay" else "record" |>)
  else if String.eqb opt "--queue-messages" then
    n ← positive value; Ok (o <| lo_queue ::= λ q, q <| maximum_messages := n |> |>)
  else if String.eqb opt "--queue-bytes" then
    n ← positive value; Ok (o <| lo_queue ::= λ q, q <| maximum_bytes := n |> |>)
  else if String.eqb opt "--minimum-free-disk-bytes" then n ← positive value; Ok (o <| lo_minimum_disk := n |>)
  else if String.eqb opt "--venue" then Ok (o <| lo_venue := value |>)
  else if String.eqb opt "--instrument" then Ok (o <| lo_instrument := value |>)
  else if String.eqb opt "--force-disconnect-after-seconds" then
    n ← force_value value; Ok (o <| lo_force_seconds := n |>)
  else Throw (InvalidArgument ("unknown option: " +:+ opt)).

Fixpoint legacy_options (arguments : list string) (o : LegacyOptions) : result LegacyOptions :=
  match arguments with
  | [] => Ok o
  | [_] => Throw (InvalidArgument "option requires a value")
  | opt :: value :: rest => o ← legacy_option opt value o; legacy_options rest o
  end.

Definition legacy_command (o : LegacyOptions) : result command :=
  let replay := String.eqb (lo_mode o) "replay" in
  if String.eqb (lo_path o) EmptyString || negb (String.eqb (lo_venue o) "coinbase") ||
     negb (String.eqb (lo_instrument o) "BTC-USD") || (replay && negb (lo_force_seconds o =? 0))
  then Throw (InvalidArgument ("Usage: arbitrage_engine --record NEW_FILE | --replay FILE " +:+
         "[--venue coinbase --instrument BTC-USD] [--force-disconnect-after-seconds N]"))
  else Ok (if replay then LegacyReplay (lo_path o)
           else LegacyRecord (lo_path o) (lo_force_seconds o) (lo_queue o) (lo_minimum_disk o)).

(** The command that the arguments select. *)
Definition parse_command (arguments : list string) (now : Z) : result command :=
  match arguments with
  | first :: rest =>
      if String.eqb first "replay" || String.eqb first "capture" then
        let replay := String.eqb first "replay" in
        o ← session_options replay rest default_session_options;
        session_command replay now o
      else o ← legacy_options arguments default_legacy_options; legacy_command o
  | [] => o ← legacy_options [] default_legacy_options; legacy_command o
  end.

(** ** Specification *)

Definition limits_ok (q : RawQueueConfig) : Prop :=
  0 < maximum_messages q ≤ UINT64_MAX ∧ 0 < maximum_bytes q ≤ UINT64_MAX.

(** The commands the program can be asked for. *)
Definition command_ok (c : command) : Prop :=
  match c with
  | SessionReplay directory output _ _ => directory ≠ EmptyString ∧ output ≠ EmptyString
  | SessionCapture c =>
      cc_directory c ≠ EmptyString ∧ 0 < cc_depth c ≤ UINT64_MAX ∧ 0 ≤ cc_duration c ≤ INT_MAX ∧
      limits_ok (cc_queue c) ∧ 0 < cc_minimum_disk c ≤ UINT64_MAX ∧ 0 ≤ cc_force_seconds c ≤ INT_MAX ∧
      (cc_venue c ≠ "kraken"%string → cc_depth c = 100 ∧ cc_duration c = 0)
  | LegacyReplay path => path ≠ EmptyString
  | LegacyRecord path force_seconds queue minimum_disk =>
      path ≠ EmptyString ∧ 0 ≤ force_seconds ≤ INT_MAX ∧ limits_ok queue ∧ 0 < minimum_disk ≤ UINT64_MAX
  end.

(** Arguments that select a command; a zero is the default of an option that
    only takes positive numbers. *)
Definition number_argument (name : string) (n : Z) : list string := if n =? 0 then [] else [name; to_string n].
Definition flag_argument (name : string) (given : bool) : list string := if given then [name] else [].
Definition limit_arguments (q : RawQueueConfig) (minimum_disk force_seconds : Z) : list string :=
  ["--queue-messages"; to_string (maximum_messages q); "--queue-bytes"; to_string (maximum_bytes q);
   "--minimum-free-disk-bytes"; to_string minimum_disk]%string ++
  number_argument "--force-disconnect-after-seconds" force_seconds.

Definition command_arguments (c : command) : list string :=
  match c with
  | SessionReplay directory output allow_incomplete include_final_book =>
      ["replay"; "--session"; directory; "--output"; output]%string ++
      flag_argument "--allow-incomplete" allow_incomplete ++ flag_argument "--include-final-book" include_final_book
  | SessionCapture c =>
      ["capture"; "--session"; cc_directory c; "--venue"; cc_venue c; "--depth"; to_string (cc_depth c)]%string ++
      number_argument "--duration-seconds" (cc_duration c) ++
      limit_arguments (cc_queue c) (cc_minimum_disk c) (cc_force_seconds c)
  | LegacyReplay path => ["--replay"; path]%string
  | LegacyRecord path force_seconds queue minimum_disk =>
      ["--record"; path]%string ++ limit_arguments queue minimum_disk force_seconds
  end.

(** ** Lemmas: numbers *)

(** A text of white space. *)
Fixpoint all_space (s : string) : bool :=
  match s with EmptyString => true | String c rest => is_space c && all_space rest end.

Lemma digit_prefix_parts t d r : digit_prefix t = (d, r) → all_digits d = true ∧ t = d +:+ r.
Proof.
  revert d r. induction t as [|c t IH]; intros d r; cbn; [by intros [= <- <-]|].
  destruct (is_digit c) eqn:Ec; [|by intros [= <- <-]].
  destruct (digit_prefix t) as [d1 r1]. intros [= <- <-]. destruct (IH d1 r1 eq_refl) as [Hd ->]. cbn. by rewrite Ec.
Qed.

Lemma skip_space_parts s : ∃ space, all_space space = true ∧ s = space +:+ skip_space s.
Proof.
  induction s as [|c s [space [Hs Heq]]]; cbn; [by exists EmptyString|].
  destruct (is_space c) eqn:Ec; [|by exists EmptyString]. exists (String c space). cbn. by rewrite Ec, <-Heq.
Qed.

(** White space, a sign, digits and a rest. *)
Lemma strto_prefix_parts s negative d r :
  strto_prefix s = (negative, d, r) →
  all_digits d = true ∧
  ∃ space sign, all_space space = true ∧ s = space +:+ sign +:+ d +:+ r ∧
    (if negative then sign = "-" else sign = EmptyString ∨ sign = "+")%string.
Proof.
  unfold strto_prefix. destruct (skip_space_parts s) as (space & Hs & Heq). destruct (skip_space s) as [|c t].
  { cbn. intros [= <- <- <-]. split; [done|]. exists space, EmptyString. split_and!; [done|exact Heq|by left]. }
  destruct (Ascii.eqb_spec c "-") as [->|_]; [|destruct (Ascii.eqb_spec c "+") as [->|_]].
  - destruct (digit_prefix t) as [d1 r1] eqn:Ed. intros [= <- <- <-]. apply digit_prefix_parts in Ed as [Hd ->].
    split; [done|]. exists space, "-"%string. by split_and!.
  - destruct (digit_prefix t) as [d1 r1] eqn:Ed. intros [= <- <- <-]. apply digit_prefix_parts in Ed as [Hd ->].
    split; [done|]. exists space, "+"%string. split_and!; [done..|by right].
  - destruct (digit_prefix (String c t)) as [d1 r1] eqn:Ed. intros [= <- <- <-]. apply digit_prefix_parts in Ed as [Hd Ht].
    split; [done|]. exists space, EmptyString. split_and!; [done|by rewrite <-Ht|by left].
Qed.

Lemma strto_prefix_built space (negative : bool) sign d :
  all_space space = true → d ≠ EmptyString → all_digits d = true →
  (if negative then sign = "-" else sign = EmptyString ∨ sign = "+")%string →
  strto_prefix (space +:+ sign +:+ d) = (negative, d, EmptyString).
Proof.
  intros Hs Hne Hd Hsign. assert (strto_prefix (space +:+ sign +:+ d) = strto_prefix (sign +:+ d)) as ->.
  { unfold strto_prefix. f_equal. induction space as [|c space IH]; [done|]. cbn in Hs |- *.
    apply andb_true_iff in Hs as [-> Hs]. by apply IH. }
  destruct negative; [subst; by apply (strto_signed true)|destruct Hsign as [-> | ->]; [by apply strto_digits|]].
  by apply (strto_signed false).
Qed.

Lemma to_string_prefix n : in_uint64 n → strto_prefix (to_string n) = (false, to_string n, EmptyString).
Proof. intros Hn. destruct (to_string_spec n Hn) as (Hd & _ & Hne). by apply strto_digits. Qed.

Lemma positive_to_string n : 0 < n ≤ UINT64_MAX → positive (to_string n) = Ok n.
Proof.
  intros Hn. assert (in_uint64 n) as Hu by (unfold in_uint64; lia).
  destruct (to_string_spec n Hu) as (Hd & Hv & Hne). unfold positive.
  rewrite (proj2 (String.eqb_neq _ _) Hne). replace (front_is_minus (to_string n)) with false.
  2: { destruct (to_string n) as [|c s]; [done|]. cbn in Hd. apply andb_true_iff in Hd as [Hc _].
       destruct (digit_not_space c Hc) as (_ & Hm & _). cbn [front_is_minus]. by rewrite Hm. }
  cbn [orb]. unfold stoull. rewrite to_string_prefix by done. rewrite (proj2 (String.eqb_neq _ _) Hne), Hv.
  rewrite Z.gtb_ltb, (proj2 (Z.ltb_ge _ _)) by lia. monad_simpl. rewrite (proj2 (Z.eqb_neq _ _)) by lia.
  by rewrite bool_decide_true by (cbn; lia).
Qed.

Lemma positive_int_to_string n error : 0 < n ≤ INT_MAX → positive_int (to_string n) error = Ok n.
Proof.
  unfold INT_MAX. intros Hn. unfold positive_int. rewrite positive_to_string by (unfold UINT64_MAX; lia). monad_simpl.
  unfold INT_MAX. by rewrite Z.gtb_ltb, (proj2 (Z.ltb_ge _ _)) by lia.
Qed.

Lemma force_to_string n : 0 < n ≤ INT_MAX → force_value (to_string n) = Ok n.
Proof.
  unfold INT_MAX. intros Hn. assert (in_uint64 n) as Hu by (unfold in_uint64, UINT64_MAX; lia).
  destruct (to_string_spec n Hu) as (_ & Hv & Hne). unfold force_value, stoi. rewrite to_string_prefix by done.
  rewrite (proj2 (String.eqb_neq _ _) Hne), Hv, Z.gtb_ltb, !(proj2 (Z.ltb_ge _ _)) by lia. cbn [orb]. monad_simpl.
  by rewrite (proj2 (Z.leb_gt _ _)) by lia.
Qed.

Lemma stoull_range value n k : stoull value = Ok (n, k) → in_uint64 n.
Proof.
  unfold stoull. destruct (strto_prefix value) as [[negative d] rest] eqn:Hp.
  destruct (String.eqb d EmptyString); [done|]. destruct (_ >? _) eqn:E; [done|]. intros [= <- _].
  destruct negative; [apply u64_range|]. rewrite Z.gtb_ltb in E. zbool.
  apply strto_prefix_parts in Hp as [Hd _].
  pose proof (digits_value_bound d Hd). split; [lia|done].
Qed.

Lemma positive_range value n : positive value = Ok n → 0 < n ≤ UINT64_MAX.
Proof.
  unfold positive. destruct (_ || _); [done|]. destruct (stoull value) as [[m k]|] eqn:E; [|done]. monad_simpl.
  destruct (_ || _) eqn:Ez; [done|]. intros [= <-]. apply stoull_range in E. unfold in_uint64 in E.
  apply orb_false_iff in Ez as [Ez _]. zbool. lia.
Qed.

Lemma positive_int_range value error n : positive_int value error = Ok n → 0 ≤ n ≤ INT_MAX.
Proof.
  unfold positive_int. destruct (positive value) as [m|] eqn:E; [|done]. monad_simpl. destruct (_ >? _) eqn:G; [done|].
  intros [= <-]. apply positive_range in E. rewrite Z.gtb_ltb in G. zbool. lia.
Qed.

Lemma force_value_range value n : force_value value = Ok n → 0 ≤ n ≤ INT_MAX.
Proof.
  unfold force_value, stoi. destruct (strto_prefix value) as [[negative d] rest].
  destruct (String.eqb d EmptyString); [done|].
  set (v := if negative then _ else _). clearbody v.
  destruct ((v <? -2147483648) || (v >? 2147483647)) eqn:E; [done|]. monad_simpl.
  destruct ((v <=? 0) || _) eqn:F; [done|]. intros [= <-]. apply orb_false_iff in E as [_ E], F as [F _].
  rewrite Z.gtb_ltb in E. zbool. unfold INT_MAX. lia.
Qed.

(** ** Lemmas: what the options keep *)

Definition session_ok (o : SessionOptions) : Prop :=
  0 < so_depth o ≤ UINT64_MAX ∧ 0 ≤ so_duration o ≤ INT_MAX ∧ limits_ok (so_queue o) ∧
  0 < so_minimum_disk o ≤ UINT64_MAX ∧ 0 ≤ so_force_seconds o ≤ INT_MAX.

Definition legacy_ok (o : LegacyOptions) : Prop :=
  0 ≤ lo_force_seconds o ≤ INT_MAX ∧ limits_ok (lo_queue o) ∧ 0 < lo_minimum_disk o ≤ UINT64_MAX.

Lemma capture_option_ok opt value o o' : capture_option opt value o = Ok o' → session_ok o → session_ok o'.
Proof.
  intros Ho (H1 & H2 & H3 & H4 & H5). unfold capture_option in Ho.
  destruct (String.eqb opt "--venue"); [by injection Ho as <-|].
  destruct (String.eqb opt "--instrument"); [by injection Ho as <-|].
  destruct (String.eqb opt "--depth"); apply bind_Ok in Ho as (n & Hn & [= <-]); unfold session_ok; cbn;
    first [apply positive_range in Hn|apply positive_int_range in Hn]; tauto.
Qed.

Lemma limit_option_ok opt value o o' : limit_option opt value o = Ok o' → session_ok o → session_ok o'.
Proof.
  intros Ho (H1 & H2 & [H3 H3'] & H4 & H5). unfold limit_option in Ho.
  destruct (String.eqb opt "--queue-messages"); [|destruct (String.eqb opt "--queue-bytes");
    [|destruct (String.eqb opt "--minimum-free-disk-bytes")]];
    apply bind_Ok in Ho as (n & Hn & [= <-]); unfold session_ok, limits_ok; cbn;
    first [apply positive_range in Hn|apply positive_int_range in Hn]; tauto.
Qed.

Lemma path_option_ok opt value o o' : path_option opt value o = Ok o' → session_ok o → session_ok o'.
Proof.
  unfold path_option. destruct (negb _); [done|]. by destruct (String.eqb opt "--session"); intros [= <-].
Qed.

Lemma session_option_ok replay opt next o o' b :
  session_option replay opt next o = Ok (o', b) → session_ok o → session_ok o'.
Proof.
  assert (∀ r, (x ← r; Ok (x, true)) = Ok (o', b) → r = Ok o') as Hcons.
  { intros r Hr. apply bind_Ok in Hr as (x & -> & [= -> _]). done. }
  unfold session_option. destruct next as [value|].
  - destruct (_ && is_option _ _); [intros Hr%Hcons; by eapply capture_option_ok|].
    destruct (_ && _); [by intros [= <- _]|]. destruct (_ && _); [by intros [= <- _]|].
    destruct (_ || _); [intros Hr%Hcons; by eapply path_option_ok|].
    destruct (_ && _); [intros Hr%Hcons; by eapply limit_option_ok|done].
  - destruct (_ && _); [by intros [= <- _]|]. destruct (_ && _); [by intros [= <- _]|done].
Qed.

Lemma session_options_ok replay arguments o o' :
  session_options replay arguments o = Ok o' → session_ok o → session_ok o'.
Proof.
  assert (∀ n arguments o, (length arguments ≤ n)%nat → session_options replay arguments o = Ok o' →
    session_ok o → session_ok o') as Hall; [|by apply (Hall (length arguments))].
  induction n as [|n IH]; intros [|opt rest] x Hn; cbn [session_options length] in *; try lia; try (by intros [= <-]).
  intros ([y b] & Hy & Hr)%bind_Ok Hx. pose proof (session_option_ok _ _ _ _ _ _ Hy Hx) as Hyok.
  destruct rest as [|value rest]; [by injection Hr as <-|].
  destruct b; (eapply IH; [|exact Hr|done]); cbn in *; lia.
Qed.

Lemma legacy_option_ok opt value o o' : legacy_option opt value o = Ok o' → legacy_ok o → legacy_ok o'.
Proof.
  intros Ho (H1 & [H2 H2'] & H3). unfold legacy_option in Ho.
  destruct (is_option _ _); [destruct (negb _); [done|injection Ho as <-; done]|].
  destruct (String.eqb opt "--queue-messages"); [|destruct (String.eqb opt "--queue-bytes");
    [|destruct (String.eqb opt "--minimum-free-disk-bytes")]].
  1-3: apply bind_Ok in Ho as (n & Hn & [= <-]); apply positive_range in Hn; unfold legacy_ok, limits_ok; cbn; tauto.
  destruct (String.eqb opt "--venue"); [by injection Ho as <-|].
  destruct (String.eqb opt "--instrument"); [by injection Ho as <-|].
  destruct (String.eqb opt _); [|done]. apply bind_Ok in Ho as (n & Hn & [= <-]).
  apply force_value_range in Hn. unfold legacy_ok, limits_ok. cbn. tauto.
Qed.

Lemma legacy_options_ok arguments o o' : legacy_options arguments o = Ok o' → legacy_ok o → legacy_ok o'.
Proof.
  assert (∀ n arguments o, (length arguments ≤ n)%nat → legacy_options arguments o = Ok o' →
    legacy_ok o → legacy_ok o') as Hall; [|by apply (Hall (length arguments))].
  induction n as [|n IH]; intros [|opt [|value rest]] x Hn; cbn [legacy_options length] in *; try lia;
    try (by intros [= <-]); try done.
  intros (y & Hy & Hr)%bind_Ok Hx. eapply IH; [|exact Hr|by eapply legacy_option_ok]. lia.
Qed.

Lemma session_command_ok replay now o c : session_command replay now o = Ok c → session_ok o → command_ok c.
Proof.
  unfold session_command. set (o1 := if _ && _ then _ else o). intros Hc Ho.
  assert (session_ok o1) as Ho1 by (subst o1; by destruct (_ && _)). clearbody o1. clear Ho.
  destruct (_ || _) eqn:Hd; [done|]. apply orb_false_iff in Hd as [Hd Hout]. apply String.eqb_neq in Hd.
  destruct replay; cbn [andb] in Hout.
  - injection Hc as <-. apply String.eqb_neq in Hout. done.
  - destruct (_ && negb (_ && _)); [done|]. destruct (_ && _) eqn:Hk; [done|]. injection Hc as <-.
    destruct Ho1 as (H1 & H2 & H3 & H4 & H5). cbn. do 6 (split; [tauto|]). intros Hv.
    apply andb_false_iff in Hk as [Hk|Hk]; [by apply negb_false_iff, String.eqb_eq in Hk|].
    apply orb_false_iff in Hk as [Hk1%negb_false_iff Hk2%negb_false_iff]. zbool. done.
Qed.

Lemma legacy_command_ok o c : legacy_command o = Ok c → legacy_ok o → command_ok c.
Proof.
  unfold legacy_command. destruct (_ || _) eqn:E; [done|]. intros [= <-] (H1 & H2 & H3).
  rewrite !orb_false_iff in E. destruct E as [[[Hp _] _] _]. apply String.eqb_neq in Hp.
  by destruct (String.eqb (lo_mode o) "replay").
Qed.

(** ** Lemmas: reading arguments back *)

#[local] Arguments positive : simpl never.
#[local] Arguments positive_int : simpl never.
#[local] Arguments force_value : simpl never.
#[local] Arguments to_string : simpl never.

Lemma session_options_value replay opt value rest o o' :
  session_option replay opt (Some value) o = Ok (o', true) →
  session_options replay (opt :: value :: rest) o = session_options replay rest o'.
Proof. intros Ho. cbn [session_options head]. by rewrite Ho. Qed.

Lemma session_options_flag opt rest o o' :
  (∀ next, session_option true opt next o = Ok (o', false)) →
  session_options true (opt :: rest) o = session_options true rest o'.
Proof. intros Ho. cbn [session_options]. rewrite Ho. by destruct rest. Qed.

(** The limits of a capture. *)
Lemma capture_limits q minimum_disk force_seconds o :
  limits_ok q → 0 < minimum_disk ≤ UINT64_MAX → 0 ≤ force_seconds ≤ INT_MAX → so_force_seconds o = 0 →
  session_options false (limit_arguments q minimum_disk force_seconds) o =
  Ok (o <| so_queue := q |> <| so_minimum_disk := minimum_disk |> <| so_force_seconds := force_seconds |>).
Proof.
  intros [H1 H2] H3 H4 Hf. unfold limit_arguments. cbn [app].
  erewrite session_options_value.
  2: { cbn. rewrite positive_to_string by done. reflexivity. }
  erewrite session_options_value.
  2: { cbn. rewrite positive_to_string by done. reflexivity. }
  erewrite session_options_value.
  2: { cbn. rewrite positive_to_string by done. reflexivity. }
  unfold number_argument. destruct (force_seconds =? 0) eqn:E; zbool.
  - cbn. subst. destruct o, q. cbn in *. by subst.
  - erewrite session_options_value; [|cbn; rewrite positive_int_to_string by lia; reflexivity]. by destruct q.
Qed.

Lemma legacy_limits q minimum_disk force_seconds o :
  limits_ok q → 0 < minimum_disk ≤ UINT64_MAX → 0 ≤ force_seconds ≤ INT_MAX → lo_force_seconds o = 0 →
  legacy_options (limit_arguments q minimum_disk force_seconds) o =
  Ok (o <| lo_queue := q |> <| lo_minimum_disk := minimum_disk |> <| lo_force_seconds := force_seconds |>).
Proof.
  intros [H1 H2] H3 H4 Hf. unfold limit_arguments, number_argument.
  destruct (force_seconds =? 0) eqn:E; zbool; cbn; rewrite !positive_to_string by done; cbn.
  - subst. destruct o, q. cbn in *. by subst.
  - rewrite force_to_string by lia. by destruct q.
Qed.

Lemma u64_complement v : 0 < v ≤ UINT64_MAX → u64 (- v) = 2 ^ 64 - v.
Proof. unfold UINT64_MAX, u64. intros Hv. rewrite <-(Z.mod_add _ 1) by lia. rewrite Z.mod_small; lia. Qed.

(** ** Theorems *)

(** C36: the [positive] lambda accepts exactly white space, an optional sign
    and digits that are not zero and fit 64 bits, where the text does not
    start with a minus sign; the value is that of the digits, except that a
    minus sign after white space yields its complement modulo [2^64]. *)
Theorem positive_exact value n :
  positive value = Ok n ↔
  ∃ space sign d, value = space +:+ sign +:+ d ∧ all_space space = true ∧ (sign = "" ∨ sign = "+" ∨ sign = "-")%string ∧
    d ≠ EmptyString ∧ all_digits d = true ∧ 0 < digits_value 0 d ≤ UINT64_MAX ∧
    (sign = "-" → space ≠ EmptyString)%string ∧
    n = if String.eqb sign "-" then 2 ^ 64 - digits_value 0 d else digits_value 0 d.
Proof.
  split.
  - unfold positive. destruct (_ || _) eqn:Ef; [done|]. intros ([m k] & Hs & Hm)%bind_Ok.
    destruct ((m =? 0) || _) eqn:Ez; [done|]. injection Hm as ->. apply orb_false_iff in Ez as [Ez Ek], Ef as [Ene Ef].
    apply negb_false_iff, bool_decide_eq_true in Ek. zbool. unfold stoull in Hs.
    destruct (strto_prefix value) as [[negative d] rest] eqn:Hp. apply strto_prefix_parts in Hp as (Hd & space & sign & Hsp & Hv & Hsign).
    destruct (String.eqb_spec d EmptyString) as [|Hne]; [done|]. destruct (_ >? _) eqn:Eb; [done|].
    rewrite Z.gtb_ltb in Eb. zbool. injection Hs as Hn Hk.
    assert (rest = EmptyString) as ->.
    { destruct rest as [|c rest]; [done|]. exfalso. rewrite <-Hk in Ek. rewrite Hv in Ek.
      rewrite !string_length_app in Ek. cbn in Ek. lia. }
    rewrite string_app_nil in Hv. pose proof (digits_value_bound d Hd) as [Hpos _]. exists space, sign, d.
    assert (0 < digits_value 0 d) as Hpos'.
    { destruct (decide (digits_value 0 d = 0)) as [Hz|]; [|lia]. rewrite Hz in Hn. by destruct negative; cbn in Hn. }
    destruct negative; [subst sign|destruct Hsign as [-> | ->]]; split_and!; auto; try lia; try done.
    + intros _ ->. subst value. by cbn in Ef.
    + rewrite <-Hn. by rewrite u64_complement.
  - intros (space & sign & d & -> & Hsp & Hsign & Hne & Hd & Hb & Hminus & ->).
    assert (front_is_minus (space +:+ sign +:+ d) = false) as Hf.
    { destruct space as [|c space].
      - destruct Hsign as [-> |[-> | ->]]; [|done|by destruct (Hminus eq_refl)]. destruct d as [|c d]; [done|].
        cbn in Hd. apply andb_true_iff in Hd as [Hc _]. destruct (digit_not_space c Hc) as (_ & Hm & _). done.
      - cbn in Hsp |- *. apply andb_true_iff in Hsp as [Hc _]. apply Ascii.eqb_neq. by intros ->. }
    unfold positive, stoull. rewrite Hf, orb_false_r.
    destruct (String.eqb_spec (space +:+ sign +:+ d) EmptyString) as [He|_].
    { exfalso. destruct space; [|done]. destruct Hsign as [-> |[-> | ->]]; [by destruct d|done..]. }
    rewrite (strto_prefix_built space (String.eqb sign "-") sign d); [|done..|].
    2: { destruct Hsign as [-> |[-> | ->]]; cbn; auto. }
    rewrite (proj2 (String.eqb_neq _ _) Hne), Z.gtb_ltb, (proj2 (Z.ltb_ge _ _)) by lia. monad_simpl.
    rewrite bool_decide_true by (cbn; lia). cbn [negb]. rewrite orb_false_r.
    destruct (String.eqb sign "-").
    + assert (u64 (- digits_value 0 d) = 2 ^ 64 - digits_value 0 d) as ->.
      { by apply u64_complement. }
      rewrite (proj2 (Z.eqb_neq _ _)); [done|]. unfold UINT64_MAX in Hb. lia.
    + by rewrite (proj2 (Z.eqb_neq _ _)) by lia.
Qed.

(** The arguments of a capture. *)
Lemma capture_selected c now :
  command_ok (SessionCapture c) → parse_command (command_arguments (SessionCapture c)) now = Ok (SessionCapture c).
Proof.
  destruct c as [venue directory depth duration queue disk force].
  cbn [command_ok cc_venue cc_directory cc_depth cc_duration cc_queue cc_minimum_disk cc_force_seconds].
  intros (Hd%String.eqb_neq & Hdepth & Hdur & Hq & Hdisk & Hforce & Hk).
  set (o1 := default_session_options <| so_directory := directory |> <| so_venue := venue |> <| so_depth := depth |>).
  assert (∀ rest, session_options false
    (["--session"; directory; "--venue"; venue; "--depth"; to_string depth]%string ++ rest) default_session_options =
    session_options false rest o1) as H1.
  { intros rest. cbn [app]. erewrite session_options_value by reflexivity. erewrite session_options_value by reflexivity.
    apply session_options_value. cbn. by rewrite positive_to_string. }
  assert (∀ rest, session_options false (number_argument "--duration-seconds" duration ++ rest) o1 =
    session_options false rest (o1 <| so_duration := duration |>)) as H2.
  { intros rest. unfold number_argument. destruct (duration =? 0) eqn:E; zbool; [by subst|]. cbn [app].
    apply session_options_value. cbn. by rewrite positive_int_to_string by lia. }
  change (parse_command _ now) with
    (o ← session_options false
           (["--session"; directory; "--venue"; venue; "--depth"; to_string depth]%string ++
            number_argument "--duration-seconds" duration ++ limit_arguments queue disk force) default_session_options;
     session_command false now o).
  rewrite H1, H2, capture_limits by done. monad_simpl. unfold session_command. cbn. rewrite Hd. cbn. rewrite Hd. cbn.
  destruct (String.eqb_spec venue "kraken") as [->|Hv]; [done|]. cbn.
  destruct (Hk Hv) as [-> ->]. done.
Qed.

Lemma replay_selected directory output allow final now :
  directory ≠ EmptyString → output ≠ EmptyString →
  parse_command (command_arguments (SessionReplay directory output allow final)) now =
    Ok (SessionReplay directory output allow final).
Proof.
  intros Hd%String.eqb_neq Ho%String.eqb_neq. unfold parse_command, command_arguments, session_command.
  destruct allow, final; cbn; rewrite Hd, Ho; done.
Qed.

Lemma record_selected path force queue disk now :
  command_ok (LegacyRecord path force queue disk) →
  parse_command (command_arguments (LegacyRecord path force queue disk)) now = Ok (LegacyRecord path force queue disk).
Proof.
  cbn [command_ok]. intros (Hp%String.eqb_neq & Hf & Hq & Hdisk).
  change (parse_command _ now) with
    (o ← legacy_options (limit_arguments queue disk force)
           (default_legacy_options <| lo_path := path |> <| lo_mode := "record"%string |>);
     legacy_command o).
  rewrite legacy_limits by done. monad_simpl. unfold legacy_command. cbn. by rewrite Hp.
Qed.

(** C35: whatever the arguments and the clock, a command that [main] selects is
    one it can run: its paths are given, its numbers are positive and fit their
    types, a replay has no forced disconnection, and only a Kraken capture has
    a depth or a duration; and every such command can be asked for: its
    arguments select it. *)
Theorem commands_exact c now :
  (∀ arguments, parse_command arguments now = Ok c → command_ok c) ∧
  (command_ok c → parse_command (command_arguments c) now = Ok c).
Proof.
  split.
  - intros arguments Hc. unfold parse_command in Hc.
    assert (session_ok default_session_options ∧ legacy_ok default_legacy_options) as [Hs Hl] 
      by (vm_compute; split_and!; (reflexivity || discriminate)).
    destruct arguments as [|first rest].
    { apply bind_Ok in Hc as (o & Ho & Hc). apply (legacy_command_ok _ _ Hc). by apply (legacy_options_ok _ _ _ Ho). }
    destruct (_ || _); apply bind_Ok in Hc as (o & Ho & Hc).
    + apply (session_command_ok _ _ _ _ Hc). by apply (session_options_ok _ _ _ _ Ho).
    + apply (legacy_command_ok _ _ Hc). by apply (legacy_options_ok _ _ _ Ho).
  - destruct c as [directory output allow final|c|path|path force queue disk].
    + intros [Hd Ho]. by apply replay_selected.
    + by apply capture_selected.
    + intros Hp%String.eqb_neq. unfold parse_command, command_arguments, legacy_command. cbn. by rewrite Hp.
    + by apply record_selected.
Qed.

(** The value that a sign after white space smuggles in. *)
Example positive_accepts_negative : positive " -5" = Ok 18446744073709551611.
Proof. vm_compute. reflexivity. Qed.

Example ex_commands :
  parse_command ["capture"; "--venue"; "kraken"; "--depth"; "25"; "--session"; "s"]%string 0 =
    Ok (SessionCapture {| cc_venue := "kraken"; cc_directory := "s"; cc_depth := 25; cc_duration := 0;
                          cc_queue := default_queue_config; cc_minimum_disk := default_minimum_disk;
                          cc_force_seconds := 0 |}) ∧
  parse_command ["capture"; "--venue"; "coinbase"; "--depth"; "25"]%string 7 =
    Throw (InvalidArgument "depth and duration require Kraken capture") ∧
  parse_command ["--record"; "f"; "--replay"; "g"]%string 0 =
    Throw (InvalidArgument "choose one recording or replay path") ∧
  parse_command ["replay"; "--session"]%string 0 =
    Throw (InvalidArgument "unknown or missing session option: --session").
Proof. vm_compute. split_and!; reflexivity. Qed.

Lemma commands_exact_witness :
  command_ok (LegacyRecord "f" 5 default_queue_config default_minimum_disk) ∧
  parse_command (command_arguments (LegacyRecord "f" 5 default_queue_config default_minimum_disk)) 0 =
    Ok (LegacyRecord "f" 5 default_queue_config default_minimum_disk).
Proof.
  destruct (commands_exact (LegacyRecord "f" 5 default_queue_config default_minimum_disk) 0) as [Hok Hread].
  assert (command_ok (LegacyRecord "f" 5 default_queue_config default_minimum_disk)) as Hc.
  { apply (Hok ["--record"; "f"; "--force-disconnect-after-seconds"; "5"]%string). vm_compute. reflexivity. }
  exact (conj Hc (Hread Hc)).
Defined.
