(* ===== verification/Statistics.v ===== *)
(** * Benchmark statistics

    [benchmarks::statistics]: the extremes and the nearest-rank percentiles of
    the samples.  The mean, a [long double] computation, is not modelled. *)

From S2P Require Import Prelude.
From stdpp Require Import sorting.

Open Scope Z_scope.

Record Statistics := {
  st_samples : Z;
  min_ns : Z; p50_ns : Z; p95_ns : Z; p99_ns : Z; max_ns : Z;
}.

(** [std::sort] *)
Definition sorted (samples : list Z) : list Z := merge_sort Z.le samples.

(** The rank in the [percentile] lambda. *)
Definition percentile_rank (size percent : Z) : Z :=
  size / 100 * percent + (size mod 100 * percent + 99) / 100.

Definition percentile (samples : list Z) (percent : Z) : Z :=
  let l := sorted samples in
  default 0 (l !! Z.to_nat (percentile_rank (Z.of_nat (length l)) percent - 1)).

Definition statistics (samples : list Z) : Statistics :=
  let s := {| st_samples := Z.of_nat (length samples); min_ns := 0; p50_ns := 0; p95_ns := 0; p99_ns := 0; max_ns := 0 |} in
  match samples with
  | [] => s
  | _ =>
      {| st_samples := Z.of_nat (length samples);
         min_ns := default 0 (head (sorted samples)); p50_ns := percentile samples 50;
         p95_ns := percentile samples 95; p99_ns := percentile samples 99;
         max_ns := default 0 (last (sorted samples)) |}
  end.

(** ** Lemmas *)

Lemma sorted_permutation samples : sorted samples ≡ₚ samples.
Proof. apply merge_sort_Permutation. Qed.

Lemma sorted_order samples i j x y :
  sorted samples !! i = Some x → sorted samples !! j = Some y → (i ≤ j)%nat → x ≤ y.
Proof.
  intros Hx Hy Hij. destruct (decide (i = j)) as [->|Hne]; [simplify_eq; lia|].
  assert (StronglySorted Z.le (sorted samples)) as Hs by (apply StronglySorted_merge_sort; apply _).
  revert i j Hx Hy Hij Hne. induction Hs as [|z l Hs IH Hz]; intros i j Hx Hy Hij Hne; [done|].
  destruct i as [|i], j as [|j]; cbn in *; try lia.
  - injection Hx as ->. rewrite Forall_forall in Hz. by apply Hz, list_elem_of_lookup_2 with j.
  - apply (IH i j); [done|done|lia|lia].
Qed.

(** The rank is the least integer not below the share of the samples. *)
Lemma percentile_rank_ceiling size percent :
  0 < size → 0 < percent ≤ 100 →
  let r := percentile_rank size percent in 1 ≤ r ≤ size ∧ 100 * (r - 1) < size * percent ≤ 100 * r.
Proof. intros Hs Hp. unfold percentile_rank. cbv zeta. Z.div_mod_to_equations. nia. Qed.

(** The elements of a list that satisfy a predicate, by position. *)
Lemma count_prefix (P : Z → Prop) `{!∀ x, Decision (P x)} (l : list Z) (k : nat) :
  (k ≤ length l)%nat → (∀ i x, l !! i = Some x → (i < k)%nat → P x) → (k ≤ length (filter P l))%nat.
Proof.
  revert k. induction l as [|y l IH]; intros k Hk HP; cbn [length] in *; [lia|].
  destruct k as [|k]; [lia|]. rewrite filter_cons, decide_True by (apply (HP 0%nat); [done|lia]). cbn [length].
  apply le_n_S, IH; [lia|]. intros i x Hx Hi. apply (HP (S i)); [done|lia].
Qed.

Lemma count_outside (P : Z → Prop) `{!∀ x, Decision (P x)} (l : list Z) (k : nat) :
  (∀ i x, l !! i = Some x → P x → (i < k)%nat) → (length (filter P l) ≤ k)%nat.
Proof.
  revert k. induction l as [|y l IH]; intros k HP; [cbn; lia|]. rewrite filter_cons. destruct (decide (P y)) as [Hy|Hy].
  - pose proof (HP 0%nat y eq_refl Hy). destruct k as [|k]; [lia|]. cbn [length]. apply le_n_S, IH.
    intros i x Hx Hxp. pose proof (HP (S i) x Hx Hxp). lia.
  - apply IH. intros i x Hx Hxp. pose proof (HP (S i) x Hx Hxp). lia.
Qed.

Lemma extremes samples :
  samples ≠ [] →
  default 0 (head (sorted samples)) ∈ samples ∧ default 0 (last (sorted samples)) ∈ samples ∧
  ∀ x, x ∈ samples → default 0 (head (sorted samples)) ≤ x ≤ default 0 (last (sorted samples)).
Proof.
  intros Hne. pose proof (sorted_permutation samples) as Hperm.
  assert (sorted samples ≠ []) as Hns.
  { intros Hs. apply Hne. rewrite Hs in Hperm. by apply Permutation_nil in Hperm. }
  destruct (sorted samples !! 0%nat) as [a|] eqn:Ha; [|by destruct (sorted samples)].
  destruct (sorted samples !! pred (length (sorted samples))) as [b|] eqn:Hb;
    [|apply lookup_ge_None in Hb; destruct (sorted samples); [done|cbn in Hb; lia]].
  rewrite head_lookup, last_lookup, Ha, Hb.
  change (default 0 (Some a)) with a. change (default 0 (Some b)) with b. split_and!.
  - rewrite <-Hperm. by eapply list_elem_of_lookup_2.
  - rewrite <-Hperm. by eapply list_elem_of_lookup_2.
  - intros x Hx. rewrite <-Hperm in Hx. apply list_elem_of_lookup_1 in Hx as [i Hi].
    pose proof (lookup_lt_Some _ _ _ Hi). split; [apply (sorted_order samples 0 i); [done..|lia]|].
    apply (sorted_order samples i (pred (length (sorted samples)))); [done..|lia].
Qed.

(** ** Theorem *)

(** The percentiles are nearest-rank percentiles: each is one of the
    samples, at least the given share of the samples is at most its value, and
    less than that share is below it; the extremes bound all samples; the
    empty set has zero statistics. *)
Theorem statistics_nearest_rank samples percent :
  0 < percent ≤ 100 → samples ≠ [] →
  let v := percentile samples percent in
  let s := statistics samples in
  let n := Z.of_nat (length samples) in
  v ∈ samples ∧ n * percent ≤ 100 * Z.of_nat (length (filter (λ x, x ≤ v) samples)) ∧
  100 * Z.of_nat (length (filter (λ x, x < v) samples)) < n * percent ∧
  st_samples s = n ∧ (min_ns s ∈ samples ∧ max_ns s ∈ samples ∧ ∀ x, x ∈ samples → min_ns s ≤ x ≤ max_ns s) ∧
  p50_ns s = percentile samples 50 ∧ p95_ns s = percentile samples 95 ∧ p99_ns s = percentile samples 99.
Proof.
  intros Hp Hne. cbv zeta. pose proof (sorted_permutation samples) as Hperm.
  pose proof (Permutation_length Hperm) as Hlen.
  assert (0 < Z.of_nat (length samples)) as Hpos by (destruct samples; [done|cbn; lia]).
  destruct (percentile_rank_ceiling (Z.of_nat (length samples)) percent Hpos Hp) as [Hr Hc].
  set (r := percentile_rank _ percent) in *.
  destruct (lookup_lt_is_Some_2 (sorted samples) (Z.to_nat (r - 1))) as [v Hv]; [lia|].
  assert (percentile samples percent = v) as -> by (unfold percentile; rewrite Hlen; fold r; by rewrite Hv).
  split_and!.
  - rewrite <-Hperm. by eapply list_elem_of_lookup_2.
  - rewrite <-Hperm, Hlen. pose proof (count_prefix (λ x, x ≤ v) (sorted samples) (Z.to_nat r) ltac:(lia)) as Hcount.
    assert (Z.to_nat r ≤ length (filter (λ x, (x ≤ v)%Z) (sorted samples)))%nat; [|lia].
    apply Hcount. intros i x Hx Hi. apply (sorted_order samples i (Z.to_nat (r - 1))); [done..|lia].
  - rewrite <-Hperm, Hlen. assert (length (filter (λ x, (x < v)%Z) (sorted samples)) ≤ Z.to_nat (r - 1))%nat; [|lia].
    apply count_outside. intros i x Hx Hxv. destruct (decide (i < Z.to_nat (r - 1))%nat) as [|Hge]; [done|].
    pose proof (sorted_order samples (Z.to_nat (r - 1)) i v x Hv Hx ltac:(lia)). lia.
  - by destruct samples.
  - destruct (extremes samples Hne) as (H1 & _). by destruct samples.
  - destruct (extremes samples Hne) as (_ & H2 & _). by destruct samples.
  - destruct (extremes samples Hne) as (_ & _ & H3). by destruct samples.
  - by destruct samples.
  - by destruct samples.
  - by destruct samples.
Qed.

Definition ex_samples : list Z := [30; 10; 20; 40; 50; 10].

Example ex_statistics :
  statistics ex_samples = {| st_samples := 6; min_ns := 10; p50_ns := 20; p95_ns := 50; p99_ns := 50; max_ns := 50 |}.
Proof. vm_compute. reflexivity. Qed.

Lemma statistics_nearest_rank_witness :
  percentile ex_samples 50 ∈ ex_samples ∧ max_ns (statistics ex_samples) ∈ ex_samples.
Proof.
  destruct (statistics_nearest_rank ex_samples 50 ltac:(lia) ltac:(discriminate)) as (H1 & _ & _ & _ & (_ & H2 & _) & _).
  exact (conj H1 H2).
Defined.
