(* ===== verification/CoinbaseHandler.v ===== *)
(** * Coinbase message processing

    [CoinbaseMessageProcessor::process], the transition of the market state on
    one recorded envelope, and [CoinbaseMessageHandler::handle], which records
    an envelope through a sink before it is processed.  The stage timers of
    the profiling mode are off. *)

From S2P Require Import Prelude.
From S2P Require Import Text.
From S2P Require Import StdMap.
From S2P Require Import CoreTypes.
From S2P Require Import FixedPoint.
From S2P Require Import SequenceTracker.
From S2P Require Import OrderBook.
From S2P Require Import Json.
From S2P Require Import Timestamps.
From S2P Require Import CoinbaseParser.
From S2P Require Import FeedHealth.
From S2P Require Import RecordingQueue.

Open Scope Z_scope.

(** ** Data *)

Module MessageOutcome.
Inductive t :=
  | BookUpdated | Ignored | Duplicate | OutOfOrder | SequenceGap | ParseError
  | RecordingRejected | ApplyError.
#[global] Instance eq_dec : EqDecision t.
Proof. solve_decision. Defined.
End MessageOutcome.

Definition outcome_name (o : MessageOutcome.t) : string :=
  match o with
  | MessageOutcome.BookUpdated => "BookUpdated"
  | MessageOutcome.Ignored => "Ignored"
  | MessageOutcome.Duplicate => "Duplicate"
  | MessageOutcome.OutOfOrder => "OutOfOrder"
  | MessageOutcome.SequenceGap => "SequenceGap"
  | MessageOutcome.ParseError => "ParseError"
  | MessageOutcome.RecordingRejected => "RecordingRejected"
  | MessageOutcome.ApplyError => "ApplyError"
  end.

Record ProcessResult := {
  outcome : MessageOutcome.t;
  canonical_event_count : nat;
  number_of_changes : nat;
  contains_snapshot : bool;
  latency : option Z;
  snapshots : Z;
  updates : Z;
  pr_error : string;
}.

#[export] Instance ProcessResult_eta : EtaRecord ProcessResult := λ r,
  {| outcome := outcome r; canonical_event_count := canonical_event_count r;
     number_of_changes := number_of_changes r; contains_snapshot := contains_snapshot r;
     latency := latency r; snapshots := snapshots r; updates := updates r;
     pr_error := pr_error r |}.

Definition new_result : ProcessResult :=
  {| outcome := MessageOutcome.Ignored; canonical_event_count := 0; number_of_changes := 0;
     contains_snapshot := false; latency := None; snapshots := 0; updates := 0;
     pr_error := EmptyString |}.

Record RuntimeProgress := {
  last_received_index : option Z;
  last_enqueued_index : option Z;
  last_written_index : option Z;
  last_processed_index : option Z;
}.

#[export] Instance RuntimeProgress_eta : EtaRecord RuntimeProgress := λ p,
  {| last_received_index := last_received_index p; last_enqueued_index := last_enqueued_index p;
     last_written_index := last_written_index p; last_processed_index := last_processed_index p |}.

Definition new_progress : RuntimeProgress :=
  {| last_received_index := None; last_enqueued_index := None; last_written_index := None;
     last_processed_index := None |}.

(** The book, sequence tracker and feed health that the processor refers to. *)
Record Market := {
  book : OrderBook;
  tracker : SequenceTracker;
  health : FeedHealth;
}.

#[export] Instance Market_eta : EtaRecord Market := λ m,
  {| book := book m; tracker := tracker m; health := health m |}.

(** ** The processor *)

(** The [fail] lambda. *)
Definition process_fail (m : Market) (r : ProcessResult) (o : MessageOutcome.t) (error : string)
    : Market * result ProcessResult :=
  (m <| book ::= invalidate |>, Ok (r <| outcome := o |> <| pr_error := error |>)).

(** The loop that counts the levels of the parsed events. *)
Fixpoint count_changes (es : list MarketEvent) (r : ProcessResult) : ProcessResult :=
  match es with
  | [] => r
  | SnapshotEvent s :: rest =>
      count_changes rest
        (r <| contains_snapshot := true |> <| number_of_changes ::= Nat.add (length (levels s)) |>)
  | UpdateEvent u :: rest =>
      count_changes rest (r <| number_of_changes ::= Nat.add (length (changes u)) |>)
  end.

(** The loop that counts the applied events. *)
Fixpoint count_applied (es : list MarketEvent) (r : ProcessResult) : ProcessResult :=
  match es with
  | [] => r
  | SnapshotEvent _ :: rest => count_applied rest (r <| snapshots ::= Z.add 1 |>)
  | UpdateEvent _ :: rest => count_applied rest (r <| updates ::= Z.add 1 |>)
  end.

(** [events.empty() || !holds_alternative<BookSnapshot>(events.front())] *)
Definition no_leading_snapshot (es : list MarketEvent) : bool :=
  match es with [] => true | e :: _ => negb (holds_snapshot e) end.

Section processor.
Context `{JsonLib} (products : Products).

(** From the level 2 branch on; [now] is the clock's reading after the
    transaction. *)
Definition process_l2 (now : ReceiveMonotonicTimestamp) (m : Market) (r : ProcessResult)
    (es : list MarketEvent) (mono : ReceiveMonotonicTimestamp) : Market * result ProcessResult :=
  let m := m <| health ::= λ h, h <| last_l2_message := Some mono |> |> in
  if negb (bool_decide (state_ (book m) = Valid)) && no_leading_snapshot es
  then process_fail m r MessageOutcome.ApplyError "L2 update before snapshot"
  else match es with
       | [] => (m, Ok r)
       | _ =>
           match apply_events (book m) es with
           | (b, false) =>
               process_fail (m <| book := b |>) r MessageOutcome.ApplyError "book rejected event"
           | (b, true) =>
               (m <| book := b |>,
                Ok ((count_applied es r) <| latency := Some (mono_ns now - mono_ns mono) |>
                      <| outcome := MessageOutcome.BookUpdated |>))
           end
       end.

(** From the heartbeat branch on. *)
Definition process_accepted (now : ReceiveMonotonicTimestamp) (m : Market) (r : ProcessResult)
    (parsed : CoinbaseParseResult) (envelope : RawEnvelope) : Market * result ProcessResult :=
  let mono := receive_monotonic_time envelope in
  if heartbeat_channel parsed then
    match parse_heartbeat (payload envelope) (receive_wall_time envelope) mono with
    | Throw e => (m, Throw e)
    | Ok (Some heartbeat) =>
        (m <| health ::= λ h, h <| last_heartbeat := Some (hb_receive_monotonic_time heartbeat) |>
                                <| heartbeat_count ::= incr64 |> |>, Ok r)
    | Ok None => (m, Ok r)
    end
  else if bool_decide (status parsed = Ignored) then (m, Ok r)
  else process_l2 now m r (events parsed) mono.

Definition process (now : ReceiveMonotonicTimestamp) (m : Market) (envelope : RawEnvelope)
    : Market * result ProcessResult :=
  let mono := receive_monotonic_time envelope in
  let m := m <| health ::= λ h, h <| last_any_message := Some mono |> |> in
  match parse products (payload envelope) (receive_wall_time envelope) mono false with
  | Throw e => (m, Throw e)
  | Ok parsed =>
      if bool_decide (status parsed = Error)
      then process_fail m new_result MessageOutcome.ParseError (error parsed)
      else
        let r := count_changes (events parsed)
                   (new_result <| canonical_event_count := length (events parsed) |>) in
        match sequence parsed with
        | None => process_accepted now m r parsed envelope
        | Some n =>
            let '(t, observed) := observe (tracker m) n in
            let m := m <| tracker := t |> in
            match observed with
            | Duplicate =>
                (m <| health ::= λ h, h <| duplicate_sequences ::= incr64 |> |>,
                 Ok (r <| outcome := MessageOutcome.Duplicate |>))
            | OutOfOrder =>
                (m <| health ::= λ h, h <| out_of_order_sequences ::= incr64 |> |>,
                 Ok (r <| outcome := MessageOutcome.OutOfOrder |>))
            | Gap =>
                process_fail (m <| health ::= λ h, h <| sequence_gaps ::= incr64 |> |>) r
                  MessageOutcome.SequenceGap "Coinbase envelope sequence gap"
            | First | Expected => process_accepted now m r parsed envelope
            end
        end
  end.
End processor.

(** ** The handler and its sink *)

(** What the handler relies on: the sink keeps a log to which an accepted
    envelope is appended and which a refused or failed push leaves alone. *)
Class RecordingSink (E : Type) := {
  sink : E → RawEnvelope → E * result PushResult;
  sink_log : E → list RawEnvelope;
  sink_accepts env m env' :
    sink env m = (env', Ok Accepted) → sink_log env' = sink_log env ++ [m];
  sink_refuses env m env' r :
    sink env m = (env', r) → r ≠ Ok Accepted → sink_log env' = sink_log env;
}.

Record Handler := {
  market : Market;
  handler_connection_id : Z;
  progress : RuntimeProgress;
  next_index_ : Z;
}.

#[export] Instance Handler_eta : EtaRecord Handler := λ h,
  {| market := market h; handler_connection_id := handler_connection_id h; progress := progress h;
     next_index_ := next_index_ h |}.

Section handler.
Context `{JsonLib} (products : Products) `{RecordingSink E}.
(** The publish callback reads the market state and updates the environment. *)
Context (publish : ProcessResult → RuntimeProgress → Market → E → E).

(** The [try] block: the handler, the environment and the result or the
    exception that left the block. *)
Definition handle_body (now : ReceiveMonotonicTimestamp) (h : Handler) (env : E)
    (index : Z) (envelope : RawEnvelope) : Handler * E * result ProcessResult :=
  match sink env envelope with
  | (env, Throw e) => (h, env, Throw e)
  | (env, Ok pushed) =>
      if negb (bool_decide (pushed = Accepted)) then
        (h <| market ::= λ m, m <| book ::= invalidate |> |>, env,
         Ok (new_result <| outcome := MessageOutcome.RecordingRejected |>
               <| pr_error := if bool_decide (pushed = Full) then "RAW_RECORDING_QUEUE_FULL"
                              else "RAW_RECORDING_QUEUE_CLOSED" |>))
      else
        let h := h <| progress ::= λ p, p <| last_enqueued_index := Some index |> |> in
        match process products now (market h) envelope with
        | (m, Throw e) => (h <| market := m |>, env, Throw e)
        | (m, Ok r) =>
            (h <| market := m |> <| progress ::= λ p, p <| last_processed_index := Some index |> |>,
             env, Ok r)
        end
  end.

Definition handle (now : ReceiveMonotonicTimestamp) (h : Handler) (env : E) (text : string)
    (wall : ReceiveWallTimestamp) (mono : ReceiveMonotonicTimestamp)
    : Handler * E * ProcessResult :=
  let index := next_index_ h in
  let h := h <| next_index_ := incr64 index |>
             <| progress ::= λ p, p <| last_received_index := Some index |> |> in
  let envelope :=
    {| record_index := index; venue := Coinbase; connection_id := handler_connection_id h;
       receive_wall_time := wall; receive_monotonic_time := mono; payload := text |} in
  let '(h, env, r) :=
    match handle_body now h env index envelope with
    | (h, env, Ok r) => (h, env, r)
    | (h, env, Throw e) =>
        let enqueued := bool_decide (last_enqueued_index (progress h) = Some index) in
        let h := h <| market ::= λ m, m <| book ::= invalidate |> |> in
        (if enqueued then h <| progress ::= λ p, p <| last_processed_index := Some index |> |> else h,
         env,
         new_result
           <| outcome := if enqueued then MessageOutcome.ApplyError
                         else MessageOutcome.RecordingRejected |>
           <| pr_error := what e |>)
    end in
  (h, publish r (progress h) (market h) env, r).
End handler.

(** ** Lemmas: the book after a message *)

Lemma apply_staged_valid b es b' :
  apply_staged b es = Some b' → state_ b = Valid ∨ es ≠ [] → state_ b' = Valid.
Proof.
  revert b. induction es as [|e es IH]; intros b; cbn; [naive_solver|].
  destruct (apply_event b e) as [b1 []] eqn:E; [|done]. intros Hs _. apply (IH b1 Hs). left.
  destruct e as [s|u]; cbn in E; unfold apply_snapshot, apply_update in E;
    repeat split_match; simplify_eq; cbn; [done|].
  by match goal with H : negb (bool_decide _) = false |- _ =>
    apply negb_false_iff, bool_decide_eq_true in H end.
Qed.

Lemma apply_events_valid b es b' :
  book_wf b → apply_events b es = (b', true) → es ≠ [] → state_ b' = Valid.
Proof.
  intros Hwf. rewrite apply_events_sequential by done.
  destruct (apply_staged b es) eqn:E; [|done]. intros [= <-] Hes.
  by apply (apply_staged_valid _ _ _ E); right.
Qed.

Lemma count_changes_keeps es r :
  outcome (count_changes es r) = outcome r ∧ pr_error (count_changes es r) = pr_error r ∧
  snapshots (count_changes es r) = snapshots r.
Proof.
  revert r. induction es as [|[] es IH]; intros r; cbn; [done|..];
    by edestruct IH as (-> & -> & ->).
Qed.

Lemma count_applied_keeps es r :
  pr_error (count_applied es r) = pr_error r.
Proof. revert r. induction es as [|[] es IH]; intros r; cbn; [done|..]; by rewrite IH. Qed.

(** What one processed message does to the book, by outcome. *)
Definition book_effect (b b' : OrderBook) (r : ProcessResult) (es : list MarketEvent) : Prop :=
  match outcome r with
  | MessageOutcome.BookUpdated =>
      pr_error r = EmptyString ∧ es ≠ [] ∧ apply_events b es = (b', true) ∧
      (state_ b = Valid ∨ no_leading_snapshot es = false)
  | MessageOutcome.Ignored | MessageOutcome.Duplicate | MessageOutcome.OutOfOrder =>
      pr_error r = EmptyString ∧ b' = b
  | MessageOutcome.SequenceGap | MessageOutcome.ParseError | MessageOutcome.ApplyError =>
      pr_error r ≠ EmptyString ∧ b' = invalidate b
  | MessageOutcome.RecordingRejected => False
  end.

Definition fresh_result (r : ProcessResult) : Prop :=
  outcome r = MessageOutcome.Ignored ∧ pr_error r = EmptyString.

Lemma apply_events_false b es b' : apply_events b es = (b', false) → b' = b.
Proof. unfold apply_events. intros. repeat split_match; by simplify_eq. Qed.

Section process_lemmas.
Context `{JsonLib} (products : Products).
Implicit Types (m : Market) (r : ProcessResult).

Lemma process_l2_effect now m r es mono m' r' :
  fresh_result r → process_l2 now m r es mono = (m', Ok r') →
  book_effect (book m) (book m') r' es ∧ tracker m' = tracker m.
Proof.
  intros [Ho He]. unfold process_l2. cbn [book field_update].
  destruct (negb _ && _) eqn:Eg; [by intros [= <- <-]|].
  apply andb_false_iff in Eg. destruct es as [|ev es].
  { intros [= <- <-]. unfold book_effect. by rewrite Ho. }
  destruct (apply_events (book m) (ev :: es)) as [b []] eqn:Ea; intros [= <- <-].
  - split; [|done]. unfold book_effect. cbn [outcome field_update book pr_error].
    pose proof (count_applied_keeps (ev :: es) r) as Hk. cbn in Hk. rewrite Hk, He. split_and!; [done..|].
    destruct Eg as [Eg|Eg]; [left|by right].
    by apply negb_false_iff, bool_decide_eq_true in Eg.
  - apply apply_events_false in Ea as ->. done.
Qed.

Lemma process_l2_total now m r es mono : ∃ m' r', process_l2 now m r es mono = (m', Ok r').
Proof. unfold process_l2, process_fail. repeat split_match; eauto. Qed.

Lemma process_accepted_effect now m r parsed e m' r' :
  fresh_result r → process_accepted now m r parsed e = (m', Ok r') →
  book_effect (book m) (book m') r' (events parsed) ∧ tracker m' = tracker m.
Proof.
  intros [Ho He]. unfold process_accepted. destruct (heartbeat_channel parsed).
  - destruct (parse_heartbeat _ _ _) as [[hb|]|]; [..|done]; intros [= <- <-];
      unfold book_effect; by rewrite Ho.
  - case_bool_decide; [intros [= <- <-]; unfold book_effect; by rewrite Ho|].
    by apply process_l2_effect.
Qed.

Lemma process_accepted_throw now m r parsed e m' x :
  process_accepted now m r parsed e = (m', Throw x) → m' = m ∧ heartbeat_channel parsed = true.
Proof.
  unfold process_accepted. destruct (heartbeat_channel parsed).
  - destruct (parse_heartbeat _ _ _) as [[hb|]|]; by intros [= <- <-].
  - case_bool_decide; [done|]. edestruct process_l2_total as (? & ? & ->). done.
Qed.

Lemma count_changes_fresh es n :
  fresh_result (count_changes es (new_result <| canonical_event_count := n |>)).
Proof.
  unfold fresh_result.
  destruct (count_changes_keeps es (new_result <| canonical_event_count := n |>)) as (-> & -> & _).
  done.
Qed.

Lemma process_effect `{!JsonLaws} now m e m' r :
  process products now m e = (m', Ok r) →
  ∃ parsed, parse products (payload e) (receive_wall_time e) (receive_monotonic_time e) false = Ok parsed ∧
    parse_result_ok (receive_wall_time e) (receive_monotonic_time e) parsed ∧
    book_effect (book m) (book m') r (events parsed).
Proof.
  unfold process.
  destruct (parse_Ok products (payload e) (receive_wall_time e) (receive_monotonic_time e) false)
    as (parsed & -> & Hp).
  intros Hr. exists parsed. split_and!; [done..|]. unfold parse_result_ok in Hp.
  case_bool_decide as Hs. { rewrite Hs in Hp. injection Hr as <- <-. by destruct Hp. }
  destruct (count_changes_fresh (events parsed) (length (events parsed))) as [Ho He].
  destruct (sequence parsed) as [n|].
  - destruct (observe _ n) as [t []]; try (injection Hr as <- <-; done);
      apply process_accepted_effect in Hr as [? _]; done.
  - apply process_accepted_effect in Hr as [? _]; done.
Qed.

Lemma process_throw `{!JsonLaws} now m e m' x :
  process products now m e = (m', Throw x) → book m' = book m.
Proof.
  unfold process.
  destruct (parse_Ok products (payload e) (receive_wall_time e) (receive_monotonic_time e) false)
    as (parsed & -> & _).
  case_bool_decide; [done|].
  destruct (sequence parsed) as [n|]; [destruct (observe _ n) as [t []]|]; try done;
    by intros [-> _]%process_accepted_throw.
Qed.
End process_lemmas.

(** ** Lemmas: the handler and the log *)

(** The market after a logged envelope: the processor's transition, with the
    book invalidated when processing threw. *)
Definition record_step `{JsonLib} (products : Products) (m : Market) (e : RawEnvelope) : Market :=
  match process products (receive_monotonic_time e) m e with
  | (m', Ok _) => m'
  | (m', Throw _) => m' <| book ::= invalidate |>
  end.

(** The clock only decides the reported latency. *)
Lemma process_now `{JsonLib} products now now' m e :
  (process products now m e).1 = (process products now' m e).1 ∧
  is_ok (process products now m e).2 = is_ok (process products now' m e).2.
Proof.
  unfold process, process_accepted, process_l2, process_fail. by repeat split_match.
Qed.

Lemma record_step_process `{JsonLib} products now m e :
  record_step products m e =
    match process products now m e with
    | (m', Ok _) => m'
    | (m', Throw _) => m' <| book ::= invalidate |>
    end.
Proof.
  unfold record_step. destruct (process_now products (receive_monotonic_time e) now m e) as [H1 H2].
  destruct (process products (receive_monotonic_time e) m e) as [m1 []],
    (process products now m e) as [m2 []]; cbn in *; congruence.
Qed.

(** Indices already enqueued are below the next one. *)
Definition handler_inv (h : Handler) : Prop :=
  0 ≤ next_index_ h ≤ UINT64_MAX ∧
  ∀ i, last_enqueued_index (progress h) = Some i → i < next_index_ h.

(** The envelope [handle] builds for a message. *)
Definition envelope_of (h : Handler) (text : string) (wall : ReceiveWallTimestamp)
    (mono : ReceiveMonotonicTimestamp) : RawEnvelope :=
  {| record_index := next_index_ h; venue := Coinbase; connection_id := handler_connection_id h;
     receive_wall_time := wall; receive_monotonic_time := mono; payload := text |}.

Section handler_lemmas.
Context `{JsonLaws} (products : Products) `{RecordingSink E}.
Context (publish : ProcessResult → RuntimeProgress → Market → E → E).
Context (publish_log : ∀ r p m env, sink_log (publish r p m env) = sink_log env).

(** The effect of one message on the handler and the log. *)
Record handled (h : Handler) (env : E) (e : RawEnvelope) (h' : Handler) (env' : E)
    (r : ProcessResult) : Prop := {
  handled_index : next_index_ h' = incr64 (next_index_ h);
  handled_received : last_received_index (progress h') = Some (next_index_ h);
  handled_connection : handler_connection_id h' = handler_connection_id h;
  handled_rejected : outcome r = MessageOutcome.RecordingRejected →
    sink_log env' = sink_log env ∧ market h' = (market h) <| book ::= invalidate |> ∧
    last_enqueued_index (progress h') = last_enqueued_index (progress h) ∧
    last_processed_index (progress h') = last_processed_index (progress h);
  handled_accepted : outcome r ≠ MessageOutcome.RecordingRejected →
    sink_log env' = sink_log env ++ [e] ∧ market h' = record_step products (market h) e ∧
    last_enqueued_index (progress h') = Some (next_index_ h) ∧
    last_processed_index (progress h') = Some (next_index_ h);
}.

Lemma process_not_rejected now m e m' r :
  process products now m e = (m', Ok r) → outcome r ≠ MessageOutcome.RecordingRejected.
Proof.
  intros Hp Ho. destruct (process_effect products _ _ _ _ _ Hp) as (p & _ & _ & He).
  unfold book_effect in He. by rewrite Ho in He.
Qed.

Lemma handle_spec now h env text wall mono h' env' r :
  handler_inv h → handle products publish now h env text wall mono = (h', env', r) →
  handled h env (envelope_of h text wall mono) h' env' r.
Proof.
  intros [Hi Hlt] Hh. unfold handle, handle_body in Hh. cbn in Hh.
  fold (envelope_of h text wall mono) in Hh.
  destruct (sink env (envelope_of h text wall mono)) as [env1 [pushed|e]] eqn:Es.
  - case_bool_decide as Hp; cbn in Hh.
    + subst pushed. apply sink_accepts in Es.
      pose proof (record_step_process products now (market h) (envelope_of h text wall mono)) as Hrs.
      destruct (process products now (market h) _) as [m' [r'|e]] eqn:Ep; cbn in Hh.
      * injection Hh as <- <- <-. split; cbn; rewrite ?publish_log, ?Hrs; try done.
        by intros ?%(process_not_rejected _ _ _ _ _ Ep).
      * rewrite bool_decide_true in Hh by done. injection Hh as <- <- <-.
        split; cbn; rewrite ?publish_log, ?Hrs; done.
    + apply sink_refuses in Es; [|congruence]. injection Hh as <- <- <-.
      split; cbn; rewrite ?publish_log; done.
  - apply sink_refuses in Es; [|done]. cbn in Hh.
    rewrite bool_decide_false in Hh by (intros ?%Hlt; lia). injection Hh as <- <- <-.
    split; cbn; rewrite ?publish_log; done.
Qed.

Lemma handled_inv h env e h' env' r :
  handler_inv h → next_index_ h < UINT64_MAX → handled h env e h' env' r → handler_inv h'.
Proof.
  intros [Hi Hlt] Hm Hd. unfold handler_inv. rewrite (handled_index _ _ _ _ _ _ Hd).
  rewrite incr64_small by lia. split; [lia|]. intros i.
  destruct (decide (outcome r = MessageOutcome.RecordingRejected)) as [Ho|Ho].
  - destruct (handled_rejected _ _ _ _ _ _ Hd Ho) as (_ & _ & -> & _). intros ?%Hlt. lia.
  - destruct (handled_accepted _ _ _ _ _ _ Hd Ho) as (_ & _ & -> & _). intros [= <-]. lia.
Qed.

(** A sequence of messages on one handler, each with its clock reading. *)
Inductive handle_run : Handler → E → list ProcessResult → Handler → E → Prop :=
  | handle_run_nil h env : handle_run h env [] h env
  | handle_run_snoc h env rs h1 env1 now text wall mono h2 env2 r :
      handle_run h env rs h1 env1 →
      handle products publish now h1 env1 text wall mono = (h2, env2, r) →
      handle_run h env (rs ++ [r]) h2 env2.

Lemma handle_run_inv h env rs h' env' :
  handler_inv h → handle_run h env rs h' env' → next_index_ h + Z.of_nat (length rs) ≤ UINT64_MAX →
  handler_inv h' ∧ next_index_ h' = next_index_ h + Z.of_nat (length rs).
Proof.
  intros Hi Hr. induction Hr as [|h env rs h1 env1 now text wall mono h2 env2 r _ IH Hh].
  { split; [done|]. cbn. lia. }
  rewrite length_app. cbn. intros Hb. destruct (IH Hi) as [Hi1 Hn]; [lia|].
  apply handle_spec in Hh; [|done]. split; [eapply handled_inv; [done|lia|done]|].
  rewrite (handled_index _ _ _ _ _ _ Hh), incr64_small; [lia|]. destruct Hi1. lia.
Qed.

Lemma handle_run_log h env rs h' env' :
  handler_inv h → handle_run h env rs h' env' → next_index_ h + Z.of_nat (length rs) ≤ UINT64_MAX →
  Forall (λ r, outcome r ≠ MessageOutcome.RecordingRejected) rs →
  ∃ log, sink_log env' = sink_log env ++ log ∧
    market h' = foldl (record_step products) (market h) log ∧
    record_index <$> log = seqZ (next_index_ h) (Z.of_nat (length rs)) ∧
    Forall (λ e, connection_id e = handler_connection_id h) log ∧
    handler_connection_id h' = handler_connection_id h.
Proof.
  intros Hi Hr. induction Hr as [|h env rs h1 env1 now text wall mono h2 env2 r Hrun IH Hh].
  { intros _ _. exists []. by rewrite app_nil_r. }
  rewrite length_app. cbn. intros Hb [Hrs Hlast]%Forall_app.
  destruct (IH Hi) as (log & Hl & Hm & Hx & Hc & Hid); [lia|done|].
  destruct (handle_run_inv _ _ _ _ _ Hi Hrun) as [Hi1 Hn]; [lia|].
  apply handle_spec in Hh; [|done]. rewrite Forall_singleton in Hlast.
  destruct (handled_accepted _ _ _ _ _ _ Hh Hlast) as (Hl2 & Hm2 & _ & _).
  exists (log ++ [envelope_of h1 text wall mono]). split_and!.
  - by rewrite Hl2, Hl, app_assoc.
  - by rewrite foldl_app, Hm2, Hm.
  - rewrite fmap_app, Hx. cbn. rewrite Hn. rewrite Nat2Z.inj_add, seqZ_app by lia. done.
  - apply Forall_app. split; [done|]. by apply Forall_singleton.
  - by rewrite (handled_connection _ _ _ _ _ _ Hh).
Qed.
End handler_lemmas.

(** ** The recording queue as a sink *)

(** The queue with the envelopes the consumer has already taken from it. *)
Record QueueLog := { rq : RawRecordingQueue; taken : list RawEnvelope }.

#[export, refine] Instance queue_sink : RecordingSink QueueLog := {|
  sink env m := let '(q, r) := try_push (rq env) m in ({| rq := q; taken := taken env |}, Ok r);
  sink_log env := taken env ++ messages_ (rq env);
|}.
Proof.
  - intros env m env'. unfold try_push. repeat split_match; intros; simplify_eq. cbn.
    by rewrite app_assoc.
  - intros env m env' r. unfold try_push. repeat split_match; intros; simplify_eq; done.
Defined.

(** ** Theorems *)

(** C26: the effect of a processed message on the book is decided by its
    outcome: an update installs exactly the transaction of the parsed events
    on a book that was valid or receives a snapshot first; a control message,
    duplicate or stale sequence leaves the book unchanged; a parse error, gap
    or rejected update keeps the levels but marks the book invalid and reports
    an error.  When a malformed heartbeat makes the processor throw, the book
    is unchanged. *)
Theorem process_book_effect `{JsonLaws} products now m e :
  match process products now m e with
  | (m', Ok r) =>
      ∃ parsed, parse products (payload e) (receive_wall_time e) (receive_monotonic_time e) false = Ok parsed ∧
        parse_result_ok (receive_wall_time e) (receive_monotonic_time e) parsed ∧
        book_effect (book m) (book m') r (events parsed)
  | (m', Throw _) => book m' = book m
  end.
Proof.
  destruct (process products now m e) as [m' [r|x]] eqn:E.
  - exact (process_effect products _ _ _ _ _ E).
  - exact (process_throw products _ _ _ _ _ E).
Qed.

(** C33: only a fresh snapshot restores a book that is not valid: if a message
    makes the book valid, it is a level 2 message whose first event is a
    snapshot, and until then no price is exposed. *)
Theorem recovery_needs_snapshot `{JsonLaws} products m e :
  state_ (book m) ≠ Valid →
  let m' := record_step products m e in
  best_bid (book m) = None ∧ best_ask (book m) = None ∧
  (state_ (book m') = Valid →
    ∃ parsed s rest, parse products (payload e) (receive_wall_time e) (receive_monotonic_time e) false = Ok parsed ∧
      events parsed = SnapshotEvent s :: rest).
Proof.
  intros Hst. destruct (best_hidden _ Hst) as [-> ->]. split_and!; [done..|].
  unfold record_step. destruct (process products _ m e) as [m' [r|x]] eqn:E; [|done].
  destruct (process_effect products _ _ _ _ _ E) as (parsed & Hp & _ & He). intros Hv.
  unfold book_effect in He. destruct (outcome r);
    try (destruct He as [_ He]; by rewrite He in Hv); [|done].
  destruct He as (_ & _ & _ & [?|Hf]); [done|]. exists parsed.
  destruct (events parsed) as [|[s|u] rest]; [done| |done]. eauto.
Qed.


(** C21: the log determines the market: after any sequence of messages none of
    which was refused, the log has grown by one envelope per message, indexed
    consecutively, and the book, tracker and feed health are those obtained by
    processing the logged envelopes in order, whatever the clock read. *)
Theorem handler_replays_log `{JsonLaws} products `{RecordingSink E}
    (publish : ProcessResult → RuntimeProgress → Market → E → E) h env rs h' env' :
  (∀ r p m env, sink_log (publish r p m env) = sink_log env) →
  handler_inv h → handle_run products publish h env rs h' env' →
  next_index_ h + Z.of_nat (length rs) ≤ UINT64_MAX →
  Forall (λ r, outcome r ≠ MessageOutcome.RecordingRejected) rs →
  ∃ log, sink_log env' = sink_log env ++ log ∧
    market h' = foldl (record_step products) (market h) log ∧
    record_index <$> log = seqZ (next_index_ h) (Z.of_nat (length rs)) ∧
    Forall (λ e, connection_id e = handler_connection_id h) log.
Proof.
  intros Hpub Hi Hr Hb Hrs.
  destruct (handle_run_log products publish Hpub _ _ _ _ _ Hi Hr Hb Hrs) as (log & ? & ? & ? & ? & _).
  eauto.
Qed.

(** ** A concrete handler *)

Definition ex_snapshot_text : EventText :=
  {| et_snapshot := true; et_product := "BTC-USD";
     et_updates := [{| lt_side := Bid; lt_event_time := ex_time; lt_price := "50000.00";
                       lt_quantity := "1" |};
                    {| lt_side := Ask; lt_event_time := ex_time; lt_price := "50001";
                       lt_quantity := "2.5" |}] |}.

(** A heartbeat without events, which the heartbeat parser rejects. *)
Definition ex_bad_heartbeat : json :=
  JObject [("channel", JString "heartbeats"); ("events", JArray []); ("sequence_num", JUnsigned 9)].

Definition ex_lib : JsonLib :=
  table_lib [("snapshot", l2_document ex_time 7 [ex_snapshot_text]);
             ("update", l2_document ex_time 8 [ex_update_text]);
             ("heartbeat", ex_bad_heartbeat)].

Lemma ex_laws : @JsonLaws ex_lib.
Proof. apply table_laws. Qed.

Definition ex_market : Market :=
  {| book := new_book Coinbase BTC_USD; tracker := {| last_ := None |}; health := new_health |}.
Definition ex_handler : Handler :=
  {| market := ex_market; handler_connection_id := 1; progress := new_progress; next_index_ := 0 |}.
Definition ex_env : QueueLog := {| rq := new_queue default_queue_config; taken := [] |}.
Definition ex_publish (r : ProcessResult) (p : RuntimeProgress) (m : Market) (env : QueueLog) := env.

Definition ex_handle (h : Handler) (env : QueueLog) (text : string) : Handler * QueueLog * ProcessResult :=
  @handle ex_lib default_products _ _ ex_publish {| mono_ns := 30 |} h env text
    {| wall_ns := 10 |} {| mono_ns := 20 |}.

Definition ex_after_snapshot := ex_handle ex_handler ex_env "snapshot".
Definition ex_after_update := ex_handle ex_after_snapshot.1.1 ex_after_snapshot.1.2 "update".
Definition ex_after_heartbeat := ex_handle ex_after_update.1.1 ex_after_update.1.2 "heartbeat".

Lemma ex_handler_inv : handler_inv ex_handler.
Proof. split; [cbn; done|done]. Qed.

(** The snapshot and the update are applied; the malformed heartbeat that
    follows invalidates the book and is reported, not thrown. *)
Example ex_handle_outcomes :
  (outcome ex_after_snapshot.2, outcome ex_after_update.2, outcome ex_after_heartbeat.2) =
    (MessageOutcome.BookUpdated, MessageOutcome.BookUpdated, MessageOutcome.ApplyError) ∧
  bids_ (book (market ex_after_update.1.1)) =
    [(MkFixedPoint 5000001, MkFixedPoint 50000000); (MkFixedPoint 5000000, MkFixedPoint 100000000)] ∧
  state_ (book (market ex_after_heartbeat.1.1)) = Invalid.
Proof. by vm_compute. Qed.

Lemma process_book_effect_witness :
  match @process ex_lib default_products {| mono_ns := 30 |} ex_market (ex_raw 0 "snapshot") with
  | (m', Ok r) =>
      ∃ parsed, @parse ex_lib default_products "snapshot" {| wall_ns := 0 |} {| mono_ns := 0 |} false = Ok parsed ∧
        parse_result_ok {| wall_ns := 0 |} {| mono_ns := 0 |} parsed ∧
        book_effect (book ex_market) (book m') r (events parsed)
  | (m', Throw _) => book m' = book ex_market
  end.
Proof.
  exact (@process_book_effect ex_lib ex_laws default_products {| mono_ns := 30 |} ex_market
    (ex_raw 0 "snapshot")).
Defined.

Lemma recovery_needs_snapshot_witness :
  state_ (book (@record_step ex_lib default_products ex_market (ex_raw 0 "snapshot"))) = Valid ∧
  best_bid (book ex_market) = None ∧
  ∃ parsed s rest, @parse ex_lib default_products "snapshot" {| wall_ns := 0 |} {| mono_ns := 0 |} false = Ok parsed ∧
      events parsed = SnapshotEvent s :: rest.
Proof.
  destruct (@recovery_needs_snapshot ex_lib ex_laws default_products ex_market (ex_raw 0 "snapshot")
    ltac:(done)) as (Hb & _ & Hs).
  split; [by vm_compute|]. split; [exact Hb|]. apply Hs. by vm_compute.
Defined.


Lemma ex_run_step rs h env text :
  @handle_run ex_lib default_products _ _ ex_publish ex_handler ex_env rs h env →
  @handle_run ex_lib default_products _ _ ex_publish ex_handler ex_env
    (rs ++ [(ex_handle h env text).2]) (ex_handle h env text).1.1 (ex_handle h env text).1.2.
Proof.
  intros Hr. destruct (ex_handle h env text) as [[h' env'] r] eqn:E.
  exact (@handle_run_snoc ex_lib _ _ _ _ _ _ _ _ _ _ _ _ _ _ _ _ Hr E).
Qed.

Lemma ex_run :
  @handle_run ex_lib default_products _ _ ex_publish ex_handler ex_env
    (([] ++ [ex_after_snapshot.2]) ++ [ex_after_update.2])
    ex_after_update.1.1 ex_after_update.1.2.
Proof. apply ex_run_step, ex_run_step. constructor. Qed.

Lemma handler_replays_log_witness :
  ∃ log, sink_log ex_after_update.1.2 = sink_log ex_env ++ log ∧
    market ex_after_update.1.1 = foldl (@record_step ex_lib default_products) ex_market log ∧
    record_index <$> log = seqZ 0 2 ∧ Forall (λ e, connection_id e = 1) log.
Proof.
  refine (@handler_replays_log ex_lib ex_laws default_products _ _ ex_publish ex_handler ex_env _ _ _
    _ ex_handler_inv ex_run _ _).
  - done.
  - by vm_compute.
  - repeat constructor; by vm_compute.
Defined.
