(* ===== verification/ReceiveTimes.v ===== *)
(** * What the receive times cannot change

    The Coinbase processor stamps events and the feed health with the receive
    times of a message.  Two runs on the same texts with different clocks have
    the same outcomes, books and sequence numbers: what differs is erased by
    [timeless], and every construct of the processor respects the equality of
    what remains. *)

From S2P Require Import Prelude.
From S2P Require Import Text.
From S2P Require Import CoreTypes.
From S2P Require Import SequenceTracker.
From S2P Require Import OrderBook.
From S2P Require Import Json.
From S2P Require Import Timestamps.
From S2P Require Import CoinbaseParser.
From S2P Require Import FeedHealth.
From S2P Require Import RecordingQueue.
From S2P Require Import CoinbaseHandler.

Open Scope Z_scope.

(** ** Erasure of the times *)

Definition no_wall : ReceiveWallTimestamp := {| wall_ns := 0 |}.
Definition no_mono : ReceiveMonotonicTimestamp := {| mono_ns := 0 |}.

Definition timeless (e : MarketEvent) : MarketEvent :=
  match e with
  | SnapshotEvent s =>
      SnapshotEvent (MkSnapshot (snap_venue s) (snap_instrument s) (levels s) (snap_exchange_time s)
                       no_wall no_mono (snap_sequence s))
  | UpdateEvent u =>
      UpdateEvent (MkUpdate (upd_venue u) (upd_instrument u) (changes u) (upd_exchange_time u)
                     no_wall no_mono (upd_sequence u))
  end.

(** A result without its latency, of which only the presence is kept. *)
Definition timeless_result (r : ProcessResult) : ProcessResult := r <| latency ::= fmap (λ _, 0) |>.

Definition timeless_parsed (p : CoinbaseParseResult) : CoinbaseParseResult := p <| events ::= map timeless |>.

Definition result_map {A B} (f : A → B) (r : result A) : result B :=
  match r with Ok a => Ok (f a) | Throw e => Throw e end.

(** ** Lemmas: the book *)

Lemma apply_event_timeless b e : apply_event b (timeless e) = apply_event b e.
Proof. by destruct e. Qed.

Lemma apply_staged_timeless es b : apply_staged b (map timeless es) = apply_staged b es.
Proof.
  revert b. induction es as [|e es IH]; intros b; cbn; [done|]. rewrite apply_event_timeless.
  destruct (apply_event b e) as [b1 []]; [apply IH|done].
Qed.

Lemma stage_events_timeless es v i bids asks :
  stage_events (map timeless es) v i bids asks = stage_events es v i bids asks.
Proof.
  revert bids asks. induction es as [|[s|u] es IH]; intros bids asks; cbn; try done.
  change (stage_update (MkUpdate _ _ _ _ _ _ _) v i bids asks) with (stage_update u v i bids asks).
  destruct (stage_update u v i bids asks) as [[??]|]; [apply IH|done].
Qed.

Lemma apply_events_timeless b es : apply_events b (map timeless es) = apply_events b es.
Proof.
  unfold apply_events. rewrite apply_staged_timeless, stage_events_timeless.
  assert (last (map timeless es) = timeless <$> last es) as -> by apply (fmap_last timeless es).
  assert (existsb holds_snapshot (map timeless es) = existsb holds_snapshot es) as ->
    by (induction es as [|[] es IH]; cbn; [done|done|exact IH]).
  destruct (last es) as [[s|u]|]; done.
Qed.

Lemma same_events_apply b es es' :
  map timeless es = map timeless es' → apply_events b es = apply_events b es'.
Proof. intros He. by rewrite <-(apply_events_timeless b es), He, apply_events_timeless. Qed.

Lemma count_changes_timeless es r : count_changes (map timeless es) r = count_changes es r.
Proof. revert r. induction es as [|[s|u] es IH]; intros r; cbn; [done|apply IH..]. Qed.

Lemma count_applied_timeless es r : count_applied (map timeless es) r = count_applied es r.
Proof. revert r. induction es as [|[s|u] es IH]; intros r; cbn; [done|apply IH..]. Qed.

Lemma no_leading_snapshot_timeless es : no_leading_snapshot (map timeless es) = no_leading_snapshot es.
Proof. by destruct es as [|[]]. Qed.

(** ** Lemmas: the parsers *)

Lemma mapM_same {A B C} (g : B → C) (f f' : A → result B) l :
  (∀ x, result_map g (f x) = result_map g (f' x)) →
  result_map (map g) (mapM f l) = result_map (map g) (mapM f' l).
Proof.
  intros Hf. induction l as [|x l IH]; cbn; [done|]. pose proof (Hf x) as Hx.
  destruct (f x) as [y|e], (f' x) as [y'|e']; cbn in *; simplify_eq; [|done].
  destruct (mapM f l), (mapM f' l); cbn in *; congruence.
Qed.

Section times.
Context `{JsonLib} (products : Products).

Lemma parse_event_times t w m w' m' n j :
  result_map timeless (parse_event products t w m n j) = result_map timeless (parse_event products t w' m' n j).
Proof.
  unfold parse_event. destruct (string_field j "type") as [type|]; cbn; [|done].
  destruct (_ && _); [done|]. destruct (string_field j "product_id") as [product|]; cbn; [|done].
  destruct (lookup_product products product) as [c|]; [|done].
  destruct (at_key j "updates") as [u|]; cbn; [|done]. destruct (get_ref_array u) as [us|]; cbn; [|done].
  destruct (mapM (parse_level c) us) as [ls|]; cbn; [|done]. by destruct (String.eqb type "snapshot").
Qed.

Lemma parse_body_times raw w m w' m' r :
  let '(p, e) := parse_body products raw w m r in
  let '(p', e') := parse_body products raw w' m' r in
  timeless_parsed p = timeless_parsed p' ∧ e = e'.
Proof.
  unfold parse_body. match goal with |- context [match ?x with Ok _ => _ | Throw _ => _ end] => destruct x as [[message channel]|e] end;
    [|done].
  cbv zeta. destruct (parse_sequence _ _) as [seq|e]; [|done]. destruct (negb _); [done|].
  destruct (string_field message "timestamp") as [timestamp|]; cbn -[parse_event]; [|done].
  destruct (coinbase_parse_timestamp timestamp) as [time|]; cbn -[parse_event]; [|done].
  destruct (at_key message "events") as [v|]; cbn -[parse_event]; [|done].
  destruct (get_ref_array v) as [es|]; cbn -[parse_event]; [|done].
  pose proof (mapM_same timeless (parse_event products time w m (default 0 seq))
    (parse_event products time w' m' (default 0 seq)) es (λ x, parse_event_times _ _ _ _ _ _ x)) as Hes.
  destruct (mapM _ es) as [p|e], (mapM _ es) as [p'|e']; cbn in Hes; simplify_eq; [|done].
  unfold timeless_parsed. cbn. by rewrite Hes.
Qed.

Lemma parse_times raw w m w' m' b :
  result_map timeless_parsed (parse products raw w m b) = result_map timeless_parsed (parse products raw w' m' b).
Proof.
  unfold parse. pose proof (parse_body_times raw w m w' m') as Hp.
  match goal with |- context [parse_body products raw w m ?r] => specialize (Hp r) end.
  destruct (parse_body products raw w m _) as [p e], (parse_body products raw w' m' _) as [p' e'].
  destruct Hp as [Hp ->]. destruct e' as [e|]; [|cbn; by rewrite Hp].
  destruct (caught e); [|done]. cbn. f_equal. unfold timeless_parsed in *.
  destruct p, p'. cbn in *. simplify_eq. congruence.
Qed.

Lemma heartbeat_times raw w m w' m' :
  result_map (λ h, bool_decide (is_Some h)) (parse_heartbeat raw w m) =
  result_map (λ h, bool_decide (is_Some h)) (parse_heartbeat raw w' m').
Proof.
  unfold parse_heartbeat. destruct (json_parse raw) as [j|]; cbn -[heartbeat_events]; [|done].
  destruct (value_string j "channel" EmptyString) as [c|]; cbn -[heartbeat_events]; [|done]. destruct (negb _); [done|].
  destruct (at_key j "events") as [[| | | | | |[|e es]|]|]; cbn -[heartbeat_events]; try done.
  by destruct (heartbeat_events (e :: es) None).
Qed.

(** ** Lemmas: the processor *)

(** Markets that differ in their feed health only. *)
Definition same_market (k k' : Market) : Prop := book k = book k' ∧ tracker k = tracker k'.

#[export] Instance same_market_equivalence : Equivalence same_market.
Proof. split; unfold same_market; repeat intros ?; intuition congruence. Qed.

(** Processed alike. *)
Definition same_processed (p p' : Market * result ProcessResult) : Prop :=
  same_market p.1 p'.1 ∧ result_map timeless_result p.2 = result_map timeless_result p'.2.

Lemma process_fail_times k k' r r' o e :
  same_market k k' → timeless_result r = timeless_result r' →
  same_processed (process_fail k r o e) (process_fail k' r' o e).
Proof.
  intros [Hb Ht] Hr. unfold process_fail, same_processed, same_market. cbn. rewrite Hb, Ht. split; [done|].
  f_equal. unfold timeless_result in *. destruct r, r'. cbn in *. simplify_eq. congruence.
Qed.

Lemma process_l2_times now now' k k' r es es' m m' :
  same_market k k' → map timeless es = map timeless es' →
  same_processed (process_l2 now k r es m) (process_l2 now' k' r es' m').
Proof.
  intros [Hb Ht] Hes. unfold process_l2. cbv zeta.
  rewrite <-(no_leading_snapshot_timeless es), <-(no_leading_snapshot_timeless es'), Hes.
  change (book (k <| health ::= _ |>)) with (book k). change (book (k' <| health ::= _ |>)) with (book k'). rewrite Hb.
  destruct (_ && _); [by apply process_fail_times|].
  pose proof (same_events_apply (book k') es es' Hes) as Ha.
  assert (count_applied es r = count_applied es' r) as Hc
    by (by rewrite <-(count_applied_timeless es), Hes, count_applied_timeless).
  destruct es as [|e es], es' as [|e' es']; try done.
  rewrite Ha, Hc. destruct (apply_events (book k') (e' :: es')) as [b []]; [done|by apply process_fail_times].
Qed.

Lemma process_accepted_times now now' k k' r p p' e e' :
  same_market k k' → timeless_parsed p = timeless_parsed p' → payload e = payload e' →
  same_processed (process_accepted now k r p e) (process_accepted now' k' r p' e').
Proof.
  intros Hk Hp He. unfold process_accepted. cbv zeta. rewrite He.
  assert (heartbeat_channel p = heartbeat_channel p' ∧ status p = status p' ∧
          map timeless (events p) = map timeless (events p')) as (-> & -> & Hes).
  { unfold timeless_parsed in Hp. destruct p, p'. cbn in *. by simplify_eq. }
  destruct (heartbeat_channel p').
  - pose proof (heartbeat_times (payload e') (receive_wall_time e) (receive_monotonic_time e)
      (receive_wall_time e') (receive_monotonic_time e')) as Hh.
    destruct (parse_heartbeat _ (receive_wall_time e) _) as [[h|]|x], (parse_heartbeat _ _ _) as [[h'|]|x'];
      cbn in Hh; simplify_eq; done.
  - case_bool_decide; [done|]. by apply process_l2_times.
Qed.

(** The times of a message and of the clock decide the latency and the feed
    health, nothing else. *)
Lemma process_times now now' k k' e e' :
  same_market k k' → payload e = payload e' →
  same_processed (process products now k e) (process products now' k' e').
Proof.
  intros [Hb Ht] He. unfold process. cbv zeta. rewrite He.
  pose proof (parse_times (payload e') (receive_wall_time e) (receive_monotonic_time e)
    (receive_wall_time e') (receive_monotonic_time e') false) as Hp.
  destruct (parse _ _ (receive_wall_time e) _ _) as [p|x], (parse _ _ _ _ _) as [p'|x'];
    cbn [result_map] in Hp; [|done|done|by injection Hp as ->].
  assert (timeless_parsed p = timeless_parsed p') as Hq by congruence. clear Hp.
  assert (status p = status p' ∧ error p = error p' ∧ sequence p = sequence p' ∧
          map timeless (events p) = map timeless (events p')) as (-> & -> & -> & Hes).
  { clear - Hq. unfold timeless_parsed in Hq. destruct p, p'. cbn in *. by simplify_eq. }
  case_bool_decide; [by apply process_fail_times|].
  assert (length (events p) = length (events p')) as ->.
  { apply (f_equal length) in Hes. by rewrite !length_map in Hes. }
  match goal with |- context [count_changes (events p) ?r] =>
    assert (count_changes (events p) r = count_changes (events p') r) as ->
      by (by rewrite <-(count_changes_timeless (events p)), Hes, count_changes_timeless) end.
  destruct (sequence p') as [n|]; [|by apply process_accepted_times]. cbn [tracker field_update]. rewrite Ht.
  destruct (observe (tracker k') n) as [t []]; try (by apply process_fail_times); cycle 2; [by split..|split|split];
    by apply process_accepted_times.
Qed.
End times.
