(* ===== verification/Regex.v ===== *)
(** * Regular expressions

    The fragment of ECMAScript regular expressions the sources match whole
    tokens against ([std::regex_match]): character classes, sequence,
    alternative, star, and the derived [?] and [+].  [matches] is the language
    of an expression; [regex_match] decides it by derivatives. *)

From S2P Require Import Prelude.
From S2P Require Import Text.

Inductive regex :=
  | RNone
  | REmpty
  | RClass (p : ascii → bool)
  | RSeq (r1 r2 : regex)
  | RAlt (r1 r2 : regex)
  | RStar (r : regex).

Definition RChar (c : ascii) : regex := RClass (Ascii.eqb c).
Definition ROpt (r : regex) : regex := RAlt r REmpty.
Definition RPlus (r : regex) : regex := RSeq r (RStar r).

(** ** Matching *)

Fixpoint nullable (r : regex) : bool :=
  match r with
  | RNone | RClass _ => false
  | REmpty | RStar _ => true
  | RSeq r1 r2 => nullable r1 && nullable r2
  | RAlt r1 r2 => nullable r1 || nullable r2
  end.

Fixpoint derivative (r : regex) (c : ascii) : regex :=
  match r with
  | RNone | REmpty => RNone
  | RClass p => if p c then REmpty else RNone
  | RSeq r1 r2 =>
      let d := RSeq (derivative r1 c) r2 in
      if nullable r1 then RAlt d (derivative r2 c) else d
  | RAlt r1 r2 => RAlt (derivative r1 c) (derivative r2 c)
  | RStar r1 => RSeq (derivative r1 c) (RStar r1)
  end.

(** [std::regex_match(token, r)] *)
Fixpoint regex_match (token : string) (r : regex) : bool :=
  match token with
  | EmptyString => nullable r
  | String c rest => regex_match rest (derivative r c)
  end.

(** ** The language of an expression *)

Inductive matches : regex → string → Prop :=
  | m_empty : matches REmpty EmptyString
  | m_class p c : p c = true → matches (RClass p) (String c EmptyString)
  | m_seq r1 r2 s1 s2 : matches r1 s1 → matches r2 s2 → matches (RSeq r1 r2) (s1 +:+ s2)
  | m_left r1 r2 s : matches r1 s → matches (RAlt r1 r2) s
  | m_right r1 r2 s : matches r2 s → matches (RAlt r1 r2) s
  | m_star_nil r : matches (RStar r) EmptyString
  | m_star_cons r s1 s2 : matches r s1 → matches (RStar r) s2 → matches (RStar r) (s1 +:+ s2).

(** Inversion, by the shape of the expression. *)
Lemma matches_inv r s :
  matches r s →
  match r with
  | RNone => False
  | REmpty => s = EmptyString
  | RClass p => ∃ c, s = String c EmptyString ∧ p c = true
  | RSeq r1 r2 => ∃ s1 s2, s = s1 +:+ s2 ∧ matches r1 s1 ∧ matches r2 s2
  | RAlt r1 r2 => matches r1 s ∨ matches r2 s
  | RStar r1 => s = EmptyString ∨ ∃ s1 s2, s = s1 +:+ s2 ∧ matches r1 s1 ∧ matches (RStar r1) s2
  end.
Proof. intros []; eauto 6. Qed.

Lemma app_empty s1 s2 : s1 +:+ s2 = EmptyString → s1 = EmptyString ∧ s2 = EmptyString.
Proof. destruct s1; cbn; [done|discriminate]. Qed.

Lemma nullable_spec r : nullable r = true ↔ matches r EmptyString.
Proof.
  induction r as [| |p|r1 IH1 r2 IH2|r1 IH1 r2 IH2|r IH]; cbn; split; try done; try by constructor.
  - by intros ?%matches_inv.
  - by intros (? & ? & _)%matches_inv.
  - intros [H1 H2]%andb_true_iff. apply (m_seq r1 r2 EmptyString EmptyString); naive_solver.
  - intros (s1 & s2 & [-> ->]%symmetry%app_empty & H1 & H2)%matches_inv. apply andb_true_iff. naive_solver.
  - intros [H|H]%orb_true_iff; [apply m_left|apply m_right]; naive_solver.
  - intros [?|?]%matches_inv; apply orb_true_iff; naive_solver.
Qed.

Lemma star_cons_inv r c s :
  matches (RStar r) (String c s) →
  ∃ s1 s2, s = s1 +:+ s2 ∧ matches r (String c s1) ∧ matches (RStar r) s2.
Proof.
  remember (RStar r) as r' eqn:Hr. remember (String c s) as t eqn:Ht. intros H. revert c s Ht.
  induction H as [| | | | | |r0 s1 s2 H1 _ H2 IH]; intros c' s' Ht; try done.
  injection Hr as ->. destruct s1 as [|a s1]; cbn in Ht; [by apply IH|].
  injection Ht as -> <-. eauto.
Qed.

Lemma seq_cons r1 r2 c s :
  matches (RSeq r1 r2) (String c s) ↔
    (∃ s1 s2, s = s1 +:+ s2 ∧ matches r1 (String c s1) ∧ matches r2 s2) ∨
    (matches r1 EmptyString ∧ matches r2 (String c s)).
Proof.
  split.
  - intros ([|c' s1] & s2 & Heq & H1 & H2)%matches_inv; cbn in Heq; subst; [naive_solver|].
    injection Heq as <- ->. left. eauto.
  - intros [(s1 & s2 & -> & H1 & H2)|[H1 H2]]; [by apply (m_seq _ _ (String c s1))|].
    by apply (m_seq _ _ EmptyString).
Qed.

Lemma derivative_spec r c s : matches (derivative r c) s ↔ matches r (String c s).
Proof.
  revert s. induction r as [| |p|r1 IH1 r2 IH2|r1 IH1 r2 IH2|r IH]; intros s; cbn.
  - split; by intros ?%matches_inv.
  - split; by intros ?%matches_inv.
  - destruct (p c) eqn:E; split.
    + intros ->%matches_inv. by constructor.
    + intros (? & [= -> ->] & _)%matches_inv. constructor.
    + by intros ?%matches_inv.
    + intros (? & [= -> ->] & ?)%matches_inv. congruence.
  - assert (matches (RSeq (derivative r1 c) r2) s ↔
      ∃ s1 s2, s = s1 +:+ s2 ∧ matches r1 (String c s1) ∧ matches r2 s2) as Hd.
    { split.
      - intros (s1 & s2 & -> & H1%IH1 & H2)%matches_inv. eauto.
      - intros (s1 & s2 & -> & H1%IH1 & H2). by constructor. }
    rewrite seq_cons, <-nullable_spec, <-Hd.
    destruct (nullable r1); [|naive_solver]. split.
    + intros [?|?%IH2]%matches_inv; naive_solver.
    + intros [?|[_ ?%IH2]]; [by apply m_left|by apply m_right].
  - split; (intros [?|?]%matches_inv; [apply m_left|apply m_right]; naive_solver).
  - split.
    + intros (s1 & s2 & -> & H1%IH & H2)%matches_inv. by apply (m_star_cons _ (String c s1)).
    + intros (s1 & s2 & -> & H1%IH & H2)%star_cons_inv. by constructor.
Qed.

Lemma regex_match_spec token r : regex_match token r = true ↔ matches r token.
Proof.
  revert r. induction token as [|c s IH]; intros r; cbn; [apply nullable_spec|].
  by rewrite IH, derivative_spec.
Qed.

(** ** Digits *)

Definition RDigits : regex := RPlus (RClass is_digit).

Lemma star_digits s : matches (RStar (RClass is_digit)) s ↔ all_digits s = true.
Proof.
  split.
  - induction s as [|c s IH]; [done|].
    intros (s1 & s2 & -> & (? & [= -> ->] & Hc)%matches_inv & H2)%star_cons_inv.
    cbn in *. by rewrite Hc, IH.
  - induction s as [|c s IH]; cbn; [constructor|]. intros [Hc Hs]%andb_true_iff.
    apply (m_star_cons _ (String c EmptyString)); [by constructor|auto].
Qed.

Lemma plus_digits s : matches RDigits s ↔ s ≠ EmptyString ∧ all_digits s = true.
Proof.
  split.
  - intros (s1 & s2 & -> & (c & -> & Hc)%matches_inv & H2%star_digits)%matches_inv. cbn.
    by rewrite Hc.
  - intros [Hne Hd]. destruct s as [|c s]; [done|]. cbn in Hd. apply andb_true_iff in Hd as [Hc Hs].
    apply (m_seq _ _ (String c EmptyString)); [by constructor|by apply star_digits].
Qed.
