(* ===== verification/KrakenDecimal.v ===== *)
(** * Kraken numeric tokens

    [decimal_token] of the Kraken parser: the grammar of the tokens, written
    with the source's regular expressions, and the expansion of exponent
    notation into a plain decimal without binary floating point. *)

From S2P Require Import Prelude.
From S2P Require Import Text.
From S2P Require Import StdMap.
From S2P Require Import CoreTypes.
From S2P Require Import FixedPoint.
From S2P Require Import Regex.

Open Scope Z_scope.

(** ** Grammars *)

Definition nonzero_digit (c : ascii) : bool := is_digit c && negb (c =? "0")%char.
Definition exponent_mark (c : ascii) : bool := (c =? "e")%char || (c =? "E")%char.
Definition sign_char (c : ascii) : bool := (c =? "+")%char || (c =? "-")%char.

(** The three groups of the source's expression: zero or a digit string
    without leading zero; an optional point with digits; an optional exponent. *)
Definition integer_part : regex :=
  RAlt (RChar "0") (RSeq (RClass nonzero_digit) (RStar (RClass is_digit))).
Definition fraction_part : regex := ROpt (RSeq (RChar ".") RDigits).
Definition exponent_part : regex :=
  ROpt (RSeq (RClass exponent_mark) (RSeq (ROpt (RClass sign_char)) RDigits)).

(** The grammar of nonnegative decimals and that of JSON numbers. *)
Definition decimal_grammar : regex := RSeq integer_part (RSeq fraction_part exponent_part).
Definition number_grammar : regex := RSeq (ROpt (RChar "-")) decimal_grammar.

(** ** Expansion *)

(** [s] is a digit string, [position] the place of the decimal point in it. *)
Definition place_point (s : string) (position : Z) : string :=
  if position <=? 0 then "0." +:+ zeros (Z.to_nat (- position)) +:+ s
  else if position >=? Z.of_nat (String.length s)
  then s +:+ zeros (Z.to_nat (position - Z.of_nat (String.length s)))
  else str_take (Z.to_nat position) s +:+ String "." (str_drop (Z.to_nat position) s).

Definition decimal_token (token : string) : result string :=
  if negb (regex_match token decimal_grammar)
  then Throw (InvalidArgument "invalid nonnegative decimal")
  else
    match find_first exponent_mark token with
    | None => Ok token
    | Some e =>
        exponent ← stoi (str_drop (S e) token);
        if (exponent <? -100) || (exponent >? 100)
        then Throw (InvalidArgument "decimal exponent out of range")
        else
          let s := str_take e token in
          let dot := find_first is_point s in
          let position := Z.of_nat (default (String.length s) dot) + exponent in
          let s := match dot with
                   | Some d => str_take d s +:+ str_drop (S d) s
                   | None => s
                   end in
          Ok (place_point s position)
    end.

(** ** Specification *)

(** An exponent text and its value. *)
Inductive exponent_denotes : string → Z → Prop :=
  | exponent_absent : exponent_denotes EmptyString 0
  | exponent_plain m d :
      exponent_mark m = true → d ≠ EmptyString → all_digits d = true →
      exponent_denotes (String m d) (digits_value 0 d)
  | exponent_signed m (negative : bool) d :
      exponent_mark m = true → d ≠ EmptyString → all_digits d = true →
      exponent_denotes (String m (String (if negative then "-" else "+") d))
        (if negative then - digits_value 0 d else digits_value 0 d).

Definition canonical_integer (ip : string) : Prop :=
  ip = "0" ∨ ∃ c rest, ip = String c rest ∧ nonzero_digit c = true ∧ all_digits rest = true.

Definition with_fraction (fp : string) : string :=
  if String.eqb fp "" then EmptyString else String "." fp.

(** The token [t] has integer digits [ip], fractional digits [fp] and exponent
    [x]: its value is the number [ip fp] times [10^(x - |fp|)]. *)
Definition token_denotes (t ip fp : string) (x : Z) : Prop :=
  ∃ ex, t = ip +:+ (with_fraction fp +:+ ex) ∧ canonical_integer ip ∧ all_digits fp = true ∧
    exponent_denotes ex x.

(** Two decimals are the same rational number, compared at every common scale. *)
Definition same_value (ip fp : string) (x : Z) (ip' fp' : string) : Prop :=
  ∀ k, Z.of_nat (String.length fp) - x ≤ k → Z.of_nat (String.length fp') ≤ k →
    digits_value 0 (ip +:+ fp) * 10 ^ (k + x - Z.of_nat (String.length fp)) =
    digits_value 0 (ip' +:+ fp') * 10 ^ (k - Z.of_nat (String.length fp')).

(** ** Lemmas *)

Lemma canonical_digits ip : canonical_integer ip → ip ≠ EmptyString ∧ all_digits ip = true.
Proof.
  intros [->|(c & rest & -> & Hc & Hr)]; [done|]. split; [done|]. cbn. rewrite Hr.
  unfold nonzero_digit in Hc. by apply andb_true_iff in Hc as [-> _].
Qed.

Lemma integer_part_spec ip : matches integer_part ip ↔ canonical_integer ip.
Proof.
  split.
  - intros [H|H]%matches_inv.
    + apply matches_inv in H as (c & -> & Hc%Ascii.eqb_eq). subst c. by left.
    + apply matches_inv in H as (s1 & s2 & -> & (c & -> & Hc)%matches_inv & H2%star_digits).
      right. cbn. eauto.
  - intros [->|(c & rest & -> & Hc & Hr)].
    + apply m_left. by constructor.
    + apply m_right, (m_seq _ _ (String c EmptyString)); [by constructor|by apply star_digits].
Qed.

Lemma fraction_part_spec s :
  matches fraction_part s ↔ ∃ fp, s = with_fraction fp ∧ all_digits fp = true.
Proof.
  split.
  - intros [H|H]%matches_inv; [|apply matches_inv in H as ->; by exists EmptyString].
    apply matches_inv in H as (s1 & s2 & -> & (c & -> & Hc%Ascii.eqb_eq)%matches_inv & [Hne Hd]%plus_digits).
    subst c.
    exists s2. split; [|done]. unfold with_fraction. by rewrite (proj2 (String.eqb_neq _ _) Hne).
  - intros (fp & -> & Hd). unfold with_fraction. destruct (String.eqb_spec fp "") as [->|Hne].
    + apply m_right. constructor.
    + apply m_left, (m_seq _ _ "."%string); [by constructor|by apply plus_digits].
Qed.

Lemma sign_char_cases c : sign_char c = true → c = (if (c =? "-")%char then "-" else "+")%char.
Proof.
  unfold sign_char. destruct (Ascii.eqb_spec c "-") as [->|]; [done|].
  rewrite orb_false_r. intros Hc%Ascii.eqb_eq. done.
Qed.

Lemma exponent_part_spec s : matches exponent_part s ↔ ∃ x, exponent_denotes s x.
Proof.
  split.
  - intros [H|H]%matches_inv; [|apply matches_inv in H as ->; eauto using exponent_absent].
    apply matches_inv in H as (s1 & s2 & -> & (m & -> & Hm)%matches_inv & H).
    apply matches_inv in H as (sg & d & -> & Hsg & [Hne Hd]%plus_digits).
    apply matches_inv in Hsg as [(c & -> & Hc%sign_char_cases)%matches_inv|Hsg%matches_inv]; [|subst sg]; cbn.
    + rewrite Hc. eexists. by apply exponent_signed.
    + eexists. by apply exponent_plain.
  - intros [x [|m d Hm Hne Hd|m b d Hm Hne Hd]].
    + apply m_right. constructor.
    + apply m_left, (m_seq _ _ (String m EmptyString)); [by constructor|].
      apply (m_seq _ _ EmptyString); [apply m_right; constructor|by apply plus_digits].
    + apply m_left, (m_seq _ _ (String m EmptyString)); [by constructor|].
      apply (m_seq _ _ (String (if b then "-" else "+") EmptyString)); [|by apply plus_digits].
      apply m_left. constructor. by destruct b.
Qed.

Lemma decimal_grammar_spec t :
  regex_match t decimal_grammar = true ↔ ∃ ip fp x, token_denotes t ip fp x.
Proof.
  rewrite regex_match_spec. split.
  - intros (ip & s & -> & Hip%integer_part_spec & H)%matches_inv.
    apply matches_inv in H as (s1 & ex & -> & (fp & -> & Hfp)%fraction_part_spec & [x Hx]%exponent_part_spec).
    exists ip, fp, x, ex. done.
  - intros (ip & fp & x & ex & -> & Hip & Hfp & Hx).
    constructor; [by apply integer_part_spec|].
    constructor; [apply fraction_part_spec|apply exponent_part_spec]; eauto.
Qed.

Lemma digits_zeros n s : digits_value 0 (zeros n +:+ s) = digits_value 0 s.
Proof. by rewrite digits_value_app, zeros_value, Z.mul_0_l. Qed.

Lemma place_point_spec s position :
  s ≠ EmptyString → all_digits s = true →
  ∃ ip' fp', decimal_syntax (place_point s position) ip' fp' ∧
    ∀ k, Z.of_nat (String.length s) - position ≤ k → Z.of_nat (String.length fp') ≤ k →
      digits_value 0 s * 10 ^ (k + position - Z.of_nat (String.length s)) =
      digits_value 0 (ip' +:+ fp') * 10 ^ (k - Z.of_nat (String.length fp')).
Proof.
  intros Hne Hd. unfold place_point. rewrite Z.geb_leb.
  destruct (position <=? 0) eqn:E1; zbool; [|destruct (_ <=? position) eqn:E2; zbool].
  - exists "0"%string, (zeros (Z.to_nat (- position)) +:+ s). split.
    + apply (decimal_fraction "0"); [done|done| |by rewrite all_digits_app, zeros_digits].
      intros [_ ?]%app_empty. done.
    + intros k _ _. change ("0" +:+ ?x) with (zeros 1 +:+ x). rewrite !digits_zeros.
      rewrite string_length_app, zeros_length. do 2 f_equal. lia.
  - exists (s +:+ zeros (Z.to_nat (position - Z.of_nat (String.length s)))), EmptyString. split.
    + constructor; [by intros [? _]%app_empty|]. by rewrite all_digits_app, Hd, zeros_digits.
    + intros k _ Hk. cbn in Hk. rewrite string_app_nil, digits_value_app, zeros_value.
      cbn [String.length]. rewrite <-Z.mul_assoc, <-Z.pow_add_r by lia. do 2 f_equal. lia.
  - set (n := Z.to_nat position). assert (n ≤ String.length s)%nat as Hn by lia.
    pose proof (str_take_drop n s) as Hs. pose proof (str_take_length n s Hn) as Hl.
    assert (String.length (str_drop n s) = String.length s - n)%nat as Hl'.
    { pose proof (f_equal String.length Hs) as Hlen. rewrite string_length_app in Hlen. lia. }
    exists (str_take n s), (str_drop n s). split.
    + rewrite <-Hs, all_digits_app in Hd. apply andb_true_iff in Hd as [Hd1 Hd2].
      constructor; [|done| |done]; intros Heq; rewrite Heq in *; cbn in *; lia.
    + intros k _ _. rewrite Hs, Hl'. do 2 f_equal. lia.
Qed.

Lemma mark_not_digit c : is_digit c = true → exponent_mark c = false.
Proof.
  unfold exponent_mark. intros Hc. destruct (Ascii.eqb_spec c "e") as [->|]; [done|].
  by destruct (Ascii.eqb_spec c "E") as [->|].
Qed.

Lemma mantissa_no_mark ip fp :
  all_digits ip = true → all_digits fp = true → none exponent_mark (ip +:+ with_fraction fp) = true.
Proof.
  intros Hip Hfp. rewrite none_app, (digits_none _ _ mark_not_digit Hip). unfold with_fraction.
  destruct (String.eqb fp ""); [done|]. cbn. by apply digits_none; [apply mark_not_digit|].
Qed.

Lemma str_drop_S s1 c s2 : str_drop (S (String.length s1)) (s1 +:+ String c s2) = s2.
Proof. by induction s1. Qed.

(** Removing the point of a mantissa, and where it was. *)
Lemma mantissa_point ip fp :
  all_digits ip = true → all_digits fp = true →
  let s := ip +:+ with_fraction fp in
  default (String.length s) (find_first is_point s) = String.length ip ∧
  match find_first is_point s with
  | Some d => str_take d s +:+ str_drop (S d) s
  | None => s
  end = ip +:+ fp.
Proof.
  intros Hip Hfp. unfold with_fraction. pose proof (digits_none _ _ digit_not_point Hip) as Hn.
  destruct (String.eqb_spec fp "") as [->|Hne]; cbn zeta.
  - by rewrite string_app_nil, find_first_none.
  - rewrite find_first_app by done. split; [done|]. by rewrite str_take_app, str_drop_S.
Qed.

Lemma exponent_stoi m rest x :
  exponent_denotes (String m rest) x →
  stoi rest = if (x <? -2147483648) || (x >? 2147483647) then Throw (OutOfRange "stoi") else Ok x.
Proof.
  unfold stoi. inversion 1 as [|? ? ? Hne Hd|? b d ? Hne Hd]; subst.
  - rewrite strto_digits by done. by rewrite (proj2 (String.eqb_neq _ _) Hne).
  - rewrite strto_signed by done. rewrite (proj2 (String.eqb_neq _ _) Hne). by destruct b.
Qed.

(** The behaviour on a token of the grammar. *)
Lemma decimal_token_denotes t ip fp x :
  token_denotes t ip fp x →
  if Z.abs x <=? 100
  then ∃ s ip' fp', decimal_token t = Ok s ∧ decimal_syntax s ip' fp' ∧ same_value ip fp x ip' fp'
  else ∃ e, decimal_token t = Throw e.
Proof.
  intros Ht. assert (regex_match t decimal_grammar = true) as Hm by (apply decimal_grammar_spec; eauto).
  destruct Ht as (ex & -> & Hip & Hfp & Hx). destruct (canonical_digits _ Hip) as [Hne Hd].
  unfold decimal_token. rewrite Hm. cbn [negb]. rewrite string_app_assoc in *.
  pose proof (mantissa_no_mark ip fp Hd Hfp) as Hmark. destruct ex as [|m rest].
  { inversion Hx; subst. cbn. rewrite string_app_nil, find_first_none by done.
    eexists _, ip, fp. split; [done|]. split.
    - unfold with_fraction. destruct (String.eqb_spec fp "") as [->|].
      + rewrite string_app_nil. by constructor.
      + by constructor.
    - intros k _ _. do 2 f_equal. lia. }
  assert (exponent_mark m = true) as Hmm by (by inversion Hx).
  rewrite (find_first_app _ _ _ _ Hmark Hmm), str_drop_S, (exponent_stoi _ _ _ Hx).
  destruct ((x <? -2147483648) || (x >? 2147483647)) eqn:Er.
  { rewrite (proj2 (Z.leb_gt _ _)); [by eexists|]. apply orb_true_iff in Er as [Er|Er]; zbool; lia. }
  cbn [mbind result_bind]. destruct ((x <? -100) || (x >? 100)) eqn:Ex.
  { rewrite (proj2 (Z.leb_gt _ _)); [by eexists|]. apply orb_true_iff in Ex as [Ex|Ex]; zbool; lia. }
  zbool. rewrite (proj2 (Z.leb_le _ _)) by lia. rewrite str_take_app.
  destruct (mantissa_point ip fp Hd Hfp) as [-> ->].
  destruct (place_point_spec (ip +:+ fp) (Z.of_nat (String.length ip) + x)) as (ip' & fp' & Hs & Hv).
  { by intros [? _]%app_empty. } { by rewrite all_digits_app, Hd. }
  eexists _, ip', fp'. split_and!; [done|done|]. intros k Hk Hk'.
  rewrite string_length_app in Hv. rewrite <-Hv by lia. do 2 f_equal. lia.
Qed.

Lemma decimal_token_Ok t s :
  decimal_token t = Ok s →
  ∃ ip fp x ip' fp', token_denotes t ip fp x ∧ Z.abs x ≤ 100 ∧ decimal_syntax s ip' fp' ∧
    same_value ip fp x ip' fp'.
Proof.
  intros Ht. destruct (regex_match t decimal_grammar) eqn:Hm.
  2:{ unfold decimal_token in Ht. by rewrite Hm in Ht. }
  apply decimal_grammar_spec in Hm as (ip & fp & x & Hd).
  pose proof (decimal_token_denotes _ _ _ _ Hd) as Hr. destruct (Z.abs x <=? 100) eqn:E; zbool.
  - destruct Hr as (s' & ip' & fp' & Hs' & ? & ?). rewrite Ht in Hs'. injection Hs' as <-. eauto 10.
  - destruct Hr as [e He]. congruence.
Qed.

(** ** Theorems *)

(** C32: expanding a Kraken number token preserves its value exactly.  A token
    is accepted exactly when it is in the nonnegative JSON number grammar with
    an exponent between -100 and 100, and the result is a plain decimal, in
    the grammar of [parse_decimal], denoting the same rational number. *)
Theorem decimal_token_exact t :
  match decimal_token t with
  | Ok s => ∃ ip fp x ip' fp', token_denotes t ip fp x ∧ Z.abs x ≤ 100 ∧
      decimal_syntax s ip' fp' ∧ same_value ip fp x ip' fp'
  | Throw _ => ∀ ip fp x, token_denotes t ip fp x → 100 < Z.abs x
  end.
Proof.
  destruct (decimal_token t) as [s|e] eqn:E; [by apply decimal_token_Ok|].
  intros ip fp x Hd%decimal_token_denotes. destruct (Z.abs x <=? 100) eqn:Ex; zbool; [|done].
  destruct Hd as (? & ? & ? & ? & _). congruence.
Qed.

Example ex_decimal_token :
  map decimal_token ["45283.5"; "1.25E+1"; "12.5e-3"; "5e-8"; "1E2"; "00.1"; "1e101"] =
  [Ok "45283.5"; Ok "12.5"; Ok "0.0125"; Ok "0.00000005"; Ok "100";
   Throw (InvalidArgument "invalid nonnegative decimal");
   Throw (InvalidArgument "decimal exponent out of range")].
Proof. reflexivity. Qed.
