(* ===== verification/KrakenChecksum.v ===== *)
(** * The Kraken checksum book

    [KrakenChecksumBook]: the levels of a Kraken book with the texts they were
    received in, and the CRC-32 over the ten best levels of each side.  The
    CRC engine ([boost::crc_32_type]) is used through the interface [Crc32]. *)

From S2P Require Import Prelude.
From S2P Require Import Text.
From S2P Require Import StdMap.
From S2P Require Import CoreTypes.
From S2P Require Import FixedPoint.
From S2P Require Import OrderBook.
From S2P Require Import Regex.
From S2P Require Import KrakenDecimal.

Open Scope Z_scope.

(** ** Data *)

Record KrakenLevelChange := {
  change_side : Side;
  change_price : PriceTicks;
  change_quantity : QuantityAtoms;
  price_lexeme : string;
  quantity_lexeme : string;
}.

#[export] Instance KrakenLevelChange_eq_dec : EqDecision KrakenLevelChange.
Proof. solve_decision. Defined.

Record KrakenChecksumBook := {
  cb_bids : list (PriceTicks * KrakenLevelChange);
  cb_asks : list (PriceTicks * KrakenLevelChange);
}.

#[export] Instance KrakenChecksumBook_eta : EtaRecord KrakenChecksumBook := λ b,
  {| cb_bids := cb_bids b; cb_asks := cb_asks b |}.

Definition empty_checksum_book : KrakenChecksumBook := {| cb_bids := []; cb_asks := [] |}.

(** ** The CRC engine *)

Class Crc32 := {
  crc_state : Type;
  crc_init : crc_state;
  process_bytes : crc_state → string → crc_state;
  crc_checksum : crc_state → Z;
}.

(** Bytes may be fed to the engine in pieces. *)
Class Crc32Laws `{Crc32} := {
  process_bytes_app st s1 s2 : process_bytes st (s1 +:+ s2) = process_bytes (process_bytes st s1) s2;
  process_bytes_nil st : process_bytes st EmptyString = st;
}.

(** ** Operations *)

Definition checksum_digits (token : string) : result string :=
  s ← decimal_token token;
  let s := str_remove is_point s in
  Ok match find_first (λ c, negb (c =? "0")%char) s with
     | None => EmptyString
     | Some first => str_drop first s
     end.

(** The [update] lambda of [apply]. *)
Definition update_levels (before : PriceTicks → PriceTicks → bool) (c : KrakenLevelChange)
    (levels : list (PriceTicks * KrakenLevelChange)) : list (PriceTicks * KrakenLevelChange) :=
  if raw (change_quantity c) =? 0 then map_erase before (change_price c) levels
  else insert_or_assign before (change_price c) c levels.

(** The consistency check of [apply], evaluated left to right. *)
Definition inconsistent_level (c : KrakenLevelChange) : result bool :=
  if negb (bool_decide (change_side c = Bid)) && negb (bool_decide (change_side c = Ask)) then Ok true
  else if raw (change_price c) =? 0 then Ok true
  else
    pd ← decimal_token (price_lexeme c);
    p ← parse_price pd 2;
    if negb (bool_decide (p = change_price c)) then Ok true
    else
      qd ← decimal_token (quantity_lexeme c);
      q ← parse_quantity qd 8;
      Ok (negb (bool_decide (q = change_quantity c))).

Definition apply_change (b : KrakenChecksumBook) (c : KrakenLevelChange) : result KrakenChecksumBook :=
  bad ← inconsistent_level c;
  if bad : bool then Throw (InvalidArgument "inconsistent Kraken level")
  else Ok match change_side c with
          | Bid => b <| cb_bids ::= update_levels price_greater c |>
          | Ask => b <| cb_asks ::= update_levels price_less c |>
          end.

(** The loop of [replace_snapshot], on the book under construction. *)
Fixpoint replace_loop (cs : list KrakenLevelChange) (seen : gset (Side * PriceTicks))
    (next : KrakenChecksumBook) : result KrakenChecksumBook :=
  match cs with
  | [] => Ok next
  | c :: rest =>
      if (raw (change_quantity c) =? 0) || bool_decide ((change_side c, change_price c) ∈ seen)
      then Throw (InvalidArgument "invalid snapshot level")
      else
        next' ← apply_change next c;
        replace_loop rest ({[(change_side c, change_price c)]} ∪ seen) next'
  end.

Definition replace_snapshot (b : KrakenChecksumBook) (cs : list KrakenLevelChange)
    : result KrakenChecksumBook :=
  replace_loop cs ∅ empty_checksum_book.

(** The loop over the changes of an update. *)
Fixpoint apply_changes (b : KrakenChecksumBook) (cs : list KrakenLevelChange) : result KrakenChecksumBook :=
  match cs with
  | [] => Ok b
  | c :: rest => b' ← apply_change b c; apply_changes b' rest
  end.

(** The [trim] lambda; [fuel] bounds the number of erased levels. *)
Fixpoint trim (fuel depth : nat) (levels : list (PriceTicks * KrakenLevelChange))
    : list (PriceTicks * KrakenLevelChange) :=
  match fuel with
  | O => levels
  | S fuel' => if (depth <? length levels)%nat then trim fuel' depth (erase_last levels) else levels
  end.

Definition truncate (b : KrakenChecksumBook) (depth : nat) : KrakenChecksumBook :=
  b <| cb_bids ::= λ l, trim (length l) depth l |> <| cb_asks ::= λ l, trim (length l) depth l |>.

(** [levels()] *)
Definition book_levels (b : KrakenChecksumBook) : list BookLevel :=
  let append := map (λ pc : PriceTicks * KrakenLevelChange,
    MkLevel (change_side pc.2) pc.1 (change_quantity pc.2)) in
  append (cb_bids b) ++ append (cb_asks b).

Section checksum.
Context `{Crc32}.

(** The [append] lambda: at most ten levels. *)
Fixpoint append_levels (n : nat) (levels : list (PriceTicks * KrakenLevelChange)) (crc : crc_state)
    : result crc_state :=
  match levels with
  | [] => Ok crc
  | (_, c) :: rest =>
      if (n =? 10)%nat then Ok crc
      else
        p ← checksum_digits (price_lexeme c);
        q ← checksum_digits (quantity_lexeme c);
        append_levels (S n) rest (process_bytes crc (p +:+ q))
  end.

Definition checksum (b : KrakenChecksumBook) : result Z :=
  crc ← append_levels 0 (cb_asks b) crc_init;
  crc ← append_levels 0 (cb_bids b) crc;
  Ok (crc_checksum crc).
End checksum.

(** ** Invariant *)

(** A stored level: on its side, at its price, with a positive quantity and
    lexemes that denote exactly its price and quantity. *)
Definition lexemes_ok (c : KrakenLevelChange) : Prop :=
  (∃ pd, decimal_token (price_lexeme c) = Ok pd ∧ parse_price pd 2 = Ok (change_price c)) ∧
  (∃ qd, decimal_token (quantity_lexeme c) = Ok qd ∧ parse_quantity qd 8 = Ok (change_quantity c)).

Definition entry_ok (s : Side) (pc : PriceTicks * KrakenLevelChange) : Prop :=
  change_side pc.2 = s ∧ change_price pc.2 = pc.1 ∧ 0 < raw pc.1 ∧ 0 < raw (change_quantity pc.2) ∧
  lexemes_ok pc.2.

Definition cb_side_wf (s : Side) (m : list (PriceTicks * KrakenLevelChange)) : Prop :=
  ordered (side_before s) m ∧ Forall (entry_ok s) m.

Definition checksum_book_wf (b : KrakenChecksumBook) : Prop :=
  cb_side_wf Bid (cb_bids b) ∧ cb_side_wf Ask (cb_asks b).

(** ** Lemmas *)

Lemma trim_take fuel depth m : (length m ≤ fuel)%nat → trim fuel depth m = take depth m.
Proof.
  revert m. induction fuel as [|fuel IH]; intros m Hm; cbn [trim].
  { destruct m; [by destruct depth|cbn in Hm; lia]. }
  destruct (Nat.ltb_spec depth (length m)) as [Hlt|Hge].
  - unfold erase_last. rewrite IH by (rewrite length_take; lia). rewrite take_take. f_equal. lia.
  - by rewrite take_ge.
Qed.

Lemma truncate_take b depth :
  truncate b depth = {| cb_bids := take depth (cb_bids b); cb_asks := take depth (cb_asks b) |}.
Proof. unfold truncate. cbn. by rewrite !trim_take. Qed.

(** A consistent change, as [apply] accepts it. *)
Definition change_ok (c : KrakenLevelChange) : Prop := raw (change_price c) ≠ 0 ∧ lexemes_ok c.

Lemma inconsistent_level_spec c : inconsistent_level c = Ok false ↔ change_ok c.
Proof.
  unfold inconsistent_level, change_ok, lexemes_ok.
  assert (negb (bool_decide (change_side c = Bid)) && negb (bool_decide (change_side c = Ask)) = false)
    as -> by by destruct (change_side c).
  destruct (raw (change_price c) =? 0) eqn:E; zbool; [naive_solver|]. split.
  - intros (pd & Hpd & (p & Hp & Hr)%bind_Ok)%bind_Ok. case_bool_decide as Hpe; [|done].
    apply bind_Ok in Hr as (qd & Hqd & (q & Hq & [= Hqe%negb_false_iff%bool_decide_eq_true])%bind_Ok).
    subst. eauto 10.
  - intros (_ & (pd & -> & Hp) & (qd & -> & Hq)). cbn [mbind result_bind]. rewrite Hp.
    cbn [mbind result_bind]. rewrite bool_decide_true by done. cbn [negb mbind result_bind].
    rewrite Hq. cbn [mbind result_bind]. by rewrite bool_decide_true.
Qed.

Lemma apply_change_Ok b c b' :
  apply_change b c = Ok b' ↔
    change_ok c ∧
    b' = match change_side c with
         | Bid => b <| cb_bids ::= update_levels price_greater c |>
         | Ask => b <| cb_asks ::= update_levels price_less c |>
         end.
Proof.
  unfold apply_change. rewrite <-inconsistent_level_spec.
  destruct (inconsistent_level c) as [[]|]; cbn; naive_solver.
Qed.

Lemma change_ok_pos c : change_ok c → 0 < raw (change_price c) ∧ 0 ≤ raw (change_quantity c).
Proof.
  intros [Hne [(pd & _ & Hp%parse_price_fixed_ok) (qd & _ & Hq%parse_quantity_fixed_ok)]].
  unfold fixed_ok in *. lia.
Qed.

Lemma update_levels_wf s c m :
  change_side c = s → change_ok c → cb_side_wf s m → cb_side_wf s (update_levels (side_before s) c m).
Proof.
  intros Hs Hc [Ho Hf]. pose proof (change_ok_pos c Hc). unfold update_levels.
  destruct (raw (change_quantity c) =? 0) eqn:E; zbool; split.
  - by apply (erase_ordered _).
  - rewrite Forall_forall in *. intros x Hx%(elem_of_erase _). auto.
  - by apply (insert_ordered _).
  - rewrite Forall_forall in *. intros [p x] Hx. apply (elem_of_insert _) in Hx. destruct Hx as [[-> ->]|Hx]; [|auto].
    destruct Hc as [_ Hc]. repeat split; cbn; try done; try lia; apply Hc.
Qed.

Lemma apply_change_wf b c b' : checksum_book_wf b → apply_change b c = Ok b' → checksum_book_wf b'.
Proof.
  intros [Hb Ha] [Hc ->]%apply_change_Ok. destruct (change_side c) eqn:Hs; split; cbn; try done.
  - by apply (update_levels_wf Bid).
  - by apply (update_levels_wf Ask).
Qed.

Lemma apply_changes_wf b cs b' : checksum_book_wf b → apply_changes b cs = Ok b' → checksum_book_wf b'.
Proof.
  revert b. induction cs as [|c cs IH]; intros b Hwf H; cbn in H; result_inv; [done|].
  eauto using apply_change_wf.
Qed.

Lemma empty_checksum_book_wf : checksum_book_wf empty_checksum_book.
Proof. split; (split; [constructor|constructor]). Qed.

Lemma replace_loop_wf cs seen b b' : checksum_book_wf b → replace_loop cs seen b = Ok b' → checksum_book_wf b'.
Proof.
  revert seen b. induction cs as [|c cs IH]; intros seen b Hwf H; cbn in H; result_inv; [done|].
  split_match; [done|]. result_inv. eauto using apply_change_wf.
Qed.

Lemma replace_snapshot_wf b cs b' : replace_snapshot b cs = Ok b' → checksum_book_wf b'.
Proof. apply replace_loop_wf, empty_checksum_book_wf. Qed.

Lemma truncate_wf b depth : checksum_book_wf b → checksum_book_wf (truncate b depth).
Proof.
  rewrite truncate_take. intros [[Hb Fb] [Ha Fa]].
  split; (split; [by apply (take_ordered _)|by apply Forall_take]).
Qed.
#[export] Hint Resolve apply_change_wf apply_changes_wf replace_snapshot_wf truncate_wf
  empty_checksum_book_wf : arb.

(** ** Lemmas: the checksum *)

(** The digits a level contributes. *)
Definition level_digits (pc : PriceTicks * KrakenLevelChange) : string :=
  match checksum_digits (price_lexeme pc.2), checksum_digits (quantity_lexeme pc.2) with
  | Ok p, Ok q => p +:+ q
  | _, _ => EmptyString
  end.

Fixpoint concat_digits (ls : list (PriceTicks * KrakenLevelChange)) : string :=
  match ls with [] => EmptyString | pc :: rest => level_digits pc +:+ concat_digits rest end.

Lemma checksum_digits_ok t s : decimal_token t = Ok s → is_ok (checksum_digits t) = true.
Proof. unfold checksum_digits. by intros ->. Qed.

Lemma level_digits_ok s pc :
  entry_ok s pc → ∃ p q, checksum_digits (price_lexeme pc.2) = Ok p ∧
    checksum_digits (quantity_lexeme pc.2) = Ok q ∧ level_digits pc = p +:+ q.
Proof.
  intros (_ & _ & _ & _ & (pd & Hp%checksum_digits_ok & _) & (qd & Hq%checksum_digits_ok & _)).
  unfold level_digits. destruct (checksum_digits (price_lexeme pc.2)), (checksum_digits (quantity_lexeme pc.2)); try done.
  eauto.
Qed.

Section checksum_lemmas.
Context `{Crc32Laws}.

Lemma append_levels_spec s n ls crc :
  Forall (entry_ok s) ls → (n ≤ 10)%nat →
  append_levels n ls crc = Ok (process_bytes crc (concat_digits (take (10 - n) ls))).
Proof.
  revert n crc. induction ls as [|[p c] ls IH]; intros n crc Hf Hn; cbn [append_levels].
  { by rewrite take_nil; cbn; rewrite process_bytes_nil. }
  apply Forall_cons in Hf as [Hc Hf]. destruct (Nat.eqb_spec n 10) as [->|Hne].
  { by cbn; rewrite process_bytes_nil. }
  destruct (level_digits_ok _ _ Hc) as (pd & qd & Hp & Hq & Hd). cbn in Hp, Hq.
  rewrite Hp. cbn [mbind result_bind]. rewrite Hq. cbn [mbind result_bind].
  rewrite IH by (done || lia). replace (10 - n)%nat with (S (10 - S n)) by lia.
  cbn [take concat_digits]. by rewrite Hd, (process_bytes_app crc (pd +:+ qd)).
Qed.

Lemma checksum_Ok b :
  checksum_book_wf b →
  checksum b = Ok (crc_checksum (process_bytes crc_init
    (concat_digits (take 10 (cb_asks b)) +:+ concat_digits (take 10 (cb_bids b))))).
Proof.
  intros [[_ Fb] [_ Fa]]. unfold checksum. rewrite (append_levels_spec _ _ _ _ Fa) by lia.
  cbn [mbind result_bind]. rewrite (append_levels_spec _ _ _ _ Fb) by lia. cbn [mbind result_bind].
  by rewrite process_bytes_app.
Qed.
End checksum_lemmas.

(** ** Lemmas: the canonical book *)

(** The price and quantity pairs of a side. *)
Definition side_levels (m : list (PriceTicks * KrakenLevelChange)) : list (PriceTicks * QuantityAtoms) :=
  map (λ pc, (pc.1, change_quantity pc.2)) m.

Lemma side_levels_wf s m : cb_side_wf s m → side_wf (side_before s) (side_levels m).
Proof.
  intros [Ho Hf]. split.
  - unfold side_levels, ordered in *. induction Ho as [|a l _ IH Hall]; cbn; [constructor|].
    apply Forall_cons in Hf as [_ Hf]. constructor; [auto|]. by apply Forall_map.
  - apply Forall_map. eapply Forall_impl; [exact Hf|]. intros pc (_ & _ & ? & ? & _). done.
Qed.

Lemma on_side_levels s s' m :
  Forall (entry_ok s) m →
  on_side s' (map (λ pc, MkLevel (change_side pc.2) pc.1 (change_quantity pc.2)) m) =
    if bool_decide (s = s') then side_levels m else [].
Proof.
  intros Hf. induction Hf as [|pc m (Hs & _) _ IH]; cbn; [by case_bool_decide|].
  unfold on_side in *. cbn. rewrite Hs, IH. by case_bool_decide.
Qed.

Lemma on_side_book_levels b :
  checksum_book_wf b →
  on_side Bid (book_levels b) = side_levels (cb_bids b) ∧ on_side Ask (book_levels b) = side_levels (cb_asks b).
Proof.
  intros [[_ Fb] [_ Fa]]. unfold book_levels. rewrite !on_side_app.
  rewrite (on_side_levels Bid Bid _ Fb), (on_side_levels Bid Ask _ Fb).
  rewrite (on_side_levels Ask Bid _ Fa), (on_side_levels Ask Ask _ Fa).
  split; cbn; by rewrite ?app_nil_r.
Qed.

Lemma book_levels_valid b :
  checksum_book_wf b → forallb (λ l, valid_level l true) (book_levels b) = true.
Proof.
  intros [[_ Fb] [_ Fa]]. unfold book_levels. rewrite forallb_app, andb_true_iff, !forallb_forall.
  rewrite !Forall_forall in *.
  split; intros l (pc & <- & Hin%list_elem_of_In)%in_map_iff; apply valid_level_spec; cbn;
    [apply Fb in Hin|apply Fa in Hin]; destruct Hin as (_ & _ & ? & ? & _); done.
Qed.

(** The canonical snapshot of a checksum book is always accepted and installs
    exactly its levels. *)
Lemma canonical_snapshot b s :
  checksum_book_wf b → snap_venue s = Kraken → snap_instrument s = BTC_USD → levels s = book_levels b →
  apply_snapshot (new_book Kraken BTC_USD) s =
    (MkBook Kraken BTC_USD Valid (side_levels (cb_bids b)) (side_levels (cb_asks b)) (snap_sequence s), true).
Proof.
  intros Hwf Hv Hi Hl. apply apply_snapshot_true. rewrite Hl, Hv, Hi.
  destruct (on_side_book_levels b Hwf) as [-> ->].
  destruct Hwf as [Hb Ha]. pose proof (book_levels_valid b (conj Hb Ha)) as Hval.
  apply side_levels_wf in Hb as [Hb _], Ha as [Ha _]. split_and!; [done..| | |].
  - by apply (ordered_NoDup_keys (before := price_greater)).
  - by apply (ordered_NoDup_keys (before := price_less)).
  - cbn. by rewrite !stage_nil_ordered by (apply _ || done).
Qed.

(** ** Lemmas: changes as finite-map updates *)

(** The price and quantity pairs of the changes of one side, in order. *)
Definition changes_on (s : Side) (cs : list KrakenLevelChange) : list (PriceTicks * QuantityAtoms) :=
  omap (λ c, if bool_decide (change_side c = s) then Some (change_price c, change_quantity c) else None) cs.

Lemma side_levels_insert before `{!Comparator before} c m :
  side_levels (insert_or_assign before (change_price c) c m) =
  insert_or_assign before (change_price c) (change_quantity c) (side_levels m).
Proof.
  unfold side_levels. induction m as [|[p x] m IH]; cbn; [done|].
  destruct (before (change_price c) p); [done|]. destruct (before p (change_price c)); cbn; [|done].
  by rewrite IH.
Qed.

Lemma side_levels_erase before `{!Comparator before} p m :
  side_levels (map_erase before p m) = map_erase before p (side_levels m).
Proof.
  unfold side_levels. induction m as [|[p' x] m IH]; cbn; [done|].
  destruct (same_key before p p'); [done|].
  cbn. by rewrite IH.
Qed.

Lemma update_levels_spec s c m :
  cb_side_wf s m →
  to_gmap (side_levels (update_levels (side_before s) c m)) =
    spec_set (to_gmap (side_levels m)) (change_price c, change_quantity c).
Proof.
  intros Hwf. apply side_levels_wf in Hwf as [Ho _]. unfold update_levels, spec_set. cbn [fst snd].
  destruct (raw (change_quantity c) =? 0).
  - rewrite side_levels_erase by apply _. by rewrite (to_gmap_erase (before := side_before s)).
  - rewrite side_levels_insert by apply _. by rewrite (to_gmap_insert (before := side_before s)).
Qed.

Definition levels_on (s : Side) (b : KrakenChecksumBook) : list (PriceTicks * KrakenLevelChange) :=
  match s with Bid => cb_bids b | Ask => cb_asks b end.

Lemma apply_change_refines b c b' s :
  checksum_book_wf b → apply_change b c = Ok b' →
  to_gmap (side_levels (levels_on s b')) =
    foldl spec_set (to_gmap (side_levels (levels_on s b))) (changes_on s [c]).
Proof.
  intros [Hb Ha] [Hc ->]%apply_change_Ok. unfold changes_on. cbn.
  destruct (change_side c), s; cbn; try done.
  - by apply (update_levels_spec Bid).
  - by apply (update_levels_spec Ask).
Qed.

Lemma changes_on_cons s c cs : changes_on s (c :: cs) = changes_on s [c] ++ changes_on s cs.
Proof. apply (omap_app _ [c]). Qed.

Lemma apply_changes_spec b cs b' s :
  checksum_book_wf b → apply_changes b cs = Ok b' →
  to_gmap (side_levels (levels_on s b')) =
    foldl spec_set (to_gmap (side_levels (levels_on s b))) (changes_on s cs).
Proof.
  revert b. induction cs as [|c cs IH]; intros b Hwf H; cbn [apply_changes] in H; result_inv; [done|].
  rewrite changes_on_cons, foldl_app. erewrite <-apply_change_refines by done.
  eauto using apply_change_wf.
Qed.

(** ** Lemmas: digits *)

Fixpoint no_leading_zero (s : string) : bool :=
  match s with EmptyString => true | String c _ => negb (c =? "0")%char end.

Lemma strip_zeros_spec s :
  all_digits s = true →
  let d := match find_first (λ c, negb (c =? "0")%char) s with
           | None => EmptyString | Some first => str_drop first s end in
  all_digits d = true ∧ no_leading_zero d = true ∧ digits_value 0 d = digits_value 0 s.
Proof.
  induction s as [|c s IH]; [done|]. cbn [all_digits find_first]. intros [Hc Hs]%andb_true_iff.
  destruct (Ascii.eqb_spec c "0") as [->|Hne]; cbn [negb].
  - specialize (IH Hs). cbn zeta in *. destruct (find_first _ s); cbn; exact IH.
  - cbn zeta. cbn [str_drop]. split_and!; [cbn; by rewrite Hc|cbn|done].
    by rewrite (proj2 (Ascii.eqb_neq _ _) Hne).
Qed.

Lemma decimal_remove_point s ip fp : decimal_syntax s ip fp → str_remove is_point s = ip +:+ fp.
Proof.
  intros [ip' Hne Hd|ip' fp' Hne Hd Hnf Hdf].
  - by rewrite string_app_nil, str_remove_none by (by apply digits_none; [apply digit_not_point|]).
  - rewrite str_remove_app. cbn.
    by rewrite !str_remove_none by (by apply digits_none; [apply digit_not_point|]).
Qed.

(** ** The bytewise CRC-32 *)

Fixpoint crc_bits (n : nat) (c : Z) : Z :=
  match n with
  | O => c
  | S n' => crc_bits n' (if Z.testbit c 0 then Z.lxor (Z.shiftr c 1) 3988292384 else Z.shiftr c 1)
  end.

Fixpoint crc_string (c : Z) (s : string) : Z :=
  match s with
  | EmptyString => c
  | String b rest => crc_string (crc_bits 8 (Z.lxor c (Z.of_N (N_of_ascii b)))) rest
  end.

(** An engine for the reflected polynomial 0xEDB88320. *)
Definition bytewise_crc : Crc32 :=
  {| crc_state := Z; crc_init := UINT32_MAX; process_bytes := crc_string;
     crc_checksum c := Z.lxor c UINT32_MAX |}.

Lemma bytewise_crc_laws : @Crc32Laws bytewise_crc.
Proof.
  split; [|done]. intros st s1. revert st. induction s1 as [|c s1 IH]; intros st s2; cbn; [done|].
  apply IH.
Qed.

(** ** Theorems *)

(** The digits hashed for a token are those of its plain decimal expansion
    read as an integer: point removed, leading zeros dropped, the same value;
    a token that has no expansion has no digits either. *)
Theorem checksum_digits_canonical t :
  match decimal_token t with
  | Ok s => ∃ ip fp d, decimal_syntax s ip fp ∧ checksum_digits t = Ok d ∧ all_digits d = true ∧
      no_leading_zero d = true ∧ digits_value 0 d = digits_value 0 (ip +:+ fp)
  | Throw e => checksum_digits t = Throw e
  end.
Proof.
  unfold checksum_digits. destruct (decimal_token t) as [s|e] eqn:E; [|done].
  apply decimal_token_Ok in E as (_ & _ & _ & ip & fp & _ & _ & Hs & _). cbn [mbind result_bind].
  destruct (decimal_syntax_app _ _ _ Hs) as [Hd _].
  rewrite (decimal_remove_point _ _ _ Hs). destruct (strip_zeros_spec _ Hd) as (H1 & H2 & H3). eauto 10.
Qed.

(** The mutations of a checksum book; a throwing operation leaves it as it was. *)
Inductive checksum_op := OpReplace (cs : list KrakenLevelChange) | OpChange (c : KrakenLevelChange)
  | OpTruncate (depth : nat).

Definition run_checksum_op (b : KrakenChecksumBook) (op : checksum_op) : KrakenChecksumBook :=
  match op with
  | OpReplace cs => match replace_snapshot b cs with Ok b' => b' | Throw _ => b end
  | OpChange c => match apply_change b c with Ok b' => b' | Throw _ => b end
  | OpTruncate depth => truncate b depth
  end.

Lemma run_checksum_ops_wf ops b : checksum_book_wf b → checksum_book_wf (foldl run_checksum_op b ops).
Proof.
  revert b. induction ops as [|op ops IH]; intros b Hwf; cbn; [done|]. apply IH.
  destruct op; cbn; [destruct (replace_snapshot b cs) eqn:E|destruct (apply_change b c) eqn:E|];
    eauto with arb.
Qed.

(** Whatever mutations a checksum book has seen, computing its checksum
    never throws, and the result is the CRC-32 of the digits of the ten best
    asks in ascending price order followed by those of the ten best bids in
    descending price order. *)
Theorem checksum_total `{Crc32Laws} ops :
  let b := foldl run_checksum_op empty_checksum_book ops in
  checksum b = Ok (crc_checksum (process_bytes crc_init
      (concat_digits (take 10 (cb_asks b)) +:+ concat_digits (take 10 (cb_bids b))))) ∧
  ordered price_less (cb_asks b) ∧ ordered price_greater (cb_bids b).
Proof.
  cbn zeta. pose proof (run_checksum_ops_wf ops _ empty_checksum_book_wf) as Hwf.
  split; [by apply checksum_Ok|]. destruct Hwf as [[Hb _] [Ha _]]. done.
Qed.


(** ** Concrete instances *)

Definition ex_change (s : Side) (p q : Z) (pl ql : string) : KrakenLevelChange :=
  {| change_side := s; change_price := MkFixedPoint p; change_quantity := MkFixedPoint q;
     price_lexeme := pl; quantity_lexeme := ql |}.

(** The published example book of the exchange. *)
Definition ex_official : list KrakenLevelChange :=
  [ex_change Bid 4528350 10000000 "45283.5" "0.10000000";
   ex_change Bid 4528340 154582015 "45283.4" "1.54582015";
   ex_change Bid 4528210 10000000 "45282.1" "0.10000000";
   ex_change Bid 4528100 10000000 "45281.0" "0.10000000";
   ex_change Bid 4528030 154592586 "45280.3" "1.54592586";
   ex_change Bid 4527900 7990000 "45279.0" "0.07990000";
   ex_change Bid 4527760 3310103 "45277.6" "0.03310103";
   ex_change Bid 4527750 30000000 "45277.5" "0.30000000";
   ex_change Bid 4527730 154602737 "45277.3" "1.54602737";
   ex_change Bid 4527660 15445238 "45276.6" "0.15445238";
   ex_change Ask 4528520 100000 "45285.2" "0.00100000";
   ex_change Ask 4528640 154571953 "45286.4" "1.54571953";
   ex_change Ask 4528660 154571109 "45286.6" "1.54571109";
   ex_change Ask 4528960 154560911 "45289.6" "1.54560911";
   ex_change Ask 4529020 15890660 "45290.2" "0.15890660";
   ex_change Ask 4529180 154553491 "45291.8" "1.54553491";
   ex_change Ask 4529470 4454749 "45294.7" "0.04454749";
   ex_change Ask 4529610 35380000 "45296.1" "0.35380000";
   ex_change Ask 4529750 9945542 "45297.5" "0.09945542";
   ex_change Ask 4529950 18772827 "45299.5" "0.18772827"].

(** Its published checksum, the check value of CRC-32, and independence of the
    order in which the levels are listed. *)
Example ex_official_checksum :
  (replace_snapshot empty_checksum_book ex_official ≫= @checksum bytewise_crc) = Ok 3310070434 ∧
  (replace_snapshot empty_checksum_book (reverse ex_official) ≫= @checksum bytewise_crc) = Ok 3310070434 ∧
  @crc_checksum bytewise_crc (@process_bytes bytewise_crc (@crc_init bytewise_crc) "123456789") = 3421780262.
Proof. vm_compute. done. Qed.

Definition ex_ops : list checksum_op :=
  [OpReplace ex_official; OpChange (ex_change Bid 4528350 0 "45283.5" "0.00000000"); OpTruncate 10].

Lemma checksum_total_witness :
  @checksum bytewise_crc (foldl run_checksum_op empty_checksum_book ex_ops) =
    Ok (@crc_checksum bytewise_crc (@process_bytes bytewise_crc (@crc_init bytewise_crc)
      (concat_digits (take 10 (cb_asks (foldl run_checksum_op empty_checksum_book ex_ops))) +:+
       concat_digits (take 10 (cb_bids (foldl run_checksum_op empty_checksum_book ex_ops)))))).
Proof. exact (proj1 (@checksum_total bytewise_crc bytewise_crc_laws ex_ops)). Defined.

Definition ex_changes : list KrakenLevelChange :=
  [ex_change Bid 4528340 25000000 "45283.4" "0.25"; ex_change Ask 4528520 0 "45285.20" "0e-8"].

Definition ex_changed : KrakenChecksumBook :=
  match apply_changes (foldl run_checksum_op empty_checksum_book ex_ops) ex_changes with
  | Ok b => b | Throw _ => empty_checksum_book end.

