(* ===== verification/KrakenParser.v ===== *)
(** * The Kraken level 2 parser

    [exact_json], which protects the original number tokens of a message
    before decoding, and [KrakenL2Parser::parse].  Number tokens reach the
    message as [["#number", token]] arrays, so that a quoted price is rejected
    and no price passes through binary floating point. *)

From S2P Require Import Prelude.
From S2P Require Import Text.
From S2P Require Import StdMap.
From S2P Require Import CoreTypes.
From S2P Require Import FixedPoint.
From S2P Require Import OrderBook.
From S2P Require Import Json.
From S2P Require Import Timestamps.
From S2P Require Import Regex.
From S2P Require Import KrakenDecimal.
From S2P Require Import KrakenChecksum.

Open Scope Z_scope.

(** ** Data *)

Inductive KrakenBookMessageType := Snapshot | Update.
#[export] Instance KrakenBookMessageType_eq_dec : EqDecision KrakenBookMessageType.
Proof. solve_decision. Defined.

Record KrakenBookMessage := {
  msg_type : KrakenBookMessageType;
  msg_instrument : Instrument;
  msg_changes : list KrakenLevelChange;
  msg_checksum : Z;   (* std::uint32_t *)
  msg_exchange_time : ExchangeTimestamp;
  msg_receive_wall_time : ReceiveWallTimestamp;
  msg_receive_monotonic_time : ReceiveMonotonicTimestamp;
}.

Module ParseKind.
Inductive t := Book | Heartbeat | SubscriptionSuccess | SubscriptionFailure | Ignored | Error.
#[global] Instance eq_dec : EqDecision t.
Proof. solve_decision. Defined.
End ParseKind.

Record KrakenParseResult := {
  kind : ParseKind.t;
  parsed_book : option KrakenBookMessage;
  parse_error : string;
}.

(** ** Symbols and subscription *)

Definition map_symbol (symbol : string) : result Instrument :=
  if negb (String.eqb symbol "BTC/USD")
  then Throw (InvalidArgument "unsupported Kraken symbol") else Ok BTC_USD.

Definition validate_depth (d : Z) : result unit :=
  throw_if (negb (d =? 10) && negb (d =? 25) && negb (d =? 100) && negb (d =? 500) && negb (d =? 1000))
    (InvalidArgument "unsupported Kraken depth").

(** ** Protecting number tokens *)

Definition quote_char : ascii := "034".
Definition backslash : ascii := "092".

(** The rest of a string token: the characters up to and including the closing
    quote, and what follows it. *)
Fixpoint string_tail (s : string) (escaped : bool) : option (string * string) :=
  match s with
  | EmptyString => None
  | String v rest =>
      if negb escaped && (v =? quote_char)%char then Some (String v EmptyString, rest)
      else
        match string_tail rest (negb escaped && (v =? backslash)%char) with
        | Some (body, after) => Some (String v body, after)
        | None => None
        end
  end.

Definition number_start (c : ascii) : bool := (c =? "-")%char || is_digit c.
Definition number_char (c : ascii) : bool :=
  is_digit c || (c =? ".")%char || (c =? "e")%char || (c =? "E")%char || (c =? "+")%char ||
  (c =? "-")%char.

(** The longest prefix of number characters, and the rest. *)
Fixpoint number_tail (s : string) : string * string :=
  match s with
  | EmptyString => (EmptyString, EmptyString)
  | String c rest =>
      if number_char c then let '(t, r) := number_tail rest in (String c t, r) else (EmptyString, s)
  end.

Section parser.
Context `{JsonLib}.

(** [json::array({"#number", token}).dump()] *)
Definition protected_number (token : string) : result string :=
  json_dump (JArray [JString "#number"; JString token]).

(** The scanning loop; the text it builds.  Every iteration consumes a
    character, so the length of the input bounds their number. *)
Fixpoint protect (fuel : nat) (raw : string) : result string :=
  match fuel, raw with
  | O, _ | _, EmptyString => Ok EmptyString
  | S fuel', String c rest =>
      if (c =? quote_char)%char then
        match string_tail rest false with
        | None => Throw (InvalidArgument "unterminated JSON string")
        | Some (body, after) =>
            let token := String c body in
            v ← json_parse token;
            if equals_string v "#number" then Throw (InvalidArgument "reserved numeric tag")
            else out ← protect fuel' after; Ok (token +:+ out)
        end
      else if number_start c then
        let '(body, after) := number_tail rest in
        let token := String c body in
        if negb (regex_match token number_grammar)
        then Throw (InvalidArgument "invalid JSON number")
        else tagged ← protected_number token; out ← protect fuel' after; Ok (tagged +:+ out)
      else out ← protect fuel' rest; Ok (String c out)
  end.

Definition exact_json (raw : string) : result json :=
  out ← protect (String.length raw) raw; json_parse out.

(** [number(j)] *)
Definition number_token (j : json) : result string :=
  match j with
  | JArray [tag; token] =>
      if negb (equals_string tag "#number") || negb (is_string token)
      then Throw (InvalidArgument "expected numeric token")
      else get_string token
  | _ => Throw (InvalidArgument "expected numeric token")
  end.

(** One element of a [bids] or [asks] array. *)
Definition parse_kraken_level (snapshot : bool) (s : Side) (l : json) : result KrakenLevelChange :=
  pj ← at_key l "price"; p ← number_token pj;
  qj ← at_key l "qty"; q ← number_token qj;
  pd ← decimal_token p; price ← parse_price pd 2;
  qd ← decimal_token q; qty ← parse_quantity qd 8;
  if (raw price =? 0) || (snapshot && (raw qty =? 0))
  then Throw (InvalidArgument "zero snapshot level or price")
  else Ok {| change_side := s; change_price := price; change_quantity := qty;
             price_lexeme := p; quantity_lexeme := q |}.

(** The loop body for one side. *)
Definition parse_side (snapshot : bool) (b : json) (s : Side) : result (list KrakenLevelChange) :=
  let key := match s with Bid => "bids" | Ask => "asks" end in
  if negb (contains b key) && negb snapshot then Ok []
  else v ← at_key b key; ls ← get_ref_array v; mapM (parse_kraken_level snapshot s) ls.

Definition parse_checksum (b : json) : result Z :=
  j ← at_key b "checksum";
  text ← number_token j;
  if negb (all_digits text) then Throw (InvalidArgument "invalid checksum")
  else
    crc ← stoull text;
    if crc.1 >? UINT32_MAX then Throw (InvalidArgument "checksum overflow") else Ok crc.1.

(** The book branch of [parse]. *)
Definition parse_book (j : json) (wall : ReceiveWallTimestamp) (mono : ReceiveMonotonicTimestamp)
    : result KrakenBookMessage :=
  tj ← at_key j "type"; type ← get_string tj;
  if negb (String.eqb type "snapshot") && negb (String.eqb type "update")
  then Throw (InvalidArgument "unknown book type")
  else
    let snapshot := String.eqb type "snapshot" in
    data ← at_key j "data";
    match data with
    | JArray [b] =>
        crc ← parse_checksum b;
        sj ← at_key b "symbol"; symbol ← get_string sj; instrument ← map_symbol symbol;
        ts ← at_key b "timestamp"; text ← get_string ts; time ← kraken_parse_timestamp text;
        bids ← parse_side snapshot b Bid;
        asks ← parse_side snapshot b Ask;
        Ok {| msg_type := if snapshot then Snapshot else Update; msg_instrument := instrument;
              msg_changes := bids ++ asks; msg_checksum := crc; msg_exchange_time := time;
              msg_receive_wall_time := wall; msg_receive_monotonic_time := mono |}
    | _ => Throw (InvalidArgument "expected one book")
    end.

(** The subscription acknowledgement branch. *)
Definition parse_subscription (j : json) : result KrakenParseResult :=
  sj ← at_key j "success"; ok ← get_bool sj;
  if ok : bool then
    r ← at_key j "result"; ch ← at_key r "channel";
    if negb (equals_string ch "book")
    then Throw (InvalidArgument "unexpected subscription acknowledgement")
    else
      sym ← at_key r "symbol";
      if negb (equals_string sym "BTC/USD")
      then Throw (InvalidArgument "unexpected subscription acknowledgement")
      else Ok {| kind := ParseKind.SubscriptionSuccess; parsed_book := None; parse_error := EmptyString |}
  else
    e ← value_string j "error" "subscription rejected";
    Ok {| kind := ParseKind.SubscriptionFailure; parsed_book := None; parse_error := e |}.

Definition kraken_parse_body (raw : string) (wall : ReceiveWallTimestamp)
    (mono : ReceiveMonotonicTimestamp) : result KrakenParseResult :=
  j ← exact_json raw;
  if negb (is_object j) then Throw (InvalidArgument "expected object")
  else
    method ← value_string j "method" EmptyString;
    if String.eqb method "subscribe" then parse_subscription j
    else
      cj ← at_key j "channel"; channel ← get_string cj;
      if String.eqb channel "heartbeat"
      then Ok {| kind := ParseKind.Heartbeat; parsed_book := None; parse_error := EmptyString |}
      else if negb (String.eqb channel "book")
      then Ok {| kind := ParseKind.Ignored; parsed_book := None; parse_error := EmptyString |}
      else
        m ← parse_book j wall mono;
        Ok {| kind := ParseKind.Book; parsed_book := Some m; parse_error := EmptyString |}.

(** [KrakenL2Parser::parse]: every [std::exception] becomes an error result. *)
Definition kraken_parse (raw : string) (wall : ReceiveWallTimestamp)
    (mono : ReceiveMonotonicTimestamp) : KrakenParseResult :=
  match kraken_parse_body raw wall mono with
  | Ok r => r
  | Throw e => {| kind := ParseKind.Error; parsed_book := None; parse_error := what e |}
  end.
End parser.

(** ** Lemmas: the scanning loop *)

Lemma string_tail_length s esc body after :
  string_tail s esc = Some (body, after) →
  s = body +:+ after ∧ (String.length after < String.length s)%nat.
Proof.
  revert esc body after. induction s as [|v s IH]; intros esc body after; cbn; [done|].
  destruct (_ && _) eqn:E; [intros [= <- <-]; cbn; auto with lia|].
  destruct (string_tail s _) as [[b a]|] eqn:Es; [|done]. intros [= <- <-].
  apply IH in Es as [-> Hl]. cbn. split; [done|]. cbn in *. lia.
Qed.

Lemma number_tail_app s : s = (number_tail s).1 +:+ (number_tail s).2.
Proof.
  induction s as [|c s IH]; cbn; [done|]. destruct (number_char c); [|done].
  destruct (number_tail s) as [t r]. cbn in *. by rewrite <-IH.
Qed.

Lemma number_tail_length s : (String.length (number_tail s).2 ≤ String.length s)%nat.
Proof. rewrite (number_tail_app s) at 2. rewrite string_length_app. lia. Qed.

(** The length of the input is enough fuel: more does not change the result. *)
Lemma protect_fuel `{JsonLib} n raw :
  (String.length raw ≤ n)%nat → protect n raw = protect (String.length raw) raw.
Proof.
  assert (∀ n1 n2 raw, (String.length raw ≤ n1)%nat → (String.length raw ≤ n2)%nat →
    protect n1 raw = protect n2 raw) as Hgen; [|intros; apply Hgen; lia].
  clear. induction n1 as [|n1 IH]; intros [|n2] raw H1 H2; try (destruct raw; [done|cbn in *; lia]).
  destruct raw as [|c rest]; [done|]. cbn [String.length] in *. cbn [protect].
  destruct (c =? quote_char)%char.
  - destruct (string_tail rest false) as [[body after]|] eqn:Es; [|done].
    apply string_tail_length in Es as [_ Hl]. by rewrite (IH n2 after) by lia.
  - destruct (number_start c); [|by rewrite (IH n2 rest) by lia].
    pose proof (number_tail_length rest). destruct (number_tail rest) as [body after]. cbn in *.
    by rewrite (IH n2 after) by lia.
Qed.

(** ** Lemmas: parsed messages *)

(** What the parser guarantees of a change: positive price, and lexemes that
    denote exactly the price and quantity. *)
Lemma parse_kraken_level_ok snapshot s l c :
  parse_kraken_level snapshot s l = Ok c →
  change_ok c ∧ change_side c = s ∧ (snapshot = true → raw (change_quantity c) ≠ 0).
Proof.
  unfold parse_kraken_level. intros. result_inv. split_match; [done|]. result_inv. cbn. zbool.
  split_and!; [|done|].
  - split; [done|]. split; eauto.
  - intros ->. match goal with Hd : _ ∨ _ |- _ => destruct Hd end; [done|]. by zbool.
Qed.

Lemma parse_side_ok snapshot b s cs :
  parse_side snapshot b s = Ok cs →
  Forall (λ c, change_ok c ∧ change_side c = s ∧ (snapshot = true → raw (change_quantity c) ≠ 0)) cs.
Proof.
  unfold parse_side. intros H. destruct (negb _ && negb _); result_inv; [constructor|].
  eapply mapM_Forall; [|done]. eauto using parse_kraken_level_ok.
Qed.

Definition message_ok (m : KrakenBookMessage) : Prop :=
  msg_instrument m = BTC_USD ∧ 0 ≤ msg_checksum m ≤ UINT32_MAX ∧
  Forall change_ok (msg_changes m) ∧
  (msg_type m = Snapshot → Forall (λ c, raw (change_quantity c) ≠ 0) (msg_changes m)) ∧
  ∃ bids asks, msg_changes m = bids ++ asks ∧
    Forall (λ c, change_side c = Bid) bids ∧ Forall (λ c, change_side c = Ask) asks.

Lemma stoull_nonneg text crc : all_digits text = true → stoull text = Ok crc → 0 ≤ crc.1.
Proof.
  unfold stoull. intros Hd. destruct (String.eqb_spec text "") as [->|Hne]; [done|].
  rewrite strto_digits by done. rewrite (proj2 (String.eqb_neq _ _) Hne). split_match; [done|].
  intros [= <-]. cbn. pose proof (digits_value_ge 0 text ltac:(lia) Hd). lia.
Qed.

Lemma parse_checksum_range b crc : parse_checksum b = Ok crc → 0 ≤ crc ≤ UINT32_MAX.
Proof.
  unfold parse_checksum. intros. result_inv. split_match; [done|]. result_inv. split_match; [done|].
  result_inv. zbool. split; [|done]. by eapply stoull_nonneg.
Qed.

Lemma parse_book_ok j wall mono m :
  parse_book j wall mono = Ok m →
  message_ok m ∧ msg_receive_wall_time m = wall ∧ msg_receive_monotonic_time m = mono.
Proof.
  unfold parse_book. intros Hp. result_inv. destruct (negb _ && negb _); [done|]. result_inv.
  match type of Hp with match ?d with _ => _ end = _ => destruct d as [| | | | | |[|b [|? ?]]|]; try done end.
  result_inv. split; [|done].
  repeat match goal with
  | Hs : parse_side _ _ _ = Ok _ |- _ => apply parse_side_ok in Hs
  | Hc : parse_checksum _ = Ok _ |- _ => apply parse_checksum_range in Hc
  end.
  unfold message_ok. cbn [msg_instrument msg_checksum msg_changes msg_type]. rewrite Forall_app.
  split_and!; try done; try lia.
  - match goal with Hm : map_symbol _ = Ok ?i |- _ => by destruct i end.
  - eapply Forall_impl; [eassumption|]. naive_solver.
  - eapply Forall_impl; [eassumption|]. naive_solver.
  - intros Ht. rewrite Forall_app. destruct (String.eqb _ "snapshot"); [|done].
    split; (eapply Forall_impl; [eassumption|]); naive_solver.
  - eexists _, _. split; [done|]. split; (eapply Forall_impl; [eassumption|]); naive_solver.
Qed.

(** The shape of a parse result. *)
Definition kraken_result_ok (wall : ReceiveWallTimestamp) (mono : ReceiveMonotonicTimestamp)
    (r : KrakenParseResult) : Prop :=
  match kind r with
  | ParseKind.Book => parse_error r = EmptyString ∧ ∃ m, parsed_book r = Some m ∧ message_ok m ∧
      msg_receive_wall_time m = wall ∧ msg_receive_monotonic_time m = mono
  | ParseKind.SubscriptionFailure | ParseKind.Error => parsed_book r = None
  | _ => parsed_book r = None ∧ parse_error r = EmptyString
  end.

Lemma kraken_parse_ok `{JsonLib} raw wall mono : kraken_result_ok wall mono (kraken_parse raw wall mono).
Proof.
  unfold kraken_parse. destruct (kraken_parse_body raw wall mono) as [r|e] eqn:E; [|done].
  unfold kraken_parse_body, parse_subscription in E.
  repeat (result_inv; try split_match); result_inv; try done.
  split; [done|]. eexists. split; [done|]. eapply parse_book_ok. eassumption.
Qed.

(** ** Theorems *)

(** Every result of the Kraken parser is well shaped: only a book message
    carries a book, and then its instrument is the supported one, its
    checksum is a 32-bit value, bids precede asks, every price is positive,
    every snapshot quantity is positive, and the recorded lexeme of every
    number denotes exactly the parsed price or quantity. *)
Theorem kraken_parse_outcomes `{JsonLib} raw wall mono :
  kraken_result_ok wall mono (kraken_parse raw wall mono).
Proof. apply kraken_parse_ok. Qed.
