(* ===== verification/KrakenProcessor.v ===== *)
(** * The Kraken book processor

    [KrakenBookProcessor]: a state machine over the messages of a connection.
    A message changes the book only as a whole: the changes are applied to a
    copy of the checksum book, the copy is truncated and its CRC compared with
    the message, and a canonical candidate book replaces the current one. *)

From S2P Require Import Prelude.
From S2P Require Import Text.
From S2P Require Import StdMap.
From S2P Require Import CoreTypes.
From S2P Require Import FixedPoint.
From S2P Require Import OrderBook.
From S2P Require Import Json.
From S2P Require Import Timestamps.
From S2P Require Import Regex.
From S2P Require Import KrakenDecimal.
From S2P Require Import KrakenChecksum.
From S2P Require Import KrakenParser.

Open Scope Z_scope.

(** ** State *)

Record KrakenBookProcessor := {
  kp_outcome : string;
  kp_error : string;
  last_message : option ReceiveMonotonicTimestamp;
  kp_last_heartbeat : option ReceiveMonotonicTimestamp;
  depth_ : Z;
  checksum_book_ : KrakenChecksumBook;
  book_ : OrderBook;
  metrics_ : gmap string Z;
  checksum_ : Z;
  had_snapshot_ : bool;
  previous_time_ : option ReceiveMonotonicTimestamp;
}.

#[export] Instance KrakenBookProcessor_eta : EtaRecord KrakenBookProcessor := λ p,
  {| kp_outcome := kp_outcome p; kp_error := kp_error p; last_message := last_message p;
     kp_last_heartbeat := kp_last_heartbeat p; depth_ := depth_ p;
     checksum_book_ := checksum_book_ p; book_ := book_ p; metrics_ := metrics_ p;
     checksum_ := checksum_ p; had_snapshot_ := had_snapshot_ p;
     previous_time_ := previous_time_ p |}.

Definition metric_keys : list string :=
  ["messages"; "snapshots"; "updates"; "heartbeats"; "subscription_errors"; "parse_errors";
   "checksum_validations"; "checksum_failures"; "reconnects"; "recovery_snapshots"; "valid_time";
   "invalid_time"; "stale_time"].

(** The constructor; it validates the depth. *)
Definition new_processor (depth : Z) : result KrakenBookProcessor :=
  _ ← validate_depth depth;
  Ok {| kp_outcome := EmptyString; kp_error := EmptyString; last_message := None;
        kp_last_heartbeat := None; depth_ := depth; checksum_book_ := empty_checksum_book;
        book_ := new_book Kraken BTC_USD;
        metrics_ := list_to_map (map (λ key, ("kraken_" +:+ key, 0)) metric_keys);
        checksum_ := 0; had_snapshot_ := false; previous_time_ := None |}.

(** ** Operations *)

(** The [inc] lambda; every key it is used with exists. *)
Definition inc (key : string) (p : KrakenBookProcessor) : KrakenBookProcessor :=
  p <| metrics_ ::= λ m, <[key := incr64 (default 0 (m !! key))]> m |>.

Definition advance (p : KrakenBookProcessor) (now : ReceiveMonotonicTimestamp) : KrakenBookProcessor :=
  let p :=
    match previous_time_ p with
    | Some previous =>
        if mono_ns now >=? mono_ns previous then
          let key := match state_ (book_ p) with
                     | Valid => "kraken_valid_time"
                     | Stale => "kraken_stale_time"
                     | _ => "kraken_invalid_time"
                     end in
          p <| metrics_ ::= λ m,
                 <[key := u64 (default 0 (m !! key) + (mono_ns now - mono_ns previous))]> m |>
        else p
    | None => p
    end in
  p <| previous_time_ := Some now |>.

Definition reset_connection (p : KrakenBookProcessor) : KrakenBookProcessor :=
  (inc "kraken_reconnects" p) <| book_ ::= mark_initializing |> <| last_message := None |>
    <| kp_last_heartbeat := None |>.
Definition kp_stale (p : KrakenBookProcessor) := p <| book_ ::= mark_stale |>.
Definition kp_invalidate (p : KrakenBookProcessor) := p <| book_ ::= invalidate |>.
Definition kp_disconnect (p : KrakenBookProcessor) := p <| book_ ::= mark_disconnected |>.

(** [candidate.best_bid()->price >= candidate.best_ask()->price] *)
Definition crossed (b : OrderBook) : bool :=
  match best_bid b, best_ask b with
  | Some bid, Some ask => raw (price bid) >=? raw (price ask)
  | _, _ => false
  end.

(** The canonical candidate book. *)
Definition candidate_book (m : KrakenBookMessage) (next : KrakenChecksumBook) : result OrderBook :=
  match apply_snapshot (new_book Kraken (msg_instrument m))
          (MkSnapshot Kraken (msg_instrument m) (book_levels next) (msg_exchange_time m)
             (msg_receive_wall_time m) (msg_receive_monotonic_time m) None) with
  | (_, false) => Throw (InvalidArgument "invalid canonical snapshot")
  | (candidate, true) =>
      if has_two_sided_market candidate && crossed candidate
      then Throw (InvalidArgument "crossed Kraken book") else Ok candidate
  end.

(** The handler of the [catch] clause. *)
Definition apply_failed (p : KrakenBookProcessor) (e : exn) : KrakenBookProcessor * bool :=
  (p <| kp_error := what e |> <| kp_outcome := "ApplyError" |> <| book_ ::= invalidate |>, false).

Section processor.
Context `{Crc32}.

(** The copy of the checksum book after the message, and its CRC. *)
Definition stage_message (p : KrakenBookProcessor) (m : KrakenBookMessage)
    : result (KrakenChecksumBook * Z) :=
  _ ← throw_if (negb (bool_decide (msg_instrument m = BTC_USD))) (InvalidArgument "wrong instrument");
  next ← (if bool_decide (msg_type m = Snapshot)
          then replace_snapshot (checksum_book_ p) (msg_changes m)
          else apply_changes (checksum_book_ p) (msg_changes m));
  let next := truncate next (Z.to_nat (depth_ p)) in
  crc ← checksum next;
  Ok (next, crc).

Definition apply_message (p : KrakenBookProcessor) (m : KrakenBookMessage) : KrakenBookProcessor * bool :=
  let snapshot := bool_decide (msg_type m = Snapshot) in
  let p := inc (if snapshot then "kraken_snapshots" else "kraken_updates") p in
  if negb snapshot && negb (bool_decide (state_ (book_ p) = Valid))
  then (p <| kp_outcome := "AwaitingSnapshot" |>, false)
  else
    match stage_message p m with
    | Throw e => apply_failed p e
    | Ok (next, crc) =>
        let p := inc "kraken_checksum_validations" p in
        if negb (crc =? msg_checksum m) then
          ((inc "kraken_checksum_failures" p) <| kp_outcome := "ChecksumMismatch" |>
             <| kp_error := "Kraken checksum mismatch" |> <| book_ ::= invalidate |>, false)
        else
          match candidate_book m next with
          | Throw e => apply_failed p e
          | Ok candidate =>
              let p := if snapshot && had_snapshot_ p then inc "kraken_recovery_snapshots" p else p in
              (p <| had_snapshot_ := true |> <| book_ := candidate |> <| checksum_book_ := next |>
                 <| checksum_ := crc |> <| kp_outcome := if snapshot then "Snapshot" else "Update" |>,
               true)
          end
    end.

Definition kraken_process `{JsonLib} (p : KrakenBookProcessor) (raw : string)
    (wall : ReceiveWallTimestamp) (mono : ReceiveMonotonicTimestamp) : KrakenBookProcessor * bool :=
  let p := (inc "kraken_messages" ((advance p mono) <| last_message := Some mono |>))
             <| kp_error := EmptyString |> in
  let r := kraken_parse raw wall mono in
  let failed key name :=
    ((inc key p) <| kp_outcome := name |> <| kp_error := parse_error r |> <| book_ ::= invalidate |>, false) in
  match kind r with
  | ParseKind.Heartbeat =>
      ((inc "kraken_heartbeats" p) <| kp_last_heartbeat := Some mono |> <| kp_outcome := "Heartbeat" |>, true)
  | ParseKind.SubscriptionSuccess => (p <| kp_outcome := "SubscriptionSuccess" |>, true)
  | ParseKind.Ignored => (p <| kp_outcome := "Ignored" |>, true)
  | ParseKind.SubscriptionFailure => failed "kraken_subscription_errors" "SubscriptionFailure"
  | ParseKind.Error => failed "kraken_parse_errors" "ParseError"
  | ParseKind.Book =>
      match parsed_book r with
      | Some m => apply_message p m
      | None => (p, false)   (* a book result always carries its message *)
      end
  end.
End processor.

(** ** Invariant *)

Section invariant.
Context `{Crc32Laws}.

(** The canonical book shows exactly the levels of the checksum book; after
    the first snapshot the stored checksum is that of the shown levels. *)
Record processor_inv (p : KrakenBookProcessor) : Prop := {
  inv_checksum_book : checksum_book_wf (checksum_book_ p);
  inv_depth : (length (cb_bids (checksum_book_ p)) ≤ Z.to_nat (depth_ p))%nat ∧
              (length (cb_asks (checksum_book_ p)) ≤ Z.to_nat (depth_ p))%nat;
  inv_identity : venue_ (book_ p) = Kraken ∧ instrument_ (book_ p) = BTC_USD ∧
                 last_sequence_ (book_ p) = None;
  inv_levels : bids_ (book_ p) = side_levels (cb_bids (checksum_book_ p)) ∧
               asks_ (book_ p) = side_levels (cb_asks (checksum_book_ p));
  inv_uncrossed : ∀ bid qb bs ask qa qs, bids_ (book_ p) = (bid, qb) :: bs →
                  asks_ (book_ p) = (ask, qa) :: qs → raw bid < raw ask;
  inv_checksum : had_snapshot_ p = true → checksum (checksum_book_ p) = Ok (checksum_ p);
  inv_valid : state_ (book_ p) = Valid → had_snapshot_ p = true;
}.

Lemma new_processor_inv depth p : new_processor depth = Ok p → processor_inv p.
Proof.
  unfold new_processor. intros. result_inv. split; cbn; try done; try lia.
  apply empty_checksum_book_wf.
Qed.

(** Operations that touch neither levels nor checksum preserve it, as long as
    they do not make the book valid. *)
Lemma frame_inv p p' :
  processor_inv p → checksum_book_ p' = checksum_book_ p → depth_ p' = depth_ p →
  checksum_ p' = checksum_ p → had_snapshot_ p' = had_snapshot_ p →
  (∃ s, book_ p' = (book_ p) <| state_ := s |> ∧ (s = Valid → state_ (book_ p) = Valid)) →
  processor_inv p'.
Proof.
  intros [] Hc Hd Hs Hh (s & Hb & Hv). split; rewrite ?Hc, ?Hd, ?Hs, ?Hh, ?Hb; cbn; auto.
Qed.
End invariant.

(** ** Lemmas *)

Section lemmas.
Context `{Crc32Laws}.
Implicit Types (p : KrakenBookProcessor) (m : KrakenBookMessage).

Lemma stage_message_ok p m next crc :
  checksum_book_wf (checksum_book_ p) → stage_message p m = Ok (next, crc) →
  msg_instrument m = BTC_USD ∧ checksum_book_wf next ∧ checksum next = Ok crc ∧
  (length (cb_bids next) ≤ Z.to_nat (depth_ p))%nat ∧
  (length (cb_asks next) ≤ Z.to_nat (depth_ p))%nat.
Proof.
  intros Hwf Hst. unfold stage_message in Hst. result_inv.
  match goal with Hn : (if _ then _ else _) = Ok ?b |- _ =>
    assert (checksum_book_wf b) as Hb by (case_bool_decide; eauto with arb) end.
  simplify_eq. split_and!; [by destruct (msg_instrument m)|by apply truncate_wf|done|..];
    rewrite truncate_take; cbn; rewrite length_take; lia.
Qed.

(** The candidate of a well-formed checksum book: always accepted by the
    order book, and refused only when crossed. *)
Lemma candidate_book_spec m next :
  checksum_book_wf next → msg_instrument m = BTC_USD →
  let b := MkBook Kraken BTC_USD Valid (side_levels (cb_bids next)) (side_levels (cb_asks next)) None in
  candidate_book m next =
    if crossed b then Throw (InvalidArgument "crossed Kraken book") else Ok b.
Proof.
  intros Hwf Hi b. unfold candidate_book. rewrite Hi.
  rewrite (canonical_snapshot next) by done. cbn [snap_sequence]. fold b.
  assert (crossed b = true → has_two_sided_market b = true) as Hc.
  { unfold crossed, has_two_sided_market, best_bid, best_ask. cbn.
    by destruct (side_levels (cb_bids next)) as [|[]], (side_levels (cb_asks next)) as [|[]]. }
  destruct (crossed b); [by rewrite Hc|by rewrite andb_false_r].
Qed.

Lemma uncrossed_spec b bid qb bs ask qa qs :
  crossed b = false → state_ b = Valid → bids_ b = (bid, qb) :: bs → asks_ b = (ask, qa) :: qs →
  raw bid < raw ask.
Proof.
  unfold crossed, best_bid, best_ask. intros Hc Hs Hb Ha.
  rewrite Hs, Hb, Ha, bool_decide_true in Hc by done. cbn [negb price] in Hc.
  rewrite Z.geb_leb in Hc. by zbool.
Qed.

(** The errors a parsed book message can raise. *)
Definition apply_errors : list string :=
  ["invalid snapshot level"; "Kraken checksum mismatch"; "crossed Kraken book"].

(** What one book message does. *)
Inductive message_effect p m : KrakenBookProcessor → bool → Prop :=
  | effect_waiting p' :
      msg_type m = Update → state_ (book_ p) ≠ Valid → book_ p' = book_ p →
      checksum_book_ p' = checksum_book_ p → checksum_ p' = checksum_ p →
      had_snapshot_ p' = had_snapshot_ p → depth_ p' = depth_ p →
      message_effect p m p' false
  | effect_failed p' :
      kp_error p' ∈ apply_errors → book_ p' = invalidate (book_ p) →
      checksum_book_ p' = checksum_book_ p → checksum_ p' = checksum_ p →
      had_snapshot_ p' = had_snapshot_ p → depth_ p' = depth_ p →
      message_effect p m p' false
  | effect_applied p' next :
      (msg_type m = Snapshot ∨ state_ (book_ p) = Valid) →
      stage_message p m = Ok (next, msg_checksum m) →
      book_ p' = MkBook Kraken BTC_USD Valid (side_levels (cb_bids next)) (side_levels (cb_asks next)) None →
      crossed (book_ p') = false → checksum_book_ p' = next → checksum_ p' = msg_checksum m →
      had_snapshot_ p' = true → depth_ p' = depth_ p →
      kp_outcome p' = (if bool_decide (msg_type m = Snapshot) then "Snapshot"%string else "Update"%string) →
      message_effect p m p' true.

Lemma stage_message_inc p m key : stage_message (inc key p) m = stage_message p m.
Proof. done. Qed.

(** On a parsed message, staging fails only for a repeated snapshot level. *)
Lemma apply_changes_total b cs : Forall change_ok cs → ∃ b', apply_changes b cs = Ok b'.
Proof.
  intros Hf. revert b. induction Hf as [|c cs Hc _ IH]; intros b; cbn; [eauto|].
  edestruct (IH (match change_side c with
                 | Bid => b <| cb_bids ::= update_levels price_greater c |>
                 | Ask => b <| cb_asks ::= update_levels price_less c |> end)) as [b' Hb'].
  exists b'. rewrite (proj2 (apply_change_Ok b c _) (conj Hc eq_refl)). done.
Qed.

Lemma replace_loop_total cs seen b :
  Forall change_ok cs →
  (∃ b', replace_loop cs seen b = Ok b') ∨
  replace_loop cs seen b = Throw (InvalidArgument "invalid snapshot level").
Proof.
  intros Hf. revert seen b. induction Hf as [|c cs Hc _ IH]; intros seen b; cbn; [eauto|].
  destruct (_ || _); [by right|]. rewrite (proj2 (apply_change_Ok b c _) (conj Hc eq_refl)). apply IH.
Qed.

Lemma stage_message_cases p m :
  checksum_book_wf (checksum_book_ p) → message_ok m →
  (∃ next crc, stage_message p m = Ok (next, crc)) ∨
  stage_message p m = Throw (InvalidArgument "invalid snapshot level").
Proof.
  intros Hwf (Hi & _ & Hf & _). unfold stage_message. rewrite (bool_decide_true _ Hi).
  cbn [negb throw_if mbind result_bind].
  assert ((∃ b, (if bool_decide (msg_type m = Snapshot)
                 then replace_snapshot (checksum_book_ p) (msg_changes m)
                 else apply_changes (checksum_book_ p) (msg_changes m)) = Ok b ∧ checksum_book_wf b) ∨
          (if bool_decide (msg_type m = Snapshot)
           then replace_snapshot (checksum_book_ p) (msg_changes m)
           else apply_changes (checksum_book_ p) (msg_changes m)) =
            Throw (InvalidArgument "invalid snapshot level")) as [(b & -> & Hb)| ->]; [|left|by right].
  - case_bool_decide.
    + destruct (replace_loop_total (msg_changes m) ∅ empty_checksum_book Hf) as [[b Hb]|Hb]; [left|by right].
      exists b. split; [done|]. by eapply (replace_snapshot_wf (checksum_book_ p)).
    + destruct (apply_changes_total (checksum_book_ p) (msg_changes m) Hf) as [b Hb]. left.
      exists b. split; [done|]. by eapply apply_changes_wf.
  - cbn [mbind result_bind].
    rewrite (checksum_Ok _ (truncate_wf _ (Z.to_nat (depth_ p)) Hb)). cbn. eauto.
Qed.

Lemma apply_message_effect p m :
  checksum_book_wf (checksum_book_ p) → message_ok m →
  message_effect p m (apply_message p m).1 (apply_message p m).2.
Proof.
  intros Hwf Hm. unfold apply_message. rewrite stage_message_inc.
  destruct (negb _ && _) eqn:Eg.
  { apply andb_true_iff in Eg as [Ht%negb_true_iff%bool_decide_eq_false Hs%negb_true_iff%bool_decide_eq_false].
    apply effect_waiting; try done. by destruct (msg_type m). }
  destruct (stage_message_cases p m Hwf Hm) as [(next & crc & Hst)|Hst]; rewrite Hst;
    [|by apply effect_failed; [set_solver|..]].
  destruct (stage_message_ok _ _ _ _ Hwf Hst) as (Hi & Hwf' & _).
  destruct (crc =? msg_checksum m) eqn:Ec; cbn [negb]; [|by apply effect_failed; [set_solver|..]].
  zbool. subst crc. rewrite (candidate_book_spec m next Hwf' Hi).
  destruct (crossed _) eqn:Ex; [by apply effect_failed; [set_solver|..]|].
  assert (msg_type m = Snapshot ∨ state_ (book_ p) = Valid) as Hg.
  { destruct Eg as [Eg|Eg]; apply negb_false_iff, bool_decide_eq_true in Eg; auto. }
  destruct (bool_decide (msg_type m = Snapshot) && _); by apply (effect_applied _ _ _ next).
Qed.

Lemma message_effect_inv p m p' r : processor_inv p → message_effect p m p' r → processor_inv p'.
Proof.
  intros Hi [p1 _ Hs Hb Hc Hk Hh Hd|p1 _ Hb Hc Hk Hh Hd|p1 next _ Hst Hb Hx Hc Hk Hh Hd _].
  - eapply frame_inv; [done..|]. exists (state_ (book_ p)). split; [|done]. rewrite Hb. by destruct (book_ p).
  - eapply frame_inv; [done..|]. exists Invalid. by rewrite Hb.
  - destruct (stage_message_ok _ _ _ _ (inv_checksum_book _ Hi) Hst) as (_ & Hwf & Hcrc & Hl1 & Hl2).
    split; rewrite ?Hc, ?Hd, ?Hk; try done; try (by rewrite Hb).
    intros bid qb bs ask qa qs. eapply uncrossed_spec; [done|by rewrite Hb].
Qed.
End lemmas.

(** ** Lemmas: whole messages *)

(** The part of the state that messages change only through a book. *)
Definition same_book (p p' : KrakenBookProcessor) : Prop :=
  book_ p' = book_ p ∧ checksum_book_ p' = checksum_book_ p ∧ checksum_ p' = checksum_ p ∧
  had_snapshot_ p' = had_snapshot_ p ∧ depth_ p' = depth_ p.

Lemma advance_same p now : same_book p (advance p now).
Proof. unfold advance. destruct (previous_time_ p); [destruct (_ >=? _)|]; done. Qed.

Section process_lemmas.
Context `{Crc32Laws} `{JsonLib}.

Lemma message_effect_same p p0 m p' r : same_book p p0 → message_effect p0 m p' r → message_effect p m p' r.
Proof.
  intros (Hb & Hc & Hk & Hh & Hd) He.
  assert (stage_message p0 m = stage_message p m) as Hst by (unfold stage_message; by rewrite Hc, Hd).
  destruct He; rewrite ?Hb, ?Hc, ?Hk, ?Hh, ?Hd, ?Hst in *;
    [by apply effect_waiting|by apply effect_failed|by eapply effect_applied].
Qed.

(** The effect of a message, by the kind the parser found. *)
Definition process_effect p raw wall mono p' (ok : bool) : Prop :=
  let r := kraken_parse raw wall mono in
  match kind r with
  | ParseKind.Book => ∃ m, parsed_book r = Some m ∧ message_ok m ∧ message_effect p m p' ok
  | ParseKind.Error | ParseKind.SubscriptionFailure =>
      ok = false ∧ same_book (p <| book_ ::= invalidate |>) p'
  | _ => ok = true ∧ same_book p p'
  end.

Lemma kraken_process_effect p raw wall mono :
  checksum_book_wf (checksum_book_ p) →
  process_effect p raw wall mono (kraken_process p raw wall mono).1 (kraken_process p raw wall mono).2.
Proof.
  intros Hwf. unfold process_effect, kraken_process.
  pose proof (kraken_parse_ok raw wall mono) as Hok. unfold kraken_result_ok in Hok.
  destruct (advance_same p mono) as (Hb & Hc & Hk & Hh & Hd).
  generalize dependent (advance p mono). intros p0 Hb Hc Hk Hh Hd.
  destruct (kind _); try (split; [done|]; split_and!; cbn; congruence).
  destruct Hok as (_ & m & -> & Hm & _). exists m. split_and!; [done..|].
  eapply message_effect_same; [|apply apply_message_effect; [|done]].
  - by split_and!.
  - cbn. by rewrite Hc.
Qed.

Lemma same_book_inv p p' :
  processor_inv p → same_book p p' → processor_inv p'.
Proof.
  intros Hi (Hb & Hc & Hk & Hh & Hd). eapply frame_inv; [done..|].
  exists (state_ (book_ p)). split; [|done]. rewrite Hb. by destruct (book_ p).
Qed.

Lemma mark_inv p f s :
  processor_inv p → (∀ b, f b = b <| state_ := s |>) → s ≠ Valid → processor_inv (p <| book_ ::= f |>).
Proof. intros Hi Hf Hs. eapply frame_inv; try done. exists s. cbn. by rewrite Hf. Qed.

Lemma kraken_process_inv p raw wall mono : processor_inv p → processor_inv (kraken_process p raw wall mono).1.
Proof.
  intros Hi. pose proof (kraken_process_effect p raw wall mono (inv_checksum_book _ Hi)) as He.
  unfold process_effect in He. destruct (kind _).
  - destruct He as (m & _ & _ & He). by eapply message_effect_inv.
  - destruct He as [_ He]. by eapply same_book_inv.
  - destruct He as [_ He]. by eapply same_book_inv.
  - destruct He as [_ He]. eapply same_book_inv; [|done]. by apply (mark_inv _ _ Invalid).
  - destruct He as [_ He]. by eapply same_book_inv.
  - destruct He as [_ He]. eapply same_book_inv; [|done]. by apply (mark_inv _ _ Invalid).
Qed.
End process_lemmas.

(** The public operations of a processor. *)
Inductive processor_op :=
  | OpProcess (raw : string) (wall : ReceiveWallTimestamp) (mono : ReceiveMonotonicTimestamp)
  | OpResetConnection | OpStale | OpInvalidate | OpDisconnect
  | OpAdvance (now : ReceiveMonotonicTimestamp).

Definition run_processor_op `{Crc32} `{JsonLib} (p : KrakenBookProcessor) (op : processor_op)
    : KrakenBookProcessor :=
  match op with
  | OpProcess raw wall mono => (kraken_process p raw wall mono).1
  | OpResetConnection => reset_connection p
  | OpStale => kp_stale p
  | OpInvalidate => kp_invalidate p
  | OpDisconnect => kp_disconnect p
  | OpAdvance now => advance p now
  end.

(** The processors that the operations reach from a new one. *)
Definition reachable `{Crc32} `{JsonLib} (p : KrakenBookProcessor) : Prop :=
  ∃ depth p0 ops, new_processor depth = Ok p0 ∧ p = foldl run_processor_op p0 ops.

Lemma run_processor_op_inv `{Crc32Laws} `{JsonLib} p op :
  processor_inv p → processor_inv (run_processor_op p op).
Proof.
  intros Hi. destruct op; cbn [run_processor_op].
  - by apply kraken_process_inv.
  - apply (same_book_inv ((inc "kraken_reconnects" p) <| book_ ::= mark_initializing |>)); [|done].
    apply (mark_inv _ _ Initializing); [|done..]. by apply (same_book_inv p).
  - by apply (mark_inv _ _ Stale).
  - by apply (mark_inv _ _ Invalid).
  - by apply (mark_inv _ _ Disconnected).
  - by eapply same_book_inv, advance_same.
Qed.

Lemma reachable_inv `{Crc32Laws} `{JsonLib} p : reachable p → processor_inv p.
Proof.
  intros (depth & p0 & ops & Hp & ->). apply new_processor_inv in Hp. revert p0 Hp.
  induction ops as [|op ops IH]; intros p0 Hp; cbn; auto using run_processor_op_inv.
Qed.

(** ** Theorems *)


(** C28: a rejected Kraken message never damages or exposes the book: when
    [process] returns false the levels, the checksum book and the checksum are
    those from before and no best price is visible; a rejected book message
    was waiting for a snapshot, repeated a snapshot level, crossed the book or
    failed the checksum, so no internal consistency check ever fires. *)
Theorem kraken_fail_safe `{Crc32Laws} `{JsonLib} p raw wall mono p' :
  reachable p → kraken_process p raw wall mono = (p', false) →
  bids_ (book_ p') = bids_ (book_ p) ∧ asks_ (book_ p') = asks_ (book_ p) ∧
  checksum_book_ p' = checksum_book_ p ∧ checksum_ p' = checksum_ p ∧
  best_bid (book_ p') = None ∧ best_ask (book_ p') = None ∧
  (kind (kraken_parse raw wall mono) = ParseKind.Book →
     state_ (book_ p) ≠ Valid ∨ kp_error p' ∈ apply_errors).
Proof.
  intros Hi%reachable_inv Hp.
  pose proof (kraken_process_effect p raw wall mono (inv_checksum_book _ Hi)) as He.
  rewrite Hp in He. cbn in He. unfold process_effect in He.
  assert (∀ b, best_bid (invalidate b) = None ∧ best_ask (invalidate b) = None) as Hh
    by (intros; by apply best_hidden).
  destruct (kind _).
  - destruct He as (m & _ & _ & He). inversion He as [? _ Hs Hb Hc Hk|? Hin Hb Hc Hk|]; subst.
    + destruct (best_hidden _ Hs). rewrite Hb. by split_and!; auto.
    + destruct (Hh (book_ p)). rewrite Hb. by split_and!; auto.
  - by destruct He.
  - by destruct He.
  - destruct He as (_ & Hb & Hc & Hk & _), (Hh (book_ p)). rewrite Hb. by split_and!.
  - by destruct He.
  - destruct He as (_ & Hb & Hc & Hk & _), (Hh (book_ p)). rewrite Hb. by split_and!.
Qed.

(** Only a checksummed snapshot makes a Kraken book valid again: if the
    book was not valid and is valid after a message, the message is a snapshot
    whose checksum is the CRC of the levels now shown. *)
Theorem kraken_recovery `{Crc32Laws} `{JsonLib} p raw wall mono :
  reachable p → state_ (book_ p) ≠ Valid →
  let p' := (kraken_process p raw wall mono).1 in
  state_ (book_ p') = Valid →
  ∃ m, parsed_book (kraken_parse raw wall mono) = Some m ∧ msg_type m = Snapshot ∧
    checksum (checksum_book_ p') = Ok (msg_checksum m) ∧ kp_outcome p' = "Snapshot"%string.
Proof.
  intros Hi%reachable_inv Hs p' Hv. subst p'.
  pose proof (kraken_process_effect p raw wall mono (inv_checksum_book _ Hi)) as He.
  unfold process_effect in He. destruct (kind _);
    try (destruct He as (_ & Hb & _); rewrite Hb in Hv; cbn in Hv; congruence).
  destruct He as (m & Hm & _ & He). exists m. split; [done|].
  inversion He as [? _ _ Hb|? _ Hb|? next [Ht|Ht] Hst Hb _ Hc Hk _ _ Ho]; subst;
    try (rewrite Hb in Hv; cbn in Hv; congruence).
  destruct (stage_message_ok _ _ _ _ (inv_checksum_book _ Hi) Hst) as (_ & _ & Hcrc & _).
  rewrite bool_decide_true in Ho by done. done.
Qed.

(** ** A concrete session *)

Definition number_document (token : string) : json := JArray [JString "#number"; JString token].
Definition level_of (c : KrakenLevelChange) : json :=
  JObject [("price", number_document (price_lexeme c)); ("qty", number_document (quantity_lexeme c))].

Definition book_document (type : string) (cs : list KrakenLevelChange) (crc : string) : json :=
  let side s := JArray (map level_of (filter (λ c, change_side c = s) cs)) in
  JObject [("channel", JString "book");
           ("data", JArray [JObject [("asks", side Ask); ("bids", side Bid);
                                     ("checksum", number_document crc); ("symbol", JString "BTC/USD");
                                     ("timestamp", JString "2026-09-16T00:00:00.123456Z")]]);
           ("type", JString type)].

Definition kraken_lib : JsonLib :=
  table_lib [("snapshot", book_document "snapshot" ex_official "3310070434");
             ("mismatch", book_document "update" [] "1")].

Definition ex_wall : ReceiveWallTimestamp := {| wall_ns := 1 |}.
Definition ex_mono : ReceiveMonotonicTimestamp := {| mono_ns := 2 |}.

Definition ex_processor : KrakenBookProcessor :=
  {| kp_outcome := EmptyString; kp_error := EmptyString; last_message := None;
     kp_last_heartbeat := None; depth_ := 10; checksum_book_ := empty_checksum_book;
     book_ := new_book Kraken BTC_USD;
     metrics_ := list_to_map (map (λ key, ("kraken_" +:+ key, 0)) metric_keys);
     checksum_ := 0; had_snapshot_ := false; previous_time_ := None |}.

Definition ex_step (p : KrakenBookProcessor) (raw : string) : KrakenBookProcessor * bool :=
  @kraken_process bytewise_crc kraken_lib p raw ex_wall ex_mono.
Definition ex_valid : KrakenBookProcessor := (ex_step ex_processor "snapshot").1.
Definition ex_invalid : KrakenBookProcessor := (ex_step ex_valid "mismatch").1.

Example ex_session :
  state_ (book_ ex_valid) = Valid ∧ length (bids_ (book_ ex_valid)) = 10%nat ∧
  checksum_ ex_valid = 3310070434 ∧
  state_ (book_ ex_invalid) = Invalid ∧ kp_outcome ex_invalid = "ChecksumMismatch"%string ∧
  length (bids_ (book_ ex_invalid)) = 10%nat.
Proof. vm_compute. done. Qed.

Lemma ex_processor_reachable : @reachable bytewise_crc kraken_lib ex_processor.
Proof. exists 10, ex_processor, []. by split. Qed.

Lemma ex_valid_reachable : @reachable bytewise_crc kraken_lib ex_valid.
Proof. exists 10, ex_processor, [OpProcess "snapshot" ex_wall ex_mono]. by split. Qed.


Lemma kraken_fail_safe_witness :
  bids_ (book_ ex_invalid) = bids_ (book_ ex_valid) ∧ checksum_ ex_invalid = checksum_ ex_valid ∧
  best_bid (book_ ex_invalid) = None.
Proof.
  destruct (@kraken_fail_safe bytewise_crc bytewise_crc_laws kraken_lib ex_valid "mismatch" ex_wall ex_mono
    ex_invalid ex_valid_reachable ltac:(vm_compute; reflexivity)) as (H1 & _ & _ & H2 & H3 & _).
  exact (conj H1 (conj H2 H3)).
Defined.

Lemma kraken_recovery_witness :
  ∃ m, parsed_book (@kraken_parse kraken_lib "snapshot" ex_wall ex_mono) = Some m ∧ msg_type m = Snapshot ∧
    @checksum bytewise_crc (checksum_book_ ex_valid) = Ok (msg_checksum m) ∧
    kp_outcome ex_valid = "Snapshot"%string.
Proof.
  apply (@kraken_recovery bytewise_crc bytewise_crc_laws kraken_lib ex_processor "snapshot" ex_wall ex_mono
    ex_processor_reachable ltac:(done)).
  vm_compute. reflexivity.
Defined.
