(* ===== verification/ConnectionManager.v ===== *)
(** * The Coinbase connection manager

    [CoinbaseConnectionManager]: connection generations, recovery with
    back-off, health checks and the lifecycle of the book across
    reconnections.  All entry points run on one thread, so a run is a sequence
    of events; what the manager asks of its environment (connecting, closing,
    scheduling, observed lifecycle events) is a list of actions.  The injected
    clock is a stream of readings, consumed in order. *)

From S2P Require Import Prelude.
From S2P Require Import Text.
From S2P Require Import StdMap.
From S2P Require Import CoreTypes.
From S2P Require Import FixedPoint.
From S2P Require Import SequenceTracker.
From S2P Require Import OrderBook.
From S2P Require Import Json.
From S2P Require Import Timestamps.
From S2P Require Import CoinbaseParser.
From S2P Require Import FeedHealth.
From S2P Require Import RecordingQueue.
From S2P Require Import CoinbaseHandler.

Open Scope Z_scope.

(** ** Data *)

Record LifecycleEvent := {
  before_record_index : Z;
  lifecycle_state : BookState;
  lifecycle_reason : string;
}.

Record RecoveryMetrics := {
  connections_started : Z; connections_succeeded : Z; disconnects : Z;
  reconnect_attempts : Z; recovery_successes : Z; recovery_count : Z;
  snapshots_received : Z; updates_received : Z; updates_before_snapshot : Z;
  time_to_first_snapshot : Z; recovery_duration : Z;
  valid_time : Z; stale_time : Z; invalid_time : Z;
  last_failure_reason : string;
}.

#[export] Instance RecoveryMetrics_eta : EtaRecord RecoveryMetrics := λ r,
  {| connections_started := connections_started r; connections_succeeded := connections_succeeded r;
     disconnects := disconnects r; reconnect_attempts := reconnect_attempts r;
     recovery_successes := recovery_successes r; recovery_count := recovery_count r;
     snapshots_received := snapshots_received r; updates_received := updates_received r;
     updates_before_snapshot := updates_before_snapshot r;
     time_to_first_snapshot := time_to_first_snapshot r; recovery_duration := recovery_duration r;
     valid_time := valid_time r; stale_time := stale_time r; invalid_time := invalid_time r;
     last_failure_reason := last_failure_reason r |}.

Definition new_metrics : RecoveryMetrics :=
  {| connections_started := 0; connections_succeeded := 0; disconnects := 0; reconnect_attempts := 0;
     recovery_successes := 0; recovery_count := 0; snapshots_received := 0; updates_received := 0;
     updates_before_snapshot := 0; time_to_first_snapshot := 0; recovery_duration := 0;
     valid_time := 0; stale_time := 0; invalid_time := 0; last_failure_reason := EmptyString |}.

(** What the manager asks of its environment. *)
Inductive action :=
  | Connect (generation : Z)
  | CloseTransport
  | Schedule (delay generation : Z)
  | Observed (event : LifecycleEvent).

Record Manager (E : Type) := MkManager {
  config : FeedHealthConfig;
  handler_ : Handler;             (* with the book, tracker and health *)
  terminal_ : bool;
  backoff_ : ReconnectPolicy;
  cm_metrics : RecoveryMetrics;
  stopping_ : bool;
  recovery_pending_ : bool;
  connected_ : bool;
  generation_ : Z;
  connection_id_ : Z;
  state_since_ : ReceiveMonotonicTimestamp;
  cm_connected_at_ : ReceiveMonotonicTimestamp;
  recovery_since_ : option ReceiveMonotonicTimestamp;
  clock_reads : nat;              (* readings taken so far *)
  actions : list action;          (* in order *)
  environment : E;
}.
Arguments MkManager {E}. Arguments config {E}. Arguments handler_ {E}. Arguments terminal_ {E}.
Arguments backoff_ {E}. Arguments cm_metrics {E}. Arguments stopping_ {E}.
Arguments recovery_pending_ {E}. Arguments connected_ {E}. Arguments generation_ {E}.
Arguments connection_id_ {E}. Arguments state_since_ {E}. Arguments cm_connected_at_ {E}.
Arguments recovery_since_ {E}. Arguments clock_reads {E}. Arguments actions {E}.
Arguments environment {E}.

#[export] Instance Manager_eta E : EtaRecord (Manager E) := λ m,
  {| config := config m; handler_ := handler_ m; terminal_ := terminal_ m; backoff_ := backoff_ m;
     cm_metrics := cm_metrics m; stopping_ := stopping_ m; recovery_pending_ := recovery_pending_ m;
     connected_ := connected_ m; generation_ := generation_ m; connection_id_ := connection_id_ m;
     state_since_ := state_since_ m; cm_connected_at_ := cm_connected_at_ m;
     recovery_since_ := recovery_since_ m; clock_reads := clock_reads m; actions := actions m;
     environment := environment m |}.

Definition manager_book {E} (m : Manager E) : OrderBook := book (market (handler_ m)).
Definition manager_sequence {E} (m : Manager E) : option Z := last_ (tracker (market (handler_ m))).

Definition on_book {E} (f : OrderBook → OrderBook) (m : Manager E) : Manager E :=
  m <| handler_ ::= λ h, h <| market ::= λ k, k <| book ::= f |> |> |>.
Definition on_health {E} (f : FeedHealth → FeedHealth) (m : Manager E) : Manager E :=
  m <| handler_ ::= λ h, h <| market ::= λ k, k <| health ::= f |> |> |>.
Definition reset_sequence {E} (m : Manager E) : Manager E :=
  m <| handler_ ::= λ h, h <| market ::= λ k, k <| tracker ::= tracker_reset |> |> |>.
Definition emit {E} (a : action) (m : Manager E) : Manager E := m <| actions ::= λ l, l ++ [a] |>.

Section manager.
Context `{JsonLib} (products : Products) `{RecordingSink E}.
Context (publish : ProcessResult → RuntimeProgress → Market → E → E).
(** The injected clock, and the clock of the handler indexed by message. *)
Context (clock : nat → ReceiveMonotonicTimestamp) (live_clock : Z → ReceiveMonotonicTimestamp).
Implicit Types m : Manager E.

(** [clock_()] *)
Definition read_clock m : Manager E * ReceiveMonotonicTimestamp :=
  (m <| clock_reads ::= S |>, clock (clock_reads m)).

Definition account_time (state : BookState) m : Manager E :=
  let '(m, now) := read_clock m in
  let duration := mono_ns now - mono_ns (state_since_ m) in
  let m := m <| cm_metrics ::= λ k,
    match state with
    | Valid => k <| valid_time ::= Z.add duration |>
    | Stale => k <| stale_time ::= Z.add duration |>
    | Invalid => k <| invalid_time ::= Z.add duration |>
    | _ => k
    end |> in
  m <| state_since_ := now |>.

Definition transition (state : BookState) (reason : string) m : Manager E :=
  let m := if String.eqb reason "" then m
           else emit (Observed
                  {| before_record_index :=
                       match last_received_index (progress (handler_ m)) with
                       | Some i => incr64 i
                       | None => 0
                       end;
                     lifecycle_state := state; lifecycle_reason := reason |}) m in
  let m := account_time (state_ (manager_book m)) m in
  match state with
  | Initializing => on_book mark_initializing m
  | Stale => on_book mark_stale m
  | Invalid => on_book invalidate m
  | Disconnected => on_book mark_disconnected m
  | Resyncing => on_book mark_resyncing m
  | Valid => m
  end.

Definition begin_connection m : Manager E :=
  if stopping_ m then m
  else
    let m := m <| recovery_pending_ := false |> <| connected_ := false |> in
    let m := reset_sequence (transition Resyncing "resynchronization" m) in
    let '(m, now) := read_clock m in
    let m := m <| cm_connected_at_ := now |>
               <| cm_metrics ::= λ k, k <| connections_started ::= incr64 |> |>
               <| generation_ ::= incr64 |> in
    emit (Connect (generation_ m)) m.

Definition handle_connected m : Manager E :=
  if connected_ m then m
  else
    let m := m <| connected_ := true |> <| connection_id_ ::= incr64 |>
               <| cm_metrics ::= λ k, k <| connections_succeeded ::= incr64 |> |> in
    let '(m, now) := read_clock m in
    let m := m <| cm_connected_at_ := now |> in
    transition Initializing "new_connection"
      (reset_sequence (on_health (λ h, health_reset h (cm_connected_at_ m)) m)).

(** The counters of a recovery, and when it began. *)
Definition count_recovery (reason : string) m : Manager E :=
  let m := if connected_ m then m <| cm_metrics ::= λ k, k <| disconnects ::= incr64 |> |> else m in
  let m := m <| connected_ := false |> in
  m <| cm_metrics ::= λ k, k <| recovery_count ::= incr64 |> <| last_failure_reason := reason |> |>.
Definition note_recovery_since m : Manager E :=
  match recovery_since_ m with
  | Some _ => m
  | None => let '(m, now) := read_clock m in m <| recovery_since_ := Some now |>
  end.

(** Closing the transport and scheduling the next attempt. *)
Definition schedule_resume m : Manager E :=
  let m := (emit CloseTransport m) <| cm_metrics ::= λ k, k <| reconnect_attempts ::= incr64 |> |> in
  let '(policy, delay) := next_delay (backoff_ m) in
  let m := m <| backoff_ := policy |> in
  emit (Schedule delay (generation_ m)) m.

Definition recover (reason : string) (state : BookState) m : Manager E :=
  if stopping_ m || recovery_pending_ m then m
  else
    let m := m <| recovery_pending_ := true |> <| generation_ ::= incr64 |> in
    let m := reset_sequence (transition state reason m) in
    schedule_resume (note_recovery_since (count_recovery reason m)).

Definition stop m : Manager E :=
  if stopping_ m then m
  else
    let m := m <| stopping_ := true |> <| generation_ ::= incr64 |> <| recovery_pending_ := false |> in
    let m := reset_sequence ((emit CloseTransport m) <| connected_ := false |>) in
    transition Disconnected "requested_shutdown" m.

(** [start] arms the health timer; its expiry is the event [Tick]. *)
Definition start m : Manager E :=
  if negb (stopping_ m) || terminal_ m then m
  else begin_connection (m <| stopping_ := false |>).

Definition terminal_recording_failure (error : string) m : Manager E :=
  let m := stop (m <| terminal_ := true |>) in
  let m := m <| cm_metrics ::= λ k, k <| last_failure_reason := error |> |> in
  transition Invalid "terminal_failure" m.

(** [if (book_.state() != previous_state) account_time(previous_state);] *)
Definition account_change (previous_state : BookState) m : Manager E :=
  if bool_decide (state_ (manager_book m) = previous_state) then m else account_time previous_state m.

(** The metrics of an accepted message. *)
Definition message_accepted (previous_state : BookState) (r : ProcessResult) m : Manager E :=
  let m := m <| cm_metrics ::= λ k, k <| snapshots_received ::= λ n, u64 (n + snapshots r) |>
                                      <| updates_received ::= λ n, u64 (n + updates r) |> |> in
  if negb (bool_decide (previous_state = Valid)) &&
     bool_decide (outcome r = MessageOutcome.BookUpdated) && negb (snapshots r =? 0) then
    let m := m <| backoff_ ::= policy_reset |> in
    let '(m, now) := read_clock m in
    let m := m <| cm_metrics ::= λ k,
               k <| time_to_first_snapshot := mono_ns now - mono_ns (cm_connected_at_ m) |> |> in
    match recovery_since_ m with
    | None => m
    | Some since =>
        let m := m <| cm_metrics ::= λ k, k <| recovery_successes ::= incr64 |> |> in
        let '(m, now) := read_clock m in
        m <| cm_metrics ::= λ k, k <| recovery_duration := mono_ns now - mono_ns since |> |>
          <| recovery_since_ := None |>
    end
  else m.

(** What follows the handler's return. *)
Definition message_done (previous_state : BookState) (r : ProcessResult) m : Manager E * bool :=
  if bool_decide (outcome r = MessageOutcome.RecordingRejected)
  then (terminal_recording_failure (pr_error r) m, false)
  else if negb (String.eqb (pr_error r) "") then
    let m := if String.eqb (pr_error r) "L2 update before snapshot"
             then m <| cm_metrics ::= λ k, k <| updates_before_snapshot ::= incr64 |> |> else m in
    (recover (pr_error r) Invalid m, false)
  else (message_accepted previous_state r m, true).

Definition with_connection_id m : Handler :=
  (handler_ m) <| handler_connection_id := connection_id_ m |>.

Definition with_handler (h : Handler) (env : E) m : Manager E :=
  m <| handler_ := h |> <| environment := env |>.

Definition handle_message (text : string) (wall : ReceiveWallTimestamp)
    (mono : ReceiveMonotonicTimestamp) m : Manager E * bool :=
  if negb (connected_ m) then (m, false)
  else
    let previous_state := state_ (manager_book m) in
    let h := with_connection_id m in
    let '(h, env, r) :=
      handle products publish (live_clock (next_index_ h)) h (environment m) text wall mono in
    message_done previous_state r (account_change previous_state (with_handler h env m)).

Definition check_health m : Manager E :=
  if stopping_ m then m
  else if negb (connected_ m) then
    if recovery_pending_ m then m
    else
      let '(m, now) := read_clock m in
      if mono_ns now - mono_ns (cm_connected_at_ m) >? 30000000000
      then recover "Coinbase connection timeout" Disconnected m else m
  else
    let '(m, now) := read_clock m in
    let reason := failure (health (market (handler_ m))) now (config m) in
    if String.eqb reason "" then transition (state_ (manager_book m)) EmptyString m
    else
      let m := if String.eqb reason "Coinbase heartbeat timeout"
               then on_health (λ h, h <| heartbeat_timeouts ::= incr64 |>) m else m in
      recover reason Stale m.

Definition force_disconnect_for_test m : Manager E := recover "forced local disconnect" Disconnected m.

(** The constructor. *)
Definition new_manager (c : FeedHealthConfig) (env : E) : result (Manager E) :=
  if (check_interval c <=? 0) || (max_any_message_age c <=? 0) || (max_heartbeat_age c <=? 0) ||
     match max_instrument_message_age c with Some a => a <=? 0 | None => false end
  then Throw (InvalidArgument "health intervals must be positive")
  else
    let m := {| config := c;
                handler_ := {| market := {| book := mark_disconnected (new_book Coinbase BTC_USD);
                                            tracker := {| last_ := None |}; health := new_health |};
                               handler_connection_id := 0; progress := new_progress; next_index_ := 0 |};
                terminal_ := false; backoff_ := new_policy; cm_metrics := new_metrics;
                stopping_ := true; recovery_pending_ := false; connected_ := false;
                generation_ := 0; connection_id_ := 0; state_since_ := {| mono_ns := 0 |};
                cm_connected_at_ := {| mono_ns := 0 |}; recovery_since_ := None; clock_reads := 0;
                actions := []; environment := env |} in
    let '(m, now) := read_clock m in
    Ok (m <| state_since_ := now |>).

(** ** Runs *)

(** The entry points and the callbacks, with the generation they captured. *)
Inductive event :=
  | Start | Stop | ForceDisconnect | Tick
  | TerminalFailure (error : string)
  | Message (generation : Z) (text : string) (wall : ReceiveWallTimestamp)
      (mono : ReceiveMonotonicTimestamp)
  | TransportError (generation : Z) (reason : string)
  | TransportConnected (generation : Z)
  | Resume (generation : Z).

(** [stopping_ || generation != generation_] *)
Definition stale_callback (generation : Z) m : bool :=
  stopping_ m || negb (generation =? generation_ m).

Definition step m (e : event) : Manager E :=
  match e with
  | Start => start m
  | Stop => stop m
  | ForceDisconnect => force_disconnect_for_test m
  | Tick => if stopping_ m then m else check_health m
  | TerminalFailure error => terminal_recording_failure error m
  | Message g text wall mono =>
      if stale_callback g m then m else (handle_message text wall mono m).1
  | TransportError g reason =>
      if stale_callback g m then m else recover reason Disconnected m
  | TransportConnected g => if stale_callback g m then m else handle_connected m
  | Resume g => if stale_callback g m then m else begin_connection m
  end.
End manager.

(** ** Lemmas: what each operation touches *)

(** The control fields of a manager. *)
Definition control {E} (m : Manager E) : bool * bool * bool * bool * Z * Z :=
  (terminal_ m, stopping_ m, recovery_pending_ m, connected_ m, generation_ m, connection_id_ m).

Section lemmas.
Context `{JsonLib} (products : Products) `{RecordingSink E}.
Context (publish : ProcessResult → RuntimeProgress → Market → E → E).
Context (clock : nat → ReceiveMonotonicTimestamp) (live_clock : Z → ReceiveMonotonicTimestamp).
Implicit Types m : Manager E.

Abbreviation transition := (transition clock).
Abbreviation recover := (recover clock).
Abbreviation stop := (stop clock).
Abbreviation begin_connection := (begin_connection clock).
Abbreviation handle_connected := (handle_connected clock).
Abbreviation handle_message := (handle_message products publish clock live_clock).
Abbreviation step := (step products publish clock live_clock).

(** The lifecycle events among the actions. *)
Definition observed_events (l : list action) : list LifecycleEvent :=
  omap (λ a, match a with Observed e => Some e | _ => None end) l.

(** The index before which a lifecycle event happens. *)
Definition next_record (h : Handler) : Z :=
  match last_received_index (progress h) with Some i => incr64 i | None => 0 end.

Definition observation (state : BookState) (reason : string) (h : Handler) : list action :=
  if String.eqb reason "" then []
  else [Observed {| before_record_index := next_record h; lifecycle_state := state;
                    lifecycle_reason := reason |}].

Lemma account_time_fields state m :
  control (account_time clock state m) = control m ∧ backoff_ (account_time clock state m) = backoff_ m ∧
  actions (account_time clock state m) = actions m ∧ handler_ (account_time clock state m) = handler_ m ∧
  environment (account_time clock state m) = environment m.
Proof. done. Qed.

Definition set_state (state : BookState) (b : OrderBook) : OrderBook :=
  if bool_decide (state = Valid) then b else b <| state_ := state |>.

Lemma transition_fields state reason m :
  let m' := transition state reason m in
  control m' = control m ∧ backoff_ m' = backoff_ m ∧ environment m' = environment m ∧
  actions m' = actions m ++ observation state reason (handler_ m) ∧
  handler_ m' = (handler_ m) <| market ::= λ k, k <| book ::= set_state state |> |>.
Proof.
  cbn zeta. unfold ConnectionManager.transition, observation, next_record.
  destruct (String.eqb reason ""); [rewrite app_nil_r|]; destruct state; cbn;
    (split_and!; try done); by destruct (handler_ m) as [[]].
Qed.

Lemma count_recovery_fields reason m :
  let m' := count_recovery reason m in
  control m' = (terminal_ m, stopping_ m, recovery_pending_ m, false, generation_ m, connection_id_ m) ∧
  backoff_ m' = backoff_ m ∧ environment m' = environment m ∧ actions m' = actions m ∧
  handler_ m' = handler_ m.
Proof. cbn zeta. unfold count_recovery, control. by destruct (connected_ m). Qed.

Lemma note_recovery_since_fields m :
  let m' := note_recovery_since clock m in
  control m' = control m ∧ backoff_ m' = backoff_ m ∧ environment m' = environment m ∧
  actions m' = actions m ∧ handler_ m' = handler_ m.
Proof. cbn zeta. unfold note_recovery_since. by destruct (recovery_since_ m). Qed.

Lemma schedule_resume_fields m :
  let m' := schedule_resume m in
  control m' = control m ∧ backoff_ m' = (next_delay (backoff_ m)).1 ∧ environment m' = environment m ∧
  actions m' = actions m ++ [CloseTransport; Schedule (delay_ (backoff_ m)) (generation_ m)] ∧
  handler_ m' = handler_ m.
Proof. cbn. by rewrite <-app_assoc. Qed.

Lemma recover_fields reason state m :
  stopping_ m = false → recovery_pending_ m = false → state ≠ Valid →
  let m' := recover reason state m in
  control m' = (terminal_ m, false, true, false, incr64 (generation_ m), connection_id_ m) ∧
  backoff_ m' = (next_delay (backoff_ m)).1 ∧ environment m' = environment m ∧
  actions m' = actions m ++ observation state reason (handler_ m) ++
               [CloseTransport; Schedule (delay_ (backoff_ m)) (incr64 (generation_ m))] ∧
  handler_ m' = (handler_ m) <| market ::= λ k,
    k <| book ::= λ b, b <| state_ := state |> |> <| tracker ::= tracker_reset |> |>.
Proof.
  cbn zeta. intros Hs Hr Hv. unfold ConnectionManager.recover. rewrite Hs, Hr. cbn [orb].
  set (m0 := m <| recovery_pending_ := true |> <| generation_ ::= incr64 |>).
  destruct (transition_fields state reason m0) as (Hc & Hb & He & Ha & Hh).
  generalize dependent (transition state reason m0). intros m1 Hc Hb He Ha Hh.
  unfold set_state in Hh. rewrite bool_decide_false in Hh by done.
  destruct (count_recovery_fields reason (reset_sequence m1)) as (Hc1 & Hb1 & He1 & Ha1 & Hh1).
  generalize dependent (count_recovery reason (reset_sequence m1)). intros m2 Hc1 Hb1 He1 Ha1 Hh1.
  destruct (note_recovery_since_fields m2) as (Hc2 & Hb2 & He2 & Ha2 & Hh2).
  generalize dependent (note_recovery_since clock m2). intros m3 Hc2 Hb2 He2 Ha2 Hh2.
  destruct (schedule_resume_fields m3) as (Hc3 & Hb3 & He3 & Ha3 & Hh3).
  rewrite Hc3, Hb3, He3, Ha3, Hh3, Hc2, Hb2, He2, Ha2, Hh2, Hc1, Hb1, He1, Ha1, Hh1.
  unfold control in Hc, Hc1, Hc2. injection Hc as Ht Hs' Hp Hk Hg Hi. injection Hc1 as _ _ _ _ Hg1 _.
  injection Hc2 as _ _ _ _ Hg2 _. rewrite Hg2, Hg1. cbn in *.
  rewrite Ht, Hs', Hp, Hg, Hi, Hs, Hb, He, Ha, Hh, <-app_assoc. done.
Qed.

Lemma stop_fields m :
  stopping_ m = false →
  let m' := stop m in
  control m' = (terminal_ m, true, false, false, incr64 (generation_ m), connection_id_ m) ∧
  backoff_ m' = backoff_ m ∧ environment m' = environment m ∧
  actions m' = actions m ++ [CloseTransport] ++ observation Disconnected "requested_shutdown" (handler_ m) ∧
  handler_ m' = (handler_ m) <| market ::= λ k,
    k <| book ::= mark_disconnected |> <| tracker ::= tracker_reset |> |>.
Proof.
  cbn zeta. intros Hs. unfold ConnectionManager.stop. rewrite Hs.
  match goal with |- context [transition Disconnected "requested_shutdown" ?x] => set (m0 := x) end.
  destruct (transition_fields Disconnected "requested_shutdown" m0) as (Hc & Hb & He & Ha & Hh).
  rewrite Hc, Hb, He, Ha, Hh. cbn. by rewrite <-!app_assoc.
Qed.

Lemma begin_connection_fields m :
  stopping_ m = false →
  let m' := begin_connection m in
  control m' = (terminal_ m, false, false, false, incr64 (generation_ m), connection_id_ m) ∧
  backoff_ m' = backoff_ m ∧ environment m' = environment m ∧
  actions m' = actions m ++ observation Resyncing "resynchronization" (handler_ m) ++
               [Connect (incr64 (generation_ m))] ∧
  handler_ m' = (handler_ m) <| market ::= λ k,
    k <| book ::= mark_resyncing |> <| tracker ::= tracker_reset |> |>.
Proof.
  cbn zeta. intros Hs. unfold ConnectionManager.begin_connection. rewrite Hs.
  set (m0 := m <| recovery_pending_ := false |> <| connected_ := false |>).
  destruct (transition_fields Resyncing "resynchronization" m0) as (Hc & Hb & He & Ha & Hh).
  generalize dependent (transition Resyncing "resynchronization" m0). intros m1 Hc Hb He Ha Hh.
  unfold control in *. destruct m1. cbn in *. simplify_eq. cbn.
  split_and!; rewrite ?Hs, <-?app_assoc; done.
Qed.

Lemma handle_connected_fields m :
  connected_ m = false →
  let m' := handle_connected m in
  control m' = (terminal_ m, stopping_ m, recovery_pending_ m, true, generation_ m, incr64 (connection_id_ m)) ∧
  backoff_ m' = backoff_ m ∧ environment m' = environment m ∧
  actions m' = actions m ++ observation Initializing "new_connection" (handler_ m) ∧
  ∃ now, handler_ m' = (handler_ m) <| market ::= λ k,
    k <| book ::= mark_initializing |> <| tracker ::= tracker_reset |>
      <| health ::= λ h, health_reset h now |> |>.
Proof.
  cbn zeta. intros Hs. unfold ConnectionManager.handle_connected. rewrite Hs. cbn [read_clock].
  match goal with |- context [transition Initializing "new_connection" ?x] => set (m0 := x) end.
  destruct (transition_fields Initializing "new_connection" m0) as (Hc & Hb & He & Ha & Hh).
  rewrite Hc, Hb, He, Ha, Hh. cbn. split_and!; try done. eexists. done.
Qed.

Lemma terminal_failure_fields error m :
  (stopping_ m = true → connected_ m = false ∧ recovery_pending_ m = false) →
  let m' := terminal_recording_failure clock error m in
  (terminal_ m', stopping_ m', recovery_pending_ m', connected_ m') = (true, true, false, false) ∧
  backoff_ m' = backoff_ m ∧ environment m' = environment m ∧ connection_id_ m' = connection_id_ m ∧
  generation_ m' = (if stopping_ m then generation_ m else incr64 (generation_ m)) ∧
  actions m' = actions m ++
    (if stopping_ m then []
     else [CloseTransport] ++ observation Disconnected "requested_shutdown" (handler_ m)) ++
    observation Invalid "terminal_failure" (handler_ m) ∧
  handler_ m' = (handler_ m) <| market ::= λ k, k <| book ::= invalidate |>
    <| tracker ::= λ t, if stopping_ m then t else tracker_reset t |> |>.
Proof.
  cbn zeta. intros Hst. unfold terminal_recording_failure. set (m0 := m <| terminal_ := true |>).
  assert (∃ m2, stop m0 = m2 ∧
    control m2 = (true, true, false, false,
                  if stopping_ m then generation_ m else incr64 (generation_ m), connection_id_ m) ∧
    backoff_ m2 = backoff_ m ∧ environment m2 = environment m ∧
    actions m2 = actions m ++
      (if stopping_ m then []
       else [CloseTransport] ++ observation Disconnected "requested_shutdown" (handler_ m)) ∧
    handler_ m2 = (handler_ m) <| market ::= λ k,
      k <| book ::= λ b, if stopping_ m then b else mark_disconnected b |>
        <| tracker ::= λ t, if stopping_ m then t else tracker_reset t |> |>)
    as (m2 & -> & Hc2 & Hb2 & He2 & Ha2 & Hh2).
  { eexists. split; [done|]. destruct (stopping_ m) eqn:Hs.
    - unfold ConnectionManager.stop. cbn. rewrite Hs. unfold control. cbn. rewrite Hs.
      destruct (Hst eq_refl) as [-> ->]. rewrite app_nil_r. split_and!; [done..|].
      by destruct (handler_ m) as [[]].
    - exact (stop_fields m0 Hs). }
  clearbody m0. unfold control in Hc2. injection Hc2 as Ht2 Hs2 Hp2 Hk2 Hg2 Hi2.
  set (m3 := m2 <| cm_metrics ::= λ k, k <| last_failure_reason := error |> |>).
  destruct (transition_fields Invalid "terminal_failure" m3) as (Hc & Hb & He & Ha & Hh).
  generalize dependent (transition Invalid "terminal_failure" m3). intros m1 Hc Hb He Ha Hh.
  unfold control in Hc. injection Hc as Ht Hs Hp Hk Hg Hi.
  subst m3. cbn in *. rewrite Hh2 in Hh, Ha. split_and!; try congruence.
  - rewrite Ha, Ha2, <-app_assoc. done.
  - rewrite Hh. cbn. by destruct (stopping_ m).
Qed.

Lemma account_change_fields previous h env m :
  let m' := account_change clock previous (with_handler h env m) in
  control m' = control m ∧ backoff_ m' = backoff_ m ∧ environment m' = env ∧
  actions m' = actions m ∧ handler_ m' = h.
Proof. cbn zeta. unfold account_change. by case_bool_decide. Qed.

Lemma message_accepted_fields previous r m :
  let m' := message_accepted clock previous r m in
  control m' = control m ∧ (backoff_ m' = backoff_ m ∨ backoff_ m' = new_policy) ∧
  environment m' = environment m ∧ actions m' = actions m ∧ handler_ m' = handler_ m.
Proof.
  cbn zeta. unfold message_accepted. destruct (_ && _ && _); [|by split_and!; auto].
  destruct m as [? ? ? ? ? ? ? ? ? ? ? ? [?|] ? ? ?]; cbn; by split_and!; auto.
Qed.

(** The three ways [handle_message] ends, after the handler has run. *)
Lemma handle_message_cases text wall mono m h env r :
  connected_ m = true →
  handle products publish (live_clock (next_index_ (with_connection_id m))) (with_connection_id m)
    (environment m) text wall mono = (h, env, r) →
  ∃ m1, control m1 = control m ∧ backoff_ m1 = backoff_ m ∧ environment m1 = env ∧
    actions m1 = actions m ∧ handler_ m1 = h ∧
    ((outcome r = MessageOutcome.RecordingRejected ∧
        (handle_message text wall mono m).1 = terminal_recording_failure clock (pr_error r) m1) ∨
     (outcome r ≠ MessageOutcome.RecordingRejected ∧ pr_error r ≠ EmptyString ∧
        (handle_message text wall mono m).1 = recover (pr_error r) Invalid m1) ∨
     (outcome r ≠ MessageOutcome.RecordingRejected ∧ pr_error r = EmptyString ∧
        (handle_message text wall mono m).1 =
          message_accepted clock (state_ (manager_book m)) r m1)).
Proof.
  intros Hc Hh. unfold ConnectionManager.handle_message. rewrite Hc, Hh. cbn [negb].
  destruct (account_change_fields (state_ (manager_book m)) h env m) as (H1 & H2 & H3 & H4 & H5).
  generalize dependent (account_change clock (state_ (manager_book m)) (with_handler h env m)).
  intros m1 H1 H2 H3 H4 H5. unfold message_done. case_bool_decide as Ho.
  { exists m1. split_and!; [done..|]. by left. }
  destruct (String.eqb_spec (pr_error r) "") as [He|He]; cbn [negb].
  - exists m1. split_and!; [done..|]. right. right. done.
  - exists (if String.eqb (pr_error r) "L2 update before snapshot"
            then m1 <| cm_metrics ::= λ k, k <| updates_before_snapshot ::= incr64 |> |> else m1).
    destruct (String.eqb _ _); (split_and!; [done..|]); right; left; done.
Qed.
End lemmas.

(** ** The invariant *)

Definition delay_ok (a : action) : Prop :=
  match a with Schedule d _ => 250 ≤ d ≤ 10000 | _ => True end.

(** Generations of the callbacks an action hands out. *)
Definition issued_by (g : Z) (a : action) : Prop :=
  match a with Connect g' | Schedule _ g' => g' ≤ g | _ => True end.
Definition no_connect (g : Z) (a : action) : Prop := match a with Connect g' => g' ≠ g | _ => True end.
Definition no_resume (g : Z) (a : action) : Prop := match a with Schedule _ g' => g' ≠ g | _ => True end.

(** The generations of the callbacks handed out are not in the future, and the
    current one belongs to a connection attempt or to a resumption, never to
    both. *)
Record manager_inv {E} (m : Manager E) : Prop := {
  mi_connected : connected_ m = true → stopping_ m = false ∧ recovery_pending_ m = false;
  mi_pending : recovery_pending_ m = true → stopping_ m = false;
  mi_valid : state_ (manager_book m) = Valid → connected_ m = true;
  mi_terminal : terminal_ m = true → stopping_ m = true;
  mi_running : stopping_ m = false → recovery_pending_ m = false → Connect (generation_ m) ∈ actions m;
  mi_resume : recovery_pending_ m = true → ∃ d, Schedule d (generation_ m) ∈ actions m;
  mi_issued : Forall (issued_by (generation_ m)) (actions m);
  mi_fresh_connect : recovery_pending_ m = true → Forall (no_connect (generation_ m)) (actions m);
  mi_fresh_resume : recovery_pending_ m = false → Forall (no_resume (generation_ m)) (actions m);
  mi_nonneg : 0 ≤ generation_ m;
  mi_delays : Forall delay_ok (actions m);
  mi_policy : policy_ok (backoff_ m);
}.

(** Actions that hand out no callback. *)
Definition quiet (a : action) : Prop := match a with Connect _ | Schedule _ _ => False | _ => True end.

Lemma quiet_forall (P : action → Prop) l :
  P CloseTransport → (∀ e, P (Observed e)) → Forall quiet l → Forall P l.
Proof. intros H1 H2 Hq. eapply Forall_impl; [exact Hq|]. intros []; naive_solver. Qed.

Lemma observation_quiet state reason h : Forall quiet (observation state reason h).
Proof. unfold observation. destruct (String.eqb reason ""); repeat constructor. Qed.

(** Properties of the actions of an operation: earlier ones, lifecycle
    observations, and the explicit tail. *)
Ltac actions_forall :=
  rewrite ?Forall_app; split_and!;
  try (apply quiet_forall; [done|done|apply observation_quiet]); try (repeat constructor; cbn; lia).

Section invariant.
Context `{JsonLib} (products : Products) `{RecordingSink E}.
Context (publish : ProcessResult → RuntimeProgress → Market → E → E).
Context (clock : nat → ReceiveMonotonicTimestamp) (live_clock : Z → ReceiveMonotonicTimestamp).
Implicit Types m : Manager E.

Lemma idle_lost m : manager_inv m → stopping_ m = true → connected_ m = false ∧ recovery_pending_ m = false.
Proof.
  intros Hi Hs. split; apply not_true_is_false; intros Hx.
  - apply (mi_connected _ Hi) in Hx as [? _]. congruence.
  - apply (mi_pending _ Hi) in Hx. congruence.
Qed.

(** No callback of the next generation has been handed out. *)
Lemma next_generation m :
  manager_inv m → generation_ m < UINT64_MAX →
  incr64 (generation_ m) = generation_ m + 1 ∧
  Forall (issued_by (generation_ m + 1)) (actions m) ∧
  Forall (no_connect (generation_ m + 1)) (actions m) ∧
  Forall (no_resume (generation_ m + 1)) (actions m).
Proof.
  intros Hi Hg. pose proof (mi_nonneg _ Hi). rewrite incr64_small by lia. split; [done|].
  split_and!; (eapply Forall_impl; [apply Hi|]); intros []; cbn; lia.
Qed.

(** An operation that keeps the control fields and hands out no callback. *)
Lemma inv_frame m m' l :
  manager_inv m → control m' = control m → actions m' = actions m ++ l → Forall quiet l →
  (state_ (manager_book m') = Valid → state_ (manager_book m) = Valid ∨ connected_ m = true) →
  policy_ok (backoff_ m') → manager_inv m'.
Proof.
  unfold control. intros Hi [= Ht Hs Hp Hk Hg _] Ha Hl Hv Hb.
  destruct Hi as [I1 I2 I3 I4 I5 I6 I7 I8 I9 I10 I11 I12].
  assert (∀ P, P CloseTransport → (∀ e, P (Observed e)) → Forall P (actions m) →
    Forall P (actions m ++ l)) as Hext.
  { intros. apply Forall_app. split; [done|]. by apply quiet_forall. }
  split; rewrite ?Ht, ?Hs, ?Hp, ?Hk, ?Hg, ?Ha; try (intros; apply Hext; by auto); auto.
  - intros [?|?]%Hv; auto.
  - intros. apply elem_of_app. auto.
  - intros Hr. destruct (I6 Hr) as [d ?]. exists d. apply elem_of_app. auto.
Qed.

Lemma inv_same m m' :
  manager_inv m → control m' = control m → actions m' = actions m →
  (state_ (manager_book m') = Valid → state_ (manager_book m) = Valid ∨ connected_ m = true) →
  policy_ok (backoff_ m') → manager_inv m'.
Proof.
  intros Hi Hc Ha Hv Hb. apply (inv_frame m m' []); auto. by rewrite app_nil_r.
Qed.

Lemma recover_inv reason state m :
  state ≠ Valid → manager_inv m → generation_ m < UINT64_MAX → manager_inv (recover clock reason state m).
Proof.
  intros Hv Hi Hmax. destruct (stopping_ m) eqn:Hs; [by unfold recover; rewrite Hs|].
  destruct (recovery_pending_ m) eqn:Hp; [by unfold recover; rewrite Hs, Hp|].
  destruct (recover_fields clock reason state m Hs Hp Hv) as (Hc & Hb & _ & Ha & Hh).
  generalize dependent (recover clock reason state m). intros m' Hc Hb Ha Hh.
  unfold control in Hc. injection Hc as Ht Hs' Hp' Hk Hg _.
  destruct (next_generation m Hi Hmax) as (Hn & Hfi & Hfc & Hfr). rewrite Hn in *.
  pose proof (mi_policy _ Hi) as Hpol. pose proof (mi_nonneg _ Hi).
  split; unfold manager_book; rewrite ?Ht, ?Hs', ?Hp', ?Hk, ?Hg, ?Ha, ?Hh; try done; try lia.
  - intros Hter. by rewrite (mi_terminal _ Hi Hter) in Hs.
  - intros _. exists (delay_ (backoff_ m)). rewrite !elem_of_app. right. right. set_solver.
  - by actions_forall.
  - intros _. by actions_forall.
  - actions_forall; [apply Hi|]. repeat constructor; apply Hpol.
  - rewrite Hb. exact (proj1 (next_delay_ok _ Hpol)).
Qed.

Lemma begin_connection_inv m :
  stopping_ m = false → terminal_ m = false → 0 ≤ generation_ m < UINT64_MAX →
  Forall (issued_by (generation_ m)) (actions m) → Forall delay_ok (actions m) →
  policy_ok (backoff_ m) → manager_inv (begin_connection clock m).
Proof.
  intros Hs Hter Hmax Hiss Hd Hpol.
  destruct (begin_connection_fields clock m Hs) as (Hc & Hb & _ & Ha & Hh).
  generalize dependent (begin_connection clock m). intros m' Hc Hb Ha Hh.
  unfold control in Hc. injection Hc as Ht Hs' Hp' Hk Hg _. rewrite incr64_small in * by lia.
  assert (Forall (issued_by (generation_ m + 1)) (actions m) ∧
          Forall (no_resume (generation_ m + 1)) (actions m)) as [Hfi Hfr].
  { split; (eapply Forall_impl; [exact Hiss|]); intros []; cbn; lia. }
  split; unfold manager_book; rewrite ?Ht, ?Hs', ?Hp', ?Hk, ?Hg, ?Ha, ?Hh; try done; try lia.
  - congruence.
  - intros _ _. rewrite !elem_of_app. right. right. set_solver.
  - by actions_forall.
  - intros _. by actions_forall.
  - by actions_forall.
  - by rewrite Hb.
Qed.

Lemma handle_connected_inv m :
  manager_inv m → stopping_ m = false → recovery_pending_ m = false →
  manager_inv (handle_connected clock m).
Proof.
  intros Hi Hs Hp. destruct (connected_ m) eqn:Hk0; [by unfold handle_connected; rewrite Hk0|].
  destruct (handle_connected_fields clock m Hk0) as (Hc & Hb & _ & Ha & now & Hh).
  generalize dependent (handle_connected clock m). intros m' Hc Hb Ha Hh.
  unfold control in Hc. injection Hc as Ht Hs' Hp' Hk Hg _.
  destruct Hi as [I1 I2 I3 I4 I5 I6 I7 I8 I9 I10 I11 I12].
  split; unfold manager_book; rewrite ?Ht, ?Hs', ?Hp', ?Hk, ?Hg, ?Ha, ?Hh, ?Hb; try done;
    try (intros; actions_forall; by auto); try congruence.
  intros _ _. apply elem_of_app. auto.
Qed.

Lemma stop_inv m : manager_inv m → generation_ m < UINT64_MAX → manager_inv (stop clock m).
Proof.
  intros Hi Hmax. destruct (stopping_ m) eqn:Hs; [by unfold stop; rewrite Hs|].
  destruct (stop_fields clock m Hs) as (Hc & Hb & _ & Ha & Hh).
  generalize dependent (stop clock m). intros m' Hc Hb Ha Hh.
  unfold control in Hc. injection Hc as Ht Hs' Hp' Hk Hg _.
  destruct (next_generation m Hi Hmax) as (Hn & Hfi & Hfc & Hfr). rewrite Hn in *.
  pose proof (mi_nonneg _ Hi). pose proof (mi_delays _ Hi). pose proof (mi_policy _ Hi).
  split; unfold manager_book; rewrite ?Ht, ?Hs', ?Hp', ?Hk, ?Hg, ?Ha, ?Hh, ?Hb; try done; try lia;
    intros; by actions_forall.
Qed.

Lemma terminal_failure_inv error m :
  manager_inv m → generation_ m < UINT64_MAX → manager_inv (terminal_recording_failure clock error m).
Proof.
  intros Hi Hmax. destruct (terminal_failure_fields clock error m (idle_lost _ Hi))
    as (Hc & Hb & _ & _ & Hg & Ha & Hh).
  generalize dependent (terminal_recording_failure clock error m). intros m' Hc Hb Hg Ha Hh.
  injection Hc as Ht Hs' Hp' Hk.
  destruct (next_generation m Hi Hmax) as (Hn & Hfi & Hfc & Hfr). rewrite Hn in *.
  pose proof (idle_lost _ Hi) as Hidle. destruct Hi as [I1 I2 I3 I4 I5 I6 I7 I8 I9 I10 I11 I12].
  split; unfold manager_book; rewrite ?Ht, ?Hs', ?Hp', ?Hk, ?Hg, ?Ha, ?Hh, ?Hb; try done;
    destruct (stopping_ m); try lia; intros; actions_forall; try done.
  apply I9. by apply Hidle.
Qed.

Lemma handle_message_inv text wall mono m :
  manager_inv m → generation_ m < UINT64_MAX →
  manager_inv (handle_message products publish clock live_clock text wall mono m).1.
Proof.
  intros Hi Hmax. destruct (connected_ m) eqn:Hk; [|by unfold handle_message; rewrite Hk].
  destruct (handle products publish (live_clock (next_index_ (with_connection_id m)))
    (with_connection_id m) (environment m) text wall mono) as [[h env] r] eqn:Eh.
  destruct (handle_message_cases products publish clock live_clock text wall mono m h env r Hk Eh)
    as (m1 & Hc & Hb & _ & Ha & _ & Hcases).
  assert (manager_inv m1 ∧ generation_ m1 < UINT64_MAX) as [Hi1 Hmax1].
  { split; [|by unfold control in Hc; injection Hc as _ _ _ _ -> _].
    apply (inv_same m); [done..|by right|rewrite Hb; apply Hi]. }
  destruct Hcases as [(_ & ->)|[(_ & _ & ->)|(_ & _ & ->)]].
  - by apply terminal_failure_inv.
  - by apply recover_inv.
  - destruct (message_accepted_fields clock (state_ (manager_book m)) r m1) as (Hc2 & Hb2 & _ & Ha2 & _).
    apply (inv_same m1); [done..| |].
    + unfold control in Hc. injection Hc as _ _ _ -> _ _. by right.
    + destruct Hb2 as [->| ->]; [apply Hi1|done].
Qed.

Lemma check_health_inv m :
  manager_inv m → generation_ m < UINT64_MAX → manager_inv (check_health clock m).
Proof.
  intros Hi Hmax. unfold check_health. destruct (stopping_ m) eqn:Hs; [done|].
  assert (manager_inv (m <| clock_reads ::= S |>)) as Hi1 by (apply (inv_same m); auto; apply Hi).
  destruct (connected_ m) eqn:Hk; cbn [negb].
  - cbn [read_clock]. set (m1 := m <| clock_reads ::= S |>) in *.
    destruct (String.eqb _ ""); [|apply recover_inv; [done| |by destruct (String.eqb _ _)]].
    + destruct (transition_fields clock (state_ (manager_book m1)) EmptyString m1) as (Hc & Hb & _ & Ha & Hh).
      apply (inv_same m1); [done|done|by rewrite Ha, app_nil_r|by right|]. rewrite Hb. apply Hi1.
    + destruct (String.eqb _ _); [|done]. apply (inv_same m1); auto. apply Hi1.
  - destruct (recovery_pending_ m); [done|]. cbn [read_clock].
    destruct (_ >? _); [|done]. by apply recover_inv.
Qed.

Abbreviation step := (step products publish clock live_clock).

(** A callback can only fire if it was handed out. *)
Definition enabled m (e : event) : Prop :=
  match e with
  | Message g _ _ _ | TransportError g _ | TransportConnected g => Connect g ∈ actions m
  | Resume g => ∃ d, Schedule d g ∈ actions m
  | _ => True
  end.

Lemma stale_callback_false g m : stale_callback g m = false → stopping_ m = false ∧ g = generation_ m.
Proof. unfold stale_callback. intros [? Hg%negb_false_iff%Z.eqb_eq]%orb_false_iff. done. Qed.

(** A current transport callback belongs to the connection attempt. *)
Lemma current_connect g m :
  manager_inv m → Connect g ∈ actions m → g = generation_ m → recovery_pending_ m = false.
Proof.
  intros Hi Hin ->. apply not_true_is_false. intros Hp. pose proof (mi_fresh_connect _ Hi Hp) as Hf.
  rewrite Forall_forall in Hf. apply Hf in Hin. done.
Qed.

Lemma step_inv m e :
  manager_inv m → enabled m e → generation_ m < UINT64_MAX → manager_inv (step m e).
Proof.
  intros Hi He Hmax. pose proof (mi_nonneg _ Hi).
  destruct e; cbn [ConnectionManager.step enabled] in *.
  - unfold start. destruct (negb (stopping_ m) || terminal_ m) eqn:Eg; [done|].
    apply orb_false_iff in Eg as [Hs%negb_false_iff Ht].
    apply begin_connection_inv; [done|done|cbn; lia|apply Hi..].
  - by apply stop_inv.
  - by apply recover_inv.
  - destruct (stopping_ m); [done|]. by apply check_health_inv.
  - by apply terminal_failure_inv.
  - destruct (stale_callback generation m); [done|]. by apply handle_message_inv.
  - destruct (stale_callback generation m); [done|]. by apply recover_inv.
  - destruct (stale_callback generation m) eqn:Eg; [done|]. apply stale_callback_false in Eg as [Hs Hg].
    apply handle_connected_inv; [done..|]. by eapply current_connect.
  - destruct (stale_callback generation m) eqn:Eg; [done|]. apply stale_callback_false in Eg as [Hs Hg].
    apply begin_connection_inv; [done| |lia|apply Hi..].
    apply not_true_is_false. intros Ht%(mi_terminal _ Hi). congruence.
Qed.

(** ** Generations only grow *)

(** A step keeps the connection and its generation, or moves to the next one. *)
Definition generation_step m m' : Prop :=
  (generation_ m' = generation_ m ∧ (connected_ m = true → connected_ m' = true)) ∨
  generation_ m' = generation_ m + 1.

Lemma generation_same m m' : control m' = control m → generation_step m m'.
Proof. unfold control. intros [= _ _ _ Hk Hg _]. left. by rewrite Hg, Hk. Qed.

Lemma recover_generation reason state m :
  state ≠ Valid → 0 ≤ generation_ m < UINT64_MAX → generation_step m (recover clock reason state m).
Proof.
  intros Hv Hmax. destruct (stopping_ m) eqn:Hs; [unfold recover; rewrite Hs; by apply generation_same|].
  destruct (recovery_pending_ m) eqn:Hp; [unfold recover; rewrite Hs, Hp; by apply generation_same|].
  destruct (recover_fields clock reason state m Hs Hp Hv) as (Hc & _). right.
  unfold control in Hc. injection Hc as _ _ _ _ -> _. by apply incr64_small.
Qed.

Lemma begin_connection_generation m :
  0 ≤ generation_ m < UINT64_MAX → generation_step m (begin_connection clock m).
Proof.
  intros Hmax. destruct (stopping_ m) eqn:Hs; [unfold begin_connection; rewrite Hs; by apply generation_same|].
  destruct (begin_connection_fields clock m Hs) as (Hc & _). right.
  unfold control in Hc. injection Hc as _ _ _ _ -> _. by apply incr64_small.
Qed.

Lemma stop_generation m : 0 ≤ generation_ m < UINT64_MAX → generation_step m (stop clock m).
Proof.
  intros Hmax. destruct (stopping_ m) eqn:Hs; [unfold stop; rewrite Hs; by apply generation_same|].
  destruct (stop_fields clock m Hs) as (Hc & _). right.
  unfold control in Hc. injection Hc as _ _ _ _ -> _. by apply incr64_small.
Qed.

Lemma terminal_generation error m :
  manager_inv m → generation_ m < UINT64_MAX →
  generation_step m (terminal_recording_failure clock error m).
Proof.
  intros Hi Hmax. destruct (terminal_failure_fields clock error m (idle_lost _ Hi)) as (_ & _ & _ & _ & Hg & _).
  unfold generation_step. rewrite Hg. pose proof (mi_nonneg _ Hi).
  destruct (stopping_ m) eqn:Hs; [left|right; apply incr64_small; lia].
  split; [done|]. intros Hk. apply (mi_connected _ Hi) in Hk as [? _]. congruence.
Qed.

Lemma handle_message_generation text wall mono m :
  manager_inv m → generation_ m < UINT64_MAX →
  generation_step m (handle_message products publish clock live_clock text wall mono m).1.
Proof.
  intros Hi Hmax. pose proof (mi_nonneg _ Hi).
  destruct (connected_ m) eqn:Hk; [|unfold handle_message; rewrite Hk; by apply generation_same].
  destruct (handle products publish (live_clock (next_index_ (with_connection_id m)))
    (with_connection_id m) (environment m) text wall mono) as [[h env] r] eqn:Eh.
  destruct (handle_message_cases products publish clock live_clock text wall mono m h env r Hk Eh)
    as (m1 & Hc & Hb & _ & Ha & _ & Hcases).
  assert (manager_inv m1) as Hi1 by (apply (inv_same m); [done..|by right|rewrite Hb; apply Hi]).
  assert (∀ m2, generation_step m1 m2 → generation_step m m2) as Hstep.
  { unfold control in Hc. injection Hc as _ _ _ Hk1 Hg1 _. unfold generation_step. by rewrite Hk1, Hg1. }
  assert (generation_ m1 = generation_ m) as Hg1 by (unfold control in Hc; by injection Hc).
  destruct Hcases as [(_ & ->)|[(_ & _ & ->)|(_ & _ & ->)]]; apply Hstep.
  - apply terminal_generation; [done|lia].
  - apply recover_generation; [done|lia].
  - apply generation_same, message_accepted_fields.
Qed.

Lemma step_generation m e :
  manager_inv m → generation_ m < UINT64_MAX → generation_step m (step m e).
Proof.
  intros Hi Hmax. pose proof (mi_nonneg _ Hi). assert (generation_step m m) as Hm by by apply generation_same.
  destruct e; cbn [ConnectionManager.step].
  - unfold start. destruct (negb (stopping_ m) || terminal_ m); [done|].
    set (m1 := m <| stopping_ := false |>). exact (begin_connection_generation m1 (conj H1 Hmax)).
  - by apply stop_generation.
  - by apply recover_generation.
  - destruct (stopping_ m) eqn:Hs; [done|]. unfold check_health. rewrite Hs.
    destruct (connected_ m) eqn:Hk; cbn [negb].
    + cbn [read_clock]. set (m1 := m <| clock_reads ::= S |>).
      set (reason := failure _ _ _).
      destruct (String.eqb reason ""); [apply (generation_same m1), transition_fields|].
      destruct (String.eqb _ _); [|exact (recover_generation reason Stale m1 ltac:(done) (conj H1 Hmax))].
      set (m2 := on_health (λ h, h <| heartbeat_timeouts ::= incr64 |>) m1).
      exact (recover_generation reason Stale m2 ltac:(done) (conj H1 Hmax)).
    + destruct (recovery_pending_ m); [done|]. cbn [read_clock]. set (m1 := m <| clock_reads ::= S |>).
      destruct (_ >? _); [|done].
      exact (recover_generation _ Disconnected m1 ltac:(done) (conj H1 Hmax)).
  - by apply terminal_generation.
  - destruct (stale_callback generation m); [done|]. by apply handle_message_generation.
  - destruct (stale_callback generation m); [done|]. by apply recover_generation.
  - destruct (stale_callback generation m); [done|].
    destruct (connected_ m) eqn:Hk; [unfold handle_connected; by rewrite Hk|].
    destruct (handle_connected_fields clock m Hk) as (Hc & _). unfold control in Hc.
    left. injection Hc as _ _ _ -> -> _. done.
  - destruct (stale_callback generation m); [done|]. by apply begin_connection_generation.
Qed.
End invariant.

(** ** Reachable managers *)

Section theorems.
Context `{JsonLib} (products : Products) `{RecordingSink E}.
Context (publish : ProcessResult → RuntimeProgress → Market → E → E).
Context (clock : nat → ReceiveMonotonicTimestamp) (live_clock : Z → ReceiveMonotonicTimestamp).
Implicit Types m : Manager E.

Abbreviation step := (step products publish clock live_clock).

(** The environment changes between callbacks, as when the writer thread takes
    a record from the queue; the log stays. *)
Definition with_environment (env : E) m : Manager E := m <| environment := env |>.

(** Runs in which callbacks fire only after they were handed out; the 64-bit
    generation counter has room for one more step. *)
Inductive manager_run m : list event → Manager E → Prop :=
  | manager_run_nil : manager_run m [] m
  | manager_run_snoc es m1 e :
      manager_run m es m1 → enabled m1 e → generation_ m1 < UINT64_MAX →
      manager_run m (es ++ [e]) (step m1 e)
  | manager_run_environment es m1 env :
      manager_run m es m1 → sink_log env = sink_log (environment m1) →
      manager_run m es (with_environment env m1).

Lemma with_environment_inv env m : manager_inv m → manager_inv (with_environment env m).
Proof. by intros []. Qed.

Lemma new_manager_inv c env m : new_manager clock c env = Ok m → manager_inv m.
Proof.
  unfold new_manager. destruct (_ || _); [done|]. intros [= <-]. split; cbn; try done; try lia.
Qed.

Lemma manager_run_inv m es m' : manager_inv m → manager_run m es m' → manager_inv m'.
Proof. intros Hi Hr. induction Hr; auto using step_inv, with_environment_inv. Qed.

Lemma manager_run_generation m es m' :
  manager_inv m → manager_run m es m' →
  generation_ m ≤ generation_ m'.
Proof.
  intros Hi Hr. induction Hr as [|es m1 e Hr IH He Hmax|]; [done| |done].
  pose proof (manager_run_inv _ _ _ Hi Hr) as Hi1.
  destruct (step_generation products publish clock live_clock m1 e Hi1 Hmax) as [[-> _]| ->]; lia.
Qed.


(** C23: a running manager never gets stuck.  Either it is recovering, and a
    resumption of the current generation has been scheduled that starts the
    next connection; or a connection attempt of the current generation is
    under way, whose success callback connects, and if none arrives within
    30 seconds the next health check starts a recovery. *)
Theorem manager_progress c env m0 es m :
  new_manager clock c env = Ok m0 → manager_run m0 es m → stopping_ m = false →
  (recovery_pending_ m = true ∧
     (∃ d, Schedule d (generation_ m) ∈ actions m) ∧
     Connect (incr64 (generation_ m)) ∈ actions (step m (Resume (generation_ m))) ∧
     recovery_pending_ (step m (Resume (generation_ m))) = false) ∨
  (recovery_pending_ m = false ∧ Connect (generation_ m) ∈ actions m ∧
     connected_ (step m (TransportConnected (generation_ m))) = true ∧
     (connected_ m = false →
        30000000000 < mono_ns (clock (clock_reads m)) - mono_ns (cm_connected_at_ m) →
        recovery_pending_ (step m Tick) = true)).
Proof.
  intros Hn%new_manager_inv Hr Hs. pose proof (manager_run_inv _ _ _ Hn Hr) as Hi.
  assert (stale_callback (generation_ m) m = false) as Hst
    by (unfold stale_callback; by rewrite Hs, Z.eqb_refl).
  cbn [ConnectionManager.step]. rewrite Hst. destruct (recovery_pending_ m) eqn:Hp; [left|right].
  - destruct (begin_connection_fields clock m Hs) as (Hc & _ & _ & Ha & _).
    unfold control in Hc. injection Hc as _ _ -> _ _ _. rewrite Ha.
    split_and!; [done|by apply (mi_resume _ Hi)| |done]. rewrite !elem_of_app. right. right. set_solver.
  - split_and!; [done|by apply (mi_running _ Hi)| |].
    + destruct (connected_ m) eqn:Hk; [unfold handle_connected; by rewrite Hk|].
      destruct (handle_connected_fields clock m Hk) as (Hc & _). unfold control in Hc.
      by injection Hc as _ _ _ -> _ _.
    + intros Hk Ht. rewrite Hs. unfold check_health. rewrite Hs, Hk, Hp. cbn [negb read_clock].
      set (m1 := m <| clock_reads ::= S |>).
      change (cm_connected_at_ m1) with (cm_connected_at_ m).
      rewrite Z.gtb_ltb, (proj2 (Z.ltb_lt _ _) Ht).
      destruct (recover_fields clock "Coinbase connection timeout" Disconnected m1 Hs Hp ltac:(done)) as (Hc & _).
      unfold control in Hc. by injection Hc as _ _ -> _ _ _.
Qed.

(** C27: callbacks are fenced by generation: once a connection is lost, by
    recovery, restart or stop, none of its callbacks, messages included, ever
    has an effect again. *)
Theorem callbacks_fenced c env m0 es m e es' m' :
  new_manager clock c env = Ok m0 → manager_run m0 es m → enabled m e →
  generation_ m < UINT64_MAX → connected_ m = true → connected_ (step m e) = false →
  manager_run (step m e) es' m' →
  (∀ text wall mono, step m' (Message (generation_ m) text wall mono) = m') ∧
  (∀ reason, step m' (TransportError (generation_ m) reason) = m') ∧
  step m' (TransportConnected (generation_ m)) = m'.
Proof.
  intros Hn%new_manager_inv Hr He Hmax Hk Hl Hr'. pose proof (manager_run_inv _ _ _ Hn Hr) as Hi.
  pose proof (step_inv products publish clock live_clock m e Hi He Hmax) as Hi1.
  pose proof (manager_run_generation _ _ _ Hi1 Hr') as Hg.
  destruct (step_generation products publish clock live_clock m e Hi Hmax) as [[_ Hk']|Hg1];
    [by rewrite Hk' in Hl|].
  assert (stale_callback (generation_ m) m' = true) as Hst.
  { unfold stale_callback. apply orb_true_iff. right. apply negb_true_iff, Z.eqb_neq. lia. }
  cbn [ConnectionManager.step]. by rewrite Hst.
Qed.
End theorems.

(** ** A concrete manager *)

Definition ex_clock (n : nat) : ReceiveMonotonicTimestamp := {| mono_ns := Z.of_nat n * 20000000000 |}.
Definition ex_live_clock (i : Z) : ReceiveMonotonicTimestamp := {| mono_ns := i |}.

Definition ex_manager_step : Manager QueueLog → event → Manager QueueLog :=
  @step ex_lib default_products _ _ ex_publish ex_clock ex_live_clock.
Definition ex_manager_run : Manager QueueLog → list event → Manager QueueLog → Prop :=
  @manager_run ex_lib default_products _ _ ex_publish ex_clock ex_live_clock.

Definition ex_manager_new : result (Manager QueueLog) :=
  new_manager ex_clock default_health_config ex_env.
Definition ex_m0 : Manager QueueLog :=
  match ex_manager_new with Ok m => m | Throw _ => MkManager default_health_config ex_handler false
    new_policy new_metrics true false false 0 0 (ex_clock 0) (ex_clock 0) None 0 [] ex_env end.

Definition ex_message : event := Message 1 "snapshot" {| wall_ns := 10 |} {| mono_ns := 20 |}.
Definition ex_events : list event := (([] ++ [Start]) ++ [TransportConnected 1]) ++ [ex_message].
Definition ex_m1 : Manager QueueLog := ex_manager_step ex_m0 Start.
Definition ex_m2 : Manager QueueLog := ex_manager_step ex_m1 (TransportConnected 1).
Definition ex_m3 : Manager QueueLog :=
  ex_manager_step ex_m2 ex_message.
Definition ex_m4 : Manager QueueLog := ex_manager_step ex_m3 (TransportError 1 "read failed").

Lemma ex_manager_new_Ok : ex_manager_new = Ok ex_m0.
Proof. by vm_compute. Qed.

Lemma ex_run_next es m e :
  ex_manager_run ex_m0 es m → enabled m e → generation_ m < UINT64_MAX →
  ex_manager_run ex_m0 (es ++ [e]) (ex_manager_step m e).
Proof.
  exact (@manager_run_snoc ex_lib default_products _ _ ex_publish ex_clock ex_live_clock ex_m0 es m e).
Qed.

Lemma ex_run3 : ex_manager_run ex_m0 ex_events ex_m3.
Proof.
  assert (ex_manager_run ex_m0 ([] ++ [Start]) ex_m1) as H1
    by (apply ex_run_next; [constructor|done|vm_compute; reflexivity]).
  assert (ex_manager_run ex_m0 (([] ++ [Start]) ++ [TransportConnected 1]) ex_m2) as H2.
  { apply ex_run_next; [exact H1| |vm_compute; reflexivity]. apply list_elem_of_In. vm_compute. auto. }
  apply ex_run_next; [exact H2| |vm_compute; reflexivity]. apply list_elem_of_In. vm_compute. auto.
Qed.

Lemma ex_run4 : ex_manager_run ex_m0 (ex_events ++ [TransportError 1 "read failed"]) ex_m4.
Proof.
  apply ex_run_next; [exact ex_run3| |vm_compute; reflexivity].
  apply list_elem_of_In. vm_compute. auto.
Qed.

Example ex_manager_states :
  state_ (manager_book ex_m3) = Valid ∧ connected_ ex_m3 = true ∧
  state_ (manager_book ex_m4) = Disconnected ∧ recovery_pending_ ex_m4 = true ∧
  observed_events (actions ex_m4) =
    [{| before_record_index := 0; lifecycle_state := Resyncing; lifecycle_reason := "resynchronization" |};
     {| before_record_index := 0; lifecycle_state := Initializing; lifecycle_reason := "new_connection" |};
     {| before_record_index := 1; lifecycle_state := Disconnected; lifecycle_reason := "read failed" |}].
Proof. by vm_compute. Qed.


Lemma manager_progress_witness :
  (recovery_pending_ ex_m4 = true ∧ (∃ d, Schedule d (generation_ ex_m4) ∈ actions ex_m4)) ∨
  connected_ (ex_manager_step ex_m4 (TransportConnected (generation_ ex_m4))) = true.
Proof.
  destruct (@manager_progress ex_lib default_products _ _ ex_publish ex_clock ex_live_clock
    default_health_config ex_env ex_m0 _ ex_m4 ex_manager_new_Ok ex_run4 ltac:(vm_compute; reflexivity))
    as [(Hp & Hd & _)|(_ & _ & Hc & _)]; [exact (or_introl (conj Hp Hd))|exact (or_intror Hc)].
Defined.

Lemma callbacks_fenced_witness :
  (∀ text wall mono, ex_manager_step ex_m4 (Message (generation_ ex_m3) text wall mono) = ex_m4) ∧
  ex_manager_step ex_m4 (TransportConnected (generation_ ex_m3)) = ex_m4.
Proof.
  destruct (@callbacks_fenced ex_lib default_products _ _ ex_publish ex_clock ex_live_clock
    default_health_config ex_env ex_m0 ex_events ex_m3 (TransportError 1 "read failed") [] ex_m4
    ex_manager_new_Ok ex_run3) as (Hm & _ & Hc).
  - apply list_elem_of_In. vm_compute. auto.
  - vm_compute. reflexivity.
  - vm_compute. reflexivity.
  - vm_compute. reflexivity.
  - constructor.
  - exact (conj Hm Hc).
Defined.
