(* ===== verification/ManagerSteps.v ===== *)
(** * Steps of the connection manager

    What one step of the manager does to its environment, to the counters of
    its handler, to the levels of its book and to its connection: either it
    handles no message and at most marks the book and resets the sequence, or
    it hands one message to the handler. *)

From S2P Require Import Prelude.
From S2P Require Import CoreTypes.
From S2P Require Import SequenceTracker.
From S2P Require Import OrderBook.
From S2P Require Import Json.
From S2P Require Import CoinbaseParser.
From S2P Require Import FeedHealth.
From S2P Require Import RecordingQueue.
From S2P Require Import CoinbaseHandler.
From S2P Require Import ConnectionManager.

Open Scope Z_scope.

(** The book without its mark. *)
Definition unmarked (b : OrderBook) : OrderBook := b <| state_ := Invalid |>.

Definition manager_tracker {E} (m : Manager E) : SequenceTracker := tracker (market (handler_ m)).

Lemma unmarked_state s b : unmarked (b <| state_ := s |>) = unmarked b.
Proof. done. Qed.

Lemma unmarked_equal b b' : unmarked b = unmarked b' → state_ b = state_ b' → b = b'.
Proof. destruct b, b'. cbn. by intros [= -> -> -> -> ->] ->. Qed.

Section step_effect.
Context `{JsonLib} (products : Products) `{RecordingSink E}.
Context (publish : ProcessResult → RuntimeProgress → Market → E → E).
Context (clock : nat → ReceiveMonotonicTimestamp) (live_clock : Z → ReceiveMonotonicTimestamp).
Implicit Types m : Manager E.

(** The handler's environment is what the publish callback made of the sink's. *)
Lemma handle_publishes now h env text wall mono h' env' r :
  handle products publish now h env text wall mono = (h', env', r) →
  env' = publish r (progress h') (market h') (sink env (envelope_of h text wall mono)).1.
Proof.
  unfold handle, handle_body. cbn [field_update next_index_ handler_connection_id]. fold (envelope_of h text wall mono).
  destruct (sink env (envelope_of h text wall mono)) as [env1 [pushed|x]]; cbn [fst].
  - destruct (negb _); [by intros [= <- <- <-]|].
    destruct (process _ _ _ _) as [k [r'|x]]; by intros [= <- <- <-].
  - by intros [= <- <- <-].
Qed.

(** The handler's result is the processor's, unless the message was refused or
    the processor threw. *)
Lemma handle_processes now h env text wall mono h' env' r :
  handler_inv h → handle products publish now h env text wall mono = (h', env', r) →
  outcome r ≠ MessageOutcome.RecordingRejected →
  is_ok (process products now (market h) (envelope_of h text wall mono)).2 = true →
  process products now (market h) (envelope_of h text wall mono) = (market h', Ok r).
Proof.
  intros [_ Hlt]. unfold handle, handle_body. cbn [field_update next_index_ handler_connection_id market].
  fold (envelope_of h text wall mono).
  destruct (sink env (envelope_of h text wall mono)) as [env1 [pushed|x]].
  - destruct (negb _); [by intros [= <- <- <-]|].
    destruct (process _ _ _ _) as [k [r'|x]]; [|done]. by intros [= <- <- <-].
  - cbn [progress field_update last_enqueued_index]. rewrite bool_decide_false by (intros ?%Hlt; lia).
    by intros [= <- <- <-].
Qed.

(** A step that handles no message leaves the environment, the counters and
    the levels of the book; a connection that is up afterwards was up, with the
    same book and sequence, or is a new one. *)
Record quiet_step m m' : Prop := {
  qs_actions : actions m `prefix_of` actions m';
  qs_environment : environment m' = environment m;
  qs_progress : progress (handler_ m') = progress (handler_ m);
  qs_index : next_index_ (handler_ m') = next_index_ (handler_ m);
  qs_terminal : terminal_ m' = terminal_ m;
  qs_levels : unmarked (manager_book m') = unmarked (manager_book m);
  qs_connected : connected_ m' = true →
    (connected_ m = true ∧ connection_id_ m' = connection_id_ m ∧ manager_book m' = manager_book m ∧
       manager_tracker m' = manager_tracker m) ∨
    (connected_ m = false ∧ connection_id_ m' = incr64 (connection_id_ m) ∧
       state_ (manager_book m') = Initializing ∧ manager_tracker m' = {| last_ := None |});
  qs_lost : connected_ m' = false → connection_id_ m' = connection_id_ m;
}.

(** A terminal failure. *)
Record terminates (e : event) m m' : Prop := {
  tm_actions : actions m `prefix_of` actions m';
  tm_environment : environment m' = environment m;
  tm_terminal : terminal_ m' = true;
  tm_levels : unmarked (manager_book m') = unmarked (manager_book m);
  tm_connected : connected_ m' = false;
  tm_connection : connection_id_ m' = connection_id_ m;
  tm_event : ∃ error, e = TerminalFailure error;
}.

(** A step that handles a message, with the handler and its result. *)
Record handled_step (text : string) (wall : ReceiveWallTimestamp) (mono : ReceiveMonotonicTimestamp) m m'
    (now : ReceiveMonotonicTimestamp) (h : Handler) (r : ProcessResult) : Prop := {
  hs_running : stopping_ m = false;
  hs_connected : connected_ m = true;
  hs_handle : handle products publish now (with_connection_id m) (environment m) text wall mono =
                (h, environment m', r);
  hs_progress : progress (handler_ m') = progress h;
  hs_index : next_index_ (handler_ m') = next_index_ h;
  hs_terminal : terminal_ m' = bool_decide (outcome r = MessageOutcome.RecordingRejected);
  hs_connection : connection_id_ m' = connection_id_ m;
  hs_levels : unmarked (manager_book m') = unmarked (book (market h));
  hs_kept : connected_ m' = true →
    outcome r ≠ MessageOutcome.RecordingRejected ∧ pr_error r = EmptyString ∧
    manager_book m' = book (market h) ∧ manager_tracker m' = tracker (market h);
}.

Definition handles (e : event) m m' : Prop :=
  actions m `prefix_of` actions m' ∧
  ∃ g text wall mono now h r, e = Message g text wall mono ∧ handled_step text wall mono m m' now h r.

(** What [quiet_step] reads of a manager. *)
Definition quiet_view m :=
  (actions m, environment m, progress (handler_ m), next_index_ (handler_ m), terminal_ m,
   (manager_book m, manager_tracker m), connected_ m, connection_id_ m).

Lemma quiet_same m m' : quiet_view m' = quiet_view m → quiet_step m m'.
Proof.
  unfold quiet_view. intros [= Ha He Hp Hn Ht Hb Htr Hc Hid].
  split; rewrite ?Ha, ?He, ?Hp, ?Hn, ?Ht, ?Hb, ?Htr, ?Hc, ?Hid; auto.
Qed.

Lemma quiet_after m m1 m' : quiet_view m1 = quiet_view m → quiet_step m1 m' → quiet_step m m'.
Proof.
  unfold quiet_view. intros [= Ha He Hp Hn Ht Hb Htr Hc Hid] [H1 H2 H3 H4 H5 H6 H7 H8].
  rewrite Ha in H1. rewrite He in H2. rewrite Hp in H3. rewrite Hn in H4. rewrite Ht in H5. rewrite Hb in H6, H7.
  rewrite Htr, Hc, Hid in H7. rewrite Hid in H8. by split.
Qed.

(** An operation after which the connection is down. *)
Lemma quiet_down m m' k l f :
  control m' = k → k.1.1.1.1.1 = terminal_ m → k.1.1.2 = false → k.2 = connection_id_ m →
  environment m' = environment m → actions m' = actions m ++ l →
  handler_ m' = (handler_ m) <| market ::= f |> → (∀ k, unmarked (book (f k)) = unmarked (book k)) →
  quiet_step m m'.
Proof.
  intros <- Ht Hc Hid He Ha Hh Hf. unfold control in *. cbn in Ht, Hc, Hid.
  split; unfold manager_book; rewrite ?Hh; cbn [progress next_index_ field_update market]; try done;
    [rewrite Ha; by apply prefix_app_r|congruence].
Qed.

Lemma recover_quiet reason state m : state ≠ Valid → quiet_step m (recover clock reason state m).
Proof.
  intros Hv. destruct (stopping_ m) eqn:Hs; [unfold recover; rewrite Hs; by apply quiet_same|].
  destruct (recovery_pending_ m) eqn:Hp; [unfold recover; rewrite Hs, Hp; by apply quiet_same|].
  destruct (recover_fields clock reason state m Hs Hp Hv) as (Hc & _ & He & Ha & Hh).
  eapply quiet_down; [exact Hc|done..|exact He|exact Ha|exact Hh|done].
Qed.

Lemma begin_quiet m : stopping_ m = false → quiet_step m (begin_connection clock m).
Proof.
  intros Hs. destruct (begin_connection_fields clock m Hs) as (Hc & _ & He & Ha & Hh).
  eapply quiet_down; [exact Hc|done..|exact He|exact Ha|exact Hh|done].
Qed.

Lemma stop_quiet m : quiet_step m (stop clock m).
Proof.
  destruct (stopping_ m) eqn:Hs; [unfold stop; rewrite Hs; by apply quiet_same|].
  destruct (stop_fields clock m Hs) as (Hc & _ & He & Ha & Hh).
  eapply quiet_down; [exact Hc|done..|exact He|exact Ha|exact Hh|done].
Qed.

Lemma connected_quiet m : quiet_step m (handle_connected clock m).
Proof.
  destruct (connected_ m) eqn:Hk; [unfold handle_connected; rewrite Hk; by apply quiet_same|].
  destruct (handle_connected_fields clock m Hk) as (Hc & _ & He & Ha & now & Hh).
  unfold control in Hc. injection Hc as Ht _ _ Hk' _ Hid.
  split; unfold manager_book, manager_tracker; rewrite ?Hh; cbn [progress next_index_ field_update market book tracker];
    try done; [rewrite Ha; by apply prefix_app_r| |congruence].
  intros _. right. done.
Qed.

Lemma check_quiet m : quiet_step m (check_health clock m).
Proof.
  unfold check_health. destruct (stopping_ m); [by apply quiet_same|].
  set (m1 := (read_clock clock m).1). assert (quiet_view m1 = quiet_view m) as Hm1 by done.
  destruct (connected_ m) eqn:Hk; cbn [negb read_clock].
  - change (m <| clock_reads ::= S |>) with m1. set (reason := failure _ _ _).
    apply (quiet_after m m1 _ Hm1). destruct (String.eqb reason "").
    + destruct (transition_fields clock (state_ (manager_book m1)) EmptyString m1) as (Hc & _ & He & Ha & Hh).
      generalize dependent (transition clock (state_ (manager_book m1)) EmptyString m1). intros m2 Hc He Ha Hh.
      apply quiet_same. unfold quiet_view. unfold control in Hc. injection Hc as -> _ _ -> _ ->.
      assert (set_state (state_ (manager_book m1)) (book (market (handler_ m1))) = book (market (handler_ m1))) as Hb
        by (unfold set_state, manager_book; destruct (book (market (handler_ m1))) as [? ? [] ? ? ?]; done).
      rewrite He, Ha, app_nil_r. unfold manager_book, manager_tracker in *. rewrite Hh.
      cbn [progress next_index_ market book tracker field_update]. by rewrite Hb.
    + destruct (String.eqb _ _); [|by apply recover_quiet].
      set (m2 := on_health (λ h, h <| heartbeat_timeouts ::= incr64 |>) m1).
      apply (quiet_after m1 m2); [done|by apply recover_quiet].
  - destruct (recovery_pending_ m); [by apply quiet_same|]. change (m <| clock_reads ::= S |>) with m1.
    destruct (_ >? _); [|by apply quiet_same]. apply (quiet_after m m1 _ Hm1). by apply recover_quiet.
Qed.

Lemma failure_terminates error m :
  manager_inv m → terminates (TerminalFailure error) m (terminal_recording_failure clock error m).
Proof.
  intros Hi. destruct (terminal_failure_fields clock error m (idle_lost _ Hi)) as (Ht & _ & He & Hid & _ & Ha & Hh).
  injection Ht as Ht _ _ Hk. split; try done; [rewrite Ha; by apply prefix_app_r| |by exists error].
  unfold manager_book. by rewrite Hh.
Qed.

Lemma message_effect g text wall mono m :
  manager_inv m → stopping_ m = false →
  let m' := (handle_message products publish clock live_clock text wall mono m).1 in
  quiet_step m m' ∨ handles (Message g text wall mono) m m'.
Proof.
  intros Hi Hs. cbn zeta. destruct (connected_ m) eqn:Hk;
    [right|left; unfold handle_message; rewrite Hk; by apply quiet_same].
  destruct (handle products publish (live_clock (next_index_ (with_connection_id m))) (with_connection_id m)
    (environment m) text wall mono) as [[h env] r] eqn:Eh.
  destruct (handle_message_cases products publish clock live_clock text wall mono m h env r Hk Eh)
    as (m1 & Hc & _ & He & Ha & Hh & Hcases).
  unfold control in Hc. injection Hc as Ht1 Hs1 Hp1 Hk1 _ Hid1.
  assert (terminal_ m = false) as Ht.
  { apply not_true_is_false. intros Ht%(mi_terminal _ Hi). congruence. }
  rewrite <-He in Eh. clear He.
  pose proof (mi_connected _ Hi Hk) as [_ Hp].
  destruct Hcases as [(Ho & Hm')|[(Ho & Hne & Hm')|(Ho & Hr & Hm')]].
  - destruct (terminal_failure_fields clock (pr_error r) m1 ltac:(congruence)) as (Ht2 & _ & He2 & Hid2 & _ & Ha2 & Hh2).
    rewrite <-Hm' in *. clear Hm'. injection Ht2 as Ht2 _ _ Hk2.
    split; [rewrite Ha2, Ha; by apply prefix_app_r|].
    exists g, text, wall, mono, (live_clock (next_index_ (with_connection_id m))), h, r. split; [done|].
    split; try done; unfold manager_book; rewrite ?Hh2, ?Hh; try done; try congruence.
    by rewrite bool_decide_true.
  - pose proof (recover_quiet (pr_error r) Invalid m1 ltac:(done)) as [Q1 Q2 Q3 Q4 Q5 Q6 Q7 Q8].
    assert (connected_ (recover clock (pr_error r) Invalid m1) = false) as Hk2.
    { by destruct (recover_fields clock (pr_error r) Invalid m1 ltac:(congruence) ltac:(congruence) ltac:(done))
        as ([= _ _ _ -> _ _] & _). }
    rewrite <-Hm' in *. clear Hm'. split; [by rewrite <-Ha|].
    exists g, text, wall, mono, (live_clock (next_index_ (with_connection_id m))), h, r. split; [done|].
    split; try done; unfold manager_book in *; rewrite ?Hh in *; try congruence; try done.
    + rewrite Q5, bool_decide_false by done. congruence.
    + rewrite Q8 by done. done.
  - destruct (message_accepted_fields clock (state_ (manager_book m)) r m1) as (Hc2 & _ & He2 & Ha2 & Hh2).
    rewrite <-Hm' in *. clear Hm'. unfold control in Hc2. injection Hc2 as Ht2 _ _ Hk2 _ Hid2.
    split; [by rewrite Ha2, Ha|].
    exists g, text, wall, mono, (live_clock (next_index_ (with_connection_id m))), h, r. split; [done|].
    split; unfold manager_book, manager_tracker; rewrite ?Hh2, ?Hh; try done; try congruence.
    rewrite bool_decide_false by done. congruence.
Qed.

Lemma step_effect m e :
  manager_inv m → let m' := step products publish clock live_clock m e in
  quiet_step m m' ∨ terminates e m m' ∨ handles e m m'.
Proof.
  intros Hi. destruct e; cbn [step];
    try (destruct (stale_callback generation m) eqn:Eg; [left; by apply quiet_same|];
         apply stale_callback_false in Eg as [Hs _]).
  - left. unfold start. destruct (negb _ || _); [by apply quiet_same|]. set (m1 := m <| stopping_ := false |>).
    apply (quiet_after m m1); [done|by apply begin_quiet].
  - left. apply stop_quiet.
  - left. by apply recover_quiet.
  - left. destruct (stopping_ m); [by apply quiet_same|]. apply check_quiet.
  - right. left. by apply failure_terminates.
  - destruct (message_effect generation text wall mono m Hi Hs); auto.
  - left. by apply recover_quiet.
  - left. apply connected_quiet.
  - left. by apply begin_quiet.
Qed.

(** Every step opens at most one connection. *)
Lemma step_connection_id m e :
  manager_inv m → 0 ≤ connection_id_ m < UINT64_MAX →
  connection_id_ m ≤ connection_id_ (step products publish clock live_clock m e) ≤ connection_id_ m + 1.
Proof.
  intros Hi Hb. destruct (step_effect m e Hi) as [Hq|[Ht|(_ & ? & ? & ? & ? & ? & ? & ? & _ & Hh)]].
  - destruct (connected_ (step products publish clock live_clock m e)) eqn:Hk; [|rewrite (qs_lost _ _ Hq Hk); lia].
    destruct (qs_connected _ _ Hq Hk) as [(_ & -> & _)|(_ & -> & _)]; [lia|]. rewrite incr64_small by lia. lia.
  - rewrite (tm_connection _ _ _ Ht). lia.
  - rewrite (hs_connection _ _ _ _ _ _ _ _ Hh). lia.
Qed.

Lemma run_connection_id m0 es m :
  manager_inv m0 → manager_run products publish clock live_clock m0 es m →
  0 ≤ connection_id_ m0 → connection_id_ m0 + Z.of_nat (length es) ≤ UINT64_MAX →
  connection_id_ m0 ≤ connection_id_ m ≤ connection_id_ m0 + Z.of_nat (length es).
Proof.
  intros Hi Hr. pose proof (manager_run_inv products publish clock live_clock) as Hinv.
  induction Hr as [|es m1 e Hr IH He Hg|es m1 env Hr IH Henv]; intros Hpos Hb; [cbn; lia| |exact (IH Hpos Hb)].
  rewrite length_app in *. cbn [length] in *. destruct IH as [IH1 IH2]; [lia..|].
  pose proof (step_connection_id m1 e (Hinv _ _ _ Hi Hr) ltac:(lia)). lia.
Qed.
End step_effect.
