(* ===== verification/Recording.v ===== *)
(** * The raw event recorder and reader

    [RawEventRecorder] writes one line of JSON per message to a new file,
    [RawEventReader] reads the lines back and validates them.  A file is its
    text; what the operating system does to a write or a flush is an argument
    of the operation. *)

From S2P Require Import Prelude.
From S2P Require Import Text.
From S2P Require Import CoreTypes.
From S2P Require Import Json.
From S2P Require Import JsonLibrary.
From S2P Require Import RecordingQueue.

Open Scope Z_scope.

(** ** Output streams *)

(** The outcome of an output operation; [junk] is what a failed one, and the
    attempts to write the buffer after it, leave in the file. *)
Inductive stream_io := IoOk | IoFail (junk : string).

(** A [std::ofstream]: the text in its file, and the text it buffers. *)
Record OutputStream := {
  os_open : bool;
  os_good : bool;
  os_file : string;
  os_pending : string;
}.

#[export] Instance OutputStream_eta : EtaRecord OutputStream := λ s,
  {| os_open := os_open s; os_good := os_good s; os_file := os_file s; os_pending := os_pending s |}.

Definition stream_fail (junk : string) (s : OutputStream) : OutputStream :=
  s <| os_good := false |> <| os_file ::= λ f, f +:+ junk |> <| os_pending := EmptyString |>.

(** [out << text] *)
Definition stream_put (io : stream_io) (text : string) (s : OutputStream) : OutputStream :=
  if negb (os_good s) then s
  else match io with
       | IoOk => s <| os_pending ::= λ p, p +:+ text |>
       | IoFail junk => stream_fail junk s
       end.

(** [out.flush()] *)
Definition stream_flush (io : stream_io) (s : OutputStream) : OutputStream :=
  if negb (os_good s) then s
  else match io with
       | IoOk => s <| os_file ::= λ f, f +:+ os_pending s |> <| os_pending := EmptyString |>
       | IoFail junk => stream_fail junk s
       end.

(** ** Recorder *)

Record RawEventRecorder := {
  output_ : OutputStream;
  next_record_index_ : Z;
}.

#[export] Instance RawEventRecorder_eta : EtaRecord RawEventRecorder := λ r,
  {| output_ := output_ r; next_record_index_ := next_record_index_ r |}.

(** The constructor: [exists_] tells whether the file is there already,
    [opens] whether it can be created. *)
Definition new_recorder (exists_ opens : bool) : RawEventRecorder :=
  {| output_ := {| os_open := negb exists_ && opens; os_good := exists_ || opens;
                   os_file := EmptyString; os_pending := EmptyString |};
     next_record_index_ := 0 |}.

Definition venue_text (v : Venue) : string :=
  match v with Coinbase => "coinbase" | Kraken => "kraken" end.

(** The document of a record. *)
Definition raw_document (index : Z) (v : Venue) (connection_id : Z) (wall : ReceiveWallTimestamp)
    (mono : ReceiveMonotonicTimestamp) (text : string) : json :=
  json_object [("format_version", JInteger 1);
               ("record_index", JUnsigned index);
               ("venue", JString (venue_text v));
               ("connection_id", JUnsigned connection_id);
               ("receive_wall_ns", JInteger (wall_ns wall));
               ("receive_monotonic_ns", JInteger (mono_ns mono));
               ("payload", JString text)].

Section recorder.
Context `{JsonLib}.

Definition append (put_io flush_io : stream_io) (v : Venue) (connection_id : Z)
    (wall : ReceiveWallTimestamp) (mono : ReceiveMonotonicTimestamp) (text : string)
    (r : RawEventRecorder) : RawEventRecorder * result bool :=
  if negb (os_open (output_ r)) || negb (os_good (output_ r)) then (r, Ok false)
  else
    match json_dump (raw_document (next_record_index_ r) v connection_id wall mono text) with
    | Throw e => (r, Throw e)
    | Ok line =>
        let r := r <| output_ ::= stream_put put_io (line +:+ String newline EmptyString) |> in
        if negb (os_good (output_ r)) then (r, Ok false)
        else
          let r := r <| output_ ::= stream_flush flush_io |> in
          if negb (os_good (output_ r)) then (r, Ok false)
          else (r <| next_record_index_ ::= incr64 |>, Ok true)
    end.
End recorder.

Definition flush (io : stream_io) (r : RawEventRecorder) : RawEventRecorder * bool :=
  if negb (os_open (output_ r)) then (r, false)
  else
    let r := r <| output_ ::= stream_flush io |> in
    (r, os_good (output_ r)).

(** [RawEventRecorder::close]; [close_ok] is the outcome of closing the file. *)
Definition close_recorder (io : stream_io) (close_ok : bool) (r : RawEventRecorder) : RawEventRecorder * bool :=
  if negb (os_open (output_ r)) then (r, false)
  else
    let r := r <| output_ ::= stream_flush io |> in
    let good := os_good (output_ r) && close_ok in
    (r <| output_ ::= λ s, s <| os_open := false |> <| os_good := good |> |>, good).

(** ** Reader *)

(** [input_] holds the text that is still to be read; [in_fault] tells that
    reading past it fails instead of reaching the end of the file. *)
Record RawEventReader := {
  in_open : bool;
  in_good : bool;
  in_rest : string;
  in_fault : bool;
  last_error_ : string;
  expected_index_ : Z;
}.

#[export] Instance RawEventReader_eta : EtaRecord RawEventReader := λ r,
  {| in_open := in_open r; in_good := in_good r; in_rest := in_rest r; in_fault := in_fault r;
     last_error_ := last_error_ r; expected_index_ := expected_index_ r |}.

(** The constructor on a file that can be opened, and on one that cannot. *)
Definition open_reader (file : option (string * bool)) : RawEventReader :=
  match file with
  | Some (text, fault) =>
      {| in_open := true; in_good := true; in_rest := text; in_fault := fault;
         last_error_ := EmptyString; expected_index_ := 0 |}
  | None =>
      {| in_open := false; in_good := false; in_rest := EmptyString; in_fault := false;
         last_error_ := "failed to open input file"; expected_index_ := 0 |}
  end.

Definition has_error (r : RawEventReader) : bool := negb (String.eqb (last_error_ r) EmptyString).

(** The text up to the next newline, and what follows it. *)
Fixpoint get_line (s : string) : option (string * string) :=
  match s with
  | EmptyString => None
  | String c rest =>
      if is_newline c then Some (EmptyString, rest)
      else match get_line rest with Some (l, r) => Some (String c l, r) | None => None end
  end.

(** [j[key]] for a member that is there. *)
Definition field (j : json) (key : string) : json :=
  match j with JObject ms => default JNull (member key ms) | _ => JNull end.

(** [get] of a value whose type was checked. *)
Definition got {A} (a : A) (r : result A) : A := match r with Ok x => x | Throw _ => a end.

Definition required_fields : list string :=
  ["record_index"; "venue"; "connection_id"; "receive_wall_ns"; "receive_monotonic_ns"; "payload"].

Definition timestamp_in_range (j : json) : bool :=
  negb (is_number_unsigned j && (got 0 (get_uint64 j) >? INT64_MAX)).

(** The validation of a line, from the parsed document to the message or the
    error text. *)
Definition read_record (expected : Z) (j : json) : string + RawMessage :=
  if negb (contains j "format_version") || negb (is_number_unsigned (field j "format_version")) ||
     negb (json_equal (field j "format_version") (JInteger 1))
  then inl "unsupported or missing format_version"
  else
    match List.find (λ f, negb (contains j f)) required_fields with
    | Some f => inl ("missing field: " +:+ f)
    | None =>
        if negb (is_number_unsigned (field j "record_index")) ||
           negb (is_number_unsigned (field j "connection_id")) ||
           negb (is_number_integer (field j "receive_wall_ns")) ||
           negb (is_number_integer (field j "receive_monotonic_ns")) ||
           negb (is_string (field j "venue")) || negb (is_string (field j "payload"))
        then inl "invalid raw record field type"
        else if negb (timestamp_in_range (field j "receive_wall_ns")) ||
                negb (timestamp_in_range (field j "receive_monotonic_ns"))
        then inl "raw timestamp out of range"
        else
          let index := got 0 (get_uint64 (field j "record_index")) in
          if negb (index =? expected)
          then inl ("noncontiguous record index: expected " +:+ to_string expected +:+ " got " +:+
                    to_string index)
          else
            let venue_s := got EmptyString (get_string (field j "venue")) in
            match (if String.eqb venue_s "coinbase" then Some Coinbase
                   else if String.eqb venue_s "kraken" then Some Kraken else None) with
            | None => inl "unknown venue"
            | Some v =>
                inr {| record_index := index; venue := v;
                       connection_id := got 0 (get_uint64 (field j "connection_id"));
                       receive_wall_time := {| wall_ns := got 0 (get_int64 (field j "receive_wall_ns")) |};
                       receive_monotonic_time :=
                         {| mono_ns := got 0 (get_int64 (field j "receive_monotonic_ns")) |};
                       payload := got EmptyString (get_string (field j "payload")) |}
            end
    end.

Section reader.
Context `{JsonLib}.

Definition next (r : RawEventReader) : RawEventReader * option RawMessage :=
  if negb (in_open r) || negb (in_good r) then
    (if String.eqb (last_error_ r) EmptyString then r <| last_error_ := "input stream not open" |> else r, None)
  else
    match get_line (in_rest r) with
    | None =>
        let r' := r <| in_good := false |> <| in_rest := EmptyString |> in
        if in_fault r then (r' <| last_error_ := "failed to read line" |>, None)
        else if String.eqb (in_rest r) EmptyString then (r', None)
        else (r' <| last_error_ := "truncated JSONL: missing final newline" |>, None)
    | Some (line, rest) =>
        let r := r <| in_rest := rest |> in
        match json_parse line with
        | Throw e => (r <| last_error_ := "json parse error: " +:+ what e |>, None)
        | Ok j =>
            match read_record (expected_index_ r) j with
            | inl error => (r <| last_error_ := error |>, None)
            | inr msg => (r <| expected_index_ ::= incr64 |>, Some msg)
            end
        end
    end.

(** [while (auto e = reader.next()) ...]: the reader after the loop and the
    messages it returned.  Every iteration consumes a newline. *)
Fixpoint read_loop (fuel : nat) (r : RawEventReader) : RawEventReader * list RawMessage :=
  match fuel with
  | O => (r, [])
  | S fuel' =>
      match next r with
      | (r', None) => (r', [])
      | (r', Some m) => let '(r'', ms) := read_loop fuel' r' in (r'', m :: ms)
      end
  end.

Definition read_all (r : RawEventReader) : RawEventReader * list RawMessage :=
  read_loop (S (String.length (in_rest r))) r.
End reader.

(** ** Specification: recordings *)

Definition message_document (m : RawMessage) : json :=
  raw_document (record_index m) (venue m) (connection_id m) (receive_wall_time m)
    (receive_monotonic_time m) (payload m).

(** The fields of a message fit their types. *)
Definition raw_ok (m : RawMessage) : Prop :=
  in_uint64 (record_index m) ∧ in_uint64 (connection_id m) ∧
  in_int64 (wall_ns (receive_wall_time m)) ∧ in_int64 (mono_ns (receive_monotonic_time m)).

(** The records are numbered from [n] on. *)
Fixpoint indexed (n : Z) (ms : list RawMessage) : Prop :=
  match ms with
  | [] => True
  | m :: rest => record_index m = n ∧ indexed (n + 1) rest
  end.

(** The text of a file with these lines. *)
Fixpoint file_of (lines : list string) : string :=
  match lines with
  | [] => EmptyString
  | l :: rest => l +:+ String newline (file_of rest)
  end.

Section spec.
Context `{JsonLib}.

(** [lines] are the lines of the records [ms]. *)
Definition lines_of (ms : list RawMessage) (lines : list string) : Prop :=
  Forall2 (λ m l, json_dump (message_document m) = Ok l) ms lines ∧ Forall raw_ok ms.

(** [file] is the recording of [ms] followed by [tail]. *)
Definition recording (ms : list RawMessage) (tail file : string) : Prop :=
  ∃ lines, lines_of ms lines ∧ indexed 0 ms ∧ file = file_of lines +:+ tail.
End spec.

(** ** Lemmas: lines *)

Lemma file_of_app ls1 ls2 : file_of (ls1 ++ ls2) = file_of ls1 +:+ file_of ls2.
Proof. induction ls1 as [|l ls1 IH]; cbn; [done|]. by rewrite IH, <-string_app_assoc. Qed.

Lemma indexed_app n ms1 ms2 :
  indexed n (ms1 ++ ms2) ↔ indexed n ms1 ∧ indexed (n + Z.of_nat (length ms1)) ms2.
Proof.
  revert n. induction ms1 as [|m ms1 IH]; intros n; cbn [app indexed length].
  - rewrite Z.add_0_r. naive_solver.
  - rewrite IH, Nat2Z.inj_succ. replace (n + 1 + Z.of_nat (length ms1)) with (n + Z.succ (Z.of_nat (length ms1))) by lia.
    tauto.
Qed.

Lemma get_line_app l rest : none is_newline l = true → get_line (l +:+ String newline rest) = Some (l, rest).
Proof. induction l as [|c l IH]; cbn; [done|]. intros [->%negb_true_iff Hl]%andb_true_iff. by rewrite IH. Qed.

Lemma get_line_none l : none is_newline l = true → get_line l = None.
Proof. induction l as [|c l IH]; cbn; [done|]. intros [->%negb_true_iff Hl]%andb_true_iff. by rewrite IH. Qed.

Lemma get_line_length s l r : get_line s = Some (l, r) → (String.length r < String.length s)%nat.
Proof.
  revert l. induction s as [|c s IH]; intros l; cbn; [done|]. destruct (is_newline c); [intros [= _ <-]; lia|].
  destruct (get_line s) as [[l' r']|]; [|done]. intros [= _ <-]. specialize (IH _ eq_refl). lia.
Qed.

(** ** Lemmas: reading *)

(** The members of a record in key order. *)
Lemma raw_document_members i v c w o p :
  raw_document i v c w o p =
  JObject [("connection_id", JUnsigned c); ("format_version", JInteger 1); ("payload", JString p);
           ("receive_monotonic_ns", JInteger (mono_ns o)); ("receive_wall_ns", JInteger (wall_ns w));
           ("record_index", JUnsigned i); ("venue", JString (venue_text v))].
Proof. reflexivity. Qed.

(** A document written by [append] reads back as the message. *)
Lemma read_record_document m :
  raw_ok m → read_record (record_index m) (reparsed (message_document m)) = inr m.
Proof.
  intros (Hi & Hc & Hw & Hm). unfold message_document. rewrite raw_document_members.
  destruct m as [i v c [w] [o] p]. unfold read_record, timestamp_in_range. cbn in *.
  unfold in_uint64, in_int64 in *.
  assert (∀ x, x ≤ INT64_MAX → (x >? INT64_MAX) = false ∧ to_int64 x = x) as Hx.
  { intros x Hle. unfold to_int64. by rewrite Z.gtb_ltb, (proj2 (Z.ltb_ge _ _)), (proj2 (Z.leb_le _ _)). }
  destruct (Hx w) as [Hw1 Hw2], (Hx o) as [Hm1 Hm2]; [lia..|].
  destruct (0 <=? w), (0 <=? o); cbn; rewrite ?Hw1, ?Hm1; cbn; rewrite Z.eqb_refl, ?Hw2, ?Hm2; by destruct v.
Qed.

Section reading.
Context `{JsonLib, !JsonText}.
Implicit Types r : RawEventReader.

Lemma next_consumes r r' m : next r = (r', Some m) → (String.length (in_rest r') < String.length (in_rest r))%nat.
Proof.
  unfold next. destruct (_ || _); [done|].
  destruct (get_line (in_rest r)) as [[l rest]|] eqn:Eg; [|destruct (in_fault r); [done|]; by destruct (String.eqb _ _)].
  apply get_line_length in Eg. cbn. destruct (json_parse l); [|done].
  destruct (read_record _ _); [done|]. intros [= <- _]. done.
Qed.

(** More fuel than newlines does not change the loop. *)
Lemma read_loop_fuel n r : (String.length (in_rest r) < n)%nat → read_loop n r = read_all r.
Proof.
  unfold read_all.
  assert (∀ n1 n2 r, (String.length (in_rest r) < n1)%nat → (String.length (in_rest r) < n2)%nat →
    read_loop n1 r = read_loop n2 r) as Hgen; [|intros; apply Hgen; lia].
  induction n1 as [|n1 IH]; intros [|n2] r0 H1 H2; try lia. cbn.
  destruct (next r0) as [r' [m|]] eqn:E; [|done]. apply next_consumes in E. by rewrite (IH n2) by lia.
Qed.

Lemma next_line r m l tail :
  in_open r = true → in_good r = true → json_dump (message_document m) = Ok l → raw_ok m →
  record_index m = expected_index_ r → in_rest r = l +:+ String newline tail →
  next r = (r <| in_rest := tail |> <| expected_index_ ::= incr64 |>, Some m).
Proof.
  intros Ho Hg Hl Hm Hi Hr. unfold next. rewrite Ho, Hg, Hr. cbn [negb orb].
  rewrite get_line_app by (by eapply json_dump_line).
  assert (writable (message_document m) = true) as Hw.
  { unfold message_document. rewrite raw_document_members.
    destruct m as [i v c [w] [o] p], Hm as (? & ? & ? & ?). cbn in *. unfold in_uint64, in_int64, UINT64_MAX in *.
    repeat (apply andb_true_iff; split); try apply Z.leb_le; try done; lia. }
  rewrite (json_parse_dump _ _ Hw Hl). cbn [expected_index_ field_update].
  by rewrite <-Hi, read_record_document.
Qed.

(** What a reader has become after [n] records. *)
Definition advanced (n : Z) (tail : string) r : RawEventReader :=
  r <| in_rest := tail |> <| expected_index_ := expected_index_ r + n |>.

Lemma read_lines ms lines tail r :
  in_open r = true → in_good r = true → lines_of ms lines → indexed (expected_index_ r) ms →
  0 ≤ expected_index_ r → expected_index_ r + Z.of_nat (length ms) ≤ UINT64_MAX →
  in_rest r = file_of lines +:+ tail →
  read_all r = let '(r', more) := read_all (advanced (Z.of_nat (length ms)) tail r) in (r', ms ++ more).
Proof.
  intros Ho Hg [Hl Hok]. revert r Ho Hg Hok. induction Hl as [|m l ms lines Hml Hl IH]; intros r Ho Hg Hok Hi Hpos Hb Hr.
  - replace (advanced _ tail r) with r; [by destruct (read_all r)|].
    unfold advanced. destruct r; cbn in *. by rewrite Hr, Z.add_0_r.
  - cbn [indexed length file_of] in *. destruct Hi as [Hm Hi]. inversion Hok as [|?? Hmok Hok']; subst.
    rewrite <-string_app_assoc in Hr. cbn [String.append] in Hr.
    pose proof (next_line r m l _ Ho Hg Hml Hmok Hm Hr) as Hn.
    unfold read_all at 1. cbn [read_loop]. rewrite Hn. cbn [fst snd].
    rewrite read_loop_fuel; [|exact (next_consumes _ _ _ Hn)].
    set (r1 := r <| in_rest := _ |> <| expected_index_ ::= incr64 |>).
    assert (expected_index_ r1 = expected_index_ r + 1) as He by (subst r1; cbn; apply incr64_small; lia).
    assert (advanced (Z.of_nat (length ms)) tail r1 = advanced (Z.of_nat (S (length ms))) tail r) as Ha.
    { unfold advanced. rewrite He. subst r1. cbn. f_equal. lia. }
    rewrite (IH r1), Ha; try done; [by destruct (read_all _)|by rewrite He|lia|lia].
Qed.
End reading.

(** ** Lemmas: writing *)

Definition renumber (n : Z) (m : RawMessage) : RawMessage :=
  {| record_index := n; venue := venue m; connection_id := connection_id m;
     receive_wall_time := receive_wall_time m; receive_monotonic_time := receive_monotonic_time m;
     payload := payload m |}.

Fixpoint renumbered (n : Z) (ms : list RawMessage) : list RawMessage :=
  match ms with [] => [] | m :: rest => renumber n m :: renumbered (n + 1) rest end.

(** Messages that carry the index of their position already. *)
Lemma renumbered_indexed n ms : indexed n ms → renumbered n ms = ms.
Proof.
  revert n. induction ms as [|m ms IH]; intros n; cbn; [done|]. intros [Hm Hi]. rewrite IH by done.
  subst n. by destruct m.
Qed.

Section writing.
Context `{JsonLib}.
Implicit Types r : RawEventRecorder.

(** The file of an open recorder holds the lines of [ms]; once an operation
    has failed, something may follow them. *)
Definition recorder_holds (ms : list RawMessage) r : Prop :=
  next_record_index_ r = Z.of_nat (length ms) ∧ os_open (output_ r) = true ∧
  os_pending (output_ r) = EmptyString ∧
  ∃ junk, recording ms junk (os_file (output_ r)) ∧ (os_good (output_ r) = true → junk = EmptyString).

Lemma recording_more ms tail junk file :
  recording ms tail file → recording ms (tail +:+ junk) (file +:+ junk).
Proof. intros (lines & Hl & Hi & ->). exists lines. split_and!; [done..|]. by rewrite string_app_assoc. Qed.

Lemma new_recorder_holds : recorder_holds [] (new_recorder false true).
Proof. split_and!; try done. exists EmptyString. split; [|done]. by exists []. Qed.

Definition fields_ok (m : RawMessage) : Prop :=
  in_uint64 (connection_id m) ∧ in_int64 (wall_ns (receive_wall_time m)) ∧
  in_int64 (mono_ns (receive_monotonic_time m)).

Definition append_message (io : stream_io * stream_io) (m : RawMessage) r : RawEventRecorder * result bool :=
  append io.1 io.2 (venue m) (connection_id m) (receive_wall_time m) (receive_monotonic_time m) (payload m) r.

Lemma stream_fail_holds ms junk r tail :
  recording ms tail (os_file (output_ r)) → next_record_index_ r = Z.of_nat (length ms) →
  os_open (output_ r) = true → recorder_holds ms (r <| output_ ::= stream_fail junk |>).
Proof.
  intros Hr Hn Ho. split_and!; try done. exists (tail +:+ junk). split; [|done]. by apply recording_more.
Qed.

(** An append adds the record when it returns true, and keeps the records that
    are there in every case. *)
Lemma append_holds ms io m r r' res :
  recorder_holds ms r → fields_ok m → Z.of_nat (length ms) < UINT64_MAX →
  append_message io m r = (r', res) →
  (res = Ok true → recorder_holds (ms ++ [renumber (Z.of_nat (length ms)) m]) r' ∧ os_good (output_ r') = true) ∧
  (res ≠ Ok true → recorder_holds ms r').
Proof.
  intros Hr Hm Hb. pose proof Hr as (Hn & Ho & Hp & junk & Hrec & Hj). unfold append_message, append.
  rewrite Ho. cbn [negb orb]. destruct (os_good (output_ r)) eqn:Hg; cbn [negb]; [|intros [= <- <-]; done].
  rewrite (Hj eq_refl) in Hrec.
  destruct (json_dump _) as [line|e] eqn:Hd; [|by intros [= <- <-]].
  destruct io as [[|j1] [|j2]]; cbn [fst snd]; unfold stream_put, stream_flush; cbn; rewrite Hg; cbn; rewrite ?Hg; cbn;
    intros [= <- <-]; (split; [intros He; try done|intros He; try done]).
  2-4: by (apply (stream_fail_holds ms _ r EmptyString) || (rewrite Hp; apply (stream_fail_holds ms _ r EmptyString))).
  split; [|done]. rewrite Hp. cbn.
  assert (recording (ms ++ [renumber (Z.of_nat (length ms)) m]) EmptyString
            (os_file (output_ r) +:+ line +:+ String newline EmptyString)) as Hrec'.
  { destruct Hrec as (lines & [Hl Hok] & Hi & Hf). exists (lines ++ [line]). split_and!.
    - split; [apply Forall2_app; [done|]; constructor; [|done]; by rewrite <-Hn|].
      apply Forall_app. split; [done|]. constructor; [|done]. destruct Hm as (? & ? & ?).
      split_and!; try done; cbn; unfold in_uint64; lia.
    - apply indexed_app. split; [done|]. by cbn.
    - rewrite file_of_app, Hf, !string_app_nil. done. }
  split_and!; try done.
  - rewrite length_app, Nat2Z.inj_add. cbn. rewrite Hn. apply incr64_small. lia.
  - by exists EmptyString.
Qed.

(** A flush keeps the records, and reports whether the stream is good. *)
Lemma flush_holds ms io r r' ok :
  recorder_holds ms r → flush io r = (r', ok) → recorder_holds ms r' ∧ ok = os_good (output_ r').
Proof.
  intros Hr. pose proof Hr as (Hn & Ho & Hp & junk & Hrec & Hj). unfold flush. rewrite Ho. cbn [negb].
  intros [= <- <-]. split; [|done]. unfold stream_flush.
  destruct r as [[op [] f pe] n], io as [|j]; cbn in *; subst; rewrite ?string_app_nil; try exact Hr.
  rewrite (Hj eq_refl) in Hrec. match goal with H' : recorder_holds ms ?r0 |- _ => by apply (stream_fail_holds ms j r0 EmptyString) end.
Qed.
End writing.

(** ** Theorems *)

Section theorems.
Context `{JsonLib}.

(** Appends of messages one after the other, with no failing output. *)
Fixpoint append_all (ms : list RawMessage) (r : RawEventRecorder) : RawEventRecorder * list (result bool) :=
  match ms with
  | [] => (r, [])
  | m :: rest =>
      let '(r, ack) := append_message (IoOk, IoOk) m r in
      let '(r, acks) := append_all rest r in (r, ack :: acks)
  end.

Definition dumpable (m : RawMessage) : Prop := is_ok (json_dump (message_document m)) = true.

Lemma append_all_holds ms0 ms r :
  recorder_holds ms0 r → os_good (output_ r) = true → Forall fields_ok ms →
  Forall dumpable (renumbered (Z.of_nat (length ms0)) ms) →
  Z.of_nat (length ms0) + Z.of_nat (length ms) ≤ UINT64_MAX →
  let '(r', acks) := append_all ms r in
  recorder_holds (ms0 ++ renumbered (Z.of_nat (length ms0)) ms) r' ∧ os_good (output_ r') = true ∧
  Forall (λ a, a = Ok true) acks.
Proof.
  revert ms0 r. induction ms as [|m ms IH]; intros ms0 r Hr Hg Hok Hd Hb; cbn [append_all renumbered] in *.
  - rewrite app_nil_r. done.
  - inversion Hok as [|?? Hm Hok']; inversion Hd as [|?? Hdm Hd']; subst. cbn [length] in Hb.
    destruct (append_message (IoOk, IoOk) m r) as [r1 ack] eqn:Ha.
    assert (ack = Ok true) as ->.
    { revert Ha. unfold append_message, append. destruct Hr as (Hn & -> & _). rewrite Hg, Hn. cbn [negb orb].
      unfold dumpable, message_document, renumber in Hdm. cbn in Hdm.
      destruct (json_dump _); [|done]. unfold stream_put, stream_flush. cbn. rewrite Hg. cbn. rewrite ?Hg. cbn.
      by intros [= _ <-]. }
    destruct (append_holds ms0 _ m r r1 _ Hr Hm ltac:(lia) Ha) as [Hok1 _]. destruct (Hok1 eq_refl) as [Hr1 Hg1].
    assert (Z.of_nat (length (ms0 ++ [renumber (Z.of_nat (length ms0)) m])) = Z.of_nat (length ms0) + 1) as Hlen
      by (rewrite length_app; cbn; lia).
    specialize (IH _ r1 Hr1 Hg1 Hok'). rewrite Hlen in IH. specialize (IH Hd' ltac:(lia)).
    destruct (append_all ms r1) as [r2 acks]. rewrite <-app_assoc in IH. cbn in IH. naive_solver.
Qed.

Context {text_laws : JsonText}.

(** The end of a recording: nothing, or the beginning of a line. *)
Lemma read_recording ms tail file :
  recording ms tail file → Z.of_nat (length ms) ≤ UINT64_MAX → none is_newline tail = true →
  let '(rd, back) := read_all (open_reader (Some (file, false))) in
  back = ms ∧
  last_error_ rd = if String.eqb tail EmptyString then EmptyString
                   else "truncated JSONL: missing final newline"%string.
Proof.
  intros (lines & Hl & Hi & Hf) Hb Ht. rewrite (read_lines ms lines tail) by done.
  unfold read_all. cbn [read_loop]. unfold next. cbn [advanced open_reader in_open in_good in_rest in_fault negb orb field_update].
  cbn. rewrite get_line_none by done. destruct (String.eqb tail EmptyString) eqn:E; cbn; by rewrite app_nil_r.
Qed.

(** C15: a recording reads back exactly.  When every output operation succeeds
    and every message can be encoded, all appends are acknowledged, the next
    index is the number of messages, and the reader returns the messages,
    numbered from zero in the order of the appends, without an error. *)
Theorem recording_roundtrip ms :
  Forall fields_ok ms → Forall dumpable (renumbered 0 ms) → Z.of_nat (length ms) ≤ UINT64_MAX →
  let '(r, acks) := append_all ms (new_recorder false true) in
  let '(rd, back) := read_all (open_reader (Some (os_file (output_ r), false))) in
  Forall (λ a, a = Ok true) acks ∧ next_record_index_ r = Z.of_nat (length ms) ∧
  back = renumbered 0 ms ∧ has_error rd = false.
Proof.
  intros Hok Hd Hb.
  pose proof (append_all_holds [] ms _ new_recorder_holds eq_refl Hok Hd Hb) as Hall.
  destruct (append_all ms (new_recorder false true)) as [r acks].
  destruct Hall as ((Hn & _ & _ & junk & Hrec & Hj) & Hg & Hacks). cbn [app length] in *.
  change (Z.of_nat 0) with 0 in *.
  assert (length (renumbered 0 ms) = length ms) as Hlen
    by (clear; generalize 0 as n; induction ms as [|m ms IH]; intros n; cbn; [done|]; by rewrite (IH (n + 1))).
  rewrite (Hj Hg) in Hrec. apply read_recording in Hrec; [|by rewrite Hlen|done].
  destruct (read_all _) as [rd back]. destruct Hrec as [-> He]. unfold has_error. rewrite He.
  split_and!; [done| |done..]. by rewrite Hn, Hlen.
Qed.

(** Cutting the text of a file leaves whole lines and the beginning of one. *)
Lemma file_of_take lines n :
  Forall (λ l, none is_newline l = true) lines →
  ∃ k rest, str_take n (file_of lines) = file_of (take k lines) +:+ rest ∧ none is_newline rest = true.
Proof.
  revert n. induction lines as [|l lines IH]; intros n Hl; cbn [file_of].
  - exists 0%nat, EmptyString. by destruct n.
  - inversion Hl as [|?? Hl1 Hl2]; subst. clear Hl.
    assert (∀ m s, (m ≤ String.length l)%nat → none is_newline (str_take m (l +:+ s)) = true) as Hcut.
    { clear IH. induction l as [|c l IHl]; intros m s; cbn in *; [intros; by destruct m; [|lia]|].
      apply andb_true_iff in Hl1 as [Hc Hl1]. destruct m as [|m]; cbn; [done|].
      intros Hm. rewrite Hc. cbn. apply IHl; [done|lia]. }
    destruct (decide (n ≤ String.length l)%nat) as [Hn|Hn].
    + exists 0%nat, (str_take n (l +:+ String newline (file_of lines))). split; [done|]. by apply Hcut.
    + destruct (IH (n - String.length l - 1)%nat Hl2) as (k & rest & Hk & Hr).
      exists (S k), rest. split; [|done]. cbn [take file_of].
      assert (∀ s, str_take n (l +:+ String newline s) =
                   l +:+ String newline (str_take (n - String.length l - 1) s)) as Hs.
      { clear -Hn. revert n Hn. induction l as [|c l IHl]; intros n Hn s; cbn in *.
        - destruct n; [lia|]. cbn. by rewrite Nat.sub_0_r.
        - destruct n; [lia|]. cbn. f_equal. apply IHl. lia. }
      rewrite Hs, Hk. by rewrite <-string_app_assoc.
Qed.

(** C16: a recording that was cut at any byte still yields the records whose
    lines are complete, all of them and nothing else, and the reader reports
    an error exactly when the cut is inside a line. *)
Theorem truncated_recording ms file n :
  recording ms EmptyString file → Z.of_nat (length ms) ≤ UINT64_MAX →
  let '(rd, back) := read_all (open_reader (Some (str_take n file, false))) in
  ∃ k rest, back = take k ms ∧ recording (take k ms) rest (str_take n file) ∧ none is_newline rest = true ∧
    (has_error rd = true ↔ rest ≠ EmptyString) ∧
    (has_error rd = true → last_error_ rd = "truncated JSONL: missing final newline"%string).
Proof.
  intros (lines & [Hl Hok] & Hi & Hf) Hb. rewrite string_app_nil in Hf. subst file.
  destruct (file_of_take lines n) as (k & rest & Hk & Hr).
  { clear -Hl text_laws. induction Hl; constructor; [by eapply json_dump_line|done]. }
  assert (recording (take k ms) rest (str_take n (file_of lines))) as Hrec.
  { exists (take k lines). split_and!; [|..|done].
    - split; [by apply Forall2_take|by apply Forall_take].
    - rewrite <-(take_drop k ms) in Hi. by apply indexed_app in Hi as [Hi _]. }
  pose proof (read_recording _ _ _ Hrec) as Hread. rewrite length_take in Hread.
  specialize (Hread ltac:(lia) Hr). destruct (read_all _) as [rd back]. destruct Hread as [-> He].
  exists k, rest. unfold has_error. rewrite He. destruct (String.eqb_spec rest EmptyString); naive_solver.
Qed.
End theorems.

(** ** Concrete instances *)

Definition ex_record (i : Z) (v : Venue) (wall : Z) (text : string) : RawMessage :=
  {| record_index := i; venue := v; connection_id := 3; receive_wall_time := {| wall_ns := wall |};
     receive_monotonic_time := {| mono_ns := -5 |}; payload := text |}.
Definition ex_records : list RawMessage := [ex_record 9 Kraken 70 "first"; ex_record 9 Coinbase (-1) "second"].

(** The lines of the recording, as the library writes them. *)
Definition ex_line (m : RawMessage) : string := ex_text (message_document m).

Lemma recording_roundtrip_witness :
  let '(r, acks) := @append_all ex_json ex_records (new_recorder false true) in
  let '(rd, back) := @read_all ex_json (open_reader (Some (os_file (output_ r), false))) in
  Forall (λ a, a = Ok true) acks ∧ next_record_index_ r = 2 ∧
  back = [ex_record 0 Kraken 70 "first"; ex_record 1 Coinbase (-1) "second"] ∧ has_error rd = false.
Proof.
  apply (@recording_roundtrip ex_json ex_json_text ex_records).
  - repeat constructor; vm_compute; done.
  - repeat constructor; vm_compute; done.
  - done.
Defined.

Definition ex_read : list RawMessage := [ex_record 0 Kraken 70 "first"; ex_record 1 Coinbase (-1) "second"].
Definition ex_file : string := file_of (map ex_line ex_read).

Lemma ex_recording : @recording ex_json ex_read EmptyString ex_file.
Proof.
  exists (map ex_line ex_read). split_and!; [split|done|done].
  - repeat constructor.
  - repeat constructor; vm_compute; done.
Qed.

(** A file cut inside its second line. *)
Definition ex_cut : nat := S (String.length (ex_line (ex_record 0 Kraken 70 "first")) + 20).

Lemma truncated_recording_witness :
  let '(rd, back) := @read_all ex_json (open_reader (Some (str_take ex_cut ex_file, false))) in
  ∃ k rest, back = take k [ex_record 0 Kraken 70 "first"; ex_record 1 Coinbase (-1) "second"] ∧
    @recording ex_json (take k [ex_record 0 Kraken 70 "first"; ex_record 1 Coinbase (-1) "second"]) rest
      (str_take ex_cut ex_file) ∧
    none is_newline rest = true ∧ (has_error rd = true ↔ rest ≠ EmptyString) ∧
    (has_error rd = true → last_error_ rd = "truncated JSONL: missing final newline"%string).
Proof. exact (@truncated_recording ex_json ex_json_text _ ex_file ex_cut ex_recording ltac:(done)). Defined.

Example ex_truncated :
  @read_all ex_json (open_reader (Some (str_take ex_cut ex_file, false))) =
  ({| in_open := true; in_good := false; in_rest := EmptyString; in_fault := false;
      last_error_ := "truncated JSONL: missing final newline"; expected_index_ := 1 |},
   [ex_record 0 Kraken 70 "first"]).
Proof. vm_compute. reflexivity. Qed.
