(* ===== verification/RuntimeStatus.v ===== *)
(** * Runtime status

    [RuntimeStatus], the status that the market thread and the writer thread
    of a runtime share under a mutex, with the updates both make to it.  Each
    operation below is one critical section. *)

From S2P Require Import Prelude.
From S2P Require Import Text.
From S2P Require Import CoreTypes.
From S2P Require Import FixedPoint.
From S2P Require Import SequenceTracker.
From S2P Require Import OrderBook.
From S2P Require Import RecordingQueue.
From S2P Require Import CoinbaseHandler.
From S2P Require Import ConnectionManager.

Open Scope Z_scope.

(** ** Data *)

Module RuntimeState.
Inductive t :=
  | Starting | Running | Stopping | Stopped | StoppedRecordingError | StoppedQueueFull
  | StoppedProcessingError.
#[global] Instance eq_dec : EqDecision t.
Proof. solve_decision. Defined.
End RuntimeState.

Definition state_name (s : RuntimeState.t) : string :=
  match s with
  | RuntimeState.Starting => "Starting"
  | RuntimeState.Running => "Running"
  | RuntimeState.Stopping => "Stopping"
  | RuntimeState.Stopped => "Stopped"
  | RuntimeState.StoppedRecordingError => "StoppedRecordingError"
  | RuntimeState.StoppedQueueFull => "StoppedQueueFull"
  | RuntimeState.StoppedProcessingError => "StoppedProcessingError"
  end.

Record RuntimeStatus := {
  lifecycle_events : list LifecycleEvent;
  runtime_state : RuntimeState.t;
  st_connected : bool;
  st_book_state : BookState;
  received_messages : Z; enqueued_messages : Z; written_messages : Z; processed_messages : Z;
  bid_levels : nat; ask_levels : nat;
  recording_queue_messages : Z; recording_queue_bytes : Z;
  st_last_sequence : option Z;
  st_best_bid : option PriceTicks; st_best_ask : option PriceTicks;
  fatal_error : option string;
  st_progress : RuntimeProgress;
}.

#[export] Instance RuntimeStatus_eta : EtaRecord RuntimeStatus := λ s,
  {| lifecycle_events := lifecycle_events s; runtime_state := runtime_state s;
     st_connected := st_connected s; st_book_state := st_book_state s;
     received_messages := received_messages s; enqueued_messages := enqueued_messages s;
     written_messages := written_messages s; processed_messages := processed_messages s;
     bid_levels := bid_levels s; ask_levels := ask_levels s;
     recording_queue_messages := recording_queue_messages s;
     recording_queue_bytes := recording_queue_bytes s; st_last_sequence := st_last_sequence s;
     st_best_bid := st_best_bid s; st_best_ask := st_best_ask s; fatal_error := fatal_error s;
     st_progress := st_progress s |}.

Definition new_status : RuntimeStatus :=
  {| lifecycle_events := []; runtime_state := RuntimeState.Starting; st_connected := false;
     st_book_state := Initializing; received_messages := 0; enqueued_messages := 0;
     written_messages := 0; processed_messages := 0; bid_levels := 0; ask_levels := 0;
     recording_queue_messages := 0; recording_queue_bytes := 0; st_last_sequence := None;
     st_best_bid := None; st_best_ask := None; fatal_error := None; st_progress := new_progress |}.

(** ** Operations *)

(** [if (!status.fatal_error) { status.fatal_error = e; status.runtime_state = s; }] *)
Definition set_fatal (e : string) (state : RuntimeState.t) (s : RuntimeStatus) : RuntimeStatus :=
  match fatal_error s with
  | Some _ => s
  | None => s <| fatal_error := Some e |> <| runtime_state := state |>
  end.

(** [SharedRuntime::recording_failed], without the notification of the market
    thread. *)
Definition recording_failed (e : string) (s : RuntimeStatus) : RuntimeStatus :=
  set_fatal e RuntimeState.StoppedRecordingError s.

(** The writer's update after a record was written. *)
Definition record_written (index : Z) (s : RuntimeStatus) : RuntimeStatus :=
  s <| written_messages ::= incr64 |>
    <| st_progress ::= λ p, p <| last_written_index := Some index |> |>.

(** What a book shows: its state, sizes and best prices. *)
Definition show_book (b : OrderBook) (s : RuntimeStatus) : RuntimeStatus :=
  s <| st_book_state := state_ b |>
    <| bid_levels := length (bids_ b) |> <| ask_levels := length (asks_ b) |>
    <| st_best_bid := price <$> best_bid b |> <| st_best_ask := price <$> best_ask b |>.

(** The [publish] lambda of the Coinbase runtime. *)
Definition live_publish {E} (queue : RawRecordingQueue) (m : Manager E) (s : RuntimeStatus) : RuntimeStatus :=
  (show_book (manager_book m) s) <| st_connected := connected_ m |>
    <| st_last_sequence := manager_sequence m |>
    <| recording_queue_messages := message_count queue |>
    <| recording_queue_bytes := payload_bytes queue |>.

(** The publish callback of the Coinbase message handler; [connected] and the
    market are the manager's at that moment. *)
Definition publish_result (queue : RawRecordingQueue) (connected : bool) (market : Market)
    (result : ProcessResult) (progress : RuntimeProgress) (s : RuntimeStatus) : RuntimeStatus :=
  let s := (show_book (book market) s) <| st_connected := connected |>
             <| st_last_sequence := last_ (tracker market) |>
             <| recording_queue_messages := message_count queue |>
             <| recording_queue_bytes := payload_bytes queue |>
             <| received_messages ::= incr64 |> in
  let s := if negb (bool_decide (outcome result = MessageOutcome.RecordingRejected))
           then s <| enqueued_messages ::= incr64 |> <| processed_messages ::= incr64 |>
           else set_fatal (pr_error result)
                  (if String.eqb (pr_error result) "RAW_RECORDING_QUEUE_FULL"
                   then RuntimeState.StoppedQueueFull else RuntimeState.StoppedRecordingError) s in
  s <| st_progress ::= λ p,
         p <| last_received_index := last_received_index progress |>
           <| last_enqueued_index := last_enqueued_index progress |>
           <| last_processed_index := last_processed_index progress |> |>.

(** The catch clause of the Coinbase market thread. *)
Definition market_failed (e : string) (s : RuntimeStatus) : RuntimeStatus :=
  (set_fatal e RuntimeState.StoppedProcessingError s) <| st_connected := false |>
    <| st_book_state := Invalid |> <| st_best_bid := None |> <| st_best_ask := None |>.

Definition unpersisted_processed_range (s : RuntimeStatus) : string :=
  let p := st_progress s in
  match last_processed_index p with
  | None => EmptyString
  | Some processed =>
      if match last_written_index p with Some w => w >=? processed | None => false end
      then EmptyString
      else "unpersisted_processed_range=" +:+
           to_string (match last_written_index p with Some w => incr64 w | None => 0 end) +:+ "-" +:+
           to_string processed
  end.

(** The index text of [display]. *)
Definition index_text (value : option Z) : string :=
  match value with Some v => to_string v | None => "NA" end.
Definition price_text (value : option PriceTicks) : string :=
  match value with Some p => to_string (raw p) | None => "NA" end.

(** The status of a runtime that stopped with [n] records received, written
    and processed. *)
Record clean_stop (n : Z) (s : RuntimeStatus) : Prop := {
  cs_state : runtime_state s = RuntimeState.Stopped;
  cs_fatal : fatal_error s = None;
  cs_received : received_messages s = n;
  cs_written : written_messages s = n;
  cs_progress :
    let last := if n =? 0 then None else Some (n - 1) in
    st_progress s = {| last_received_index := last; last_enqueued_index := last;
                       last_written_index := last; last_processed_index := last |};
}.

(** ** Lemmas *)

(** The first fatal error stays. *)
Lemma set_fatal_sticky e state s :
  fatal_error (set_fatal e state s) = Some (default e (fatal_error s)) ∧
  (is_Some (fatal_error s) → set_fatal e state s = s).
Proof. unfold set_fatal. destruct (fatal_error s) eqn:E; cbn; split; [done|done|done|by intros [??]]. Qed.
