(* ===== verification/RecordingWriter.v ===== *)
(** * The recording writer thread

    [write_raw]: the thread that takes records from the queue and appends them
    to the recording, with the shared status.  The market thread's pushes,
    closing of the queue and status updates are interleaved with its steps;
    what the file system does is an argument of each step. *)

From S2P Require Import Prelude.
From S2P Require Import Text.
From S2P Require Import CoreTypes.
From S2P Require Import Json.
From S2P Require Import JsonLibrary.
From S2P Require Import RecordingQueue.
From S2P Require Import CoinbaseHandler.
From S2P Require Import ConnectionManager.
From S2P Require Import Recording.
From S2P Require Import RuntimeStatus.

Open Scope Z_scope.

(** ** State *)

(** [SharedRuntime]; [sh_post] tells whether [post_recording_failure] is set,
    and [sh_posted] holds the errors it was called with. *)
Record SharedRuntime := {
  sh_status : RuntimeStatus;
  sh_writer_ready : bool;
  sh_writer_done : bool;
  sh_post : bool;
  sh_posted : list string;
}.

#[export] Instance SharedRuntime_eta : EtaRecord SharedRuntime := λ s,
  {| sh_status := sh_status s; sh_writer_ready := sh_writer_ready s;
     sh_writer_done := sh_writer_done s; sh_post := sh_post s; sh_posted := sh_posted s |}.

Definition new_shared : SharedRuntime :=
  {| sh_status := new_status; sh_writer_ready := false; sh_writer_done := false; sh_post := false;
     sh_posted := [] |}.

(** [SharedRuntime::recording_failed] *)
Definition shared_recording_failed (error : string) (s : SharedRuntime) : SharedRuntime :=
  let s := s <| sh_status ::= recording_failed error |> in
  if sh_post s then s <| sh_posted ::= λ l, l ++ [error] |> else s.

(** What the file system answers before the first record. *)
Record WriterEnv := {
  we_create_directories : result unit;
  we_space_available : result Z;
  we_exists : bool;
  we_opens : bool;
  we_flush : stream_io;
}.

(** The writer between its calls of [wait_pop]: not started, running with its
    recorder, or done, with the recording it left. *)
Inductive WriterState :=
  | WriterStarting
  | WriterRunning (r : RawEventRecorder)
  | WriterDone (r : RawEventRecorder).

Record WriterSystem := {
  ws_writer : WriterState;
  ws_queue : QueueLog;
  ws_shared : SharedRuntime;
}.

#[export] Instance WriterSystem_eta : EtaRecord WriterSystem := λ s,
  {| ws_writer := ws_writer s; ws_queue := ws_queue s; ws_shared := ws_shared s |}.

(** ** Operations *)

(** The checks before the loop; the recorder that was opened, if any. *)
Definition writer_open (env : WriterEnv) (minimum_free_disk_bytes : Z) : RawEventRecorder * result unit :=
  let absent := new_recorder false false in
  match we_create_directories env with
  | Throw e => (absent, Throw e)
  | Ok _ =>
      match we_space_available env with
      | Throw e => (absent, Throw e)
      | Ok available =>
          if available <? minimum_free_disk_bytes then (absent, Throw (RuntimeError "Insufficient disk space"))
          else
            let '(r, ok) := flush (we_flush env) (new_recorder (we_exists env) (we_opens env)) in
            (r, throw_if (negb ok) (RuntimeError "cannot open a new recording file"))
      end
  end.

Section writer.
Context `{JsonLib}.

(** The outcomes of the output operations for one record. *)
Definition record_io : Type := stream_io * stream_io * stream_io.

(** The default [append]: the record, then another flush. *)
Definition append_raw (io : record_io) (e : RawEnvelope) (r : RawEventRecorder) : RawEventRecorder * result bool :=
  match append_message io.1 e r with
  | (r, Ok true) => let '(r, ok) := flush io.2 r in (r, Ok ok)
  | (r, other) => (r, other)
  end.

(** The body of the writing loop, without the status update. *)
Definition write_record (io : record_io) (e : RawEnvelope) (r : RawEventRecorder) : RawEventRecorder * result unit :=
  let failed := RuntimeError ("raw recording write/flush failed at index " +:+ to_string (record_index e)) in
  if negb (record_index e =? next_record_index_ r) then (r, Throw failed)
  else
    match append_raw io e r with
    | (r, Ok true) => (r, Ok tt)
    | (r, Ok false) => (r, Throw failed)
    | (r, Throw ex) => (r, Throw ex)
    end.

(** [queue.close()] *)
Definition close_log (q : QueueLog) : QueueLog := {| rq := close (rq q); taken := taken q |}.

(** The catch clause and what follows it. *)
Definition writer_failed (e : exn) (r : RawEventRecorder) (s : WriterSystem) : WriterSystem :=
  s <| ws_writer := WriterDone r |> <| ws_queue ::= close_log |>
    <| ws_shared ::= λ sh, (shared_recording_failed (what e) sh) <| sh_writer_done := true |> |>.

(** The thread up to its first [wait_pop]. *)
Definition writer_start (env : WriterEnv) (minimum_free_disk_bytes : Z) (s : WriterSystem) : WriterSystem :=
  match writer_open env minimum_free_disk_bytes with
  | (r, Ok _) => s <| ws_writer := WriterRunning r |> <| ws_shared ::= λ sh, sh <| sh_writer_ready := true |> |>
  | (r, Throw e) => writer_failed e r s
  end.

(** One call of [wait_pop] and what follows up to the next one; nothing while
    it blocks. *)
Definition writer_next (io : record_io) (close_io : stream_io) (close_ok : bool) (r : RawEventRecorder)
    (s : WriterSystem) : WriterSystem :=
  match wait_pop (rq (ws_queue s)) with
  | None => s
  | Some (q, Some e) =>
      let s := s <| ws_queue := {| rq := q; taken := taken (ws_queue s) ++ [e] |} |> in
      match write_record io e r with
      | (r, Ok _) =>
          s <| ws_writer := WriterRunning r |>
            <| ws_shared ::= λ sh, sh <| sh_status ::= record_written (record_index e) |> |>
      | (r, Throw ex) => writer_failed ex r s
      end
  | Some (q, None) =>
      let s := s <| ws_queue ::= λ l, {| rq := q; taken := taken l |} |> in
      match close_recorder close_io close_ok r with
      | (r, true) => s <| ws_writer := WriterDone r |> <| ws_shared ::= λ sh, sh <| sh_writer_done := true |> |>
      | (r, false) => writer_failed (RuntimeError "raw recording final flush/close failed") r s
      end
  end.

(** ** Runs *)

(** The steps of both threads: the market thread pushes records, closes the
    queue, updates the status and sets the callback. *)
Inductive writer_event :=
  | WStart (env : WriterEnv) (minimum_free_disk_bytes : Z)
  | WNext (io : record_io) (close_io : stream_io) (close_ok : bool)
  | WPush (m : RawEnvelope)
  | WClose
  | WStatus (f : RuntimeStatus → RuntimeStatus)
  | WSetPost (set : bool).

Definition writer_step (s : WriterSystem) (e : writer_event) : WriterSystem :=
  match e with
  | WStart env minimum =>
      match ws_writer s with WriterStarting => writer_start env minimum s | _ => s end
  | WNext io close_io close_ok =>
      match ws_writer s with WriterRunning r => writer_next io close_io close_ok r s | _ => s end
  | WPush m =>
      s <| ws_queue ::= λ q, {| rq := (try_push (rq q) m).1; taken := taken q |} |>
  | WClose => s <| ws_queue ::= close_log |>
  | WStatus f => s <| ws_shared ::= λ sh, sh <| sh_status ::= f |> |>
  | WSetPost set => s <| ws_shared ::= λ sh, sh <| sh_post := set |> |>
  end.

(** What the market thread's updates leave alone: the writer's progress, and
    the presence of a fatal error. *)
Definition market_update (f : RuntimeStatus → RuntimeStatus) : Prop :=
  ∀ s, written_messages (f s) = written_messages s ∧
    last_written_index (st_progress (f s)) = last_written_index (st_progress s) ∧
    (is_Some (fatal_error s) → is_Some (fatal_error (f s))).

Definition writer_event_ok (e : writer_event) : Prop :=
  match e with
  | WPush m => fields_ok m
  | WStatus f => market_update f
  | _ => True
  end.

(** A run of the two threads from the start of the writer. *)
Inductive writer_run (config : RawQueueConfig) : list writer_event → WriterSystem → Prop :=
  | writer_run_nil :
      writer_run config []
        {| ws_writer := WriterStarting; ws_queue := {| rq := new_queue config; taken := [] |};
           ws_shared := new_shared |}
  | writer_run_snoc es s e :
      writer_run config es s → writer_event_ok e →
      Z.of_nat (length (sink_log (ws_queue s))) < UINT64_MAX →
      writer_run config (es ++ [e]) (writer_step s e).

(** The text of the recording file. *)
Definition writer_file (w : WriterState) : string :=
  match w with
  | WriterStarting => EmptyString
  | WriterRunning r | WriterDone r => os_file (output_ r)
  end.
End writer.

(** ** Lemmas *)

(** The updates of the runtimes are market updates. *)
Lemma set_fatal_market e state : market_update (set_fatal e state).
Proof. intros s. unfold set_fatal. destruct (fatal_error s) eqn:E; cbn; rewrite ?E; done. Qed.

Lemma live_publish_market {E} q (m : Manager E) : market_update (live_publish q m).
Proof. done. Qed.

Lemma publish_result_market q c m r p : market_update (publish_result q c m r p).
Proof.
  intros s. unfold publish_result. destruct (negb _); [done|]. cbv zeta.
  set (s1 := (show_book _ s) <| st_connected := _ |> <| st_last_sequence := _ |> <| recording_queue_messages := _ |>
    <| recording_queue_bytes := _ |> <| received_messages ::= _ |>).
  change (written_messages s) with (written_messages s1). change (st_progress s) with (st_progress s1).
  change (fatal_error s) with (fatal_error s1).
  match goal with |- context [set_fatal ?e ?st s1] => destruct (set_fatal_market e st s1) as (H1 & H2 & H3) end.
  cbn in *. done.
Qed.

Lemma market_failed_market e : market_update (market_failed e).
Proof.
  intros s. unfold market_failed. destruct (set_fatal_market e RuntimeState.StoppedProcessingError s) as (H1 & H2 & H3).
  cbn in *. done.
Qed.

Section lemmas.
Context `{JsonLib}.
Implicit Types s : WriterSystem.

Lemma append_raw_holds ms io e r r' res :
  recorder_holds ms r → fields_ok e → record_index e = Z.of_nat (length ms) → Z.of_nat (length ms) < UINT64_MAX →
  append_raw io e r = (r', res) →
  (res = Ok true → recorder_holds (ms ++ [e]) r' ∧ os_good (output_ r') = true) ∧
  (recorder_holds ms r' ∨ recorder_holds (ms ++ [e]) r').
Proof.
  intros Hr He Hi Hb. unfold append_raw. destruct (append_message io.1 e r) as [r1 res1] eqn:Ha.
  destruct (append_holds ms _ e r r1 res1 Hr He Hb Ha) as [Hok Hno].
  assert (renumber (Z.of_nat (length ms)) e = e) as Hre by (rewrite <-Hi; by destruct e).
  rewrite Hre in Hok.
  destruct res1 as [[]|]; [|intros [= <- <-]; split; [done|left; by apply Hno]..].
  destruct (Hok eq_refl) as [Hr1 Hg1]. destruct (flush io.2 r1) as [r2 ok] eqn:Hfl.
  intros [= <- <-]. destruct (flush_holds _ _ _ _ _ Hr1 Hfl) as [Hr2 ->].
  split; [intros [= ->]; done|by right].
Qed.

(** What holds between the steps. *)
Definition persisted (s : WriterSystem) (ms : list RawMessage) : Prop :=
  let st := sh_status (ws_shared s) in
  let q := ws_queue s in
  written_messages st = Z.of_nat (length ms) ∧
  last_written_index (st_progress st) = (if decide (ms = []) then None else Some (Z.of_nat (length ms) - 1)) ∧
  Forall fields_ok (sink_log q) ∧
  match ws_writer s with
  | WriterStarting => ms = [] ∧ taken q = [] ∧ sh_writer_done (ws_shared s) = false
  | WriterRunning r =>
      recorder_holds ms r ∧ os_good (output_ r) = true ∧ taken q = ms ∧ sh_writer_done (ws_shared s) = false
  | WriterDone r =>
      closed_ (rq q) = true ∧
      (∃ more tail, recording (ms ++ more) tail (os_file (output_ r)) ∧ ms ++ more `prefix_of` taken q) ∧
      (fatal_error (sh_status (ws_shared s)) = None →
       taken q = ms ∧ messages_ (rq q) = [] ∧ recording ms EmptyString (os_file (output_ r)))
  end.

(** A failure reports a fatal error and closes the queue. *)
Lemma writer_failed_persisted e r s ms more tail :
  written_messages (sh_status (ws_shared s)) = Z.of_nat (length ms) →
  last_written_index (st_progress (sh_status (ws_shared s))) =
    (if decide (ms = []) then None else Some (Z.of_nat (length ms) - 1)) →
  Forall fields_ok (sink_log (ws_queue s)) →
  recording (ms ++ more) tail (os_file (output_ r)) → ms ++ more `prefix_of` taken (ws_queue s) →
  persisted (writer_failed e r s) ms.
Proof.
  intros Hn Hl Hf Hrec Hp. unfold persisted, writer_failed. cbn -[decide].
  assert (∀ sh, sh_status (shared_recording_failed (what e) sh) = recording_failed (what e) (sh_status sh)) as Hs.
  { intros sh. unfold shared_recording_failed. cbn. by destruct (sh_post sh). }
  rewrite Hs. unfold recording_failed.
  destruct (set_fatal_market (what e) RuntimeState.StoppedRecordingError (sh_status (ws_shared s))) as (H1 & H2 & _).
  rewrite H1, H2. split_and!; [done..|by exists more, tail|].
  intros Hnone. pose proof (set_fatal_sticky (what e) RuntimeState.StoppedRecordingError (sh_status (ws_shared s)))
    as [Hfatal _]. by rewrite Hnone in Hfatal.
Qed.

Lemma recorder_recording ms r :
  recorder_holds ms r → ∃ tail, recording ms tail (os_file (output_ r)).
Proof. intros (_ & _ & _ & junk & ? & _). by exists junk. Qed.

Lemma writer_start_persisted env minimum s :
  ws_writer s = WriterStarting → persisted s [] → persisted (writer_start env minimum s) [].
Proof.
  intros Hw (Hn & Hl & Hf & Hst). rewrite Hw in Hst. destruct Hst as (_ & Ht & Hd).
  assert (∀ e r, persisted (writer_failed e r s) []) as Hplain.
  { intros e r. eapply (writer_failed_persisted e _ s [] [] (os_file (output_ r))); [done..| |apply prefix_nil].
    by exists []. }
  unfold writer_start, writer_open.
  destruct (we_create_directories env); [|apply Hplain]. destruct (we_space_available env); [|apply Hplain].
  destruct (_ <? _); [apply Hplain|].
  destruct (flush (we_flush env) _) as [r ok] eqn:Hfl. destruct ok; [|apply Hplain].
  destruct (we_exists env); [by cbn in Hfl|]. destruct (we_opens env); [|by cbn in Hfl].
  destruct (flush_holds [] _ _ _ _ new_recorder_holds Hfl) as [Hr Hg].
  cbn. unfold persisted. cbn -[decide]. done.
Qed.

Lemma write_record_holds ms io e r r' res :
  recorder_holds ms r → fields_ok e → Z.of_nat (length ms) < UINT64_MAX →
  write_record io e r = (r', res) →
  (res = Ok tt → record_index e = Z.of_nat (length ms) ∧ recorder_holds (ms ++ [e]) r' ∧ os_good (output_ r') = true) ∧
  ∃ more tail, recording (ms ++ more) tail (os_file (output_ r')) ∧ ms ++ more `prefix_of` ms ++ [e].
Proof.
  intros Hr He Hb. pose proof Hr as (Hn & _). unfold write_record. rewrite Hn.
  assert (∀ more r0, recorder_holds (ms ++ more) r0 → ms ++ more `prefix_of` ms ++ [e] →
    ∃ more tail, recording (ms ++ more) tail (os_file (output_ r0)) ∧ ms ++ more `prefix_of` ms ++ [e]) as Hmore.
  { intros more r0 [tail Ht]%recorder_recording Hp. by exists more, tail. }
  destruct (record_index e =? Z.of_nat (length ms)) eqn:Hi; cbn [negb]; [apply Z.eqb_eq in Hi|].
  - destruct (append_raw io e r) as [r1 res1] eqn:Ha.
    destruct (append_raw_holds ms _ e r r1 res1 Hr He Hi Hb Ha) as [Hok Hany].
    assert (∃ more tail, recording (ms ++ more) tail (os_file (output_ r1)) ∧ ms ++ more `prefix_of` ms ++ [e]) as Hex.
    { destruct Hany as [Hr1|Hr1]; [apply (Hmore []); rewrite app_nil_r; [done|by apply prefix_app_r]|by apply (Hmore [e])]. }
    destruct res1 as [[]|]; intros [= <- <-]; (split; [|done]); [|done..]. intros _. by destruct (Hok eq_refl).
  - intros [= <- <-]. split; [done|]. apply (Hmore []); rewrite app_nil_r; [done|by apply prefix_app_r].
Qed.

Lemma record_written_persisted ms (e : RawMessage) s :
  let n := Z.of_nat (length ms) in
  written_messages (sh_status (ws_shared s)) = n → n < UINT64_MAX → record_index e = n →
  let st := record_written (record_index e) (sh_status (ws_shared s)) in
  written_messages st = Z.of_nat (length (ms ++ [e])) ∧
  last_written_index (st_progress st) =
    (if decide (ms ++ [e] = []) then None else Some (Z.of_nat (length (ms ++ [e])) - 1)).
Proof.
  cbn. intros Hn Hb Hi. rewrite length_app, Nat2Z.inj_add, decide_False by (by destruct ms). cbn.
  rewrite Hn, incr64_small by lia. split; [done|]. rewrite Hi. f_equal. lia.
Qed.

Lemma writer_next_persisted io close_io close_ok r s ms :
  ws_writer s = WriterRunning r → persisted s ms → Z.of_nat (length (sink_log (ws_queue s))) < UINT64_MAX →
  ∃ ms', persisted (writer_next io close_io close_ok r s) ms'.
Proof.
  intros Hw Hpers Hb. pose proof Hpers as (Hn & Hl & Hf & Hst). rewrite Hw in Hst. destruct Hst as (Hr & Hg & Ht & Hd).
  unfold writer_next, wait_pop. destruct (messages_ (rq (ws_queue s))) as [|e rest] eqn:Hm.
  - destruct (closed_ (rq (ws_queue s))) eqn:Hc; [|by exists ms].
    exists ms. unfold close_recorder. pose proof Hr as (_ & Ho & _). rewrite Ho. cbn [negb].
    destruct (flush close_io r) as [r1 ok] eqn:Hfl. pose proof Hfl as Hfl'. unfold flush in Hfl'.
    rewrite Ho in Hfl'. cbn [negb] in Hfl'. assert (r <| output_ ::= stream_flush close_io |> = r1) as Hr1 by (by injection Hfl').
    destruct (flush_holds _ _ _ _ _ Hr Hfl) as [Hr1' _]. cbv zeta. rewrite Hr1. clear Hr1 Hfl.
    destruct Hr1' as (_ & _ & _ & junk & Hrec & Hj).
    destruct (os_good (output_ r1) && close_ok) eqn:Hgood.
    + apply andb_true_iff in Hgood as [Hg1 _]. rewrite (Hj Hg1) in Hrec. unfold persisted. cbn -[decide].
      split_and!; try done. exists [], EmptyString. rewrite app_nil_r, Ht. done.
    + eapply (writer_failed_persisted _ _ _ ms [] junk); cbn -[decide]; try done; rewrite app_nil_r; [done|by rewrite Ht].
  - assert (length (sink_log (ws_queue s)) = length ms + S (length rest))%nat as Hlen.
    { cbn. by rewrite length_app, Ht, Hm. }
    assert (fields_ok e) as He.
    { cbn in Hf. rewrite Hm in Hf. apply Forall_app in Hf as [_ Hf]. by inversion Hf. }
    assert (Forall fields_ok ((taken (ws_queue s) ++ [e]) ++ rest)) as Hf'.
    { rewrite <-app_assoc. cbn in *. by rewrite <-Hm. }
    destruct (write_record io e r) as [r1 res] eqn:Hwr.
    destruct (write_record_holds ms io e r r1 res Hr He ltac:(lia) Hwr) as [Hok (more & tail & Hrec & Hp)].
    destruct res as [[]|ex].
    + destruct (Hok eq_refl) as (Hi & Hr1 & Hg1). exists (ms ++ [e]).
      destruct (record_written_persisted ms e s Hn ltac:(lia) Hi) as [Hn' Hl'].
      unfold persisted. cbn -[decide record_written]. split_and!; try done. by rewrite Ht.
    + exists ms. eapply (writer_failed_persisted _ _ _ ms more tail); cbn -[decide]; try done. by rewrite Ht.
Qed.

(** The market thread's steps. *)
Lemma market_step_persisted s ms e :
  match e with WStart _ _ | WNext _ _ _ => False | _ => True end → writer_event_ok e →
  persisted s ms → persisted (writer_step s e) ms.
Proof.
  intros He Hok (Hn & Hl & Hf & Hst). destruct e as [| |m| |f|set]; try done; unfold persisted; cbn -[decide].
  - unfold try_push. split_and!; [done..| |].
    + destruct (closed_ _); [done|]. destruct (_ || _); [done|]. cbn. rewrite app_assoc. apply Forall_app. split; [exact Hf|by constructor].
    + destruct (ws_writer s); [done..|]. destruct Hst as (Hc & Hrest). by rewrite Hc.
  - split_and!; [done..|]. destruct (ws_writer s); [done..|]. destruct Hst as (Hc & Hrest). done.
  - destruct (Hok (sh_status (ws_shared s))) as (H1 & H2 & H3). rewrite H1, H2. split_and!; [done..|].
    destruct (ws_writer s); [done..|]. destruct Hst as (Hc & Hrec & Hfin). split_and!; [done..|].
    intros Hnone. apply Hfin. destruct (fatal_error (sh_status (ws_shared s))); [|done].
    destruct (H3 ltac:(done)) as [? Hx]. by rewrite Hnone in Hx.
Qed.

Lemma writer_run_persisted config es s : writer_run config es s → ∃ ms, persisted s ms.
Proof.
  induction 1 as [|es s e Hrun [ms IH] Hok Hb].
  - exists []. unfold persisted. cbn -[decide]. by split_and!.
  - destruct e as [env minimum|io close_io close_ok|m| |f|set]; try (exists ms; by apply market_step_persisted).
    + cbn. destruct (ws_writer s) eqn:Hw; [|by exists ms..].
      assert (ms = []) as -> by (destruct IH as (_ & _ & _ & Hst); rewrite Hw in Hst; tauto).
      exists []. by apply writer_start_persisted.
    + cbn. destruct (ws_writer s) as [|r|] eqn:Hw; [by exists ms| |by exists ms]. by eapply writer_next_persisted.
Qed.

(** A step adds at most one record to the log. *)
Lemma writer_step_log s e :
  (length (sink_log (ws_queue (writer_step s e))) ≤ S (length (sink_log (ws_queue s))))%nat.
Proof.
  assert (∀ ex r s', length (sink_log (ws_queue (writer_failed ex r s'))) = length (sink_log (ws_queue s'))) as Hfail by done.
  destruct e as [env minimum|io close_io close_ok|m| |f|set]; cbn [writer_step]; try (cbn; lia).
  - destruct (ws_writer s); [|lia..]. unfold writer_start. destruct (writer_open env minimum) as [r [[]|ex]]; [cbn; lia|].
    rewrite Hfail. lia.
  - destruct (ws_writer s) as [|r|]; [lia| |lia]. unfold writer_next, wait_pop.
    destruct (messages_ (rq (ws_queue s))) as [|e rest] eqn:Hm.
    + destruct (closed_ _); [|lia]. destruct (close_recorder _ _ _) as [r1 []]; rewrite ?Hfail; cbn; lia.
    + destruct (write_record io e r) as [r1 [[]|ex]]; rewrite ?Hfail; cbn; rewrite !length_app, Hm; cbn; lia.
  - unfold try_push. cbn. destruct (closed_ _); [cbn; lia|]. destruct (_ || _); cbn; [lia|]. rewrite !length_app. cbn. lia.
Qed.

Lemma writer_run_log config es s :
  writer_run config es s → Z.of_nat (length (sink_log (ws_queue s))) ≤ UINT64_MAX.
Proof. induction 1 as [|es s e Hrun IH Hok Hb]; [done|]. pose proof (writer_step_log s e). lia. Qed.

(** Any sequence of steps is a run while there is room for its records. *)
Lemma writer_run_steps config es s es' :
  writer_run config es s → Forall writer_event_ok es' →
  Z.of_nat (length (sink_log (ws_queue s))) + Z.of_nat (length es') ≤ UINT64_MAX →
  writer_run config (es ++ es') (foldl writer_step s es').
Proof.
  intros Hrun Hok. revert es s Hrun. induction Hok as [|e es' He Hok IH]; intros es s Hrun Hb; cbn [foldl length] in *.
  - by rewrite app_nil_r.
  - replace (es ++ e :: es') with ((es ++ [e]) ++ es') by (by rewrite <-app_assoc).
    apply IH; [apply writer_run_snoc; [done..|lia]|]. pose proof (writer_step_log s e). lia.
Qed.

Context {text_laws : JsonText}.

(** The records of a file are read back first, whatever follows them. *)
Lemma read_recorded ms tail file fault :
  recording ms tail file → Z.of_nat (length ms) ≤ UINT64_MAX →
  ∃ later, (read_all (open_reader (Some (file, fault)))).2 = ms ++ later.
Proof.
  intros (lines & Hl & Hi & Hf) Hb. rewrite (read_lines ms lines tail) by done.
  destruct (read_all _) as [rd more]. by exists more.
Qed.

Lemma persisted_recording s ms :
  persisted s ms → ∃ more tail, recording (ms ++ more) tail (writer_file (ws_writer s)) ∧
    ms ++ more `prefix_of` taken (ws_queue s).
Proof.
  intros (_ & _ & _ & Hst). destruct (ws_writer s) as [|r|r].
  - destruct Hst as (-> & Ht & _). exists [], EmptyString. split; [by exists []|apply prefix_nil].
  - destruct Hst as (Hr & _ & <- & _). destruct (recorder_recording _ _ Hr) as [tail Hrec]. exists [], tail.
    by rewrite app_nil_r.
  - tauto.
Qed.
End lemmas.

(** ** Theorem *)

(** C5: the writer never reports a record as written that the recording does
    not hold, and never loses one silently.  In every interleaving of the two
    threads, whatever the file system does, reading the recording back gives
    first the [written_messages] records that were accepted first, in order;
    [last_written_index] is the index of the last of them; and when the writer
    is done without a fatal error, the recording is exactly the accepted
    records and reads without an error. *)
Theorem writer_persistence `{JsonLib, !JsonText} config es s fault :
  writer_run config es s →
  let log := sink_log (ws_queue s) in
  let st := sh_status (ws_shared s) in
  let n := Z.to_nat (written_messages st) in
  let '(rd, back) := read_all (open_reader (Some (writer_file (ws_writer s), fault))) in
  (n ≤ length log)%nat ∧ (∃ later, back = take n log ++ later) ∧
  last_written_index (st_progress st) = (if decide (n = 0%nat) then None else Some (Z.of_nat n - 1)) ∧
  (sh_writer_done (ws_shared s) = true → fatal_error st = None →
   n = length log ∧ (fault = false → back = log ∧ has_error rd = false)).
Proof.
  intros Hrun. cbv zeta. destruct (writer_run_persisted _ _ _ Hrun) as [ms Hp].
  pose proof (writer_run_log _ _ _ Hrun) as Hb.
  destruct (persisted_recording s ms Hp) as (more & tail & Hrec & [rest Ht]).
  destruct Hp as (Hn & Hl & _ & Hst). rewrite Hn, Nat2Z.id. cbn [sink_log queue_sink] in *.
  assert (taken (ws_queue s) ++ messages_ (rq (ws_queue s)) =
          ms ++ (more ++ rest) ++ messages_ (rq (ws_queue s))) as Hlog by (rewrite Ht; by rewrite <-!app_assoc).
  rewrite Hlog in Hb |- *. rewrite !length_app in *. rewrite take_app_length.
  destruct (read_recorded _ _ _ fault Hrec) as [later Hback]; [rewrite length_app; lia|].
  destruct (read_all _) as [rd back] eqn:Hread. cbn [snd] in Hback. split_and!.
  - lia.
  - exists (more ++ later). by rewrite Hback, <-app_assoc.
  - rewrite Hl. destruct ms; [done|]. by rewrite !decide_False by done.
  - intros Hdone Hfatal. destruct (ws_writer s) as [|r|r]; [destruct Hst as (_ & _ & Hd); by rewrite Hd in Hdone|..].
    { destruct Hst as (_ & _ & _ & Hd). by rewrite Hd in Hdone. }
    destruct Hst as (_ & _ & Hfin). destruct (Hfin Hfatal) as (Htk & Hm & Hrec').
    rewrite Hm, Htk in *. assert (more ++ rest = []) as Hnil.
    { apply (app_inv_head ms). rewrite app_nil_r, app_assoc. exact (eq_sym Ht). }
    rewrite Hnil. apply app_eq_nil in Hnil as [-> ->]. rewrite !app_nil_r. split; [cbn; lia|]. intros ->.
    pose proof (read_recording ms EmptyString _ Hrec' ltac:(lia) eq_refl) as Hr. cbn [writer_file] in Hread.
    rewrite Hread in Hr. destruct Hr as [-> He]. split; [done|]. unfold has_error. by rewrite He.
Qed.

(** ** Concrete run *)

Definition ex_writer_env : WriterEnv :=
  {| we_create_directories := Ok tt; we_space_available := Ok 100; we_exists := false; we_opens := true;
     we_flush := IoOk |}.
Definition ex_io : record_io := (IoOk, IoOk, IoOk).
Definition ex_writer_events : list writer_event :=
  [WStart ex_writer_env 64; WPush (ex_record 0 Kraken 70 "first"); WNext ex_io IoOk true;
   WPush (ex_record 1 Coinbase (-1) "second"); WClose; WNext ex_io IoOk true; WNext ex_io IoOk true].
Definition ex_writer_initial : WriterSystem :=
  {| ws_writer := WriterStarting; ws_queue := {| rq := new_queue default_queue_config; taken := [] |};
     ws_shared := new_shared |}.
Definition ex_writer_final : WriterSystem := foldl (@writer_step ex_json) ex_writer_initial ex_writer_events.

Lemma ex_writer_run : @writer_run ex_json default_queue_config ex_writer_events ex_writer_final.
Proof.
  apply (@writer_run_steps ex_json default_queue_config [] ex_writer_initial); [apply writer_run_nil| |done].
  repeat constructor; vm_compute; done.
Qed.

Lemma writer_persistence_witness :
  (∃ later, (@read_all ex_json (open_reader (Some (writer_file (ws_writer ex_writer_final), false)))).2 =
     [ex_record 0 Kraken 70 "first"; ex_record 1 Coinbase (-1) "second"] ++ later) ∧
  sh_writer_done (ws_shared ex_writer_final) = true ∧ fatal_error (sh_status (ws_shared ex_writer_final)) = None.
Proof.
  pose proof (@writer_persistence ex_json ex_json_text default_queue_config ex_writer_events ex_writer_final false
    ex_writer_run) as Hp.
  cbv zeta in Hp. destruct (@read_all ex_json _) as [rd back].
  destruct Hp as (_ & Hl & _). split; [exact Hl|]. split; vm_compute; reflexivity.
Defined.
