(* ===== verification/Threads.v ===== *)
(** * The two threads of a runtime

    What the steps of one thread leave to the other: the steps of the writer
    keep the log and the market thread's part of the status, and those of the
    market thread keep what the writer persisted.  Both runtimes are built on
    these lemmas. *)

From S2P Require Import Prelude.
From S2P Require Import Text.
From S2P Require Import CoreTypes.
From S2P Require Import Json.
From S2P Require Import RecordingQueue.
From S2P Require Import CoinbaseHandler.
From S2P Require Import ConnectionManager.
From S2P Require Import Recording.
From S2P Require Import RuntimeStatus.
From S2P Require Import RecordingWriter.

Open Scope Z_scope.

(** ** Lemmas: the status that the market thread writes *)

Definition market_view (s : RuntimeStatus) :=
  (lifecycle_events s, (received_messages s, enqueued_messages s, processed_messages s),
   (last_received_index (st_progress s), last_enqueued_index (st_progress s), last_processed_index (st_progress s))).

(** What the other steps leave of the system: the log, the market thread's part
    of the status, and errors. *)
Record system_frame (s s' : WriterSystem) : Prop := {
  sf_log : sink_log (ws_queue s') = sink_log (ws_queue s);
  sf_view : market_view (sh_status (ws_shared s')) = market_view (sh_status (ws_shared s));
  sf_fatal : is_Some (fatal_error (sh_status (ws_shared s))) → is_Some (fatal_error (sh_status (ws_shared s')));
  sf_posted : sh_posted (ws_shared s') ≠ [] →
    sh_posted (ws_shared s) ≠ [] ∨ is_Some (fatal_error (sh_status (ws_shared s')));
}.

#[export] Instance system_frame_preorder : PreOrder system_frame.
Proof.
  split.
  - intros s. split; auto.
  - intros s1 s2 s3 [L V F P] [L' V' F' P']. split; [congruence..|auto|].
    intros [?|?]%P'; [|auto]. destruct P; auto.
Qed.

Lemma set_fatal_events e state s : lifecycle_events (set_fatal e state s) = lifecycle_events s.
Proof. unfold set_fatal. by destruct (fatal_error s). Qed.
Lemma set_fatal_view e state s : market_view (set_fatal e state s) = market_view s.
Proof. unfold set_fatal. by destruct (fatal_error s). Qed.

Lemma writer_failed_frame e r s : system_frame s (writer_failed e r s).
Proof.
  assert (∀ sh, sh_status (shared_recording_failed (what e) sh) = recording_failed (what e) (sh_status sh)) as Hs
    by (intros sh; unfold shared_recording_failed; cbn; by destruct (sh_post sh)).
  destruct (set_fatal_sticky (what e) RuntimeState.StoppedRecordingError (sh_status (ws_shared s))) as [Hf _].
  split; unfold writer_failed; cbn [ws_queue ws_shared ws_writer field_update sh_status sh_posted]; rewrite ?Hs;
    unfold recording_failed; rewrite ?set_fatal_view, ?Hf; try done. intros _. by right.
Qed.

Section frame.
Context `{JsonLib}.

Lemma writer_start_frame env minimum s : system_frame s (writer_start env minimum s).
Proof.
  unfold writer_start. destruct (writer_open env minimum) as [r [[]|e]]; [|apply writer_failed_frame].
  split; cbn; auto.
Qed.

Lemma writer_next_frame io close_io close_ok r s : system_frame s (writer_next io close_io close_ok r s).
Proof.
  unfold writer_next, wait_pop. destruct (messages_ (rq (ws_queue s))) as [|e rest] eqn:Hm.
  - destruct (closed_ _); [|done].
    destruct (close_recorder _ _ _) as [r1 []]; [split; cbn; auto|].
    set (s1 := s <| ws_queue ::= _ |>). transitivity s1; [split; cbn; auto|apply writer_failed_frame].
  - set (s1 := s <| ws_queue := _ |>).
    assert (system_frame s s1) as H1.
    { split; auto. subst s1. cbn. by rewrite Hm, <-app_assoc. }
    transitivity s1; [done|]. clearbody s1.
    destruct (write_record io e r) as [r1 [[]|ex]]; [split; cbn; auto|apply writer_failed_frame].
Qed.

Lemma writer_thread_frame s e :
  match e with WPush _ | WStatus _ => False | _ => True end → system_frame s (writer_step s e).
Proof.
  destruct e as [env minimum|io close_io close_ok|m| |f|set]; try done; intros _; cbn [writer_step].
  - destruct (ws_writer s); [apply writer_start_frame|done..].
  - destruct (ws_writer s); [done|apply writer_next_frame|done].
  - split; cbn; auto.
  - split; cbn; auto.
Qed.

(** A step of the writer keeps what was persisted, or adds to it. *)
Lemma writer_thread_persisted s e ms :
  match e with WStart _ _ | WNext _ _ _ => True | _ => False end → persisted s ms →
  Z.of_nat (length (sink_log (ws_queue s))) < UINT64_MAX → ∃ ms', persisted (writer_step s e) ms'.
Proof.
  intros He Hp Hb. destruct e as [env minimum|io close_io close_ok| | | |]; try done; cbn [writer_step].
  - destruct (ws_writer s) eqn:Hw; [|by exists ms..].
    assert (ms = []) as -> by (destruct Hp as (_ & _ & _ & Hst); rewrite Hw in Hst; tauto).
    exists []. by apply writer_start_persisted.
  - destruct (ws_writer s) as [|r|] eqn:Hw; [by exists ms| |by exists ms]. by eapply writer_next_persisted.
Qed.

(** Status updates that keep the counters, the lifecycle events and errors. *)
Definition plain_update (f : RuntimeStatus → RuntimeStatus) : Prop :=
  ∀ s, market_view (f s) = market_view s ∧ fatal_error (f s) = fatal_error s ∧
    written_messages (f s) = written_messages s ∧
    last_written_index (st_progress (f s)) = last_written_index (st_progress s).

Lemma plain_market f : plain_update f → market_update f.
Proof. intros Hf s. destruct (Hf s) as (_ & -> & -> & ->). done. Qed.

Lemma plain_update_frame f s : plain_update f → system_frame s (writer_step s (WStatus f)).
Proof.
  intros Hf. destruct (Hf (sh_status (ws_shared s))) as (Hv & Hx & _).
  split; cbn [writer_step ws_queue ws_shared field_update sh_status sh_posted]; rewrite ?Hx; auto.
Qed.
End frame.

(** The market thread's counters. *)
Definition counters (s : RuntimeStatus) := ((market_view s).1.2, (market_view s).2).

(** The counters after [n] accepted records. *)
Definition counted (n : Z) (s : RuntimeStatus) : Prop :=
  let last := if n =? 0 then None else Some (n - 1) in
  received_messages s = n ∧ enqueued_messages s = n ∧ processed_messages s = n ∧
  last_received_index (st_progress s) = last ∧ last_enqueued_index (st_progress s) = last ∧
  last_processed_index (st_progress s) = last.

Lemma counted_counters n s s' : counters s' = counters s → counted n s → counted n s'.
Proof. unfold counted. by intros [= -> -> -> -> -> ->]. Qed.

(** ** Lemmas: the steps of the market thread *)

Section market_steps.
Context `{JsonLib}.

(** Steps of the market thread only. *)
Definition market_event (e : writer_event) : Prop :=
  match e with WStart _ _ | WNext _ _ _ => False | _ => writer_event_ok e end.

Definition market_steps (s s' : WriterSystem) : Prop :=
  ∃ es, Forall market_event es ∧ foldl writer_step s es = s'.

#[export] Instance market_steps_preorder : PreOrder market_steps.
Proof.
  split; [by intros s; exists []|]. intros s1 s2 s3 (es & He & <-) (es' & He' & <-).
  exists (es ++ es'). split; [by apply Forall_app|by rewrite foldl_app].
Qed.

Lemma market_steps_one s e : market_event e → market_steps s (writer_step s e).
Proof. intros He. exists [e]. split; [by constructor|done]. Qed.

Lemma market_steps_persisted s s' ms : market_steps s s' → persisted s ms → persisted s' ms.
Proof.
  intros (es & He & <-). revert s. induction He as [|e es He Hes IH]; intros s Hs; [done|].
  apply IH, market_step_persisted; [by destruct e| |done]. by destruct e.
Qed.

(** The writer has ended without an error: the file holds exactly what the
    queue accepted. *)
Lemma finished_recording s ms :
  persisted s ms → sh_writer_done (ws_shared s) = true → fatal_error (sh_status (ws_shared s)) = None →
  let st := sh_status (ws_shared s) in
  sink_log (ws_queue s) = ms ∧ messages_ (rq (ws_queue s)) = [] ∧
  recording ms EmptyString (writer_file (ws_writer s)) ∧
  written_messages st = Z.of_nat (length ms) ∧
  last_written_index (st_progress st) = (if decide (ms = []) then None else Some (Z.of_nat (length ms) - 1)).
Proof.
  intros (Hn & Hl & _ & Hst) Hdone Hfatal. cbv zeta.
  assert (taken (ws_queue s) = ms ∧ messages_ (rq (ws_queue s)) = [] ∧
          recording ms EmptyString (writer_file (ws_writer s))) as (Htk & Hms & Hrec).
  { destruct (ws_writer s) as [|r|r]; [destruct Hst as (_ & _ & Hd); congruence
      |destruct Hst as (_ & _ & _ & Hd); congruence|destruct Hst as (_ & _ & Hx); by apply Hx]. }
  split_and!; [|done..]. cbn [sink_log queue_sink]. by rewrite Hms, app_nil_r.
Qed.

(** Both threads have ended without an error: the status [st] of the run. *)
Lemma finished_clean s ms st :
  persisted s ms → sh_writer_done (ws_shared s) = true → fatal_error (sh_status (ws_shared s)) = None →
  let n := Z.of_nat (length (sink_log (ws_queue s))) in
  let now := sh_status (ws_shared s) in
  counted n now → runtime_state st = RuntimeState.Stopped → fatal_error st = None →
  received_messages st = received_messages now → written_messages st = written_messages now →
  st_progress st = st_progress now →
  clean_stop n st ∧ messages_ (rq (ws_queue s)) = [] ∧
  recording (sink_log (ws_queue s)) EmptyString (writer_file (ws_writer s)).
Proof.
  intros Hp Hdone Hfatal. destruct (finished_recording s ms Hp Hdone Hfatal) as (Hlog & Hms & Hrec & Hn & Hl).
  cbv zeta. intros (C1 & _ & _ & C4 & C5 & C6) Hs Hf H1 H2 H3.
  rewrite Hlog in *. split; [|done].
  split; [done|done|exact (eq_trans H1 C1)|exact (eq_trans H2 Hn)|].
  rewrite H3. destruct (st_progress _) as [p1 p2 p3 p4]. cbn [last_received_index last_enqueued_index
    last_processed_index last_written_index] in *. cbv zeta. rewrite C4, C5, C6, Hl. by destruct ms.
Qed.
End market_steps.
