(* ===== verification/WebSocketClient.v ===== *)
(** * The WebSocket client

    [transport::WebSocketClient]: the chain of asynchronous operations that
    connects, subscribes and reads, with failures, [close] and [abort].  The
    operations of the network library complete in steps of the environment;
    what the client asks of it and the callbacks it makes form a trace.  The
    venue clients are this client with their subscriptions. *)

From S2P Require Import Prelude.
From S2P Require Import Text.
From S2P Require Import CoreTypes.
From S2P Require Import KrakenParser.

Open Scope Z_scope.

(** ** State *)

(** An outstanding asynchronous operation of the chain. *)
Inductive ws_op :=
  | OpConnect
  | OpTlsHandshake
  | OpHandshake
  | OpWrite (index : nat)
  | OpRead.

Inductive ws_action :=
  | StartOp (op : ws_op)
  | StartClose
  | CancelResolver
  | AbortSocket
  | CallMessage (payload : string) (wall : ReceiveWallTimestamp) (mono : ReceiveMonotonicTimestamp)
  | CallConnected
  | CallFailed (text : string)        (* the error callback, from [fail] *)
  | CallCloseError (text : string).   (* the error callback, after closing *)

(** [Impl]; [ws_has_connected] tells whether a connected callback was given,
    [ws_op_pending] is the outstanding operation. *)
Record WebSocketClient := {
  ws_requests : list string;
  ws_has_connected : bool;
  ws_started : bool;
  ws_stopping : bool;
  ws_writing : bool;
  ws_closing : bool;
  ws_op_pending : option ws_op;
  ws_close_pending : bool;
  ws_trace : list ws_action;
}.

#[export] Instance WebSocketClient_eta : EtaRecord WebSocketClient := λ c,
  {| ws_requests := ws_requests c; ws_has_connected := ws_has_connected c; ws_started := ws_started c;
     ws_stopping := ws_stopping c; ws_writing := ws_writing c; ws_closing := ws_closing c;
     ws_op_pending := ws_op_pending c; ws_close_pending := ws_close_pending c; ws_trace := ws_trace c |}.

(** The constructor. *)
Definition new_client (requests : list string) (has_connected : bool) : result WebSocketClient :=
  match requests with
  | [] => Throw (InvalidArgument "WebSocket subscriptions required")
  | _ => Ok {| ws_requests := requests; ws_has_connected := has_connected; ws_started := false;
               ws_stopping := false; ws_writing := false; ws_closing := false; ws_op_pending := None;
               ws_close_pending := false; ws_trace := [] |}
  end.

(** ** Subscriptions *)

Definition quoted (s : string) : string := String quote_char s +:+ String quote_char EmptyString.

(** [adapters::coinbase::subscriptions] *)
Definition coinbase_subscriptions : list string :=
  ["{" +:+ quoted "type" +:+ ":" +:+ quoted "subscribe" +:+ "," +:+ quoted "channel" +:+ ":" +:+ quoted "level2" +:+
     "," +:+ quoted "product_ids" +:+ ":[" +:+ quoted "BTC-USD" +:+ "]}";
   "{" +:+ quoted "type" +:+ ":" +:+ quoted "subscribe" +:+ "," +:+ quoted "channel" +:+ ":" +:+
     quoted "heartbeats" +:+ "}"].

(** [adapters::kraken::subscription] *)
Definition kraken_subscription (depth : Z) : result string :=
  _ ← validate_depth depth;
  Ok ("{" +:+ quoted "method" +:+ ":" +:+ quoted "subscribe" +:+ "," +:+ quoted "params" +:+ ":{" +:+
      quoted "channel" +:+ ":" +:+ quoted "book" +:+ "," +:+ quoted "symbol" +:+ ":[" +:+ quoted "BTC/USD" +:+
      "]," +:+ quoted "depth" +:+ ":" +:+ to_string depth +:+ "," +:+ quoted "snapshot" +:+ ":true}," +:+
      quoted "req_id" +:+ ":1}").

(** The constructors of the venue clients. *)
Definition coinbase_client (has_connected : bool) : result WebSocketClient :=
  new_client coinbase_subscriptions has_connected.
Definition kraken_client (depth : Z) : result WebSocketClient :=
  request ← kraken_subscription depth; new_client [request] true.

(** ** Operations *)

Definition ws_emit (a : ws_action) (c : WebSocketClient) : WebSocketClient := c <| ws_trace ::= λ t, t ++ [a] |>.

Definition ws_abort (c : WebSocketClient) : WebSocketClient :=
  ws_emit AbortSocket (ws_emit CancelResolver (c <| ws_stopping := true |>)).

(** A callback of the owner, who may call [abort] in it. *)
Definition ws_call (a : ws_action) (aborts : bool) (c : WebSocketClient) : WebSocketClient :=
  let c := ws_emit a c in if aborts then ws_abort c else c.

(** [fail(op, ec)], with the message of the error code. *)
Definition ws_fail (op message : string) (aborts : bool) (c : WebSocketClient) : WebSocketClient :=
  if ws_stopping c then c
  else
    let c := ws_emit AbortSocket (ws_emit CancelResolver (c <| ws_stopping := true |>)) in
    ws_call (CallFailed (op +:+ ": " +:+ message)) aborts c.

Definition ws_start (op : ws_op) (c : WebSocketClient) : WebSocketClient :=
  ws_emit (StartOp op) (c <| ws_op_pending := Some op |>).

(** [connect()]: the errors of setting the server name and of the synchronous
    resolution, if any. *)
Definition ws_connect (sni_error resolve_error : option string) (aborts : bool) (c : WebSocketClient)
    : WebSocketClient :=
  if ws_started c || ws_stopping c then c
  else
    let c := c <| ws_started := true |> in
    match sni_error with
    | Some message => ws_fail "SNI" message aborts c
    | None =>
        match resolve_error with
        | Some message => ws_fail "resolve" message aborts c
        | None => ws_start OpConnect c
        end
    end.

Definition ws_subscribe (index : nat) (c : WebSocketClient) : WebSocketClient :=
  ws_start (OpWrite index) (c <| ws_writing := true |>).

Definition ws_read (c : WebSocketClient) : WebSocketClient :=
  if ws_stopping c then c else ws_start OpRead c.

(** [close()]; [open] is [ws.is_open()]. *)
Definition ws_close (open : bool) (c : WebSocketClient) : WebSocketClient :=
  let c := ws_emit CancelResolver (c <| ws_stopping := true |>) in
  if ws_writing c || ws_closing c then c
  else if negb open then ws_emit AbortSocket c
  else ws_emit StartClose (c <| ws_closing := true |> <| ws_close_pending := true |>).

(** A received message with its receive times, and what the message callback
    returns. *)
Record ws_received := {
  rv_payload : string;
  rv_wall : ReceiveWallTimestamp;
  rv_mono : ReceiveMonotonicTimestamp;
  rv_proceed : bool;
}.

(** The completion handler of an operation; [error] is its error code's
    message. *)
Definition ws_completed (op : ws_op) (error : option string) (received : ws_received) (aborts open : bool)
    (c : WebSocketClient) : WebSocketClient :=
  match op with
  | OpConnect =>
      if ws_stopping c then c
      else match error with Some m => ws_fail "connect" m aborts c | None => ws_start OpTlsHandshake c end
  | OpTlsHandshake =>
      if ws_stopping c then c
      else match error with Some m => ws_fail "TLS handshake" m aborts c | None => ws_start OpHandshake c end
  | OpHandshake =>
      if ws_stopping c then c
      else match error with Some m => ws_fail "WebSocket handshake" m aborts c | None => ws_subscribe 0 c end
  | OpWrite index =>
      let c := c <| ws_writing := false |> in
      if ws_stopping c then ws_close open c
      else match error with
           | Some m => ws_fail "subscribe" m aborts c
           | None =>
               if bool_decide (index + 1 < length (ws_requests c))%nat then ws_subscribe (index + 1) c
               else ws_read (if ws_has_connected c then ws_call CallConnected aborts c else c)
           end
  | OpRead =>
      match error with
      | Some m => if ws_stopping c then c else ws_fail "read" m aborts c
      | None =>
          if ws_stopping c then c
          else
            let c := ws_call (CallMessage (rv_payload received) (rv_wall received) (rv_mono received)) aborts c in
            if negb (rv_proceed received) then ws_close open c else ws_read c
      end
  end.

(** The completion handler of [async_close]; [error] is the message of an
    error other than a closed stream and an aborted operation. *)
Definition ws_closed (error : option string) (c : WebSocketClient) : WebSocketClient :=
  let c := ws_emit AbortSocket c in
  match error with Some m => ws_emit (CallCloseError ("close: " +:+ m)) c | None => c end.

(** ** Runs *)

(** The owner's calls and the completions of outstanding operations, in any
    order the io_context may run them. *)
Inductive ws_event :=
  | WsConnect (sni_error resolve_error : option string) (aborts : bool)
  | WsClose (open : bool)
  | WsAbort
  | WsCompleted (error : option string) (received : ws_received) (aborts open : bool)
  | WsClosed (error : option string).

Definition ws_step (c : WebSocketClient) (e : ws_event) : WebSocketClient :=
  match e with
  | WsConnect sni_error resolve_error aborts => ws_connect sni_error resolve_error aborts c
  | WsClose open => ws_close open c
  | WsAbort => ws_abort c
  | WsCompleted error received aborts open =>
      match ws_op_pending c with
      | Some op => ws_completed op error received aborts open (c <| ws_op_pending := None |>)
      | None => c
      end
  | WsClosed error =>
      if ws_close_pending c then ws_closed error (c <| ws_close_pending := false |>) else c
  end.

(** ** Specification of traces *)

(** The indices of the requests whose writes were started. *)
Definition writes_of (t : list ws_action) : list nat :=
  omap (λ a, match a with StartOp (OpWrite i) => Some i | _ => None end) t.

(** The number of failures reported. *)
Definition failures_of (t : list ws_action) : nat :=
  length (omap (λ a, match a with CallFailed _ => Some tt | _ => None end) t).

(** The connected callback is called at most once, and before any message. *)
Fixpoint connected_first (seen : bool) (t : list ws_action) : bool :=
  match t with
  | [] => true
  | CallConnected :: rest => negb seen && connected_first true rest
  | CallMessage _ _ _ :: rest => seen && connected_first seen rest
  | _ :: rest => connected_first seen rest
  end.

Definition connected_called (t : list ws_action) : bool :=
  existsb (λ a, match a with CallConnected => true | _ => false end) t.

(** What a client that is stopping may still do. *)
Definition winding_down (a : ws_action) : bool :=
  match a with
  | StartOp _ | CallMessage _ _ _ | CallConnected | CallFailed _ => false
  | StartClose | CancelResolver | AbortSocket | CallCloseError _ => true
  end.

#[global] Arguments writes_of _ : simpl never.
#[global] Arguments failures_of _ : simpl never.
#[global] Arguments connected_called _ : simpl never.

(** ** Lemmas: traces *)

Lemma writes_of_snoc t a :
  writes_of (t ++ [a]) = writes_of t ++ match a with StartOp (OpWrite i) => [i] | _ => [] end.
Proof. unfold writes_of. rewrite omap_app. by destruct a as [[]| | | | | | |]. Qed.

Lemma failures_of_snoc t a :
  failures_of (t ++ [a]) = (failures_of t + match a with CallFailed _ => 1 | _ => 0 end)%nat.
Proof. unfold failures_of. rewrite omap_app, length_app. by destruct a. Qed.

Lemma connected_called_snoc t a :
  connected_called (t ++ [a]) = connected_called t || match a with CallConnected => true | _ => false end.
Proof. unfold connected_called. rewrite existsb_app. cbn. by rewrite orb_false_r. Qed.

Lemma connected_first_snoc seen t a :
  connected_first seen (t ++ [a]) =
  connected_first seen t &&
  match a with
  | CallConnected => negb (seen || connected_called t)
  | CallMessage _ _ _ => seen || connected_called t
  | _ => true
  end.
Proof.
  revert seen. induction t as [|x t IH]; intros seen; cbn.
  - destruct a; cbn; by rewrite ?andb_true_r, ?orb_false_r.
  - destruct x; cbn; rewrite IH; try done.
    + by rewrite andb_assoc.
    + rewrite andb_assoc. f_equal. by destruct a, seen.
Qed.

#[export] Hint Rewrite writes_of_snoc failures_of_snoc connected_called_snoc connected_first_snoc : ws_trace.

(** ** Lemmas: the invariant *)

(** [k] requests have been sent. *)
Record ws_core (c : WebSocketClient) (k : nat) : Prop := {
  core_has : ws_has_connected c = true;
  core_first : connected_first false (ws_trace c) = true;
  core_writes : writes_of (ws_trace c) = seq 0 k;
  core_bound : (k ≤ length (ws_requests c))%nat;
  core_called : connected_called (ws_trace c) = true → k = length (ws_requests c);
  core_failures : (failures_of (ws_trace c) ≤ if ws_stopping c then 1 else 0)%nat;
  core_nonempty : (0 < length (ws_requests c))%nat;
}.

(** How far the chain is, by the outstanding operation. *)
Definition ws_shape (c : WebSocketClient) (k : nat) (op : option ws_op) : Prop :=
  match op with
  | None => ws_stopping c = true ∨ (ws_started c = false ∧ k = 0%nat ∧ connected_called (ws_trace c) = false)
  | Some op =>
      ws_started c = true ∧
      match op with
      | OpWrite i => k = S i ∧ connected_called (ws_trace c) = false
      | OpRead => connected_called (ws_trace c) = true
      | _ => k = 0%nat ∧ connected_called (ws_trace c) = false
      end
  end.

Definition ws_inv (c : WebSocketClient) : Prop := ∃ k, ws_core c k ∧ ws_shape c k (ws_op_pending c).

(** An action that does not touch the chain. *)
Lemma ws_emit_core a c k : winding_down a = true → ws_core c k → ws_core (ws_emit a c) k.
Proof.
  intros Ha [H1 H2 H3 H4 H5 H6 H7].
  split; cbn; autorewrite with ws_trace; rewrite ?H2, ?H3; destruct a; cbn; try done;
    rewrite ?app_nil_r, ?orb_false_r, ?Nat.add_0_r; done.
Qed.

Lemma ws_emit_shape a c k op : winding_down a = true → ws_shape (ws_emit a c) k op ↔ ws_shape c k op.
Proof.
  intros Ha. unfold ws_shape. cbn. rewrite connected_called_snoc.
  replace (connected_called (ws_trace c) || _) with (connected_called (ws_trace c)); [done|].
  by destruct a; rewrite ?orb_false_r.
Qed.

Lemma ws_stopping_core c k : ws_core c k → ws_core (c <| ws_stopping := true |>) k.
Proof. intros [H1 H2 H3 H4 H5 H6 H7]. split; try done. cbn. destruct (ws_stopping c); lia. Qed.

Lemma ws_stopping_shape c k op : ws_shape c k op → ws_shape (c <| ws_stopping := true |>) k op.
Proof. unfold ws_shape. destruct op; [done|]. by left. Qed.

Lemma ws_abort_inv c : ws_inv c → ws_inv (ws_abort c) ∧ ws_stopping (ws_abort c) = true.
Proof.
  intros (k & Hc & Hs). split; [|done]. exists k. split.
  - do 2 (apply ws_emit_core; [done|]). by apply ws_stopping_core.
  - cbn [ws_abort ws_emit ws_op_pending field_update]. unfold ws_abort. rewrite !ws_emit_shape by done.
    by apply ws_stopping_shape.
Qed.

(** Once a client is stopping, an idle chain has the shape. *)
Lemma ws_idle c k : ws_core c k → ws_stopping c = true → ws_op_pending c = None → ws_inv c.
Proof. intros Hc Hs Hp. exists k. split; [done|]. rewrite Hp. by left. Qed.

Lemma ws_abort_idle c k : ws_core c k → ws_op_pending c = None → ws_inv (ws_abort c).
Proof.
  intros Hc Hp. apply (ws_idle _ k); [|done..]. do 2 (apply ws_emit_core; [done|]). by apply ws_stopping_core.
Qed.

Lemma ws_fail_inv op m aborts c k :
  ws_core c k → ws_op_pending c = None → ws_inv (ws_fail op m aborts c) ∧ ws_stopping (ws_fail op m aborts c) = true.
Proof.
  intros Hc Hp. unfold ws_fail. destruct (ws_stopping c) eqn:Hs; [split; [by apply (ws_idle _ k)|done]|].
  set (c1 := ws_emit AbortSocket (ws_emit CancelResolver (c <| ws_stopping := true |>))).
  assert (ws_core (ws_emit (CallFailed (op +:+ ": " +:+ m)) c1) k) as Hc'.
  { destruct Hc as [H1 H2 H3 H4 H5 H6 H7]. rewrite Hs in H6. split; cbn; autorewrite with ws_trace; cbn;
      rewrite ?app_nil_r, ?orb_false_r, ?andb_true_r; try done. lia. }
  unfold ws_call. destruct aborts; [|split; [by apply (ws_idle _ k)|done]].
  split; [|done]. by apply (ws_abort_idle _ k).
Qed.

Lemma ws_close_inv open c : ws_inv c → ws_inv (ws_close open c) ∧ ws_stopping (ws_close open c) = true.
Proof.
  intros (k & Hc & Hs). unfold ws_close.
  set (c1 := ws_emit CancelResolver (c <| ws_stopping := true |>)).
  assert (ws_core c1 k ∧ ws_shape c1 k (ws_op_pending c1) ∧ ws_stopping c1 = true) as (Hc1 & Hs1 & Hst).
  { split_and!; [by apply ws_emit_core, ws_stopping_core|apply ws_emit_shape; [done|]; by apply ws_stopping_shape|done]. }
  clearbody c1. destruct (ws_writing c1 || ws_closing c1); [split; [by exists k|done]|].
  destruct open; cbn [negb].
  - split; [|done]. exists k. split.
    + apply ws_emit_core; [done|]. by destruct Hc1.
    + cbn [ws_emit ws_op_pending field_update]. apply ws_emit_shape; done.
  - split; [|done]. exists k. split; [by apply ws_emit_core|]. by apply ws_emit_shape.
Qed.

(** Starting the next operation of the chain. *)
Lemma ws_start_inv op c k k' :
  ws_core c k → ws_started c = true → (k' ≤ length (ws_requests c))%nat →
  match op with
  | OpWrite i => k = i ∧ k' = S i ∧ connected_called (ws_trace c) = false
  | OpRead => k' = k ∧ connected_called (ws_trace c) = true
  | _ => k = 0%nat ∧ k' = 0%nat ∧ connected_called (ws_trace c) = false
  end → ws_inv (ws_start op c).
Proof.
  intros [H1 H2 H3 H4 H5 H6 H7] Hst Hk Hop. exists k'. unfold ws_start. split.
  - split; cbn; autorewrite with ws_trace; cbn; rewrite ?orb_false_r, ?andb_true_r, ?Nat.add_0_r; try done.
    + rewrite H3. destruct op; destruct_and? Hop; subst; rewrite ?app_nil_r; try done. by rewrite seq_S.
    + intros Hcc. destruct op; destruct_and? Hop; subst; try congruence. by apply H5.
  - unfold ws_shape. cbn. rewrite Hst, connected_called_snoc, orb_false_r. destruct op; naive_solver.
Qed.

Lemma ws_writing_core b c k : ws_core c k → ws_core (c <| ws_writing := b |>) k.
Proof. by intros []. Qed.

(** A callback of the chain: the connected callback after the last write, or a
    message. *)
Lemma ws_call_core a aborts c :
  let k := length (ws_requests c) in
  ws_core c k → ws_op_pending c = None →
  match a with
  | CallConnected => connected_called (ws_trace c) = false
  | CallMessage _ _ _ => connected_called (ws_trace c) = true
  | _ => False
  end →
  let c' := ws_call a aborts c in
  ws_core c' k ∧ ws_op_pending c' = None ∧ ws_requests c' = ws_requests c ∧ ws_started c' = ws_started c ∧
  connected_called (ws_trace c') = true.
Proof.
  intros k [H1 H2 H3 H4 H5 H6 H7] Hp Ha.
  assert (ws_core (ws_emit a c) k ∧ connected_called (ws_trace (ws_emit a c)) = true) as [Hc Hcc].
  { split; [split|]; cbn; autorewrite with ws_trace; destruct a; try done; rewrite ?Ha, ?H2; cbn;
      rewrite ?app_nil_r, ?orb_true_r, ?Nat.add_0_r; done. }
  unfold ws_call. destruct aborts; [|done]. split_and!; try done.
  - do 2 (apply ws_emit_core; [done|]). by apply ws_stopping_core.
  - unfold ws_abort. cbn. autorewrite with ws_trace. cbn in Hcc. autorewrite with ws_trace in Hcc. by rewrite Hcc.
Qed.

Lemma ws_read_inv c :
  ws_core c (length (ws_requests c)) → ws_op_pending c = None → ws_started c = true →
  connected_called (ws_trace c) = true → ws_inv (ws_read c).
Proof.
  intros Hc Hp Hst Hcc. unfold ws_read. destruct (ws_stopping c) eqn:Hs; [by apply (ws_idle _ _ Hc)|].
  by apply (ws_start_inv _ _ _ (length (ws_requests c)) Hc).
Qed.

Lemma ws_completed_inv op error received aborts open c k :
  ws_core c k → ws_shape c k (Some op) → ws_op_pending c = None →
  ws_inv (ws_completed op error received aborts open c).
Proof.
  intros Hc [Hst Hs] Hp. pose proof (core_bound _ _ Hc) as Hb.
  destruct op as [| | |index|]; cbn [ws_completed].
  - destruct (ws_stopping c) eqn:Hsp; [by apply (ws_idle _ k)|]. destruct error; [by apply (ws_fail_inv _ _ _ _ k)|].
    apply (ws_start_inv _ _ k 0 Hc Hst); naive_solver lia.
  - destruct (ws_stopping c) eqn:Hsp; [by apply (ws_idle _ k)|]. destruct error; [by apply (ws_fail_inv _ _ _ _ k)|].
    apply (ws_start_inv _ _ k 0 Hc Hst); naive_solver lia.
  - destruct (ws_stopping c) eqn:Hsp; [by apply (ws_idle _ k)|]. destruct error; [by apply (ws_fail_inv _ _ _ _ k)|].
    destruct Hs as [-> Hcc]. unfold ws_subscribe.
    apply (ws_start_inv (OpWrite 0) _ 0%nat 1%nat (ws_writing_core true _ _ Hc)); [done| |done].
    exact (core_nonempty _ _ Hc).
  - destruct Hs as [-> Hcc]. pose proof (ws_writing_core false _ _ Hc) as Hc'. cbv zeta.
    set (c1 := c <| ws_writing := false |>) in *. change (ws_op_pending c) with (ws_op_pending c1) in Hp.
    change (ws_started c) with (ws_started c1) in Hst. change (ws_requests c) with (ws_requests c1) in Hb.
    change (ws_trace c) with (ws_trace c1) in Hcc. clearbody c1.
    destruct (ws_stopping c1) eqn:Hsp; [by apply ws_close_inv, (ws_idle _ _ Hc')|].
    destruct error; [by apply (ws_fail_inv _ _ _ _ _ Hc')|]. case_bool_decide as Hmore.
    + unfold ws_subscribe.
      apply (ws_start_inv (OpWrite (index + 1)) _ (S index) (S (index + 1)) (ws_writing_core true _ _ Hc')); [done| |];
        cbn [ws_requests ws_trace field_update]; [lia|]. split_and!; [lia|lia|done].
    + rewrite (core_has _ _ Hc'). assert (S index = length (ws_requests c1)) as Hk by lia. rewrite Hk in Hc'.
      destruct (ws_call_core CallConnected aborts c1 Hc' Hp Hcc) as (Hc2 & Hp2 & Hr2 & Hst2 & Hcc2).
      apply ws_read_inv; [by rewrite Hr2|done| |done]. by rewrite Hst2.
  - destruct error.
    + destruct (ws_stopping c) eqn:Hsp; [by apply (ws_idle _ _ Hc)|]. by apply (ws_fail_inv _ _ _ _ _ Hc).
    + destruct (ws_stopping c) eqn:Hsp; [by apply (ws_idle _ _ Hc)|]. cbv zeta.
      rewrite (core_called _ _ Hc Hs) in Hc.
      destruct (ws_call_core (CallMessage (rv_payload received) (rv_wall received) (rv_mono received)) aborts c Hc Hp Hs)
        as (Hc2 & Hp2 & Hr2 & Hst2 & Hcc2).
      set (c2 := ws_call _ _ _) in *. clearbody c2. rewrite <-Hr2 in Hc2.
      assert (ws_inv (ws_read c2)) as Hread by (apply ws_read_inv; [done|done| |done]; by rewrite Hst2).
      destruct (rv_proceed received); cbn [negb]; [done|].
      unfold ws_close. set (c3 := ws_emit CancelResolver (c2 <| ws_stopping := true |>)).
      assert (ws_inv c3) as Hc3.
      { apply (ws_idle _ (length (ws_requests c2))); [|done|done]. by apply ws_emit_core, ws_stopping_core. }
      assert (ws_stopping c3 = true ∧ ws_op_pending c3 = None) as [Hs3 Hp3] by done. clearbody c3.
      destruct Hc3 as (k3 & Hc3 & _).
      destruct (ws_writing c3 || ws_closing c3); [by apply (ws_idle _ k3)|].
      destruct open; cbn [negb]; apply (ws_idle _ k3); try done; apply ws_emit_core; try done. by destruct Hc3.
Qed.

Lemma ws_step_inv c e : ws_inv c → ws_inv (ws_step c e).
Proof.
  intros Hinv. pose proof Hinv as (k & Hc & Hs). destruct e as [sni res aborts|open| |error received aborts open|error]; cbn [ws_step].
  - unfold ws_connect. destruct (ws_started c) eqn:Hst; cbn [orb]; [done|]. destruct (ws_stopping c) eqn:Hsp; [done|].
    unfold ws_shape in Hs. destruct (ws_op_pending c) eqn:Hp; [destruct Hs; congruence|].
    destruct Hs as [Hx|(_ & -> & Hcc)]; [congruence|].
    assert (ws_core (c <| ws_started := true |>) 0) as Hc1 by (by destruct Hc).
    destruct sni; [by apply (ws_fail_inv _ _ _ _ _ Hc1)|]. destruct res; [by apply (ws_fail_inv _ _ _ _ _ Hc1)|].
    apply (ws_start_inv _ _ 0 0 Hc1); [done|cbn; lia|done].
  - by apply ws_close_inv.
  - by apply ws_abort_inv.
  - destruct (ws_op_pending c) as [op|] eqn:Hp; [|done].
    apply (ws_completed_inv _ _ _ _ _ _ k); [by destruct Hc|done|done].
  - destruct (ws_close_pending c); [|done]. unfold ws_closed.
    set (c1 := c <| ws_close_pending := false |>). assert (ws_core c1 k ∧ ws_shape c1 k (ws_op_pending c1)) as [Hc1 Hs1]
      by (by destruct Hc).
    clearbody c1. destruct error; exists k; cbn [ws_emit ws_op_pending field_update]; (split;
      [repeat (apply ws_emit_core; [done|]); done|rewrite ?ws_emit_shape by done; done]).
Qed.

(** A client that is stopping stays so and only winds down. *)
Lemma ws_step_stopping c e :
  ws_stopping c = true →
  ws_stopping (ws_step c e) = true ∧
  ∃ extra, ws_trace (ws_step c e) = ws_trace c ++ extra ∧ Forall (λ a, winding_down a = true) extra.
Proof.
  intros Hs. assert (∀ c1 l, ws_stopping c1 = true → ws_trace c1 = ws_trace c ++ l →
    Forall (λ a, winding_down a = true) l → ws_stopping c1 = true ∧
    ∃ extra, ws_trace c1 = ws_trace c ++ extra ∧ Forall (λ a, winding_down a = true) extra) as Hany by eauto.
  assert (∀ open c1, ws_stopping c1 = true → ws_trace c1 = ws_trace c →
    ws_stopping (ws_close open c1) = true ∧
    ∃ extra, ws_trace (ws_close open c1) = ws_trace c ++ extra ∧ Forall (λ a, winding_down a = true) extra) as Hclose.
  { intros open c1 Hs1 Ht. unfold ws_close. cbn. rewrite Ht.
    destruct (ws_writing c1 || ws_closing c1); [|destruct open]; cbn; (split; [done|]); rewrite ?Ht, <-?app_assoc; cbn;
      eexists; (split; [reflexivity|]); by repeat constructor. }
  destruct e as [sni res aborts|open| |error received aborts open|error]; cbn [ws_step].
  - unfold ws_connect. rewrite Hs, orb_true_r. apply (Hany c []); by rewrite ?app_nil_r.
  - by apply Hclose.
  - apply (Hany _ [CancelResolver; AbortSocket]); [done| |by repeat constructor]. cbn. by rewrite <-app_assoc.
  - destruct (ws_op_pending c) as [op|]; [|apply (Hany c []); by rewrite ?app_nil_r].
    set (c1 := c <| ws_op_pending := None |>).
    assert (ws_stopping c1 = true ∧ ws_trace c1 = ws_trace c) as [Hs1 Ht1] by done. clearbody c1.
    assert (ws_stopping c1 = true ∧
      ∃ extra, ws_trace c1 = ws_trace c ++ extra ∧ Forall (λ a, winding_down a = true) extra) as Hquiet
      by (apply (Hany c1 []); by rewrite ?app_nil_r).
    destruct op; cbn [ws_completed]; cbv zeta; [by rewrite Hs1..| |].
    + change (ws_stopping (c1 <| ws_writing := false |>)) with (ws_stopping c1). rewrite Hs1. by apply Hclose.
    + destruct error; by rewrite Hs1.
  - destruct (ws_close_pending c); [|apply (Hany c []); by rewrite ?app_nil_r]. unfold ws_closed.
    destruct error; cbn; (split; [done|]); rewrite <-?app_assoc; cbn; eexists; (split; [reflexivity|]); by repeat constructor.
Qed.

Lemma ws_abort_requests c : ws_requests (ws_abort c) = ws_requests c.
Proof. done. Qed.

Lemma ws_close_requests open c : ws_requests (ws_close open c) = ws_requests c.
Proof. unfold ws_close. by destruct (_ || _), open. Qed.

Lemma ws_call_requests a aborts c : ws_requests (ws_call a aborts c) = ws_requests c.
Proof. unfold ws_call. by destruct aborts. Qed.

Lemma ws_fail_requests op m aborts c : ws_requests (ws_fail op m aborts c) = ws_requests c.
Proof. unfold ws_fail. destruct (ws_stopping c); [done|]. by rewrite ws_call_requests. Qed.

Lemma ws_read_requests c : ws_requests (ws_read c) = ws_requests c.
Proof. unfold ws_read. by destruct (ws_stopping c). Qed.

#[local] Hint Rewrite ws_abort_requests ws_close_requests ws_call_requests ws_fail_requests ws_read_requests : ws_requests.

Lemma ws_step_requests c e : ws_requests (ws_step c e) = ws_requests c.
Proof.
  destruct e as [sni res aborts|open| |error received aborts open|error]; cbn [ws_step];
    unfold ws_connect, ws_closed, ws_completed, ws_subscribe, ws_start; cbv zeta;
    repeat match goal with |- context [if ?b then _ else _] => destruct b | |- context [match ?o with _ => _ end] => destruct o end;
    autorewrite with ws_requests; done.
Qed.

Lemma new_client_inv requests c0 : new_client requests true = Ok c0 → ws_inv c0 ∧ ws_requests c0 = requests.
Proof.
  unfold new_client. destruct requests as [|r rs]; [done|]. intros [= <-]. split; [|done].
  exists 0%nat. split; [split; cbn; (done || lia)|by right].
Qed.

(** ** Theorem *)

(** C39: the protocol of a client with a connected callback, whatever the
    network and the owner do and in whatever order: the subscriptions are sent
    once each, in order, one after the other; the connected callback is called
    at most once, after all of them were sent and before any message; at most
    one failure is reported; and once the client is stopping, by [abort],
    [close] or a failure, no operation of the chain is started and no message,
    connected or failure callback is ever made again. *)
Theorem client_protocol requests c0 es es' :
  new_client requests true = Ok c0 →
  let c := foldl ws_step c0 es in
  let c' := foldl ws_step c es' in
  connected_first false (ws_trace c) = true ∧
  (∃ k, writes_of (ws_trace c) = seq 0 k ∧ (k ≤ length requests)%nat ∧
     (connected_called (ws_trace c) = true → k = length requests)) ∧
  (failures_of (ws_trace c) ≤ 1)%nat ∧
  (ws_stopping c = true →
   ∃ extra, ws_trace c' = ws_trace c ++ extra ∧ Forall (λ a, winding_down a = true) extra).
Proof.
  intros Hnew. cbv zeta. set (c := foldl ws_step c0 es).
  assert (ws_inv c ∧ ws_requests c = requests) as [(k & Hc & _) Hr].
  { subst c. apply new_client_inv in Hnew. revert c0 Hnew. induction es as [|e es IH]; intros c0 [Hi Hr]; [done|].
    apply IH. split; [by apply ws_step_inv|by rewrite ws_step_requests]. }
  split; [by destruct Hc|]. split; [exists k; rewrite <-Hr; by destruct Hc|].
  split; [pose proof (core_failures _ _ Hc); destruct (ws_stopping c); lia|].
  clearbody c. clear. revert c. induction es' as [|e es' IH]; intros c Hs; cbn [foldl].
  - exists []. by rewrite app_nil_r.
  - destruct (ws_step_stopping c e Hs) as (Hs1 & l1 & Ht1 & Hl1). destruct (IH _ Hs1) as (l2 & Ht2 & Hl2).
    exists (l1 ++ l2). rewrite Ht2, Ht1, app_assoc. split; [done|]. by apply Forall_app.
Qed.

(** ** Concrete run *)

Definition ex_received (proceed : bool) : ws_received :=
  {| rv_payload := "snapshot"; rv_wall := {| wall_ns := 1 |}; rv_mono := {| mono_ns := 2 |}; rv_proceed := proceed |}.
Definition ex_done (proceed : bool) : ws_event := WsCompleted None (ex_received proceed) false true.

(** A client that connects, subscribes, reads two messages, the second of
    which its owner refuses, and closes. *)
Definition ex_new_client : WebSocketClient :=
  {| ws_requests := coinbase_subscriptions; ws_has_connected := true; ws_started := false; ws_stopping := false;
     ws_writing := false; ws_closing := false; ws_op_pending := None; ws_close_pending := false; ws_trace := [] |}.
Definition ex_client_events : list ws_event :=
  [WsConnect None None false; ex_done true; ex_done true; ex_done true; ex_done true; ex_done true;
   ex_done true; ex_done false; WsClosed None].
Definition ex_client : WebSocketClient := foldl ws_step ex_new_client ex_client_events.

Example ex_client_trace :
  ws_trace ex_client =
  [StartOp OpConnect; StartOp OpTlsHandshake; StartOp OpHandshake; StartOp (OpWrite 0); StartOp (OpWrite 1);
   CallConnected; StartOp OpRead; CallMessage "snapshot" {| wall_ns := 1 |} {| mono_ns := 2 |}; StartOp OpRead;
   CallMessage "snapshot" {| wall_ns := 1 |} {| mono_ns := 2 |}; CancelResolver; StartClose; AbortSocket].
Proof. vm_compute. reflexivity. Qed.

Lemma client_protocol_witness :
  connected_first false (ws_trace ex_client) = true ∧ ws_stopping ex_client = true ∧
  (failures_of (ws_trace ex_client) ≤ 1)%nat.
Proof.
  destruct (client_protocol coinbase_subscriptions ex_new_client ex_client_events [] eq_refl) as (H1 & _ & H2 & _).
  split; [exact H1|]. split; [vm_compute; reflexivity|exact H2].
Defined.
