(* ===== verification/LiveRuntime.v ===== *)
(** * The Coinbase runtime

    [run_live]: the market thread, which runs the connection manager on an
    io_context and stops it when recording fails or a stop is requested, and
    the writer thread.  A run interleaves the callbacks of the market thread
    with the steps of the writer; both share the queue and the status. *)

From S2P Require Import Prelude.
From S2P Require Import Text.
From S2P Require Import CoreTypes.
From S2P Require Import SequenceTracker.
From S2P Require Import OrderBook.
From S2P Require Import Json.
From S2P Require Import CoinbaseParser.
From S2P Require Import FeedHealth.
From S2P Require Import RecordingQueue.
From S2P Require Import CoinbaseHandler.
From S2P Require Import ConnectionManager.
From S2P Require Import ManagerSteps.
From S2P Require Import Recording.
From S2P Require Import RuntimeStatus.
From S2P Require Import RecordingWriter.
From S2P Require Import Threads.

Open Scope Z_scope.

(** ** State *)

(** What the manager's callbacks reach: the queue and the shared status. *)
Record LiveEnv := {
  le_queue : QueueLog;
  le_shared : SharedRuntime;
}.

#[export] Instance LiveEnv_eta : EtaRecord LiveEnv := λ e,
  {| le_queue := le_queue e; le_shared := le_shared e |}.

Definition on_status (f : RuntimeStatus → RuntimeStatus) (env : LiveEnv) : LiveEnv :=
  env <| le_shared ::= λ sh, sh <| sh_status ::= f |> |>.

(** The record callback: [queue.try_push]. *)
#[export, refine] Instance live_sink : RecordingSink LiveEnv := {|
  sink env m := let '(q, r) := sink (le_queue env) m in (env <| le_queue := q |>, r);
  sink_log env := sink_log (le_queue env);
|}.
Proof.
  - intros env m env'. destruct (sink (le_queue env) m) as [q r] eqn:E. intros [= <- ->]. by apply (sink_accepts _ _ _ E).
  - intros env m env' r'. destruct (sink (le_queue env) m) as [q r] eqn:E. intros [= <- <-]. by apply (sink_refuses _ _ _ _ E).
Defined.

(** The publish callback; the manager is connected when a message is
    handled. *)
Definition live_publish_callback (r : ProcessResult) (p : RuntimeProgress) (k : Market) (env : LiveEnv) : LiveEnv :=
  on_status (publish_result (rq (le_queue env)) true k r p) env.

(** The local variables of the thread: the manager, whether [stop] ran, the
    timers that are armed, and the writer thread. *)
Record LiveRuntime := {
  lv_manager : Manager LiveEnv;
  lv_writer : WriterState;
  lv_started : bool;
  lv_stopping : bool;
  lv_ticking : bool;
  lv_fault : bool;
}.

#[export] Instance LiveRuntime_eta : EtaRecord LiveRuntime := λ rt,
  {| lv_manager := lv_manager rt; lv_writer := lv_writer rt; lv_started := lv_started rt;
     lv_stopping := lv_stopping rt; lv_ticking := lv_ticking rt; lv_fault := lv_fault rt |}.

Definition lv_env (rt : LiveRuntime) : LiveEnv := environment (lv_manager rt).
Definition lv_shared (rt : LiveRuntime) : SharedRuntime := le_shared (lv_env rt).
Definition lv_status (rt : LiveRuntime) : RuntimeStatus := sh_status (lv_shared rt).
Definition lv_log (rt : LiveRuntime) : list RawEnvelope := sink_log (lv_env rt).

(** ** Operations *)

Section runtime.
Context `{JsonLib} (products : Products).
(** [capturing], whether a session is captured; [force_seconds], zero when
    the forced disconnection is off. *)
Context (capturing : bool) (force_seconds : Z).
Context (clock : nat → ReceiveMonotonicTimestamp) (live_clock : Z → ReceiveMonotonicTimestamp).
Implicit Types rt : LiveRuntime.

Abbreviation manager_step := (ConnectionManager.step products live_publish_callback clock live_clock).

Definition set_env (f : LiveEnv → LiveEnv) rt : LiveRuntime :=
  rt <| lv_manager ::= λ m, m <| environment ::= f |> |>.

(** [observe_lifecycle] on the events of an operation of the manager. *)
Definition observe_events (events : list LifecycleEvent) (env : LiveEnv) : LiveEnv :=
  if capturing then on_status (λ s, s <| lifecycle_events ::= λ l, l ++ events |>) env else env.

(** An operation of the manager. *)
Definition run_manager (e : event) rt : LiveRuntime :=
  let before := length (actions (lv_manager rt)) in
  let rt := rt <| lv_manager ::= λ m, manager_step m e |> in
  set_env (observe_events (observed_events (drop before (actions (lv_manager rt))))) rt.

(** The [publish] lambda. *)
Definition lv_publish rt : LiveRuntime :=
  set_env (on_status (live_publish (rq (le_queue (lv_env rt))) (lv_manager rt))) rt.

(** The [stop] lambda. *)
Definition lv_stop (error : string) rt : LiveRuntime :=
  let rt := if negb (String.eqb error EmptyString) then run_manager (TerminalFailure error) rt
            else if negb (lv_stopping rt) then run_manager Stop rt else rt in
  let rt := if negb (lv_stopping rt)
            then set_env (λ env, env <| le_queue ::= close_log |>) (rt <| lv_stopping := true |>) else rt in
  lv_publish rt.

Definition lv_tick (stop_requested : bool) rt : LiveRuntime :=
  let fatal := fatal_error (lv_status rt) in
  let rt := if stop_requested || bool_decide (is_Some fatal) || terminal_ (lv_manager rt)
            then lv_stop (default EmptyString fatal) rt else rt in
  if lv_stopping rt then
    let rt := rt <| lv_fault := false |> in
    if sh_writer_done (lv_shared rt) then rt <| lv_ticking := false |>
    else
      let rt := if bool_decide (is_Some (fatal_error (lv_status rt))) then rt
                else set_env (on_status (λ s, s <| runtime_state := RuntimeState.Stopping |>)) rt in
      (lv_publish rt) <| lv_ticking := true |>
  else (lv_publish rt) <| lv_ticking := true |>.

(** The thread from the moment the writer is ready or done, up to its first
    wait; the flags are the values of [stop_requested] it reads. *)
Definition lv_start (stop_requested stop_requested' : bool) rt : LiveRuntime :=
  let rt := set_env (λ env, env <| le_shared ::= λ sh, sh <| sh_post := true |> |>) (rt <| lv_started := true |>) in
  let rt := match fatal_error (lv_status rt) with
            | Some error => lv_stop error rt
            | None =>
                if stop_requested then lv_stop EmptyString rt
                else run_manager Start
                       (set_env (on_status (λ s, s <| runtime_state := RuntimeState.Running |>)) rt)
            end in
  lv_tick stop_requested' (rt <| lv_fault := negb (force_seconds =? 0) && negb (lv_stopping rt) |>).

(** A posted [stop] of a failed writer. *)
Definition lv_posted rt : LiveRuntime :=
  match sh_posted (lv_shared rt) with
  | [] => rt
  | error :: rest =>
      lv_stop error (set_env (λ env, env <| le_shared ::= λ sh, sh <| sh_posted := rest |> |>) rt)
  end.

(** ** Runs *)

Inductive live_event :=
  | LStart (stop_requested stop_requested' : bool)
  | LCallback (e : event)             (* a callback of the manager *)
  | LPosted
  | LFault                            (* the timer of the forced disconnection *)
  | LTick (stop_requested : bool)
  | LWriterStart (env : WriterEnv) (minimum_free_disk_bytes : Z)
  | LWriterNext (io : record_io) (close_io : stream_io) (close_ok : bool).

(** The system of both threads as the writer sees it, and back. *)
Definition writer_system rt : WriterSystem :=
  {| ws_writer := lv_writer rt; ws_queue := le_queue (lv_env rt); ws_shared := le_shared (lv_env rt) |}.
Definition with_writer_system (s : WriterSystem) rt : LiveRuntime :=
  (rt <| lv_writer := ws_writer s |>)
    <| lv_manager ::= λ m, m <| environment := {| le_queue := ws_queue s; le_shared := ws_shared s |} |> |>.

Definition live_step rt (e : live_event) : LiveRuntime :=
  match e with
  | LStart stop1 stop2 =>
      if negb (lv_started rt) && (sh_writer_ready (lv_shared rt) || sh_writer_done (lv_shared rt))
      then lv_start stop1 stop2 rt else rt
  | LCallback e => if lv_started rt then run_manager e rt else rt
  | LPosted => if lv_started rt then lv_posted rt else rt
  | LFault => if lv_fault rt then run_manager ForceDisconnect (rt <| lv_fault := false |>) else rt
  | LTick stop_requested => if lv_ticking rt then lv_tick stop_requested rt else rt
  | LWriterStart env minimum => with_writer_system (writer_step (writer_system rt) (WStart env minimum)) rt
  | LWriterNext io close_io close_ok =>
      with_writer_system (writer_step (writer_system rt) (WNext io close_io close_ok)) rt
  end.

(** The runtime before the market thread runs. *)
Definition live_initial (config : RawQueueConfig) (health_config : FeedHealthConfig) : result LiveRuntime :=
  m ← new_manager clock health_config
        {| le_queue := {| rq := new_queue config; taken := [] |}; le_shared := new_shared |};
  Ok {| lv_manager := m; lv_writer := WriterStarting; lv_started := false; lv_stopping := false;
        lv_ticking := false; lv_fault := false |}.

(** The status after both threads were joined: the last [publish] of the market
    thread, and the end of [run_live]. *)
Definition live_final_status rt : RuntimeStatus :=
  let s := live_publish (rq (le_queue (lv_env rt))) (lv_manager rt) (lv_status rt) in
  let s := if bool_decide (is_Some (fatal_error s)) then s else s <| runtime_state := RuntimeState.Stopped |> in
  s <| recording_queue_messages := message_count (rq (le_queue (lv_env rt))) |>
    <| recording_queue_bytes := payload_bytes (rq (le_queue (lv_env rt))) |>.

(** The callbacks of the manager, with what their types guarantee. *)
Definition callback_ok (m : Manager LiveEnv) (e : event) : Prop :=
  enabled m e ∧
  match e with
  | Message _ _ wall mono => in_int64 (wall_ns wall) ∧ in_int64 (mono_ns mono)
  | TransportError _ reason => ∃ op message, reason = op +:+ ": " +:+ message
  | TransportConnected _ | Resume _ | Tick => True
  | _ => False
  end.

Definition live_event_ok rt (e : live_event) : Prop :=
  match e with LCallback e => callback_ok (lv_manager rt) e | _ => True end.

(** The counters have room for one more step. *)
Definition live_room rt : Prop :=
  Z.of_nat (length (lv_log rt)) < UINT64_MAX ∧ in_uint64 (connection_id_ (lv_manager rt)) ∧
  generation_ (lv_manager rt) + 4 < UINT64_MAX.

Inductive live_run (rt0 : LiveRuntime) : list live_event → LiveRuntime → Prop :=
  | live_run_nil : live_run rt0 [] rt0
  | live_run_snoc es rt e :
      live_run rt0 es rt → live_event_ok rt e → live_room rt → live_run rt0 (es ++ [e]) (live_step rt e).
End runtime.

(** ** The invariant *)

Definition live_system (m : Manager LiveEnv) (w : WriterState) : WriterSystem :=
  {| ws_writer := w; ws_queue := le_queue (environment m); ws_shared := le_shared (environment m) |}.
Definition live_log (m : Manager LiveEnv) : list RawEnvelope := sink_log (environment m).
Definition live_status (m : Manager LiveEnv) : RuntimeStatus := sh_status (le_shared (environment m)).
Definition in_system (q : QueueLog) (sh : SharedRuntime) (m : Manager LiveEnv) : Manager LiveEnv :=
  with_environment {| le_queue := q; le_shared := sh |} m.

Section live_invariant.
Context `{JsonLaws} (products : Products) (capturing : bool) (force_seconds : Z).
Context (clock : nat → ReceiveMonotonicTimestamp) (live_clock : Z → ReceiveMonotonicTimestamp).
Context (m0 : Manager LiveEnv) (m0_inv : manager_inv m0).
Implicit Types (m : Manager LiveEnv) (w : WriterState).

Abbreviation manager_run := (manager_run products live_publish_callback clock live_clock).
Abbreviation manager_step := (ConnectionManager.step products live_publish_callback clock live_clock).

(** The status holds the lifecycle events [l]. *)
Record live_holds (l : list LifecycleEvent) m w : Prop := {
  li_run : ∃ es, manager_run m0 es m ∧ ∀ g, TransportError g EmptyString ∉ es;
  li_index : terminal_ m = false →
    handler_inv (handler_ m) ∧ next_index_ (handler_ m) = Z.of_nat (length (live_log m));
  li_persisted : ∃ ms, persisted (live_system m w) ms;
  li_posted : sh_posted (le_shared (environment m)) ≠ [] → is_Some (fatal_error (live_status m));
  li_terminal : terminal_ m = true → is_Some (fatal_error (live_status m));
  li_events : capturing = true → lifecycle_events (live_status m) = l;
  li_venue : Forall (λ e, venue e = Coinbase) (live_log m);
  li_counts : fatal_error (live_status m) = None → counted (Z.of_nat (length (live_log m))) (live_status m);
}.

Definition live_inv m w : Prop := live_holds (observed_events (actions m)) m w.

Lemma live_holds_manager l m w : live_holds l m w → manager_inv m.
Proof. intros Hi. destruct (li_run _ _ _ Hi) as (es & Hr & _). by eapply manager_run_inv. Qed.

(** Steps of the other thread, and of the market thread outside the manager. *)
Lemma live_holds_frame l m w s' :
  live_holds l m w → system_frame (live_system m w) s' → (∃ ms, persisted s' ms) →
  live_holds l (in_system (ws_queue s') (ws_shared s') m) (ws_writer s').
Proof.
  intros [(es & Hr & Hne) IX IP IQ IT IE IV IC] [Fl Fv Ff Fp] Hp.
  unfold live_log, live_status in *. cbn [live_system ws_queue ws_shared ws_writer] in *.
  split; unfold live_log, live_status, in_system, with_environment;
    cbn [environment field_update handler_ terminal_ actions sink_log live_sink le_queue le_shared] in *;
    rewrite ?Fl; auto.
  - exists es. split; [|done]. by apply manager_run_environment.
  - intros [Hq|?]%Fp; auto.
  - intros Hc. apply (f_equal (λ x, x.1.1)) in Fv. cbn in Fv. rewrite Fv. by apply IE.
  - intros Hnone. unfold counted.
    assert (fatal_error (sh_status (le_shared (environment m))) = None) as Hn.
    { apply eq_None_not_Some. intros Hs%Ff. rewrite Hnone in Hs. by destruct Hs. }
    injection Fv as _ -> -> -> -> -> ->. by apply IC.
Qed.

(** One step of the writer system that is not a push. *)
Lemma live_inv_writer m w e :
  live_inv m w →
  match e with WPush _ => False | WStatus f => plain_update f | _ => True end →
  Z.of_nat (length (live_log m)) < UINT64_MAX →
  let s' := writer_step (live_system m w) e in
  live_inv (in_system (ws_queue s') (ws_shared s') m) (ws_writer s').
Proof.
  intros Hi He Hb. cbn zeta. destruct (li_persisted _ _ _ Hi) as [ms Hp].
  apply (live_holds_frame _ m w); [done|..].
  - destruct e; try done; try (by apply writer_thread_frame). by apply plain_update_frame.
  - destruct e as [env minimum|io close_io close_ok|r| |f|set]; try done;
      try (exists ms; apply market_step_persisted; [done| |done]; try done; by apply plain_market);
      by apply writer_thread_persisted with ms.
Qed.

(** A callback that handled no message, or ended a failed recording. *)
Lemma quiet_holds l m m' w e :
  live_holds l m w → enabled m e → generation_ m < UINT64_MAX → (∀ g, e ≠ TransportError g EmptyString) →
  m' = manager_step m e → quiet_step m m' → live_holds l m' w.
Proof.
  intros [(es & Hr & Hne) IX IP IQ IT IE IV IC] He Hg Hre Hm [_ Henv Hp Hn Ht _ _ _].
  unfold live_log, live_status, live_system in *.
  split; unfold live_log, live_status, live_system; rewrite ?Henv, ?Ht; auto.
  - exists (es ++ [e]). split; [rewrite Hm; by apply manager_run_snoc|].
    intros g [Hin|Hin%list_elem_of_singleton]%elem_of_app; [by apply (Hne g)|by apply (Hre g)].
  - intros Hx. destruct (IX Hx) as [[Hi Hq] Hl]. unfold handler_inv. by rewrite Hn, Hp.
Qed.

Lemma terminates_holds l m m' w e :
  live_holds l m w → generation_ m < UINT64_MAX → is_Some (fatal_error (live_status m)) →
  m' = manager_step m e → terminates e m m' → live_holds l m' w.
Proof.
  intros [(es & Hr & Hne) IX IP IQ IT IE IV IC] Hg Hf Hm [_ Henv Ht _ _ _ [error He]].
  unfold live_log, live_status, live_system in *.
  split; unfold live_log, live_status, live_system; rewrite ?Henv, ?Ht; auto; [|done].
  exists (es ++ [e]). split; [rewrite Hm; apply manager_run_snoc; [done|by rewrite He|done]|].
  intros g [Hin|Hin%list_elem_of_singleton]%elem_of_app; [by apply (Hne g)|congruence].
Qed.

(** The publish callback on the counters. *)
Lemma publish_result_counted q c k r p n s :
  let s' := publish_result q c k r p s in
  lifecycle_events s' = lifecycle_events s ∧
  (outcome r = MessageOutcome.RecordingRejected → is_Some (fatal_error s')) ∧
  (outcome r ≠ MessageOutcome.RecordingRejected → fatal_error s' = fatal_error s ∧
     (0 ≤ n < UINT64_MAX → counted n s → last_received_index p = Some n → last_enqueued_index p = Some n →
      last_processed_index p = Some n → counted (n + 1) s')).
Proof.
  cbn zeta. unfold publish_result. destruct (decide (outcome r = MessageOutcome.RecordingRejected)) as [Ho|Ho].
  - rewrite bool_decide_true by done. cbn [negb]. cbv zeta.
    match goal with |- context [set_fatal ?e ?st ?x] =>
      destruct (set_fatal_sticky e st x) as [Hf _]; pose proof (set_fatal_events e st x) as Hl;
      change (lifecycle_events x) with (lifecycle_events s) in Hl; generalize dependent (set_fatal e st x)
    end. intros s1 Hf Hl. split_and!; [exact Hl|intros _; cbn [field_update fatal_error]; rewrite Hf; by eexists|done].
  - rewrite bool_decide_false by done. cbn [negb]. cbv zeta. split_and!; [done|done|]. intros _. split; [done|].
    intros Hn (H1 & H2 & H3 & _) P1 P2 P3. unfold counted. cbn. rewrite H1, H2, H3, P1, P2, P3, incr64_small by done.
    rewrite (proj2 (Z.eqb_neq _ _)) by lia. by rewrite Z.add_simpl_r.
Qed.

(** The system and the status after a message was handled. *)
Lemma handled_live_system m m' w now h0 text wall mono h r :
  handle products live_publish_callback now h0 (environment m) text wall mono = (h, environment m', r) →
  let ev := envelope_of h0 text wall mono in
  let f := publish_result (rq (le_queue (sink (environment m) ev).1)) true (market h) r (progress h) in
  live_system m' w = writer_step (writer_step (live_system m w) (WPush ev)) (WStatus f) ∧
  live_status m' = f (live_status m) ∧
  sh_posted (le_shared (environment m')) = sh_posted (le_shared (environment m)).
Proof.
  intros Hh. cbv zeta. pose proof (handle_publishes products live_publish_callback _ _ _ _ _ _ _ _ _ Hh) as Henv.
  set (ev := envelope_of h0 text wall mono) in *. set (f := publish_result _ _ _ _ _).
  assert (le_queue (environment m') = {| rq := (try_push (rq (le_queue (environment m))) ev).1;
                                         taken := taken (le_queue (environment m)) |} ∧
          le_shared (environment m') = (le_shared (environment m)) <| sh_status ::= f |>) as [Hq Hsh].
  { rewrite Henv. subst f. cbn. by destruct (try_push _ ev). }
  unfold live_system, live_status. rewrite Hq, Hsh. done.
Qed.

(** A callback that handled a message. *)
Lemma handles_holds l m m' w e :
  live_holds l m w → enabled m e → generation_ m < UINT64_MAX → in_uint64 (connection_id_ m) →
  Z.of_nat (length (live_log m)) < UINT64_MAX →
  match e with Message _ _ wall mono => in_int64 (wall_ns wall) ∧ in_int64 (mono_ns mono) | _ => True end →
  m' = manager_step m e → handles products live_publish_callback e m m' → live_holds l m' w.
Proof.
  intros Hi He Hg Hid Hb Hint Hm (_ & g & text & wall & mono & now & h & r & -> & [Hs _ Hh Hp Hn Ht' _ _ _]).
  pose proof (live_holds_manager _ _ _ Hi) as Hmi. destruct Hi as [(es & Hr & Hne) IX IP IQ IT IE IV IC].
  assert (terminal_ m = false) as Ht.
  { apply not_true_is_false. intros Ht%(mi_terminal _ Hmi). congruence. }
  destruct (IX Ht) as [Hinv Hix]. clear IX IT. set (h0 := with_connection_id m) in *.
  pose proof (handle_spec products live_publish_callback ltac:(done) _ _ _ _ _ _ _ _ _ (Hinv : handler_inv h0) Hh) as Hd.
  destruct (handled_live_system m m' w now h0 text wall mono h r Hh) as (Hsys & Hst & Hpost).
  set (ev := envelope_of h0 text wall mono) in *.
  set (f := publish_result (rq (le_queue (sink (environment m) ev).1)) true (market h) r (progress h)) in *.
  destruct (publish_result_counted (rq (le_queue (sink (environment m) ev).1)) true (market h) r (progress h)
    (Z.of_nat (length (live_log m))) (live_status m)) as (Hl & Hrej & Hacc). fold f in Hl, Hrej, Hacc.
  assert (is_Some (fatal_error (live_status m)) → is_Some (fatal_error (live_status m'))) as Hkeep.
  { rewrite Hst. apply (publish_result_market _ _ _ _ _ (live_status m)). }
  assert (outcome r ≠ MessageOutcome.RecordingRejected → live_log m' = live_log m ++ [ev]) as Hlog
    by (intros Ho; apply (handled_accepted _ _ _ _ _ _ _ Hd Ho)).
  assert (outcome r = MessageOutcome.RecordingRejected → live_log m' = live_log m) as Hlog'
    by (intros Ho; apply (handled_rejected _ _ _ _ _ _ _ Hd Ho)).
  split.
  - exists (es ++ [Message g text wall mono]). split; [rewrite Hm; by apply manager_run_snoc|].
    intros g' [Hin|Hin%list_elem_of_singleton]%elem_of_app; [by apply (Hne g')|done].
  - rewrite Ht'. intros Ho%bool_decide_eq_false. rewrite Hlog, length_app by done. cbn [length].
    destruct (handled_inv products _ _ _ _ _ _ (Hinv : handler_inv h0) ltac:(cbn; lia) Hd) as [Hi1 Hi2].
    unfold handler_inv. rewrite Hn, Hp. split; [done|].
    rewrite (handled_index _ _ _ _ _ _ _ Hd). change (next_index_ h0) with (next_index_ (handler_ m)).
    rewrite Hix, incr64_small, Nat2Z.inj_add by lia. done.
  - destruct IP as [ms IP]. exists ms. rewrite Hsys. apply market_step_persisted; [done|apply publish_result_market|].
    apply market_step_persisted; [done| |done]. split_and!; [exact Hid|apply Hint..].
  - intros Hx. apply Hkeep, IQ. by rewrite Hpost in Hx.
  - rewrite Ht'. intros Ho%bool_decide_eq_true. rewrite Hst. auto.
  - rewrite Hst, Hl. done.
  - destruct (decide (outcome r = MessageOutcome.RecordingRejected)) as [Ho|Ho]; [by rewrite Hlog'|].
    rewrite Hlog by done. apply Forall_app. split; [done|by repeat constructor].
  - destruct (decide (outcome r = MessageOutcome.RecordingRejected)) as [Ho|Ho]; rewrite Hst; intros Hf.
    { destruct (Hrej Ho) as [? Hx]. by rewrite Hf in Hx. }
    destruct (Hacc Ho) as [Hsame Hcount]. rewrite Hlog, length_app, Nat2Z.inj_add by done.
    destruct (handled_accepted _ _ _ _ _ _ _ Hd Ho) as (_ & _ & P2 & P3).
    pose proof (handled_received _ _ _ _ _ _ _ Hd) as P1.
    change (next_index_ h0) with (next_index_ (handler_ m)) in P1, P2, P3. rewrite Hix in P1, P2, P3.
    apply Hcount; [lia|apply IC; congruence|done..].
Qed.

(** [observe_lifecycle] after an operation. *)
Lemma observe_holds l evs m w :
  live_holds l m w →
  live_holds (l ++ evs) (with_environment (observe_events capturing evs (environment m)) m) w.
Proof.
  intros [(es & Hr & Hne) IX [ms IP] IQ IT IE IV IC]. unfold observe_events. destruct capturing eqn:Hcap.
  - set (f := λ s, s <| lifecycle_events ::= λ l, l ++ evs |>).
    split; unfold live_log, live_status, live_system, with_environment in *; try done.
    + exists es. split; [by apply manager_run_environment|done].
    + exists ms. change (persisted (writer_step (live_system m w) (WStatus f)) ms). by apply market_step_persisted.
    + intros _. cbn. by rewrite IE.
  - split; unfold live_log, live_status, live_system, with_environment in *; try done.
    + exists es. split; [by apply manager_run_environment|done].
    + by exists ms.
    + congruence.
Qed.

Lemma observed_tail (l l' : list action) :
  l `prefix_of` l' → observed_events l ++ observed_events (drop (length l) l') = observed_events l'.
Proof. intros [t ->]. rewrite drop_app_length. unfold observed_events. by rewrite omap_app. Qed.

Abbreviation run_manager := (run_manager products capturing clock live_clock).
Abbreviation lv_stop := (lv_stop products capturing clock live_clock).
Abbreviation lv_tick := (lv_tick products capturing clock live_clock).
Abbreviation lv_start := (lv_start products capturing force_seconds clock live_clock).

Definition runtime_inv (rt : LiveRuntime) : Prop := live_inv (lv_manager rt) (lv_writer rt).

(** What an operation of the manager needs. *)
Definition operation_ok (rt : LiveRuntime) (e : event) : Prop :=
  match e with
  | TerminalFailure _ => is_Some (fatal_error (lv_status rt))
  | Start | Stop | ForceDisconnect => True
  | _ => callback_ok (lv_manager rt) e
  end.

Lemma operation_enabled rt e : operation_ok rt e → enabled (lv_manager rt) e.
Proof. destruct e; try done; by intros [? _]. Qed.

Lemma operation_reason rt e g : operation_ok rt e → e ≠ TransportError g EmptyString.
Proof. intros Hok ->. destruct Hok as (_ & op & message & Hx). by destruct op. Qed.

Lemma run_manager_inv e rt :
  runtime_inv rt → operation_ok rt e → generation_ (lv_manager rt) < UINT64_MAX →
  (∀ g text wall mono, e = Message g text wall mono →
     in_uint64 (connection_id_ (lv_manager rt)) ∧ Z.of_nat (length (lv_log rt)) < UINT64_MAX) →
  runtime_inv (run_manager e rt).
Proof.
  unfold runtime_inv, live_inv. intros Hi Hok Hg Hroom. destruct rt as [m w ? ? ? ?].
  cbn [lv_manager lv_writer] in *. pose proof (live_holds_manager _ _ _ Hi) as Hm.
  set (m' := manager_step m e). set (evs := observed_events (drop (length (actions m)) (actions m'))).
  change (live_holds (observed_events (actions m'))
            (with_environment (observe_events capturing evs (environment m')) m') w).
  destruct (step_effect products live_publish_callback clock live_clock m e Hm) as [Hq|[Ht|Hh]].
  - pose proof (qs_actions _ _ Hq) as Ha. rewrite <-(observed_tail _ _ Ha : _ = observed_events (actions m')). apply observe_holds.
    eapply quiet_holds; [exact Hi|by apply (operation_enabled _ _ Hok)|done|intros g; by apply (operation_reason _ _ g Hok)|done..].
  - pose proof (tm_actions _ _ _ Ht) as Ha. destruct (tm_event _ _ _ Ht) as [error He]. rewrite <-(observed_tail _ _ Ha : _ = observed_events (actions m')). apply observe_holds.
    eapply terminates_holds; [exact Hi|done| |done|exact Ht]. rewrite He in Hok. exact Hok.
  - pose proof Hh as (Ha & g & text & wall & mono & _ & _ & _ & He & _). rewrite <-(observed_tail _ _ Ha : _ = observed_events (actions m')).
    apply observe_holds. destruct (Hroom _ _ _ _ He) as [H1 H2].
    eapply handles_holds; [exact Hi|by apply (operation_enabled _ _ Hok)|done|done|done| |done|exact Hh].
    rewrite He in Hok |- *. apply Hok.
Qed.

(** ** The operations of the market thread *)

(** The invariant, with room for [k] more operations of the manager. *)
Definition ready (k : Z) (rt : LiveRuntime) : Prop :=
  runtime_inv rt ∧ generation_ (lv_manager rt) + k ≤ UINT64_MAX ∧ Z.of_nat (length (lv_log rt)) < UINT64_MAX.

Lemma ready_less k k' rt : k' ≤ k → ready k rt → ready k' rt.
Proof. intros Hk (Hi & Hg & Hl). split_and!; [done|lia|done]. Qed.

(** The flags do not matter. *)
Lemma ready_flags k rt rt' :
  lv_manager rt' = lv_manager rt → lv_writer rt' = lv_writer rt → ready k rt → ready k rt'.
Proof. unfold ready, runtime_inv, lv_log, lv_env. by intros -> ->. Qed.

(** Operations of the manager that handle no message. *)
Definition control_event (rt : LiveRuntime) (e : event) : Prop :=
  match e with
  | TerminalFailure _ => is_Some (fatal_error (lv_status rt))
  | Start | Stop | ForceDisconnect => True
  | _ => False
  end.

Lemma run_manager_ready k e rt : 0 ≤ k → control_event rt e → ready (k + 1) rt → ready k (run_manager e rt).
Proof.
  intros Hk He (Hi & Hg & Hl). pose proof (live_holds_manager _ _ _ Hi) as Hm.
  pose proof (mi_nonneg _ Hm). split_and!.
  - apply run_manager_inv; [done|by destruct e|lia|]. intros g text wall mono ->. done.
  - change (generation_ (lv_manager (run_manager e rt))) with (generation_ (manager_step (lv_manager rt) e)).
    destruct (step_generation products live_publish_callback clock live_clock (lv_manager rt) e Hm ltac:(lia))
      as [[-> _]| ->]; lia.
  - assert (sink_log (lv_env (run_manager e rt)) = sink_log (environment (manager_step (lv_manager rt) e))) as Hx
      by (unfold lv_env, LiveRuntime.run_manager, set_env, observe_events; by destruct capturing).
    unfold lv_log in *. rewrite Hx.
    destruct (step_effect products live_publish_callback clock live_clock (lv_manager rt) e Hm)
      as [Hq|[Ht|(_ & g & text & wall & mono & _ & _ & _ & -> & _)]]; [|..|done].
    + by rewrite (qs_environment _ _ Hq).
    + by rewrite (tm_environment _ _ _ Ht).
Qed.

(** A change of the environment that is a step of the writer's system. *)
Lemma set_env_ready k e f rt :
  match e with WPush _ => False | WStatus f => plain_update f | _ => True end →
  writer_step (live_system (lv_manager rt) (lv_writer rt)) e =
    live_system (with_environment (f (lv_env rt)) (lv_manager rt)) (lv_writer rt) →
  ready k rt → ready k (set_env f rt).
Proof.
  intros He Heq (Hi & Hg & Hl).
  pose proof (live_inv_writer _ _ e Hi He Hl) as Hi'. cbn zeta in Hi'. rewrite Heq in Hi'.
  assert (system_frame (live_system (lv_manager rt) (lv_writer rt))
            (writer_step (live_system (lv_manager rt) (lv_writer rt)) e)) as Hf
    by (destruct e; try done; try (by apply writer_thread_frame); by apply plain_update_frame).
  apply sf_log in Hf. rewrite Heq in Hf. destruct rt as [m w ? ? ? ?]. split_and!; [|done|].
  - unfold runtime_inv, live_inv, set_env. cbn [lv_manager lv_writer field_update].
    unfold in_system, live_system, with_environment in Hi'. cbn [ws_queue ws_shared ws_writer environment field_update] in Hi'.
    unfold lv_env in Hi'. cbn [lv_manager lv_writer] in Hi'. by destruct (f (environment m)).
  - unfold lv_log, lv_env, set_env. cbn [lv_manager field_update environment].
    change (Z.of_nat (length (sink_log (ws_queue (live_system (with_environment (f (environment m)) m) w)))) < UINT64_MAX).
    change (lv_env _) with (environment m) in Hf. cbn [lv_manager lv_writer] in Hf. rewrite Hf. exact Hl.
Qed.

Lemma publish_ready k rt : ready k rt → ready k (lv_publish rt).
Proof.
  apply set_env_ready with (WStatus (live_publish (rq (le_queue (lv_env rt))) (lv_manager rt))); [by intros s|done].
Qed.

Lemma close_ready k rt : ready k rt → ready k (set_env (λ env, env <| le_queue ::= close_log |>) rt).
Proof. by apply set_env_ready with WClose. Qed.

Lemma state_ready k state rt :
  ready k rt → ready k (set_env (on_status (λ s, s <| runtime_state := state |>)) rt).
Proof. apply set_env_ready with (WStatus (λ s, s <| runtime_state := state |>)); [by intros s|done]. Qed.

Lemma stop_ready k error rt :
  0 ≤ k → (error ≠ EmptyString → is_Some (fatal_error (lv_status rt))) → ready (k + 1) rt → ready k (lv_stop error rt).
Proof.
  intros Hk He Hr. unfold LiveRuntime.lv_stop. apply publish_ready.
  set (rt1 := if negb (String.eqb error EmptyString) then _ else _).
  assert (ready k rt1) as Hr1.
  { subst rt1. destruct (String.eqb_spec error EmptyString); cbn [negb]; [|apply run_manager_ready; [done|by apply He|done]].
    destruct (lv_stopping rt); cbn [negb]; [apply (ready_less (k + 1)); [lia|done]|by apply run_manager_ready]. }
  clearbody rt1. destruct (lv_stopping rt1); cbn [negb]; [done|].
  apply close_ready. by apply (ready_flags k rt1).
Qed.

Lemma tick_ready k stop_requested rt : 0 ≤ k → ready (k + 1) rt → ready k (lv_tick stop_requested rt).
Proof.
  intros Hk Hr. unfold LiveRuntime.lv_tick. cbv zeta. set (rt1 := if _ || terminal_ _ then _ else _).
  assert (ready k rt1) as Hr1.
  { subst rt1. destruct (_ || _); [|apply (ready_less (k + 1)); [lia|done]].
    apply stop_ready; [done| |done]. unfold lv_status. destruct (fatal_error _); [by eexists|done]. }
  clearbody rt1. set (rt2 := rt1 <| lv_fault := false |>).
  assert (ready k rt2) as Hr2 by (by apply (ready_flags k rt1)). clearbody rt2.
  assert (∀ x, ready k x → ready k ((lv_publish x) <| lv_ticking := true |>)) as Hlast.
  { intros x Hx%publish_ready. by apply (ready_flags k (lv_publish x)). }
  destruct (lv_stopping rt1); [|by apply Hlast].
  destruct (sh_writer_done _); [by apply (ready_flags k rt2)|]. apply Hlast.
  destruct (bool_decide _); [done|]. by apply state_ready.
Qed.

Lemma start_ready k stop1 stop2 rt : 0 ≤ k → ready (k + 2) rt → ready k (lv_start stop1 stop2 rt).
Proof.
  intros Hk Hr. unfold LiveRuntime.lv_start. cbv zeta.
  set (rt0 := set_env _ (rt <| lv_started := true |>)).
  assert (ready (k + 2) rt0) as Hr0.
  { apply set_env_ready with (WSetPost true); [done|done|by apply (ready_flags (k + 2) rt)]. }
  clearbody rt0. apply tick_ready; [done|].
  match goal with |- ready _ (?x <| lv_fault := _ |>) => set (rt1 := x) end.
  apply (ready_flags (k + 1) rt1); [done|done|]. subst rt1. replace (k + 2) with (k + 1 + 1) in * by lia.
  destruct (fatal_error (lv_status rt0)) eqn:Hf; [apply stop_ready; [lia|by rewrite Hf|done]|].
  destruct stop1; [apply stop_ready; [lia|done..]|]. apply run_manager_ready; [lia|done|]. by apply state_ready.
Qed.

Lemma posted_ready k rt : 0 ≤ k → ready (k + 1) rt → ready k (lv_posted products capturing clock live_clock rt).
Proof.
  intros Hk Hr. unfold lv_posted. destruct (sh_posted (lv_shared rt)) as [|error rest] eqn:Hp;
    [apply (ready_less (k + 1)); [lia|done]|].
  destruct Hr as (Hi & Hg & Hl). pose proof (li_posted _ _ _ Hi) as Hq.
  assert (is_Some (fatal_error (lv_status rt))) as Hf.
  { apply Hq. unfold lv_shared, lv_env in Hp. by rewrite Hp. }
  apply stop_ready; [done|done|]. split_and!; [|done|done].
  destruct rt as [m w ? ? ? ?]. unfold runtime_inv, live_inv, set_env. cbn [lv_manager lv_writer field_update].
  set (sh' := (le_shared (environment m)) <| sh_posted := rest |>).
  apply (live_holds_frame _ m w {| ws_writer := w; ws_queue := le_queue (environment m); ws_shared := sh' |} Hi).
  - split; try done. intros _. right. exact Hf.
  - destruct (li_persisted _ _ _ Hi) as [ms Hms]. exists ms. exact Hms.
Qed.

(** ** Runs *)

Abbreviation live_step := (live_step products capturing force_seconds clock live_clock).
Abbreviation live_run := (live_run products capturing force_seconds clock live_clock).

Lemma writer_step_inv e rt :
  match e with WPush _ | WStatus _ => False | _ => True end → Z.of_nat (length (lv_log rt)) < UINT64_MAX →
  runtime_inv rt → runtime_inv (with_writer_system (writer_step (writer_system rt) e) rt).
Proof.
  intros He Hl Hi. apply (live_inv_writer (lv_manager rt) (lv_writer rt) e Hi); [by destruct e|exact Hl].
Qed.

Lemma live_step_inv e rt :
  live_event_ok rt e → live_room rt → runtime_inv rt → runtime_inv (live_step rt e).
Proof.
  intros Hok (Hl & Hid & Hg) Hi.
  assert (ready 2 rt) as Hr by (split_and!; [done|lia|done]).
  destruct e as [stop1 stop2|e| | |stop| |]; cbn [LiveRuntime.live_step].
  - destruct (_ && _); [|done]. by apply (start_ready 0).
  - destruct (lv_started rt); [|done]. apply run_manager_inv; [done|by destruct e as [| | | | |? ? ? ?| | |]; destruct Hok|lia|].
    by intros.
  - destruct (lv_started rt); [|done]. by apply (posted_ready 0); [|apply (ready_less 2)].
  - destruct (lv_fault rt); [|done]. apply (run_manager_ready 0); [done|done|].
    apply (ready_flags _ rt); [done|done|]. by apply (ready_less 2).
  - destruct (lv_ticking rt); [|done]. apply (tick_ready 0); [done|]. by apply (ready_less 2).
  - by apply (writer_step_inv (WStart env minimum_free_disk_bytes)).
  - by apply (writer_step_inv (WNext io close_io close_ok)).
Qed.

Lemma live_run_inv rt0 es rt : runtime_inv rt0 → live_run rt0 es rt → runtime_inv rt.
Proof. intros Hi Hr. induction Hr; [done|]. by apply live_step_inv. Qed.
End live_invariant.

Lemma live_initial_inv `{JsonLaws} products capturing clock live_clock config health_config rt :
  live_initial clock config health_config = Ok rt →
  manager_inv (lv_manager rt) ∧ runtime_inv products capturing clock live_clock (lv_manager rt) rt.
Proof.
  unfold live_initial. destruct (new_manager _ _ _) as [m|] eqn:Hm; [|done]. intros [= <-].
  pose proof (new_manager_inv _ _ _ _ Hm) as Hi. cbn [lv_manager]. split; [done|].
  unfold new_manager in Hm. destruct (_ || _); [done|]. injection Hm as <-.
  split; cbn; try done.
  - exists []. split; [constructor|]. intros g Hin. by apply elem_of_nil in Hin.
  - exists []. unfold persisted. cbn -[decide]. by split_and!.
Qed.

Lemma live_publish_view {E} q (m : Manager E) s :
  market_view (live_publish q m s) = market_view s ∧ fatal_error (live_publish q m s) = fatal_error s ∧
  written_messages (live_publish q m s) = written_messages s ∧ st_progress (live_publish q m s) = st_progress s.
Proof. split_and!; reflexivity. Qed.

(** The final status of a run without an error. *)
Lemma final_status_view rt :
  fatal_error (lv_status rt) = None →
  let s := live_final_status rt in
  runtime_state s = RuntimeState.Stopped ∧ fatal_error s = None ∧ market_view s = market_view (lv_status rt) ∧
  written_messages s = written_messages (lv_status rt) ∧ st_progress s = st_progress (lv_status rt) ∧
  recording_queue_messages s = message_count (rq (le_queue (lv_env rt))).
Proof.
  cbn zeta. unfold live_final_status.
  destruct (live_publish_view (rq (le_queue (lv_env rt))) (lv_manager rt) (lv_status rt)) as (V1 & V2 & V3 & V4).
  generalize dependent (live_publish (rq (le_queue (lv_env rt))) (lv_manager rt) (lv_status rt)).
  intros s1 V1 V2 V3 V4 Hf. rewrite <-V2 in Hf. rewrite bool_decide_false by (rewrite Hf; by intros []).
  rewrite <-V1, <-V3, <-V4. split_and!; [reflexivity|exact Hf|reflexivity..].
Qed.

(** What a run that ended without an error leaves. *)
Lemma live_clean `{JsonLaws, !JsonText} products capturing force_seconds clock live_clock config health_config rt0 es rt :
  live_initial clock config health_config = Ok rt0 →
  live_run products capturing force_seconds clock live_clock rt0 es rt →
  sh_writer_done (lv_shared rt) = true → fatal_error (lv_status rt) = None →
  let n := Z.of_nat (length (lv_log rt)) in
  let s := live_final_status rt in
  clean_stop n s ∧ enqueued_messages s = n ∧ processed_messages s = n ∧ recording_queue_messages s = 0 ∧
  (capturing = true → lifecycle_events s = observed_events (actions (lv_manager rt))) ∧
  Forall (λ e, venue e = Coinbase) (lv_log rt) ∧ recording (lv_log rt) EmptyString (writer_file (lv_writer rt)) ∧
  terminal_ (lv_manager rt) = false ∧
  ∃ es', manager_run products live_publish_callback clock live_clock (lv_manager rt0) es' (lv_manager rt) ∧
    ∀ g, TransportError g EmptyString ∉ es'.
Proof.
  intros Hinit Hr Hdone Hfatal. cbv zeta.
  destruct (live_initial_inv products capturing clock live_clock _ _ _ Hinit) as [Hm0 Hi].
  pose proof (live_run_inv products capturing force_seconds clock live_clock _ Hm0 _ _ _ Hi Hr) as Hf. clear Hi Hr Hinit.
  destruct (li_persisted _ _ _ _ _ _ _ _ Hf) as [ms Hp].
  pose proof (li_counts _ _ _ _ _ _ _ _ Hf Hfatal) as Hcount.
  destruct (final_status_view rt Hfatal) as (V1 & V2 & V3 & V4 & V5 & V6).
  generalize dependent (live_final_status rt). intros s V1 V2 V3 V4 V5 V6.
  assert (lifecycle_events s = lifecycle_events (lv_status rt) ∧ received_messages s = received_messages (lv_status rt) ∧
    enqueued_messages s = enqueued_messages (lv_status rt) ∧ processed_messages s = processed_messages (lv_status rt))
    as (E1 & E2 & E3 & E4) by (unfold market_view in V3; by injection V3).
  destruct (finished_clean _ ms s Hp Hdone Hfatal Hcount V1 V2 E2 V4 V5) as (Hclean & Hms & Hrec).
  change (messages_ (rq (le_queue (lv_env rt))) = []) in Hms.
  destruct Hcount as (_ & C2 & C3 & _). split_and!; [done|by rewrite E3|by rewrite E4| | | |exact Hrec| |].
  - rewrite V6. unfold message_count. by rewrite Hms.
  - intros Hc. rewrite E1. by apply (li_events _ _ _ _ _ _ _ _ Hf).
  - apply (li_venue _ _ _ _ _ _ _ _ Hf).
  - apply not_true_is_false. intros Ht. destruct (li_terminal _ _ _ _ _ _ _ _ Hf Ht) as [x Hx].
    change (live_status (lv_manager rt)) with (lv_status rt) in Hx. congruence.
  - exact (li_run _ _ _ _ _ _ _ _ Hf).
Qed.
