(* ===== verification/KrakenRuntime.v ===== *)
(** * The Kraken runtime

    The market thread of [run_kraken]: connections with back-off, recording
    of every message before it is processed, and the liveness checks of the
    timer.  The thread runs on an io_context, so a run is a sequence of
    callbacks; the writer thread's steps on the shared queue and status are
    interleaved with them.  What the thread asks of its environment is a list
    of actions, and its clock a stream of readings. *)

From S2P Require Import Prelude.
From S2P Require Import Text.
From S2P Require Import CoreTypes.
From S2P Require Import OrderBook.
From S2P Require Import Json.
From S2P Require Import FeedHealth.
From S2P Require Import RecordingQueue.
From S2P Require Import CoinbaseHandler.
From S2P Require Import KrakenChecksum.
From S2P Require Import KrakenParser.
From S2P Require Import KrakenProcessor.
From S2P Require Import ConnectionManager.
From S2P Require Import RuntimeStatus.

Open Scope Z_scope.

(** ** State *)

Inductive kr_action :=
  | KConnect (connection : Z)     (* a client is created and connects *)
  | KAbort                        (* client->abort() *)
  | KRetry (delay : Z).           (* the retry timer is armed *)

(** The local variables of the thread, with the shared status and queue. *)
Record KrakenRuntime := {
  kr_processor : KrakenBookProcessor;
  kr_backoff : ReconnectPolicy;
  kr_index : Z;
  kr_connection : Z;
  kr_stopping : bool;
  kr_recovering : bool;
  kr_connected : bool;
  kr_first_record : bool;
  kr_seen_record : bool;
  kr_forced : bool;
  kr_ticking : bool;              (* the tick timer is armed *)
  kr_client : bool;               (* [client] is not null *)
  kr_started : ReceiveMonotonicTimestamp;
  kr_connected_at : ReceiveMonotonicTimestamp;
  kr_status : RuntimeStatus;
  kr_checksum : Z;                (* [checksum] and [final_metrics] *)
  kr_metrics : gmap string Z;
  kr_queue : QueueLog;
  kr_clock_reads : nat;
  kr_actions : list kr_action;
}.

#[export] Instance KrakenRuntime_eta : EtaRecord KrakenRuntime := λ k,
  {| kr_processor := kr_processor k; kr_backoff := kr_backoff k; kr_index := kr_index k;
     kr_connection := kr_connection k; kr_stopping := kr_stopping k;
     kr_recovering := kr_recovering k; kr_connected := kr_connected k;
     kr_first_record := kr_first_record k; kr_seen_record := kr_seen_record k;
     kr_forced := kr_forced k; kr_ticking := kr_ticking k; kr_client := kr_client k;
     kr_started := kr_started k; kr_connected_at := kr_connected_at k; kr_status := kr_status k;
     kr_checksum := kr_checksum k; kr_metrics := kr_metrics k; kr_queue := kr_queue k;
     kr_clock_reads := kr_clock_reads k; kr_actions := kr_actions k |}.

(** The records the recording has accepted, written or still queued. *)
Definition kr_log (k : KrakenRuntime) : list RawEnvelope := sink_log (kr_queue k).

Definition kr_emit (a : kr_action) (k : KrakenRuntime) : KrakenRuntime := k <| kr_actions ::= λ l, l ++ [a] |>.

(** [if (client) client->abort();] *)
Definition kr_abort (k : KrakenRuntime) : KrakenRuntime := if kr_client k then kr_emit KAbort k else k.

Definition kr_publish (k : KrakenRuntime) : KrakenRuntime :=
  k <| kr_status ::= λ s, (show_book (book_ (kr_processor k)) s) <| st_connected := kr_connected k |> |>
    <| kr_checksum := checksum_ (kr_processor k) |>
    <| kr_metrics := metrics_ (kr_processor k) |>.

Definition kr_close_queue (k : KrakenRuntime) : KrakenRuntime :=
  k <| kr_queue ::= λ q, {| rq := close (rq q); taken := taken q |} |>.

Definition kr_stop (k : KrakenRuntime) : KrakenRuntime :=
  kr_close_queue (kr_abort (k <| kr_stopping := true |> <| kr_connected := false |>)).

(** [if (stale) processor.stale(); else processor.disconnect();] *)
Definition kr_lose (stale : bool) (p : KrakenBookProcessor) : KrakenBookProcessor :=
  if stale then kp_stale p else kp_disconnect p.

Definition kr_lifecycle (e : LifecycleEvent) (k : KrakenRuntime) : KrakenRuntime :=
  k <| kr_status ::= λ s, s <| lifecycle_events ::= λ l, l ++ [e] |> |>.

(** Arming the retry timer with the next delay. *)
Definition kr_schedule (k : KrakenRuntime) : KrakenRuntime :=
  let '(policy, delay) := next_delay (kr_backoff k) in
  kr_emit (KRetry delay) (k <| kr_backoff := policy |>).

Definition kr_recover (reason : string) (stale : bool) (k : KrakenRuntime) : KrakenRuntime :=
  if kr_stopping k || kr_recovering k then k
  else
    let k := k <| kr_recovering := true |> <| kr_connected := false |> in
    let k := k <| kr_processor ::= kr_lose stale |> in
    let k := kr_lifecycle {| before_record_index := kr_index k;
                             lifecycle_state := state_ (book_ (kr_processor k));
                             lifecycle_reason := reason |} k in
    kr_publish (kr_schedule (kr_abort k)).

Section runtime.
Context `{JsonLib} `{Crc32}.
(** [duration] and [force_seconds], the options of the command line; zero
    switches them off. *)
Context (duration force_seconds : Z) (clock : nat → ReceiveMonotonicTimestamp).
Implicit Types k : KrakenRuntime.

(** [now()] *)
Definition kr_now k : KrakenRuntime * ReceiveMonotonicTimestamp :=
  (k <| kr_clock_reads ::= S |>, clock (kr_clock_reads k)).

Definition kr_connect k : KrakenRuntime :=
  let k := k <| kr_recovering := false |> <| kr_first_record := true |> <| kr_connection ::= incr64 |> in
  let '(k, t) := kr_now k in
  kr_emit (KConnect (kr_connection k)) (k <| kr_connected_at := t |> <| kr_client := true |>).

(** The status after the push of a message. *)
Definition kr_received (index : Z) (accepted : PushResult) (s : RuntimeStatus) : RuntimeStatus :=
  let s := s <| received_messages ::= incr64 |>
             <| st_progress ::= λ p, p <| last_received_index := Some index |> |> in
  if negb (bool_decide (accepted = Accepted))
  then set_fatal "RAW_RECORDING_QUEUE_FULL" RuntimeState.StoppedQueueFull s
  else s <| enqueued_messages ::= incr64 |>
         <| st_progress ::= λ p, p <| last_enqueued_index := Some index |> |>.

(** [if (first_record) { ... }] *)
Definition kr_begin_records k : KrakenRuntime :=
  if kr_first_record k then
    (if kr_seen_record k then k <| kr_processor ::= reset_connection |> else k)
      <| kr_first_record := false |> <| kr_seen_record := true |>
  else k.

(** What follows the processing of a message. *)
Definition kr_processed (ok : bool) k : KrakenRuntime :=
  let k := k <| kr_status ::= λ s, s <| processed_messages ::= incr64 |>
                 <| st_progress ::= λ p, p <| last_processed_index := Some (kr_index k) |> |> |>
             <| kr_index ::= incr64 |> in
  let k := kr_publish k in
  if negb ok then
    kr_recover (if String.eqb (kp_error (kr_processor k)) EmptyString
                then kp_outcome (kr_processor k) else kp_error (kr_processor k)) false k
  else if bool_decide (state_ (book_ (kr_processor k)) = Valid)
  then k <| kr_backoff ::= policy_reset |> else k.

Definition kr_envelope (text : string) (wall : ReceiveWallTimestamp) (mono : ReceiveMonotonicTimestamp) k
    : RawEnvelope :=
  {| record_index := kr_index k; venue := Kraken; connection_id := kr_connection k;
     receive_wall_time := wall; receive_monotonic_time := mono; payload := text |}.

Definition kr_message (text : string) (wall : ReceiveWallTimestamp) (mono : ReceiveMonotonicTimestamp) k
    : KrakenRuntime :=
  if kr_stopping k then k
  else
    let '(q, accepted) := try_push (rq (kr_queue k)) (kr_envelope text wall mono k) in
    let k := k <| kr_queue := {| rq := q; taken := taken (kr_queue k) |} |>
               <| kr_status ::= kr_received (kr_index k) accepted |> in
    if negb (bool_decide (accepted = Accepted)) then
      kr_publish (kr_stop (k <| kr_processor ::= kp_invalidate |>))
    else
      let k := kr_begin_records k in
      let '(p, ok) := kraken_process (kr_processor k) text wall mono in
      kr_processed ok (k <| kr_processor := p |>).

(** The checks of a tick while connected. *)
Definition kr_check_liveness (t : ReceiveMonotonicTimestamp) k : KrakenRuntime :=
  if kr_connected k && negb (kr_recovering k) then
    let last := if kr_first_record k then kr_connected_at k
                else default (kr_connected_at k) (last_message (kr_processor k)) in
    if mono_ns t - mono_ns last >? 5000000000 then kr_recover "message_timeout" true k
    else if negb (bool_decide (state_ (book_ (kr_processor k)) = Valid)) &&
            (mono_ns t - mono_ns (kr_connected_at k) >? 15000000000)
    then kr_recover "snapshot_timeout" false k
    else k
  else k.

Definition kr_check_force (t : ReceiveMonotonicTimestamp) k : KrakenRuntime :=
  if negb (kr_recovering k) && negb (force_seconds =? 0) && negb (kr_forced k) &&
     (mono_ns t - mono_ns (kr_started k) >=? force_seconds * 1000000000)
  then kr_recover "forced_disconnect" false (k <| kr_forced := true |>)
  else k.

Definition kr_tick (stop_requested : bool) k : KrakenRuntime :=
  let '(k, t) := kr_now k in
  let fatal := bool_decide (is_Some (fatal_error (kr_status k))) in
  let k := if fatal then k <| kr_processor ::= kp_invalidate |> else k in
  let k := if stop_requested || fatal ||
              (negb (duration =? 0) && (mono_ns t - mono_ns (kr_started k) >=? duration * 1000000000))
           then kr_stop k else k in
  if kr_stopping k then (kr_publish k) <| kr_ticking := false |>
  else (kr_publish (kr_check_liveness t (kr_check_force t k))) <| kr_ticking := true |>.

(** The local variables at the start of the thread. *)
Definition kr_new (processor : KrakenBookProcessor) (q : QueueLog) (status : RuntimeStatus) : KrakenRuntime :=
  {| kr_processor := processor; kr_backoff := new_policy; kr_index := 0; kr_connection := 0;
     kr_stopping := false; kr_recovering := false; kr_connected := false;
     kr_first_record := true; kr_seen_record := false; kr_forced := false;
     kr_ticking := true; kr_client := false; kr_started := clock 0;
     kr_connected_at := clock 0; kr_status := status; kr_checksum := 0; kr_metrics := ∅;
     kr_queue := q; kr_clock_reads := 1; kr_actions := [] |}.

(** The thread once the writer is ready or done. *)
Definition kr_begin k : KrakenRuntime :=
  if bool_decide (is_Some (fatal_error (kr_status k))) then kr_stop k
  else kr_connect (k <| kr_status ::= λ s, s <| runtime_state := RuntimeState.Running |> |>).

(** The start of the thread; [q] and [status] are shared with the writer. *)
Definition kr_start (depth : Z) (q : QueueLog) (status : RuntimeStatus) : result KrakenRuntime :=
  processor ← new_processor depth; Ok (kr_begin (kr_new processor q status)).

(** ** Runs *)

(** The callbacks of the client and the timers, and the steps of the writer
    thread.  The first tick is the one [run_kraken] makes itself. *)
Inductive kr_event :=
  | KMessage (text : string) (wall : ReceiveWallTimestamp) (mono : ReceiveMonotonicTimestamp)
  | KError (reason : string)
  | KConnected
  | KResume
  | KTick (stop_requested : bool)
  | KWritten
  | KWriterFailed (error : string).

Definition kr_step k (e : kr_event) : KrakenRuntime :=
  match e with
  | KMessage text wall mono => kr_message text wall mono k
  | KError reason => kr_recover reason false k
  | KConnected => let '(k, t) := kr_now k in k <| kr_connected := true |> <| kr_connected_at := t |>
  | KResume => if kr_stopping k then k else kr_connect k
  | KTick stop_requested => if kr_ticking k then kr_tick stop_requested k else k
  | KWritten =>
      match wait_pop (rq (kr_queue k)) with
      | Some (q, Some e) =>
          k <| kr_queue := {| rq := q; taken := taken (kr_queue k) ++ [e] |} |>
            <| kr_status ::= record_written (record_index e) |>
      | _ => k
      end
  | KWriterFailed error => (kr_close_queue k) <| kr_status ::= recording_failed error |>
  end.

(** [kr_run k es k']: the events [es] lead from [k] to [k'], with room for one
    more message and connection before each. *)
Inductive kr_run k : list kr_event → KrakenRuntime → Prop :=
  | kr_run_nil : kr_run k [] k
  | kr_run_snoc es k1 e :
      kr_run k es k1 → kr_index k1 < UINT64_MAX → kr_connection k1 < UINT64_MAX →
      kr_run k (es ++ [e]) (kr_step k1 e).
End runtime.

(** What becomes of the shared status when both threads have joined. *)
Definition kr_final_status (s : RuntimeStatus) : RuntimeStatus :=
  match fatal_error s with
  | Some _ => s
  | None => s <| runtime_state := RuntimeState.Stopped |>
  end.

(** ** Lemmas: what each operation touches *)

(** The part of the state that a recording preserves. *)
Record kr_view := {
  v_processor : KrakenBookProcessor;
  v_index : Z;
  v_connection : Z;
  v_first : bool;
  v_seen : bool;
  v_log : list RawEnvelope;
  v_events : list LifecycleEvent;
  v_fatal : bool;
}.

#[export] Instance kr_view_eta : EtaRecord kr_view := λ v,
  {| v_processor := v_processor v; v_index := v_index v; v_connection := v_connection v;
     v_first := v_first v; v_seen := v_seen v; v_log := v_log v; v_events := v_events v;
     v_fatal := v_fatal v |}.

Definition view (k : KrakenRuntime) : kr_view :=
  {| v_processor := kr_processor k; v_index := kr_index k; v_connection := kr_connection k;
     v_first := kr_first_record k; v_seen := kr_seen_record k; v_log := kr_log k;
     v_events := lifecycle_events (kr_status k);
     v_fatal := bool_decide (is_Some (fatal_error (kr_status k))) |}.

Lemma kr_publish_view k : view (kr_publish k) = view k.
Proof. done. Qed.

Lemma kr_abort_view k : view (kr_abort k) = view k.
Proof. unfold kr_abort. by destruct (kr_client k). Qed.

Lemma kr_close_queue_view k : view (kr_close_queue k) = view k.
Proof. done. Qed.

Lemma kr_stop_view k : view (kr_stop k) = view k.
Proof. unfold kr_stop. by rewrite kr_close_queue_view, kr_abort_view. Qed.

Lemma kr_schedule_view k : view (kr_schedule k) = view k.
Proof. done. Qed.

(** A recovery loses the book and records a lifecycle event. *)
Definition lost_event (stale : bool) (reason : string) (v : kr_view) : LifecycleEvent :=
  {| before_record_index := v_index v; lifecycle_state := if stale then Stale else Disconnected;
     lifecycle_reason := reason |}.

Definition lost (stale : bool) (reason : string) (v : kr_view) : kr_view :=
  v <| v_processor ::= kr_lose stale |> <| v_events ::= λ l, l ++ [lost_event stale reason v] |>.

Lemma kr_recover_view reason stale k :
  view (kr_recover reason stale k) = view k ∨ view (kr_recover reason stale k) = lost stale reason (view k).
Proof.
  unfold kr_recover. destruct (kr_stopping k || kr_recovering k); [by left|right]. cbv zeta.
  rewrite kr_publish_view, kr_schedule_view, kr_abort_view. by destruct stale.
Qed.

Lemma kr_liveness_view t k :
  ∃ stale reason, view (kr_check_liveness t k) = view k ∨
    view (kr_check_liveness t k) = lost stale reason (view k).
Proof.
  unfold kr_check_liveness. destruct (_ && _); [|exists false, EmptyString; by left].
  destruct (_ >? _); [exists true, "message_timeout"%string; apply kr_recover_view|].
  destruct (_ && _); [|exists false, EmptyString; by left].
  exists false, "snapshot_timeout"%string. apply kr_recover_view.
Qed.

Section view_lemmas.
Context `{JsonLib} `{Crc32}.
Context (duration force_seconds : Z) (clock : nat → ReceiveMonotonicTimestamp).
Implicit Types k : KrakenRuntime.

Lemma kr_force_view t k :
  ∃ reason, view (kr_check_force force_seconds t k) = view k ∨
    view (kr_check_force force_seconds t k) = lost false reason (view k).
Proof.
  unfold kr_check_force. exists "forced_disconnect"%string.
  destruct (_ && _ && _ && _); [|by left]. exact (kr_recover_view _ false (k <| kr_forced := true |>)).
Qed.

(** Zero, one or two losses of the book, all recorded. *)
Inductive losses : kr_view → kr_view → Prop :=
  | losses_nil v : losses v v
  | losses_cons stale reason v v' : losses (lost stale reason v) v' → losses v v'.

Lemma kr_tick_view sig k :
  v_fatal (view k) = false → losses (view k) (view (kr_tick duration force_seconds clock sig k)).
Proof.
  intros Hf. unfold kr_tick. cbn [kr_now]. set (k1 := k <| kr_clock_reads ::= S |>).
  set (t := clock (kr_clock_reads k)). change (view k) with (view k1) in *. clearbody k1.
  change (bool_decide (is_Some (fatal_error (kr_status k1)))) with (v_fatal (view k1)). rewrite Hf. cbv zeta.
  match goal with |- context [if ?b then kr_stop k1 else k1] =>
    set (k2 := if b then kr_stop k1 else k1);
    assert (view k2 = view k1) as <- by (subst k2; destruct b; [apply kr_stop_view|done]); clearbody k2
  end.
  destruct (kr_stopping k2); [constructor|].
  match goal with |- losses _ (view ?x) =>
    change (view x) with (view (kr_check_liveness t (kr_check_force force_seconds t k2))) end.
  destruct (kr_force_view t k2) as (reason & [Hv|Hv]),
    (kr_liveness_view t (kr_check_force force_seconds t k2)) as (stale & reason' & [->| ->]); rewrite Hv;
    repeat econstructor.
Qed.

(** A fatal error is never forgotten. *)
Lemma set_fatal_fatal e state s : is_Some (fatal_error (set_fatal e state s)).
Proof. destruct (set_fatal_sticky e state s) as [-> _]. done. Qed.

(** A message that the queue accepted is recorded and processed. *)
Definition begun (v : kr_view) : kr_view :=
  if v_first v
  then (if v_seen v then v <| v_processor ::= reset_connection |> else v)
         <| v_first := false |> <| v_seen := true |>
  else v.

Definition recorded (e : RawEnvelope) (v : kr_view) : kr_view :=
  (begun (v <| v_log ::= λ l, l ++ [e] |>))
    <| v_processor ::= λ p, (kraken_process p (payload e) (receive_wall_time e)
                               (receive_monotonic_time e)).1 |>
    <| v_index ::= incr64 |>.

Lemma view_begin k :
  view (k <| kr_first_record := false |> <| kr_seen_record := true |>) =
    (view k) <| v_first := false |> <| v_seen := true |>.
Proof. done. Qed.

Lemma view_reset (f : KrakenBookProcessor → KrakenBookProcessor) k :
  view (k <| kr_processor ::= f |>) = (view k) <| v_processor ::= f |>.
Proof. done. Qed.

Lemma kr_begin_records_view k :
  view (kr_begin_records k) = begun (view k).
Proof.
  unfold kr_begin_records, begun. change (v_first (view k)) with (kr_first_record k).
  change (v_seen (view k)) with (kr_seen_record k). destruct (kr_first_record k); [|done].
  rewrite view_begin. destruct (kr_seen_record k); [by rewrite view_reset|done].
Qed.

Lemma kr_processed_view ok k :
  let v := (view k) <| v_index ::= incr64 |> in
  view (kr_processed ok k) = v ∨ ∃ reason, view (kr_processed ok k) = lost false reason v.
Proof.
  cbn zeta. unfold kr_processed. set (k0 := k <| kr_status ::= _ |> <| kr_index ::= incr64 |>).
  assert ((view k) <| v_index ::= incr64 |> = view (kr_publish k0)) as ->.
  { rewrite kr_publish_view. done. }
  generalize (kr_publish k0). clear k0. intros k1. cbv zeta. destruct ok; cbn [negb].
  - left. by case_bool_decide.
  - destruct (kr_recover_view (if String.eqb (kp_error (kr_processor k1)) EmptyString
      then kp_outcome (kr_processor k1) else kp_error (kr_processor k1)) false k1) as [?|?]; eauto.
Qed.

Lemma kr_message_view text wall mono k :
  let v := view k in
  let e := kr_envelope text wall mono k in
  view (kr_message text wall mono k) = v ∨ v_fatal (view (kr_message text wall mono k)) = true ∨
  view (kr_message text wall mono k) = recorded e v ∨
  ∃ reason, view (kr_message text wall mono k) = lost false reason (recorded e v).
Proof.
  cbn zeta. unfold kr_message. destruct (kr_stopping k); [by left|right].
  set (e := kr_envelope text wall mono k).
  destruct (try_push (rq (kr_queue k)) e) as [q accepted] eqn:Eq.
  set (k1 := _ <| kr_status ::= kr_received (kr_index k) accepted |>).
  destruct (decide (accepted = Accepted)) as [->|Hacc].
  - right. rewrite bool_decide_true by done. cbn [negb].
    assert (view k1 = (view k) <| v_log ::= λ l, l ++ [e] |>) as Hk1.
    { assert (messages_ q = messages_ (rq (kr_queue k)) ++ [e]) as Hq.
      { unfold try_push in Eq. repeat split_match; by simplify_eq. }
      subst k1. unfold view, kr_log. cbn. by rewrite Hq, app_assoc. }
    clearbody k1. pose proof (kr_begin_records_view k1) as Hb. rewrite Hk1 in Hb.
    set (k2 := kr_begin_records k1) in *. clearbody k2.
    destruct (kraken_process (kr_processor k2) text wall mono) as [p ok] eqn:Ep.
    assert ((view (k2 <| kr_processor := p |>)) <| v_index ::= incr64 |> = recorded e (view k)) as <-.
    { unfold recorded. rewrite <-Hb, view_reset. cbn [payload receive_wall_time receive_monotonic_time e kr_envelope].
      change (v_processor (view k2)) with (kr_processor k2).
      by replace p with (kraken_process (kr_processor k2) text wall mono).1 by (by rewrite Ep). }
    exact (kr_processed_view ok (k2 <| kr_processor := p |>)).
  - left. rewrite bool_decide_false by done. cbn [negb]. rewrite kr_publish_view, kr_stop_view.
    cbn. apply bool_decide_true. unfold kr_received. rewrite bool_decide_false by done. apply set_fatal_fatal.
Qed.

Lemma recorded_fatal e v : v_fatal (recorded e v) = v_fatal v.
Proof. unfold recorded, begun. by destruct v as [? ? ? [] [] ? ? ?]. Qed.

Lemma recorded_index e v : v_index (recorded e v) = incr64 (v_index v).
Proof. unfold recorded, begun. by destruct v as [? ? ? [] [] ? ? ?]. Qed.

Lemma kr_connect_view k :
  view (kr_connect clock k) = (view k) <| v_connection ::= incr64 |> <| v_first := true |>.
Proof. done. Qed.

(** The steps of a run, as far as the recording is concerned. *)
Definition envelope_now (v : kr_view) (e : RawEnvelope) : Prop :=
  record_index e = v_index v ∧ venue e = Kraken ∧ connection_id e = v_connection v.

Inductive kr_change v : kr_view → Prop :=
  | change_lost v' : losses v v' → kr_change v v'
  | change_connect : kr_change v (v <| v_connection ::= incr64 |> <| v_first := true |>)
  | change_record e v' : envelope_now v e → losses (recorded e v) v' → kr_change v v'.

Lemma losses_fatal v v' : losses v v' → v_fatal v' = v_fatal v.
Proof. induction 1; [done|]. by rewrite IHlosses. Qed.

Lemma losses_recover reason stale k : losses (view k) (view (kr_recover reason stale k)).
Proof. destruct (kr_recover_view reason stale k) as [->| ->]; repeat econstructor. Qed.

Lemma kr_message_change text wall mono k :
  v_fatal (view (kr_message text wall mono k)) = false →
  kr_change (view k) (view (kr_message text wall mono k)).
Proof.
  intros Hf. destruct (kr_message_view text wall mono k) as [->|[Hx|[->|[reason ->]]]].
  - constructor. constructor.
  - congruence.
  - eapply change_record; [|constructor]. done.
  - eapply change_record; [|repeat econstructor]. done.
Qed.

Lemma kr_written_view k :
  view (kr_step duration force_seconds clock k KWritten) = view k.
Proof.
  cbn [kr_step]. unfold wait_pop. destruct (messages_ (rq (kr_queue k))) as [|e rest] eqn:E.
  { by destruct (closed_ (rq (kr_queue k))). }
  unfold view, kr_log. cbn. by rewrite E, <-app_assoc.
Qed.

(** Once fatal, the status stays fatal. *)
Lemma kr_tick_fatal sig k :
  v_fatal (view k) = true → v_fatal (view (kr_tick duration force_seconds clock sig k)) = true.
Proof.
  intros Hf. unfold kr_tick. cbn [kr_now]. set (k1 := k <| kr_clock_reads ::= S |>).
  change (view k) with (view k1) in Hf. clearbody k1.
  change (bool_decide (is_Some (fatal_error (kr_status k1)))) with (v_fatal (view k1)). rewrite Hf. cbv zeta.
  rewrite orb_true_r. cbn [orb].
  assert (kr_stopping (kr_stop (k1 <| kr_processor ::= kp_invalidate |>)) = true) as ->
    by (unfold kr_stop, kr_abort; cbn; by destruct (kr_client k1)).
  match goal with |- v_fatal (view ?x) = _ =>
    change (view x) with (view (kr_stop (k1 <| kr_processor ::= kp_invalidate |>))) end.
  by rewrite kr_stop_view.
Qed.

Lemma recover_fatal reason stale k : v_fatal (view (kr_recover reason stale k)) = v_fatal (view k).
Proof. by destruct (kr_recover_view reason stale k) as [->| ->]. Qed.

Lemma kr_step_change k e :
  let k' := kr_step duration force_seconds clock k e in
  v_fatal (view k') = false → v_fatal (view k) = false ∧ kr_change (view k) (view k').
Proof.
  cbn zeta. destruct e; cbn [kr_step].
  - intros Hf. pose proof (kr_message_change _ _ _ _ Hf) as Hc. split; [|done].
    revert Hf Hc. generalize (view (kr_message text wall mono k)).
    intros v' Hf Hc. revert Hf. destruct Hc as [v1 Hl| |e v1 He Hl]; intros Hf;
      [apply losses_fatal in Hl; congruence|done|].
    apply losses_fatal in Hl. rewrite recorded_fatal in Hl. congruence.
  - intros Hf. rewrite recover_fatal in Hf. split; [done|]. constructor. apply losses_recover.
  - intros Hf. split; [done|]. constructor. constructor.
  - destruct (kr_stopping k); intros Hf; (split; [done|]); [constructor; constructor|]. apply change_connect.
  - destruct (kr_ticking k); intros Hf; [|split; [done|]; constructor; constructor].
    destruct (v_fatal (view k)) eqn:Hk; [by rewrite kr_tick_fatal in Hf|]. split; [done|].
    constructor. by apply kr_tick_view.
  - pose proof (kr_written_view k) as Hw. cbn [kr_step] in Hw. rewrite Hw. intros Hf.
    split; [done|]. constructor. constructor.
  - unfold view at 1. cbn. intros Hf%bool_decide_eq_false. exfalso. apply Hf. apply set_fatal_fatal.
Qed.
End view_lemmas.
