(* ===== verification/Session.v ===== *)
(** * Sessions: what the replays share

    The parts of [sessions::replay] that both venues use: the scan of the raw
    records, the validation of the lifecycle array and the recorded state
    transitions. *)

From S2P Require Import Prelude.
From S2P Require Import Text.
From S2P Require Import CoreTypes.
From S2P Require Import RecordingQueue.
From S2P Require Import ConnectionManager.

Open Scope Z_scope.

(** ** Data *)

Record Transition := {
  tr_index : Z;
  tr_from : BookState;
  tr_to : BookState;
  tr_reason : string;
}.

(** What [scan] counts in the records. *)
Record Scan := {
  scan_records : Z;
  scan_connections : gset Z;
}.

(** ** Operations *)

Definition book_name (s : BookState) : string :=
  match s with
  | Initializing => "INITIALIZING"
  | Valid => "VALID"
  | Stale => "STALE"
  | Resyncing => "RESYNCING"
  | Disconnected => "DISCONNECTED"
  | Invalid => "INVALID"
  end.

(** [scan], on the records the reader returns. *)
Fixpoint scan_loop (v : Venue) (es : list RawEnvelope) (r : Scan) : result Scan :=
  match es with
  | [] => Ok r
  | e :: rest =>
      if bool_decide (venue e = v)
      then scan_loop v rest {| scan_records := incr64 (scan_records r);
                               scan_connections := {[ connection_id e ]} ∪ scan_connections r |}
      else Throw (RuntimeError "unexpected venue")
  end.

Definition scan (v : Venue) (es : list RawEnvelope) : result Scan :=
  scan_loop v es {| scan_records := 0; scan_connections := ∅ |}.

(** The validation of the lifecycle array; the result is the last index. *)
Fixpoint validate_lifecycle (complete : bool) (records last_lifecycle_index : Z)
    (events : list LifecycleEvent) : result Z :=
  match events with
  | [] => Ok last_lifecycle_index
  | event :: rest =>
      let index := before_record_index event in
      if (index <? last_lifecycle_index) || (complete && (index >? records)) ||
         bool_decide (lifecycle_state event = Valid)
      then Throw (RuntimeError "invalid lifecycle event")
      else validate_lifecycle complete records index rest
  end.

(** ** Lemmas *)

Lemma scan_loop_Ok v es r :
  Forall (λ e, venue e = v) es → 0 ≤ scan_records r → scan_records r + Z.of_nat (length es) ≤ UINT64_MAX →
  ∃ r', scan_loop v es r = Ok r' ∧ scan_records r' = scan_records r + Z.of_nat (length es).
Proof.
  intros Hv. revert r. induction Hv as [|e es He Hv IH]; intros r Hr Hb; cbn [scan_loop length] in *.
  - exists r. split; [done|lia].
  - rewrite bool_decide_true by done.
    edestruct (IH {| scan_records := incr64 (scan_records r);
                     scan_connections := {[ connection_id e ]} ∪ scan_connections r |}) as (r' & -> & Hc);
      cbn [scan_records] in *; rewrite incr64_small in * by lia; [lia..|]. exists r'. split; [done|lia].
Qed.

Lemma validate_lifecycle_snoc c n n' last l v last' :
  validate_lifecycle c n last l = Ok last' → n ≤ n' → last' ≤ before_record_index v ≤ n' →
  lifecycle_state v ≠ Valid →
  validate_lifecycle c n' last (l ++ [v]) = Ok (before_record_index v).
Proof.
  intros Hl Hn Hb Hv. revert last Hl. induction l as [|e l IH]; intros last; cbn [validate_lifecycle app].
  - intros [= ->]. rewrite (bool_decide_false (_ = Valid)), (proj2 (Z.ltb_ge _ _)), Z.gtb_ltb,
      (proj2 (Z.ltb_ge _ _)), andb_false_r by (done || lia). done.
  - destruct (_ || _) eqn:E; [done|]. intros Hl. zbool. rewrite (proj2 (Z.ltb_ge _ _)) by lia.
    replace (c && (before_record_index e >? n')) with false; [|destruct c; [|done]; cbn in *; zbool;
      rewrite Z.gtb_ltb; symmetry; apply Z.ltb_ge; lia].
    match goal with H : bool_decide _ = false |- _ => rewrite H end. cbn. auto.
Qed.

(** The events of a valid array are in order and within the records. *)
Lemma validate_lifecycle_range n last l last' :
  validate_lifecycle true n last l = Ok last' → Forall (λ e, last ≤ before_record_index e ≤ n) l.
Proof.
  revert last. induction l as [|e l IH]; intros last; cbn [validate_lifecycle]; [constructor|].
  destruct (_ || _) eqn:E; [done|]. intros Hl%IH. zbool. cbn [andb] in *. rewrite Z.gtb_ltb in *. zbool.
  constructor; [lia|]. eapply Forall_impl; [exact Hl|]. cbn. lia.
Qed.

Lemma validate_lifecycle_more c n n' last l last' :
  validate_lifecycle c n last l = Ok last' → n ≤ n' → validate_lifecycle c n' last l = Ok last'.
Proof.
  intros Hl Hn. revert last Hl. induction l as [|e l IH]; intros last; cbn [validate_lifecycle]; [done|].
  destruct (_ || _) eqn:E; [done|]. intros Hl. zbool. rewrite (proj2 (Z.ltb_ge _ _)) by lia.
  replace (c && (before_record_index e >? n')) with false; [|destruct c; [|done]; cbn in *; zbool;
    rewrite Z.gtb_ltb; symmetry; apply Z.ltb_ge; lia].
  match goal with H : bool_decide _ = false |- _ => rewrite H end. cbn. auto.
Qed.

(** There are at most as many connections as records. *)
Lemma scan_loop_connections v es r r' :
  scan_loop v es r = Ok r' → (size (scan_connections r') ≤ size (scan_connections r) + length es)%nat.
Proof.
  revert r. induction es as [|e es IH]; intros r; cbn [scan_loop length]; [intros [= ->]; lia|].
  case_bool_decide; [|done]. intros Hs%IH. cbn [scan_connections] in Hs.
  assert (size ({[connection_id e]} ∪ scan_connections r) ≤ S (size (scan_connections r)))%nat as Hle.
  { rewrite size_union_alt, size_singleton. apply le_n_S. apply subseteq_size. set_solver. }
  lia.
Qed.
