(* ===== verification/SessionText.v ===== *)
(** * The texts of a session

    [utc_now], the start and end of a session, and the hexadecimal text of a
    digest.  The time stamps a session writes are those the adapters read. *)

From S2P Require Import Prelude.
From S2P Require Import Text.
From S2P Require Import CoreTypes.
From S2P Require Import Timestamps.

Open Scope Z_scope.

(** ** Operations *)

(** The calendar day [n] days after the epoch. *)
Fixpoint date_after (n : nat) : Z * Z * Z :=
  match n with
  | O => (1970, 1, 1)
  | S n => let '(y, m, d) := date_after n in next_day y m d
  end.

(** [gmtime_r] from the epoch on: year, month, day, hour, minute and second. *)
Definition gmtime (t : Z) : Z * Z * Z * (Z * Z * Z) :=
  let s := t mod 86400 in
  (date_after (Z.to_nat (t / 86400)), (s / 3600, s mod 3600 / 60, s mod 60)).

(** A number with zeros before it. *)
Definition padded (width : nat) (v : Z) : string :=
  let text := to_string v in zeros (width - String.length text) +:+ text.

(** [utc_now] at the time [t]: ["%Y-%m-%dT%H:%M:%SZ"]. *)
Definition utc_now (t : Z) : string :=
  let '(y, m, d, (hour, minute, second)) := gmtime t in
  to_string y +:+ "-" +:+ padded 2 m +:+ "-" +:+ padded 2 d +:+ "T" +:+ padded 2 hour +:+ ":" +:+
  padded 2 minute +:+ ":" +:+ padded 2 second +:+ "Z".

Definition hex_digit (d : Z) : ascii :=
  ascii_of_nat (Z.to_nat (if d <? 10 then 48 + d else 87 + d)).

(** [Digest::finish] on the bytes of the digest. *)
Fixpoint digest_text (bytes : list Z) : string :=
  match bytes with
  | [] => EmptyString
  | b :: rest => String (hex_digit (b / 16)) (String (hex_digit (b mod 16)) (digest_text rest))
  end.

(** ** Lemmas: the calendar *)

Lemma next_day_ok y m d :
  date_ok y m d = true → let '(y', m', d') := next_day y m d in date_ok y' m' d' = true ∧ y ≤ y'.
Proof.
  unfold date_ok. rewrite !andb_true_iff, !Z.leb_le. intros [[[Hm1 Hm2] Hd1] Hd2]. unfold next_day.
  destruct (d <? last_day y m) eqn:Ed; zbool; [rewrite !andb_true_iff, !Z.leb_le; lia|].
  destruct (m <? 12) eqn:Em; zbool; rewrite !andb_true_iff, !Z.leb_le.
  - pose proof (last_day_pos y (m + 1)). lia.
  - pose proof (last_day_pos (y + 1) 1). lia.
Qed.

Lemma date_after_spec n :
  let '(y, m, d) := date_after n in date_ok y m d = true ∧ sys_days y m d = Z.of_nat n ∧ 1970 ≤ y.
Proof.
  induction n as [|n IH]; [done|]. cbn [date_after]. destruct (date_after n) as [[y m] d].
  destruct IH as (Hok & Hs & Hy). pose proof (next_day_ok y m d Hok) as Hn.
  destruct (next_day y m d) as [[y' m'] d'] eqn:E. destruct Hn as [Hok' Hy'].
  split_and!; [done| |lia]. rewrite (sys_days_next y m d y' m' d' Hok E), Hs. lia.
Qed.

Lemma year_bound y m d : date_ok y m d = true → sys_days y m d ≤ 106751 → y ≤ 2262.
Proof.
  unfold date_ok. rewrite !andb_true_iff, !Z.leb_le. intros [[[Hm1 Hm2] Hd1] _]. rewrite sys_days_closed. cbv zeta.
  destruct (m <=? 2) eqn:E1, (m >? 2) eqn:E2; zbool; intros; Z.div_mod_to_equations; lia.
Qed.

(** ** Lemmas: fields *)

Lemma digits_of_length fuel k n acc :
  0 ≤ n < 10 ^ Z.of_nat k → (0 < k ≤ fuel)%nat →
  (String.length (digits_of fuel n acc) ≤ k + String.length acc)%nat.
Proof.
  revert k n acc. induction fuel as [|fuel IH]; intros k n acc Hn Hk; [lia|]. cbn [digits_of].
  destruct (n <? 10) eqn:E; zbool; [cbn; lia|].
  destruct k as [|k]; [lia|]. rewrite Nat2Z.inj_succ, Z.pow_succ_r in Hn by lia.
  assert (0 < k)%nat by (destruct k; [cbn in Hn; lia|lia]).
  pose proof (IH k (n / 10) (String (digit_char (n mod 10)) acc)) as Hl. cbn [String.length] in Hl.
  etransitivity; [apply Hl; [|lia]|lia]. Z.div_mod_to_equations. lia.
Qed.

Lemma padded_field k v : (0 < k ≤ 19)%nat → 0 ≤ v < 10 ^ Z.of_nat k → field k (padded k v) v.
Proof.
  intros Hk Hv. assert (in_uint64 v) as Hu.
  { unfold in_uint64, UINT64_MAX. assert (10 ^ Z.of_nat k ≤ 10 ^ 19) by (apply Z.pow_le_mono_r; lia). lia. }
  destruct (to_string_spec v Hu) as (Hd & Hval & _).
  pose proof (digits_of_length 20 k v EmptyString Hv ltac:(lia)) as Hl. cbn [String.length] in Hl.
  fold (to_string v) in Hl. unfold padded. cbv zeta. split_and!.
  - rewrite string_length_app, zeros_length. lia.
  - by rewrite all_digits_app, zeros_digits, Hd.
  - by rewrite digits_value_app, zeros_value, Z.mul_0_l, Hval.
Qed.

(** A year of four digits needs no padding. *)
Lemma year_field y : 1000 ≤ y ≤ 9999 → to_string y = padded 4 y.
Proof.
  intros Hy. unfold padded. cbv zeta.
  assert (String.length (to_string y) = 4%nat) as ->; [|done].
  destruct (to_string_spec y) as (Hd & Hval & _); [unfold in_uint64, UINT64_MAX; lia|].
  pose proof (digits_of_length 20 4 y EmptyString ltac:(cbn; lia) ltac:(lia)) as Hl. fold (to_string y) in Hl.
  pose proof (digits_value_bound (to_string y) Hd) as Hb. rewrite Hval in Hb. cbn [String.length] in Hl.
  destruct (String.length (to_string y)) as [|[|[|[|[|k]]]]]; cbn in Hb; lia.
Qed.

(** ** Theorems *)

(** What [utc_now] writes is read back by [parse_timestamp], at any time
    from the epoch to the end of the range of nanoseconds, in the year 2262. *)
Theorem utc_now_parses err t :
  0 ≤ t ≤ Z.quot INT64_MAX billion → parse_timestamp err (utc_now t) = Ok {| exchange_ns := t * billion |}.
Proof.
  change (Z.quot INT64_MAX billion) with 9223372036. intros Ht.
  pose proof (date_after_spec (Z.to_nat (t / 86400))) as Hd. unfold utc_now, gmtime.
  destruct (date_after (Z.to_nat (t / 86400))) as [[y m] d]. destruct Hd as (Hok & Hs & Hy).
  rewrite Z2Nat.id in Hs by (apply Z.div_pos; lia).
  assert (y ≤ 2262) as Hy' by (apply (year_bound y m d Hok); rewrite Hs; Z.div_mod_to_equations; lia).
  pose proof Hok as Hm. unfold date_ok in Hm. rewrite !andb_true_iff, !Z.leb_le in Hm. destruct Hm as [[[Hm1 Hm2] Hd1] Hd2].
  assert (last_day y m ≤ 31) as Hd3 by (unfold last_day; repeat split_match; lia).
  rewrite year_field by lia. set (s := t mod 86400).
  assert (0 ≤ s < 86400) as Hsb by (apply Z.mod_pos_bound; lia).
  assert (t = 86400 * (t / 86400) + s) as Hts by (apply Z.div_mod; lia).
  assert (0 ≤ s / 3600 ≤ 23 ∧ 0 ≤ s mod 3600 / 60 ≤ 59 ∧ 0 ≤ s mod 60 ≤ 59 ∧
          s = s / 3600 * 3600 + s mod 3600 / 60 * 60 + s mod 60) as (Hh & Hmi & Hse & Hsum)
    by (clear - Hsb; Z.div_mod_to_equations; lia).
  rewrite (parse_timestamp_complete err _ (t * billion)); [rewrite bool_decide_true; [done|]|].
  - unfold in_int64, INT64_MIN, INT64_MAX, billion. lia.
  - exists (padded 4 y), (padded 2 m), (padded 2 d), (padded 2 (s / 3600)), (padded 2 (s mod 3600 / 60)),
      (padded 2 (s mod 60)), EmptyString, y, m, d, (s / 3600), (s mod 3600 / 60), (s mod 60).
    assert (∀ v, 0 ≤ v ≤ 99 → field 2 (padded 2 v) v) as H2 by (intros v Hv; apply padded_field; [lia|cbn; lia]).
    split_and!; try done; try (apply H2; lia); try lia.
    + apply padded_field; [lia|cbn; lia].
    + cbn. lia.
    + rewrite Hs. cbn [digits_value]. unfold billion. lia.
Qed.

Lemma utc_now_parses_witness :
  utc_now 1709210096 = "2024-02-29T12:34:56Z"%string ∧
  coinbase_parse_timestamp "2024-02-29T12:34:56Z" = Ok {| exchange_ns := 1709210096 * billion |}.
Proof.
  assert (utc_now 1709210096 = "2024-02-29T12:34:56Z"%string) as Hu by (vm_compute; reflexivity).
  split; [exact Hu|]. rewrite <-Hu. apply utc_now_parses. split; [done|]. by vm_compute.
Defined.

(** The text of a digest has two hexadecimal digits for each byte, and
    determines the bytes. *)
Lemma hex_digit_inj a b : 0 ≤ a < 16 → 0 ≤ b < 16 → hex_digit a = hex_digit b → a = b.
Proof.
  intros Ha Hb Hd. apply (f_equal nat_of_ascii) in Hd. unfold hex_digit in Hd.
  rewrite !nat_ascii_embedding in Hd by (repeat split_match; zbool; lia).
  repeat split_match; zbool; lia.
Qed.

Lemma digest_text_inj bytes bytes' :
  Forall (λ b, 0 ≤ b < 256) bytes → Forall (λ b, 0 ≤ b < 256) bytes' →
  digest_text bytes = digest_text bytes' → bytes = bytes'.
Proof.
  intros Hb. revert bytes'. induction Hb as [|b bytes Hb _ IH]; intros bytes' Hb' He.
  - by destruct bytes'.
  - destruct Hb' as [|b' bytes' Hb' Hbs']; [done|]. cbn in He. injection He as H1 H2 H3.
    apply hex_digit_inj in H1; [|Z.div_mod_to_equations; lia..].
    apply hex_digit_inj in H2; [|Z.div_mod_to_equations; lia..].
    f_equal; [|by apply IH]. rewrite (Z.div_mod b 16), (Z.div_mod b' 16) by lia. lia.
Qed.
