(* ===== verification/Display.v ===== *)
(** * Console status lines

    The line that [run_live] prints every second and at the end, and the one
    that [run_kraken] prints every second. *)

From S2P Require Import Prelude.
From S2P Require Import Text.
From S2P Require Import CoreTypes.
From S2P Require Import OrderBook.
From S2P Require Import Json.
From S2P Require Import CoinbaseHandler.
From S2P Require Import RuntimeStatus.
From S2P Require Import ConnectionManager.
From S2P Require Import Session.

Open Scope Z_scope.

Definition connection_text (connected : bool) : string := if connected then "CONNECTED" else "DISCONNECTED".

(** [book_name] of the runtime. *)
Definition live_book_name (state : BookState) : string :=
  match state with
  | Initializing => "INITIALIZING"
  | Valid => "VALID"
  | Stale => "STALE"
  | Resyncing => "RESYNCING"
  | Disconnected => "DISCONNECTED"
  | Invalid => "INVALID"
  end.

(** [display] *)
Definition display (s : RuntimeStatus) : string :=
  let p := st_progress s in
  "runtime=" +:+ state_name (runtime_state s) +:+ " connection=" +:+ connection_text (st_connected s) +:+
  " book=" +:+ live_book_name (st_book_state s) +:+ " sequence=" +:+ index_text (st_last_sequence s) +:+
  " best_bid_ticks=" +:+ price_text (st_best_bid s) +:+ " best_ask_ticks=" +:+ price_text (st_best_ask s) +:+
  " received=" +:+ to_string (received_messages s) +:+ " enqueued=" +:+ to_string (enqueued_messages s) +:+
  " written=" +:+ to_string (written_messages s) +:+ " processed=" +:+ to_string (processed_messages s) +:+
  " queue_messages=" +:+ to_string (recording_queue_messages s) +:+
  " queue_bytes=" +:+ to_string (recording_queue_bytes s) +:+
  " last_received_index=" +:+ index_text (last_received_index p) +:+
  " last_enqueued_index=" +:+ index_text (last_enqueued_index p) +:+
  " last_written_index=" +:+ index_text (last_written_index p) +:+
  " last_processed_index=" +:+ index_text (last_processed_index p) +:+
  match fatal_error s with Some e => " fatal_error=" +:+ e | None => EmptyString end +:+
  (let tail := unpersisted_processed_range s in
   if String.eqb tail EmptyString then EmptyString else " " +:+ tail) +:+
  String newline EmptyString.

(** The state as the Kraken runtime shows it. *)
Definition kraken_state_text (s : BookState) : string :=
  match s with Valid => "VALID" | Stale => "STALE" | Initializing => "INITIALIZING" | _ => "INVALID" end.

(** The line of the Kraken runtime; [checksum] and [failures] are what the
    market thread last published. *)
Definition kraken_display (checksum failures : Z) (s : RuntimeStatus) : string :=
  "venue=kraken instrument=BTC_USD book=" +:+ kraken_state_text (st_book_state s) +:+
  " checksum=" +:+ to_string checksum +:+ " checksum_failures=" +:+ to_string failures +:+
  " best_bid=" +:+ price_text (st_best_bid s) +:+ " best_ask=" +:+ price_text (st_best_ask s) +:+
  " bid_levels=" +:+ to_string (Z.of_nat (bid_levels s)) +:+
  " ask_levels=" +:+ to_string (Z.of_nat (ask_levels s)) +:+ String newline EmptyString.

(** A concrete line. *)
Example display_new :
  kraken_display 7 0 (new_status <| st_book_state := Valid |> <| st_best_bid := Some {| raw := 5 |} |>) =
  ("venue=kraken instrument=BTC_USD book=VALID checksum=7 checksum_failures=0 best_bid=5 best_ask=NA" +:+
   " bid_levels=0 ask_levels=0" +:+ String newline EmptyString)%string.
Proof. vm_compute. reflexivity. Qed.
