(* ===== verification/Capture.v ===== *)
(** * Session capture

    [sessions::Capture]: the manifest of a session, created before the
    recording starts and finalised when the runtime has stopped, and the atomic
    publication of files.  A file system is a map from paths to texts; whether
    its operations succeed is an argument. *)

From S2P Require Import Prelude.
From S2P Require Import Text.
From S2P Require Import CoreTypes.
From S2P Require Import FixedPoint.
From S2P Require Import Json.
From S2P Require Import RecordingQueue.
From S2P Require Import CoinbaseHandler.
From S2P Require Import KrakenParser.
From S2P Require Import KrakenProcessor.
From S2P Require Import ConnectionManager.
From S2P Require Import Recording.
From S2P Require Import RuntimeStatus.
From S2P Require Import Session.

Open Scope Z_scope.

(** ** Paths and files *)

Notation FileSystem := (gmap string string).

Definition is_slash (c : ascii) : bool := (c =? "/")%char.

(** The components of a path between its separators. *)
Fixpoint split_path (s : string) : list string :=
  match s with
  | EmptyString => [EmptyString]
  | String c rest =>
      if is_slash c then EmptyString :: split_path rest
      else match split_path rest with
           | first :: more => String c first :: more
           | [] => [String c EmptyString]
           end
  end.

(** [path.is_absolute()] *)
Definition is_absolute (s : string) : bool :=
  match s with String c _ => is_slash c | EmptyString => false end.

(** [a / b] *)
Definition path_join (a b : string) : string :=
  if is_absolute b then b
  else if String.eqb a EmptyString || String.eqb (List.last (split_path a) EmptyString) EmptyString
  then a +:+ b else a +:+ "/" +:+ b.

(** [directory.filename().string()] *)
Definition filename (s : string) : string := List.last (split_path s) EmptyString.

(** ** Manifest documents *)

(** [j[key] = v] *)
Definition set_key (key : string) (v : json) (j : json) : json :=
  match j with JObject ms => JObject (set_member key v ms) | _ => j end.

(** Successive assignments. *)
Definition set_keys (kvs : list (string * json)) (j : json) : json :=
  match j with JObject ms => JObject (set_members kvs ms) | _ => j end.

Definition precision_metadata (key : string) : json :=
  json_object [(key, json_object [("price_scale", JInteger 2); ("quantity_scale", JInteger 8)])].

Definition configuration : json :=
  json_object [("venues", JArray [JString "coinbase"]);
               ("instruments", JArray [JString "BTC-USD"]);
               ("product_metadata", precision_metadata "coinbase:BTC-USD");
               ("processor_version", JInteger 1)].

Definition kraken_configuration (depth : Z) : result json :=
  _ ← validate_depth depth;
  Ok (json_object
        [("venues", JArray [JString "kraken"]);
         ("instruments", JArray [JString "BTC_USD"]);
         ("venue_symbols", json_object [("kraken:BTC_USD", JString "BTC/USD")]);
         ("subscriptions", json_object [("kraken:BTC_USD",
             json_object [("channel", JString "book"); ("depth", JUnsigned depth)])]);
         ("product_metadata", precision_metadata "kraken:BTC_USD");
         ("processor_version", JInteger 1)]).

(** What the build compiles into the program. *)
Record BuildInfo := {
  git_commit : string;
  build_type : string;
  os_name : string;
  architecture : string;
}.

Record Capture := {
  directory_ : string;
  manifest_ : json;
}.

#[export] Instance Capture_eta : EtaRecord Capture := λ c,
  {| directory_ := directory_ c; manifest_ := manifest_ c |}.

Definition set_metrics (metrics : json) (c : Capture) : Capture := c <| manifest_ ::= set_key "metrics" metrics |>.
Definition set_final_book_hash (hash : string) (c : Capture) : Capture :=
  c <| manifest_ ::= set_key "final_book_hash" (JString hash) |>.

(** The outcomes of publishing a file: whether the temporary file could be
    created, and whether it could be written, synchronised and closed. *)
Record publish_io := { temporary_created : bool; temporary_written : bool }.

Section capture.
Context `{JsonLib} (sha256 : string → string) (build : BuildInfo).
Implicit Types fs : FileSystem.

(** [publish]: the destination gets the whole text, or stays what it was. *)
Definition publish (io : publish_io) (path : string) (value : json) fs : FileSystem * result unit :=
  if negb (temporary_created io) then (fs, Throw (RuntimeError "cannot create temporary manifest/result"))
  else
    match json_dump2 value with
    | Throw e => (fs, Throw e)
    | Ok text =>
        match temporary_written io, fs !! path with
        | true, None => (<[path := text +:+ String newline EmptyString]> fs, Ok tt)
        | _, _ => (fs, Throw (RuntimeError ("cannot atomically publish new file: " +:+ path)))
        end
    end.

(** The manifest a capture starts with: the configuration, and what
    identifies the session. *)
Definition initial_keys (directory venue started hash : string) : list (string * json) :=
  [("format_version", JInteger 1);
   ("session_id", JString (filename directory));
   ("status", JString "in_progress");
   ("started_at_utc", JString started);
   ("application", json_object [("git_commit", JString (git_commit build));
                                ("build_type", JString (build_type build))]);
   ("platform", json_object [("os", JString (os_name build));
                             ("architecture", JString (architecture build))]);
   ("configuration_hash", JString hash);
   ("raw_files", JArray [json_object [("venue", JString venue);
                                      ("path", JString ("raw/" +:+ venue +:+ ".jsonl"))]])].

Definition initial_manifest (directory venue started : string) (depth : Z) : result json :=
  config ← (if String.eqb venue "kraken" then kraken_configuration depth else Ok configuration);
  text ← json_dump config;
  Ok (set_keys (initial_keys directory venue started (sha256 text)) config).

(** The constructor; [directory_new] tells whether the directory could be
    created, [started] is the current time. *)
Definition new_capture (directory venue : string) (depth : Z) (directory_new : bool) (started : string)
    (io : publish_io) fs : FileSystem * result Capture :=
  if negb (String.eqb venue "coinbase") && negb (String.eqb venue "kraken")
  then (fs, Throw (InvalidArgument "unsupported venue"))
  else if negb directory_new then (fs, Throw (RuntimeError "session directory must be new"))
  else
    match initial_manifest directory venue started depth with
    | Throw e => (fs, Throw e)
    | Ok manifest =>
        match publish io (path_join directory "manifest.inprogress.json") manifest fs with
        | (fs, Throw e) => (fs, Throw e)
        | (fs, Ok _) => (fs, Ok {| directory_ := directory; manifest_ := manifest |})
        end
    end.

Definition raw_path (c : Capture) : result string :=
  files ← at_key (manifest_ c) "raw_files";
  first ← at_index files 0;
  pj ← at_key first "path";
  p ← get_string pj;
  Ok (path_join (directory_ c) p).

(** [scan] of a file that may be missing, with a reader of its own. *)
Definition scan_file (v : Venue) (file : option string) : result Scan :=
  let '(reader, ms) := read_all (open_reader ((λ text, (text, false)) <$> file)) in
  scanned ← scan v ms;
  _ ← throw_if (has_error reader) (RuntimeError (last_error_ reader));
  Ok scanned.

(** The names of the final status and runtime state. *)
Definition final_status (s : RuntimeState.t) : string * string :=
  match s with
  | RuntimeState.Stopped => ("complete", "Stopped")
  | RuntimeState.StoppedRecordingError => ("recording_failure", "StoppedRecordingError")
  | RuntimeState.StoppedQueueFull => ("queue_overflow", "StoppedQueueFull")
  | RuntimeState.StoppedProcessingError => ("processing_failure", "StoppedProcessingError")
  | _ => ("interrupted", "Stopped")
  end%string.

Definition lifecycle_json (e : LifecycleEvent) : json :=
  json_object [("before_record_index", JUnsigned (before_record_index e));
               ("state", JString (book_name (lifecycle_state e)));
               ("reason", JString (lifecycle_reason e))].

(** [manifest_["raw_files"][0]] with [f] applied. *)
Definition update_raw (f : json → json) (j : json) : json :=
  match field j "raw_files" with
  | JArray (r :: rest) => set_key "raw_files" (JArray (f r :: rest)) j
  | _ => j
  end.

(** What the status of the runtime says. *)
Definition status_keys (s : RuntimeStatus) (ended : string) : list (string * json) :=
  let p := st_progress s in
  [("lifecycle_events", JArray (map lifecycle_json (lifecycle_events s)));
   ("status", JString (final_status (runtime_state s)).1);
   ("final_runtime_state", JString (final_status (runtime_state s)).2);
   ("ended_at_utc", JString ended);
   ("stop_reason", JString (default "requested_shutdown"%string (fatal_error s)));
   ("last_received_index", json_optional (last_received_index p));
   ("last_enqueued_index", json_optional (last_enqueued_index p));
   ("last_written_index", json_optional (last_written_index p));
   ("last_processed_index", json_optional (last_processed_index p));
   ("unpersisted_records", JUnsigned (u64 (received_messages s - written_messages s)));
   ("unpersisted_processed_tail", JBool (negb (String.eqb (unpersisted_processed_range s) EmptyString)))].

(** What the recording file says. *)
Definition raw_keys (s : RuntimeStatus) (text : string) : list (string * json) :=
  [("bytes", JUnsigned (Z.of_nat (String.length text)));
   ("sha256", JString (sha256 text));
   ("records", JUnsigned (written_messages s));
   ("first_record_index", if written_messages s =? 0 then JNull else JInteger 0);
   ("last_record_index", json_optional (last_written_index (st_progress s)))].

(** The scan of the recording; any exception marks the recording as failed. *)
Definition finalize_scan (s : RuntimeStatus) (text : string) (manifest : json) : json :=
  let v := if json_equal (match field manifest "venues" with JArray (x :: _) => x | _ => JNull end)
                (JString "kraken") then Kraken else Coinbase in
  match scan_file v (Some text) with
  | Throw _ => set_key "status" (JString "recording_failure") manifest
  | Ok scanned =>
      let manifest := set_key "connections" (JUnsigned (Z.of_nat (size (scan_connections scanned)))) manifest in
      if negb (scan_records scanned =? written_messages s)
      then set_key "status" (JString "recording_failure") manifest else manifest
  end.

(** The final manifest, from the text of the recording, if it exists. *)
Definition final_manifest (s : RuntimeStatus) (ended : string) (recording : option string) (manifest : json) : json :=
  let manifest := set_keys (status_keys s ended) manifest in
  let manifest :=
    match recording with
    | Some text => finalize_scan s text (update_raw (set_keys (raw_keys s text)) manifest)
    | None => set_key "connections" (JInteger 0) manifest
    end in
  if json_equal (field manifest "status") (JString "complete") &&
     (bool_decide (is_Some (fatal_error s)) || negb (received_messages s =? written_messages s))
  then set_key "status" (JString "recording_failure") manifest else manifest.

Definition finalize (s : RuntimeStatus) (ended : string) (io : publish_io) fs (c : Capture)
    : Capture * FileSystem * result unit :=
  if bool_decide (runtime_state s = RuntimeState.Starting) ||
     bool_decide (runtime_state s = RuntimeState.Running) ||
     bool_decide (runtime_state s = RuntimeState.Stopping)
  then (c, fs, Throw (RuntimeError "cannot finalize running recorder"))
  else
    match raw_path c with
    | Throw e => (c, fs, Throw e)
    | Ok raw =>
        let c := c <| manifest_ ::= final_manifest s ended (fs !! raw) |> in
        match publish io (path_join (directory_ c) "manifest.json") (manifest_ c) fs with
        | (fs, Throw e) => (c, fs, Throw e)
        | (fs, Ok _) => (c, delete (path_join (directory_ c) "manifest.inprogress.json") fs, Ok tt)
        end
    end.
End capture.
