(* ===== verification/Publication.v ===== *)
(** * Publishing a document

    [publish] call by call: the temporary file, the loop of partial writes, the
    rename that replaces nothing, and the removal of the temporary name, with
    the state of the file system after each call.  A crash between two calls
    leaves one of these states. *)

From S2P Require Import Prelude.
From S2P Require Import Text.
From S2P Require Import Json.
From S2P Require Import Capture.

Open Scope Z_scope.

(** ** Operations *)

(** What the calls of one publication answer: [sc_writes] are the counts that
    [write] returns, a call without an answer fails; [sc_rename], that the
    rename succeeds when nothing is in its way. *)
Record SystemCalls := {
  sc_directories : result unit;
  sc_temporary : bool;
  sc_suffix : string;
  sc_writes : list Z;
  sc_fsync : bool;
  sc_close : bool;
  sc_rename : bool;
}.

(** [!path.parent_path().empty()] *)
Definition has_parent (path : string) : bool := negb (bool_decide (length (split_path path) = 1%nat)).

(** The name that [mkstemp] makes of its pattern. *)
Definition temporary_name (sc : SystemCalls) (path : string) : string := path +:+ ".tmp-" +:+ sc_suffix sc.

(** The loop of writes of [bytes] to the file [name]: the states after each
    call, the last of them, and [ok]. *)
Fixpoint write_loop (counts : list Z) (name bytes : string) (fs : FileSystem) : list FileSystem * FileSystem * bool :=
  if String.eqb bytes EmptyString then ([], fs, true)
  else
    match counts with
    | [] => ([], fs, false)
    | count :: counts =>
        if count <=? 0 then ([], fs, false)
        else
          let n := Nat.min (Z.to_nat count) (String.length bytes) in
          let fs := <[name := default EmptyString (fs !! name) +:+ str_take n bytes]> fs in
          let '(states, fs', ok) := write_loop counts name (str_drop n bytes) fs in
          (fs :: states, fs', ok)
    end.

(** [renameat2] with [RENAME_NOREPLACE]. *)
Definition rename_no_replace (allowed : bool) (name path : string) (fs : FileSystem) : FileSystem * bool :=
  match allowed, fs !! name, fs !! path with
  | true, Some content, None => (<[path := content]> (delete name fs), true)
  | _, _, _ => (fs, false)
  end.

Section publication.
Context `{JsonLib}.
Implicit Types fs : FileSystem.

(** [publish]: the states after each call, the last of them, and the result. *)
Definition publish_calls (sc : SystemCalls) (path : string) (value : json) fs
    : list FileSystem * FileSystem * result unit :=
  match (if has_parent path then sc_directories sc else Ok tt) with
  | Throw e => ([], fs, Throw e)
  | Ok _ =>
      let name := temporary_name sc path in
      if negb (sc_temporary sc)
      then ([], fs, Throw (RuntimeError "cannot create temporary manifest/result"))
      else
        let fs := <[name := EmptyString]> fs in
        match json_dump2 value with
        | Throw e => ([fs], fs, Throw e)
        | Ok text =>
            let '(states, fs', ok) := write_loop (sc_writes sc) name (text +:+ String newline EmptyString) fs in
            let ok := ok && sc_fsync sc && sc_close sc in
            let '(fs'', ok) := if ok then rename_no_replace (sc_rename sc) name path fs' else (fs', false) in
            let last := delete name fs'' in
            (fs :: states ++ [fs''; last], last,
             throw_if (negb ok) (RuntimeError ("cannot atomically publish new file: " +:+ path)))
        end
  end.

(** What the calls amount to: the temporary file was made, and it was written,
    synchronised, closed and could be renamed. *)
Definition calls_io (sc : SystemCalls) (text : string) : publish_io :=
  {| temporary_created := sc_temporary sc;
     temporary_written := (write_loop (sc_writes sc) EmptyString (text +:+ String newline EmptyString) ∅).2 &&
                          sc_fsync sc && sc_close sc && sc_rename sc |}.

(** ** Lemmas *)

Lemma temporary_name_ne sc path : temporary_name sc path ≠ path.
Proof.
  unfold temporary_name. intros Hn%(f_equal String.length). rewrite !string_length_app in Hn. cbn in Hn. lia.
Qed.

(** The loop writes to the temporary file only, and a part of the bytes in
    order; all of them when it succeeds. *)
Lemma write_loop_spec counts name bytes fs old :
  fs !! name = Some old →
  let '(states, fs', ok) := write_loop counts name bytes fs in
  Forall (λ fs1, delete name fs1 = delete name fs) (fs' :: states) ∧
  (∃ written, fs' !! name = Some (old +:+ written) ∧ (ok = true → written = bytes)).
Proof.
  revert bytes fs old. induction counts as [|count counts IH]; intros bytes fs old Ho; cbn [write_loop].
  - destruct (String.eqb_spec bytes EmptyString) as [->|]; (split; [by repeat constructor|]);
      exists EmptyString; by rewrite string_app_nil.
  - destruct (String.eqb_spec bytes EmptyString) as [->|_];
      [split; [by repeat constructor|]; exists EmptyString; by rewrite string_app_nil|].
    destruct (count <=? 0);
      [split; [by repeat constructor|]; exists EmptyString; by rewrite string_app_nil|].
    cbv zeta. set (n := Nat.min _ _). rewrite Ho. cbn [default].
    specialize (IH (str_drop n bytes) (<[name := old +:+ str_take n bytes]> fs) (old +:+ str_take n bytes)
      (lookup_insert_eq _ _ _)).
    change (from_option id EmptyString (Some old)) with old.
    destruct (write_loop counts name (str_drop n bytes) _) as [[states fs'] ok].
    destruct IH as (Hd & written & Hw & Hok). rewrite delete_insert_eq in Hd. split.
    + apply Forall_cons in Hd as [H1 H2]. constructor; [exact H1|]. constructor; [by rewrite delete_insert_eq|exact H2].
    + exists (str_take n bytes +:+ written). split; [by rewrite Hw, string_app_assoc|].
      intros ->%Hok. apply str_take_drop.
Qed.

(** Whether the loop succeeds depends on the answers only. *)
Lemma write_loop_ok counts name name' bytes fs fs' :
  (write_loop counts name bytes fs).2 = (write_loop counts name' bytes fs').2.
Proof.
  revert bytes fs fs'. induction counts as [|count counts IH]; intros bytes fs fs'; cbn [write_loop].
  - by destruct (String.eqb bytes EmptyString).
  - destruct (String.eqb bytes EmptyString); [done|]. destruct (count <=? 0); [done|]. cbv zeta.
    set (n := Nat.min _ _).
    specialize (IH (str_drop n bytes) (<[name := default EmptyString (fs !! name) +:+ str_take n bytes]> fs)
      (<[name' := default EmptyString (fs' !! name') +:+ str_take n bytes]> fs')).
    destruct (write_loop counts name _ _) as [[? ?] ?], (write_loop counts name' _ _) as [[? ?] ?]. exact IH.
Qed.

(** The rename and the removal of the temporary name [name], which holds
    [content]. *)
Lemma rename_spec allowed name path content fs :
  name ≠ path → fs !! name = Some content →
  let '(fs', ok) := rename_no_replace allowed name path fs in
  ok = allowed && bool_decide (fs !! path = None) ∧
  delete name fs' = if ok then <[path := content]> (delete name fs) else delete name fs.
Proof.
  intros Hne Hn. unfold rename_no_replace. rewrite Hn. destruct allowed; [|done]. destruct (fs !! path); [done|].
  split; [done|]. by rewrite delete_insert_ne, delete_delete_eq.
Qed.

(** The states in which the destination is as before. *)
Ltac unchanged_states := repeat first [apply Forall_nil_2|apply Forall_cons_2; [by left|]].

(** ** Theorem *)

(** C17: a publication is atomic.  After every call, so also when the program is
    killed there, all files but the temporary one are as before, and the
    destination is as before or, if nothing was there, holds the whole
    document; whatever the calls answer.  When the document could be written as
    text the outcome is the one of [publish], and no temporary file is left;
    when it could not, the empty temporary file stays. *)
Theorem publish_atomic sc path value fs :
  fs !! temporary_name sc path = None →
  let '(states, fs', r) := publish_calls sc path value fs in
  Forall (λ fs1, delete (temporary_name sc path) fs1 = fs ∨
    ∃ text, json_dump2 value = Ok text ∧ fs !! path = None ∧
      delete (temporary_name sc path) fs1 = <[path := text +:+ String newline EmptyString]> fs) (fs' :: states) ∧
  (∀ text, is_ok (sc_directories sc) = true → json_dump2 value = Ok text →
     (fs', r) = publish (calls_io sc text) path value fs) ∧
  (∀ e, is_ok (sc_directories sc) = true → sc_temporary sc = true → json_dump2 value = Throw e →
     (fs', r) = (<[temporary_name sc path := EmptyString]> fs, Throw e)).
Proof.
  intros Hnew. unfold publish_calls. pose proof (temporary_name_ne sc path) as Hne.
  set (name := temporary_name sc path) in *.
  assert (delete name fs = fs) as Hd by (by apply delete_id).
  destruct (if has_parent path then _ else _) as [[]|e] eqn:Hdirs;
    [|split; [by unchanged_states|];
      split; intros ? Hok; destruct (has_parent path); by rewrite Hdirs in Hok || done].
  unfold publish, calls_io. cbn [temporary_created temporary_written].
  destruct (sc_temporary sc); cbn [negb]; [|split; [by unchanged_states|done]].
  set (fs0 := <[name := EmptyString]> fs).
  assert (delete name fs0 = fs) as Hd0 by (unfold fs0; by rewrite delete_insert_eq).
  destruct (json_dump2 value) as [text|e]; [|split_and!; [by unchanged_states|done|by intros e0 _ _ [= <-]]].
  pose proof (write_loop_ok (sc_writes sc) EmptyString name (text +:+ String newline EmptyString) ∅ fs0) as Hsame.
  pose proof (write_loop_spec (sc_writes sc) name (text +:+ String newline EmptyString) fs0 EmptyString
    (lookup_insert_eq _ _ _)) as Hloop.
  destruct (write_loop (sc_writes sc) name _ fs0) as [[states fs1] ok].
  destruct Hloop as (Hst & written & Hw & Hall). cbn [snd] in Hsame. rewrite Hd0 in Hst. cbn [app String.append] in Hw.
  apply Forall_cons in Hst as [H1 Hst].
  set (io_ok := ok && sc_fsync sc && sc_close sc).
  assert (fs1 !! path = fs !! path) as Hpath by (rewrite <-H1; by rewrite lookup_delete_ne).
  assert (∃ fs2, (if io_ok then rename_no_replace (sc_rename sc) name path fs1 else (fs1, false)) =
      (fs2, io_ok && sc_rename sc && bool_decide (fs !! path = None)) ∧
    delete name fs2 = if io_ok && sc_rename sc && bool_decide (fs !! path = None)
                      then <[path := text +:+ String newline EmptyString]> fs else fs) as (fs2 & -> & Hlast).
  { destruct io_ok eqn:Hio; [|by exists fs1]. pose proof (rename_spec (sc_rename sc) name path written fs1 Hne Hw) as Hr.
    destruct (rename_no_replace _ _ _ _) as [fs2 ok2]. destruct Hr as [-> Hr]. rewrite Hpath, H1 in Hr. exists fs2. split; [by rewrite Hpath|].
    subst io_ok. apply andb_true_iff in Hio as [[Hio _]%andb_true_iff _]. rewrite (Hall Hio) in Hr. exact Hr. }
  split_and!; [| |done].
  - assert (∀ x, delete name x = delete name fs2 → delete name x = fs ∨
      ∃ t, Ok text = Ok t ∧ fs !! path = None ∧ delete name x = <[path := t +:+ String newline EmptyString]> fs) as Hfin.
    { intros x ->. rewrite Hlast. destruct (io_ok && sc_rename sc); [|by left]. case_bool_decide; [|by left]. right. by exists text. }
    apply Forall_cons_2; [apply Hfin; apply delete_delete_eq|]. apply Forall_cons_2; [by left|]. apply Forall_app_2.
    + eapply Forall_impl; [exact Hst|]. by left.
    + apply Forall_cons_2; [by apply Hfin|]. apply Forall_cons_2; [apply Hfin; apply delete_delete_eq|apply Forall_nil_2].
  - intros text0 _ [= <-]. rewrite Hsame, Hlast. fold io_ok. destruct (io_ok && sc_rename sc); [|done].
    by destruct (fs !! path).
Qed.
End publication.

(** A document that is written in two parts. *)
Definition ex_calls : SystemCalls :=
  {| sc_directories := Ok tt; sc_temporary := true; sc_suffix := "a1B2c3"; sc_writes := [3; 100]; sc_fsync := true;
     sc_close := true; sc_rename := true |}.
Definition ex_publish_lib : JsonLib := table_lib [("{result}"%string, JNull)].
Definition ex_published : list FileSystem * FileSystem * result unit :=
  @publish_calls ex_publish_lib ex_calls "/data/result.json" JNull ∅.

Lemma publish_atomic_witness :
  (ex_published.1.2, ex_published.2) =
    @publish ex_publish_lib (calls_io ex_calls "{result}") "/data/result.json" JNull ∅ ∧
  ex_published.2 = Ok tt ∧ length ex_published.1.1 = 5%nat.
Proof.
  pose proof (@publish_atomic ex_publish_lib ex_calls "/data/result.json" JNull ∅ eq_refl) as Hp.
  fold ex_published in Hp. split; [|vm_compute; done].
  destruct ex_published as [[states fs'] r]. destruct Hp as (_ & Hp & _). by apply Hp.
Defined.
