(* ===== verification/CoinbaseReplay.v ===== *)
(** * Deterministic replay of a Coinbase session

    The Coinbase part of [sessions::replay]: the recorded envelopes are fed to
    the shared processor, interleaved with the recorded lifecycle events.  The
    lifecycle array and the raw records are the arguments; the refinement
    theorem relates the replay to the live connection manager that recorded
    them. *)

From S2P Require Import Prelude.
From S2P Require Import Text.
From S2P Require Import StdMap.
From S2P Require Import CoreTypes.
From S2P Require Import FixedPoint.
From S2P Require Import SequenceTracker.
From S2P Require Import OrderBook.
From S2P Require Import Json.
From S2P Require Import Timestamps.
From S2P Require Import CoinbaseParser.
From S2P Require Import FeedHealth.
From S2P Require Import RecordingQueue.
From S2P Require Import CoinbaseHandler.
From S2P Require Import ConnectionManager.
From S2P Require Import Session.

Open Scope Z_scope.

(** ** Data *)

(** The local variables of the replay; [pending] is the rest of the lifecycle
    array from [lifecycle_index] on, [outcomes] the processed outcomes in
    order, whose counts the result reports. *)
Record ReplayState := {
  rp_market : Market;
  rp_connection : option Z;
  boundaries : Z;
  rp_snapshots : Z;
  rp_updates : Z;
  rp_count : Z;
  pending : list LifecycleEvent;
  lifecycle_connected : bool;
  transitions : list Transition;
  outcomes : list MessageOutcome.t;
}.

#[export] Instance ReplayState_eta : EtaRecord ReplayState := λ s,
  {| rp_market := rp_market s; rp_connection := rp_connection s; boundaries := boundaries s;
     rp_snapshots := rp_snapshots s; rp_updates := rp_updates s; rp_count := rp_count s;
     pending := pending s; lifecycle_connected := lifecycle_connected s;
     transitions := transitions s; outcomes := outcomes s |}.

(** ** Operations *)

Definition replay_book (s : ReplayState) : OrderBook := book (rp_market s).

(** The [transition] lambda. *)
Definition add_transition (index : Z) (from to : BookState) (reason : string) (s : ReplayState) : ReplayState :=
  if bool_decide (from = to) then s
  else s <| transitions ::= λ l,
         l ++ [{| tr_index := index; tr_from := from; tr_to := to; tr_reason := reason |}] |>.

(** [book.mark_...()], with the transition it causes. *)
Definition mark_book (index : Z) (f : OrderBook → OrderBook) (reason : string) (s : ReplayState) : ReplayState :=
  let previous := state_ (replay_book s) in
  let s := s <| rp_market ::= λ k, k <| book ::= f |> |> in
  add_transition index previous (state_ (replay_book s)) reason s.

Definition replay_reset_sequence (s : ReplayState) : ReplayState :=
  s <| rp_market ::= λ k, k <| tracker ::= tracker_reset |> |>.

(** One event of the lifecycle array; its state is never [Valid], which the
    validation of the manifest ensures. *)
Definition apply_lifecycle_event (index : Z) (event : LifecycleEvent) (s : ReplayState) : result ReplayState :=
  let previous := state_ (replay_book s) in
  marked ← match lifecycle_state event with
           | Disconnected => Ok (s <| rp_market ::= λ k, k <| book ::= mark_disconnected |> |>)
           | Resyncing => Ok (s <| rp_market ::= λ k, k <| book ::= mark_resyncing |> |>)
           | Initializing =>
               Ok (s <| rp_market ::= λ k, k <| book ::= mark_initializing |> |>
                     <| lifecycle_connected := true |>)
           | Stale => Ok (s <| rp_market ::= λ k, k <| book ::= mark_stale |> |>)
           | Invalid => Ok (s <| rp_market ::= λ k, k <| book ::= invalidate |> |>)
           | Valid => Throw (RuntimeError "invalid lifecycle state")
           end;
  Ok (add_transition index previous (state_ (replay_book marked)) (lifecycle_reason event)
        (replay_reset_sequence marked)).

(** The loop of [apply_lifecycle]. *)
Fixpoint lifecycle_loop (index : Z) (events : list LifecycleEvent) (s : ReplayState) : result ReplayState :=
  match events with
  | [] => Ok (s <| pending := [] |>)
  | event :: rest =>
      if before_record_index event =? index then
        s' ← apply_lifecycle_event index event s; lifecycle_loop index rest s'
      else Ok (s <| pending := events |>)
  end.

Definition apply_lifecycle (index : Z) (s : ReplayState) : result ReplayState :=
  lifecycle_loop index (pending s) (s <| lifecycle_connected := false |>).

(** [if (connection != e->connection_id)] *)
Definition change_connection (e : RawEnvelope) (s : ReplayState) : ReplayState :=
  if bool_decide (rp_connection s = Some (connection_id e)) then s
  else
    let index := record_index e in
    let known := bool_decide (is_Some (rp_connection s)) in
    let s := if known then s <| boundaries ::= incr64 |> else s in
    let s := if known && negb (lifecycle_connected s)
             then mark_book index mark_disconnected "connection_id_changed" s else s in
    let s := if negb (lifecycle_connected s)
             then mark_book index mark_initializing "new_connection"
                    (mark_book index mark_resyncing "resynchronization" s) else s in
    (replay_reset_sequence s)
      <| rp_market ::= λ k, k <| health ::= λ h, health_reset h (receive_monotonic_time e) |> |>
      <| rp_connection := Some (connection_id e) |>.

Section replay.
Context `{JsonLib} (products : Products).

(** The reading loop from the comparison of connections on; the replay clock
    reads the envelope's receive time. *)
Definition replay_envelope (e : RawEnvelope) (s : ReplayState) : result ReplayState :=
  let s := change_connection e s in
  let previous := state_ (replay_book s) in
  match process products (receive_monotonic_time e) (rp_market s) e with
  | (_, Throw x) => Throw x
  | (k, Ok r) =>
      let reason := if String.eqb (pr_error r) ""
                    then (if rp_snapshots s =? 0 then "initial_snapshot" else "fresh_recovery_snapshot")
                    else pr_error r in
      let s := s <| rp_market := k |> in
      let s := add_transition (record_index e) previous (state_ (replay_book s)) reason s in
      Ok (s <| rp_count ::= incr64 |> <| outcomes ::= λ l, l ++ [outcome r] |>
            <| rp_snapshots ::= λ n, u64 (n + snapshots r) |> <| rp_updates ::= λ n, u64 (n + updates r) |>)
  end.

(** The body of the reading loop. *)
Definition replay_record (e : RawEnvelope) (s : ReplayState) : result ReplayState :=
  apply_lifecycle (record_index e) s ≫= replay_envelope e.

Fixpoint replay_records (es : list RawEnvelope) (s : ReplayState) : result ReplayState :=
  match es with
  | [] => Ok s
  | e :: rest => s' ← replay_record e s; replay_records rest s'
  end.

Definition initial_replay (lifecycle : list LifecycleEvent) : ReplayState :=
  {| rp_market :=
       {| book := match lifecycle with
                  | [] => new_book Coinbase BTC_USD
                  | _ => mark_disconnected (new_book Coinbase BTC_USD)
                  end;
          tracker := {| last_ := None |}; health := new_health |};
     rp_connection := None; boundaries := 0; rp_snapshots := 0; rp_updates := 0; rp_count := 0;
     pending := lifecycle; lifecycle_connected := false; transitions := []; outcomes := [] |}.

(** From the scan to the final state, without the comparisons of the
    manifest's other fields; [complete] and [in_progress] are its status. *)
Definition coinbase_replay (complete in_progress : bool) (lifecycle : list LifecycleEvent)
    (records : list RawEnvelope) : result ReplayState :=
  scanned ← scan Coinbase records;
  _ ← validate_lifecycle complete (scan_records scanned) 0 lifecycle;
  s ← replay_records records (initial_replay lifecycle);
  s ← apply_lifecycle (rp_count s) s;
  _ ← throw_if (complete && negb (bool_decide (length (pending s) = 0%nat)))
        (RuntimeError "invalid lifecycle ordering");
  let s :=
    if negb complete && negb in_progress then
      let previous := state_ (replay_book s) in
      let s := replay_reset_sequence (s <| rp_market ::= λ k, k <| book ::= invalidate |> |>) in
      add_transition (rp_count s) previous (state_ (replay_book s)) "terminal_failure" s
    else s in
  _ ← throw_if (negb (rp_count s =? scan_records scanned)) (RuntimeError "source changed during replay");
  Ok s.
End replay.

(** ** Lemmas: the lifecycle array *)

(** Lifecycle events that the end of the array gains later do not change what
    happened before. *)
Definition later (v : LifecycleEvent) (s : ReplayState) : ReplayState :=
  s <| pending ::= λ l, l ++ [v] |>.

Lemma apply_lifecycle_event_pending i e p s :
  apply_lifecycle_event i e (s <| pending := p |>) =
    (λ s', s' <| pending := p |>) <$> apply_lifecycle_event i e s.
Proof.
  unfold apply_lifecycle_event, add_transition, replay_book.
  destruct (lifecycle_state e); cbn -[bool_decide]; try done; by case_bool_decide.
Qed.

Lemma lifecycle_loop_pending i l p s : lifecycle_loop i l (s <| pending := p |>) = lifecycle_loop i l s.
Proof.
  revert s. induction l as [|e l IH]; intros s; cbn [lifecycle_loop]; [done|].
  destruct (_ =? _); [|done]. rewrite apply_lifecycle_event_pending.
  destruct (apply_lifecycle_event i e s); monad_simpl; [by rewrite IH|done].
Qed.

Lemma lifecycle_loop_later i l v s :
  before_record_index v ≠ i →
  lifecycle_loop i (l ++ [v]) s = later v <$> lifecycle_loop i l s.
Proof.
  intros Hv. revert s. induction l as [|e l IH]; intros s; cbn [lifecycle_loop app].
  - by rewrite (proj2 (Z.eqb_neq _ _) Hv).
  - destruct (_ =? _); [|done]. destruct (apply_lifecycle_event i e s); monad_simpl; [by rewrite IH|done].
Qed.

Lemma lifecycle_loop_now i l v s :
  Forall (λ e, before_record_index e = i) l → before_record_index v = i →
  lifecycle_loop i (l ++ [v]) s =
    (s' ← lifecycle_loop i l s; s'' ← apply_lifecycle_event i v s'; Ok (s'' <| pending := [] |>)).
Proof.
  intros Hl Hv. revert s. induction Hl as [|e l He Hl IH]; intros s; cbn [lifecycle_loop app].
  - rewrite Hv, Z.eqb_refl. monad_simpl. rewrite apply_lifecycle_event_pending.
    by destruct (apply_lifecycle_event i v s).
  - rewrite He, Z.eqb_refl. destruct (apply_lifecycle_event i e s); monad_simpl; [by rewrite IH|done].
Qed.

(** What one lifecycle event does, for a state other than [Valid]. *)
Lemma apply_lifecycle_event_fields i e s :
  lifecycle_state e ≠ Valid →
  ∃ s', apply_lifecycle_event i e s = Ok s' ∧
    replay_book s' = set_state (lifecycle_state e) (replay_book s) ∧
    tracker (rp_market s') = {| last_ := None |} ∧
    rp_count s' = rp_count s ∧ rp_connection s' = rp_connection s ∧ pending s' = pending s ∧
    lifecycle_connected s' = lifecycle_connected s || bool_decide (lifecycle_state e = Initializing).
Proof.
  intros Hv. unfold apply_lifecycle_event, add_transition, replay_book.
  destruct (lifecycle_state e); try done; cbn -[bool_decide]; eexists; (split; [done|]);
    case_bool_decide; cbn; rewrite ?orb_true_r, ?orb_false_r; done.
Qed.

Lemma lifecycle_loop_fields i l s s' :
  lifecycle_loop i l s = Ok s' →
  rp_count s' = rp_count s ∧ rp_connection s' = rp_connection s ∧
  (Forall (λ e, before_record_index e = i) l → pending s' = []).
Proof.
  revert s. induction l as [|e l IH]; intros s; cbn [lifecycle_loop]; [by intros [= <-]|].
  destruct (Z.eqb_spec (before_record_index e) i) as [He|He].
  - destruct (decide (lifecycle_state e = Valid)) as [Hv|Hv].
    { unfold apply_lifecycle_event. by rewrite Hv. }
    destruct (apply_lifecycle_event_fields i e s Hv) as (s1 & -> & _ & _ & <- & <- & _ & _). monad_simpl.
    intros (-> & -> & Hp)%IH. split_and!; [done..|]. intros Hf. inversion Hf. auto.
  - intros [= <-]. split_and!; [done..|]. intros Hf. by inversion Hf.
Qed.

(** ** Lemmas: one record *)

(** Markets that differ in the feed health at most. *)
Definition same_data (k k' : Market) : Prop := book k = book k' ∧ tracker k = tracker k'.

(** The feed health and the clock do not influence the processing. *)
Lemma process_same_data `{JsonLib} products now now' k k' e :
  same_data k k' →
  same_data (process products now k e).1 (process products now' k' e).1 ∧
  is_ok (process products now k e).2 = is_ok (process products now' k' e).2.
Proof.
  destruct k as [b t h], k' as [b' t' h']. intros [Hb Ht]. cbn in Hb, Ht. subst b' t'.
  unfold process, process_accepted, process_l2, process_fail, same_data. cbn.
  by repeat split_match.
Qed.

Lemma record_step_same_data `{JsonLib} products k k' e :
  same_data k k' → same_data (record_step products k e) (record_step products k' e).
Proof.
  intros Hs. unfold record_step.
  destruct (process_same_data products (receive_monotonic_time e) (receive_monotonic_time e) k k' e Hs)
    as [[Hb Ht] Hok].
  destruct (process products (receive_monotonic_time e) k e) as [k1 [?|?]],
    (process products (receive_monotonic_time e) k' e) as [k2 [?|?]]; cbn in *; try done.
  split; cbn; congruence.
Qed.

(** [process] does not throw on the record: its payload is not a malformed
    heartbeat. *)
Definition replayable `{JsonLib} (products : Products) (e : RawEnvelope) : Prop :=
  ∀ now k, is_ok (process products now k e).2 = true.

Section record_lemmas.
Context `{JsonLib} (products : Products).
Implicit Types s : ReplayState.

Lemma mark_book_later i f reason v s : mark_book i f reason (later v s) = later v (mark_book i f reason s).
Proof. unfold mark_book, add_transition, replay_book, later. cbn -[bool_decide]. by case_bool_decide. Qed.

Lemma change_connection_later v e s : change_connection e (later v s) = later v (change_connection e s).
Proof.
  unfold change_connection.
  change (rp_connection (later v s)) with (rp_connection s). case_bool_decide; [done|]. cbv zeta.
  destruct (bool_decide (is_Some (rp_connection s))); cbn [andb].
  - change ((later v s) <| boundaries ::= incr64 |>) with (later v (s <| boundaries ::= incr64 |>)).
    generalize (s <| boundaries ::= incr64 |>). intros s1.
    change (lifecycle_connected (later v s1)) with (lifecycle_connected s1).
    destruct (lifecycle_connected s1) eqn:Hl; cbn [negb].
    + change (lifecycle_connected (later v s1)) with (lifecycle_connected s1). by rewrite Hl.
    + rewrite mark_book_later. generalize (mark_book (record_index e) mark_disconnected "connection_id_changed" s1).
      intros s2. change (lifecycle_connected (later v s2)) with (lifecycle_connected s2).
      destruct (lifecycle_connected s2); cbn [negb]; by rewrite ?mark_book_later.
  - change (lifecycle_connected (later v s)) with (lifecycle_connected s).
    destruct (lifecycle_connected s); cbn [negb]; by rewrite ?mark_book_later.
Qed.

Lemma replay_envelope_later v e s :
  replay_envelope products e (later v s) = later v <$> replay_envelope products e s.
Proof.
  unfold replay_envelope. rewrite change_connection_later. generalize (change_connection e s). intros s1.
  change (rp_market (later v s1)) with (rp_market s1).
  destruct (process products _ (rp_market s1) e) as [k [r|x]]; [|done].
  unfold add_transition, replay_book, later. cbn -[bool_decide]. by case_bool_decide.
Qed.

Lemma replay_records_later v es s :
  Forall (λ e, before_record_index v ≠ record_index e) es →
  replay_records products es (later v s) = later v <$> replay_records products es s.
Proof.
  intros He. revert s. induction He as [|e es He Hes IH]; intros s; cbn [replay_records]; [done|].
  unfold replay_record, apply_lifecycle.
  assert (lifecycle_loop (record_index e) (pending (later v s)) ((later v s) <| lifecycle_connected := false |>)
    = later v <$> lifecycle_loop (record_index e) (pending s) (s <| lifecycle_connected := false |>)) as ->.
  { change ((later v s) <| lifecycle_connected := false |>)
      with (s <| lifecycle_connected := false |> <| pending := pending s ++ [v] |>).
    rewrite lifecycle_loop_pending. by apply lifecycle_loop_later. }
  destruct (lifecycle_loop _ _ _) as [s1|x]; monad_simpl; [|done].
  rewrite replay_envelope_later. destruct (replay_envelope products e s1) as [s2|x]; monad_simpl; [|done].
  apply IH.
Qed.

Lemma replay_records_app es es' s :
  replay_records products (es ++ es') s = (s' ← replay_records products es s; replay_records products es' s').
Proof.
  revert s. induction es as [|e es IH]; intros s; cbn [replay_records app]; [done|].
  destruct (replay_record products e s); monad_simpl; [apply IH|done].
Qed.

(** A record of the current connection, or the first one of a connection
    whose lifecycle events have just been applied. *)
Lemma replay_envelope_Ok e s :
  replayable products e →
  rp_connection s = Some (connection_id e) ∨
    (lifecycle_connected s = true ∧ tracker (rp_market s) = {| last_ := None |}) →
  ∃ s', replay_envelope products e s = Ok s' ∧
    same_data (rp_market s') (record_step products (rp_market s) e) ∧
    rp_count s' = incr64 (rp_count s) ∧ rp_connection s' = Some (connection_id e) ∧ pending s' = pending s.
Proof.
  intros Hok Hc. unfold replay_envelope.
  assert (∃ s1, change_connection e s = s1 ∧ same_data (rp_market s1) (rp_market s) ∧
    rp_count s1 = rp_count s ∧ rp_connection s1 = Some (connection_id e) ∧ pending s1 = pending s)
    as (s1 & -> & Hd & <- & <- & <-).
  { eexists. split; [done|]. unfold change_connection. case_bool_decide as Hcc; [done|].
    destruct Hc as [?|[Hl Ht]]; [done|]. unfold same_data. cbn -[bool_decide].
    case_bool_decide; cbn; rewrite Hl; cbn; by rewrite Ht. }
  specialize (Hok (receive_monotonic_time e) (rp_market s1)).
  pose proof (record_step_process products (receive_monotonic_time e) (rp_market s1) e) as Hr.
  destruct (record_step_same_data products _ _ e Hd) as [Hb1 Ht1].
  destruct (process products _ (rp_market s1) e) as [k [r|x]]; [|done]. subst k.
  eexists. split; [done|]. unfold add_transition, replay_book, same_data. cbn -[bool_decide].
  by case_bool_decide.
Qed.
End record_lemmas.

(** ** The replay follows the recording *)

(** The replay of a session that has observed lifecycle events. *)
Definition replay_start (lifecycle : list LifecycleEvent) : ReplayState :=
  (initial_replay lifecycle) <| rp_market ::= λ k, k <| book := mark_disconnected (new_book Coinbase BTC_USD) |> |>.

(** The replay [s] of the records so far, and [fin] after the lifecycle events
    that follow the last of them, are in step with the manager. *)
Record in_step `{JsonLib} (products : Products) `{RecordingSink E} (m : Manager E)
    (s fin : ReplayState) : Prop := {
  is_index : next_index_ (handler_ m) = Z.of_nat (length (sink_log (environment m)));
  is_next : next_record (handler_ m) = next_index_ (handler_ m);
  is_enqueued : ∀ i, last_enqueued_index (progress (handler_ m)) = Some i → i < next_index_ (handler_ m);
  is_indices : record_index <$> sink_log (environment m) = seqZ 0 (next_index_ (handler_ m));
  is_venue : Forall (λ e, venue e = Coinbase) (sink_log (environment m));
  is_valid : ∃ last, last ≤ next_index_ (handler_ m) ∧
    validate_lifecycle true (next_index_ (handler_ m)) 0 (observed_events (actions m)) = Ok last;
  is_records : replay_records products (sink_log (environment m))
                 (replay_start (observed_events (actions m))) = Ok s;
  is_count : rp_count s = next_index_ (handler_ m);
  is_pending : Forall (λ v, before_record_index v = next_index_ (handler_ m)) (pending s);
  is_final : apply_lifecycle (rp_count s) s = Ok fin;
  is_data : same_data (rp_market fin) (market (handler_ m));
  is_connection : connected_ m = true →
    rp_connection fin = Some (connection_id_ m) ∨
    (lifecycle_connected fin = true ∧ tracker (rp_market fin) = {| last_ := None |});
}.

(** The fields of the manager that [in_step] reads. *)
Definition replay_view `{RecordingSink E} (m : Manager E) :=
  (sink_log (environment m), observed_events (actions m), next_index_ (handler_ m),
   progress (handler_ m)).

Section refinement.
Context `{JsonLaws} (products : Products) `{RecordingSink E}.
Implicit Types m : Manager E.

Lemma in_step_keep m m' s fin :
  in_step products m s fin → replay_view m' = replay_view m →
  same_data (market (handler_ m')) (market (handler_ m)) →
  (connected_ m' = true → connected_ m = true ∧ connection_id_ m' = connection_id_ m) →
  in_step products m' s fin.
Proof.
  intros [I1 I2 I3 I4 IV IL I5 I6 I7 I8 I9 I10] Hv [Hb Ht] Hc. unfold replay_view in Hv. injection Hv as Hl Ha Hn Hp.
  split; unfold next_record in *; rewrite ?Hl, ?Ha, ?Hn, ?Hp; try done.
  - destruct I9. split; congruence.
  - by intros [Hk ->]%Hc; auto.
Qed.

(** A lifecycle event observed between two records. *)
Lemma in_step_observed m m' s fin state reason :
  in_step products m s fin → state ≠ Valid → reason ≠ EmptyString →
  sink_log (environment m') = sink_log (environment m) →
  observed_events (actions m') = observed_events (actions m ++ observation state reason (handler_ m)) →
  next_index_ (handler_ m') = next_index_ (handler_ m) → progress (handler_ m') = progress (handler_ m) →
  book (market (handler_ m')) = set_state state (book (market (handler_ m))) →
  tracker (market (handler_ m')) = {| last_ := None |} →
  (connected_ m' = true → state = Initializing) →
  ∃ s' fin', in_step products m' s' fin'.
Proof.
  intros [I1 I2 I3 I4 IV IL I5 I6 I7 I8 I9 I10] Hst Hre Hl Ha Hn Hp Hb Ht Hc.
  unfold observation in Ha. rewrite (proj2 (String.eqb_neq _ _) Hre), I2 in Ha.
  set (v := Build_LifecycleEvent _ _ _) in Ha.
  assert (observed_events (actions m') = observed_events (actions m) ++ [v]) as Ha'.
  { rewrite Ha. unfold observed_events. by rewrite omap_app. }
  destruct (apply_lifecycle_event_fields (rp_count s) v fin Hst)
    as (fin' & He & Hb' & Ht' & Hc' & Hk' & Hp' & Hi').
  exists (later v s), (fin' <| pending := [] |>).
  split; unfold next_record in *; rewrite ?Hl, ?Ha', ?Hn, ?Hp; try done.
  - destruct IL as (last & Hle & Hval). exists (before_record_index v). split; [done|].
    apply (validate_lifecycle_snoc true (next_index_ (handler_ m)) _ 0 _ v last); [done|done| |done]. by split.
  - change (replay_start (observed_events (actions m) ++ [v]))
      with (later v (replay_start (observed_events (actions m)))).
    rewrite replay_records_later; [by rewrite I5|].
    apply Forall_forall. intros e Hin%(list_elem_of_fmap_2 record_index).
    rewrite I4 in Hin. apply elem_of_seqZ in Hin. cbn. lia.
  - cbn. apply Forall_app. split; [done|]. by repeat constructor.
  - unfold apply_lifecycle.
    change (rp_count (later v s)) with (rp_count s).
    change ((later v s) <| lifecycle_connected := false |>)
      with (s <| lifecycle_connected := false |> <| pending := pending s ++ [v] |>).
    change (pending (later v s)) with (pending s ++ [v]).
    rewrite lifecycle_loop_pending, lifecycle_loop_now; [|by rewrite I6|by rewrite I6].
    unfold apply_lifecycle in I8. rewrite I8. monad_simpl. by rewrite He.
  - destruct I9 as [Hb0 _]. split; cbn; [|congruence]. unfold replay_book in Hb'. rewrite Hb'. cbn. congruence.
  - intros Hk. right. cbn. split; [|done]. rewrite Hi'. cbn. rewrite (Hc Hk). by destruct (lifecycle_connected fin).
Qed.

(** A recorded and processed message. *)
Lemma in_step_record m m' s fin e :
  in_step products m s fin → replayable products e → next_index_ (handler_ m) < UINT64_MAX →
  connected_ m = true → connection_id e = connection_id_ m → venue e = Coinbase → record_index e = next_index_ (handler_ m) →
  sink_log (environment m') = sink_log (environment m) ++ [e] →
  observed_events (actions m') = observed_events (actions m) →
  next_index_ (handler_ m') = incr64 (next_index_ (handler_ m)) →
  last_received_index (progress (handler_ m')) = Some (next_index_ (handler_ m)) →
  last_enqueued_index (progress (handler_ m')) = Some (next_index_ (handler_ m)) →
  same_data (market (handler_ m')) (record_step products (market (handler_ m)) e) →
  connection_id_ m' = connection_id_ m →
  ∃ s' fin', in_step products m' s' fin'.
Proof.
  intros [I1 I2 I3 I4 IV IL I5 I6 I7 I8 I9 I10] Hok Hmax Hk Hid Hven Hx Hl Ha Hn Hrec Henq Hd Hid'.
  assert (next_index_ (handler_ m') = next_index_ (handler_ m) + 1) as Hn1.
  { rewrite Hn. apply incr64_small. lia. }
  rewrite Hn in Hn1. destruct (replay_envelope_Ok products e fin Hok) as (s' & He & Hd' & Hc' & Hk' & Hp').
  { rewrite Hid. auto. }
  destruct (lifecycle_loop_fields _ _ _ _ I8) as (Hcf & _ & Hpf). rewrite I6 in Hpf. specialize (Hpf I7).
  rewrite Hpf in Hp'. cbn in Hcf. rewrite Hcf, I6, Hn1 in Hc'.
  destruct (record_step_same_data products _ _ e I9) as [Hb1 Ht1]. destruct Hd as [Hb2 Ht2], Hd' as [Hb3 Ht3].
  exists s', (s' <| lifecycle_connected := false |> <| pending := [] |>).
  split; unfold next_record; rewrite ?Hl, ?Ha, ?Hn, ?Hn1, ?Hrec, ?Henq; try done.
  - rewrite length_app, I1. cbn. lia.
  - intros i [= <-]. lia.
  - rewrite fmap_app, I4. cbn. rewrite Hx, seqZ_app by lia. done.
  - apply Forall_app. split; [done|]. by apply Forall_singleton.
  - destruct IL as (last & Hle & Hval). exists last. split; [lia|].
    eapply validate_lifecycle_more; [done|lia].
  - rewrite replay_records_app, I5. monad_simpl. cbn [replay_records]. unfold replay_record.
    rewrite Hx, <-I6, I8. monad_simpl. by rewrite He.
  - rewrite Hp'. done.
  - unfold apply_lifecycle. by rewrite Hp'.
  - split; cbn; congruence.
  - intros _. left. cbn. congruence.
Qed.

Context (publish : ProcessResult → RuntimeProgress → Market → E → E).
Context (clock : nat → ReceiveMonotonicTimestamp) (live_clock : Z → ReceiveMonotonicTimestamp).
Context (publish_log : ∀ r p k env, sink_log (publish r p k env) = sink_log env).

Lemma observed_quiet l l' : observed_events l' = [] → observed_events (l ++ l') = observed_events l.
Proof. unfold observed_events. rewrite omap_app. intros ->. apply app_nil_r. Qed.

Lemma in_step_recover m s fin reason state :
  in_step products m s fin → state ≠ Valid → reason ≠ EmptyString →
  ∃ s' fin', in_step products (recover clock reason state m) s' fin'.
Proof.
  intros Hi Hv Hre. destruct (stopping_ m) eqn:Hs; [unfold recover; rewrite Hs; eauto|].
  destruct (recovery_pending_ m) eqn:Hp; [unfold recover; rewrite Hs, Hp; eauto|].
  destruct (recover_fields clock reason state m Hs Hp Hv) as (Hc & _ & He & Ha & Hh).
  generalize dependent (recover clock reason state m). intros m' Hc He Ha Hh.
  eapply (in_step_observed m m' s fin state reason); rewrite ?He, ?Ha, ?Hh; try done.
  - by rewrite app_assoc, observed_quiet.
  - unfold set_state. by rewrite bool_decide_false.
  - unfold control in Hc. injection Hc as _ _ _ -> _ _. done.
Qed.

Lemma in_step_begin m s fin :
  in_step products m s fin → stopping_ m = false →
  ∃ s' fin', in_step products (begin_connection clock m) s' fin'.
Proof.
  intros Hi Hs. destruct (begin_connection_fields clock m Hs) as (Hc & _ & He & Ha & Hh).
  generalize dependent (begin_connection clock m). intros m' Hc He Ha Hh.
  eapply (in_step_observed m m' s fin Resyncing "resynchronization"); rewrite ?He, ?Ha, ?Hh; try done.
  - by rewrite app_assoc, observed_quiet.
  - unfold control in Hc. injection Hc as _ _ _ -> _ _. done.
Qed.

Lemma in_step_connected m s fin :
  in_step products m s fin → ∃ s' fin', in_step products (handle_connected clock m) s' fin'.
Proof.
  intros Hi. destruct (connected_ m) eqn:Hk; [unfold handle_connected; rewrite Hk; eauto|].
  destruct (handle_connected_fields clock m Hk) as (_ & _ & He & Ha & now & Hh).
  generalize dependent (handle_connected clock m). intros m' He Ha Hh.
  eapply (in_step_observed m m' s fin Initializing "new_connection"); by rewrite ?He, ?Ha, ?Hh.
Qed.

Lemma in_step_stop m s fin :
  in_step products m s fin → ∃ s' fin', in_step products (stop clock m) s' fin'.
Proof.
  intros Hi. destruct (stopping_ m) eqn:Hs; [unfold stop; rewrite Hs; eauto|].
  destruct (stop_fields clock m Hs) as (Hc & _ & He & Ha & Hh).
  generalize dependent (stop clock m). intros m' Hc He Ha Hh.
  eapply (in_step_observed m m' s fin Disconnected "requested_shutdown"); rewrite ?He, ?Ha, ?Hh; try done.
  - unfold observed_events. by rewrite !omap_app.
  - unfold control in Hc. injection Hc as _ _ _ -> _ _. done.
Qed.

Lemma in_step_check m s fin :
  in_step products m s fin → ∃ s' fin', in_step products (check_health clock m) s' fin'.
Proof.
  intros Hi. unfold check_health. destruct (stopping_ m); [eauto|].
  assert (in_step products (m <| clock_reads ::= S |>) s fin) as Hi1 by (by apply (in_step_keep m)).
  destruct (connected_ m) eqn:Hk; cbn [negb read_clock].
  - generalize dependent (m <| clock_reads ::= S |>). intros m1 Hi1. set (reason := failure _ _ _).
    destruct (String.eqb_spec reason "") as [Hr|Hr].
    + destruct (transition_fields clock (state_ (manager_book m1)) EmptyString m1) as (Hc & _ & He & Ha & Hh).
      exists s, fin. unfold control in Hc. injection Hc as _ _ _ Hk1 _ Hid.
      apply (in_step_keep m1); [done|..].
      * unfold replay_view. rewrite He, Ha, Hh. cbn. by rewrite app_nil_r.
      * rewrite Hh. split; [|done]. cbn. unfold set_state, manager_book.
        destruct (book (market (handler_ m1))) as [? ? []]; done.
      * by rewrite Hk1, Hid.
    + destruct (String.eqb _ _); [|by apply (in_step_recover m1 s fin)].
      eapply in_step_recover; [by apply (in_step_keep m1)|done..].
  - destruct (recovery_pending_ m); [eauto|]. destruct (_ >? _); [|eauto].
    by eapply in_step_recover.
Qed.

Lemma recover_environment reason state m :
  state ≠ Valid → environment (recover clock reason state m) = environment m.
Proof.
  intros Hv. destruct (stopping_ m) eqn:Hs; [unfold recover; by rewrite Hs|].
  destruct (recovery_pending_ m) eqn:Hp; [unfold recover; by rewrite Hs, Hp|].
  by destruct (recover_fields clock reason state m Hs Hp Hv) as (_ & _ & -> & _).
Qed.

(** A message, unless the recording refused it. *)
Lemma in_step_message m s fin text wall mono :
  in_step products m s fin → next_index_ (handler_ m) < UINT64_MAX →
  let m' := (handle_message products publish clock live_clock text wall mono m).1 in
  terminal_ m' = false → stopping_ m = false →
  Forall (replayable products) (sink_log (environment m')) →
  ∃ s' fin', in_step products m' s' fin'.
Proof.
  cbn zeta. intros Hi Hmax Hter Hs.
  destruct (connected_ m) eqn:Hk; [|unfold handle_message; rewrite Hk; eauto].
  destruct (handle products publish (live_clock (next_index_ (with_connection_id m)))
    (with_connection_id m) (environment m) text wall mono) as [[h env] r] eqn:Eh.
  destruct (handle_message_cases products publish clock live_clock text wall mono m h env r Hk Eh)
    as (m1 & Hc & _ & He & Ha & Hh & Hcases).
  assert (handler_inv (with_connection_id m)) as Hinv.
  { pose proof (is_index _ _ _ _ Hi). split; cbn; [lia|apply Hi]. }
  apply (handle_spec products publish publish_log _ _ _ _ _ _ _ _ _ Hinv) in Eh.
  set (e := envelope_of _ _ _ _) in Eh.
  assert (outcome r ≠ MessageOutcome.RecordingRejected →
    replayable products e → ∃ s' fin', in_step products m1 s' fin') as Hrec.
  { intros Ho Hok. destruct (handled_accepted _ _ _ _ _ _ _ Eh Ho) as (Hl & Hm & Hq & _).
    eapply (in_step_record m m1 s fin e); rewrite ?He, ?Ha, ?Hh; try done.
    - apply (handled_index _ _ _ _ _ _ _ Eh).
    - apply (handled_received _ _ _ _ _ _ _ Eh).
    - by rewrite Hm.
    - unfold control in Hc. by injection Hc. }
  assert (outcome r ≠ MessageOutcome.RecordingRejected →
    sink_log (environment m1) = sink_log (environment m) ++ [e]) as Hlog.
  { intros Ho. rewrite He. apply (handled_accepted _ _ _ _ _ _ _ Eh Ho). }
  destruct Hcases as [(_ & Hm)|[(Ho & Hne & Hm)|(Ho & _ & Hm)]]; rewrite Hm in *.
  - exfalso. unfold control in Hc. injection Hc as _ Hs1 _ _ _ _.
    destruct (terminal_failure_fields clock (pr_error r) m1) as (Hx & _); [congruence|].
    apply (f_equal (λ x, x.1.1.1)) in Hx. cbn [fst] in Hx. congruence.
  - rewrite recover_environment, Hlog by done. intros [_ Hf]%Forall_app.
    rewrite Forall_singleton in Hf. destruct (Hrec Ho Hf) as (s1 & fin1 & Hi1).
    by eapply in_step_recover.
  - destruct (message_accepted_fields clock (state_ (manager_book m)) r m1) as (Hc1 & _ & He1 & Ha1 & Hh1).
    rewrite He1, Hlog by done. intros [_ Hf]%Forall_app.
    rewrite Forall_singleton in Hf. destruct (Hrec Ho Hf) as (s1 & fin1 & Hi1).
    exists s1, fin1. unfold control in Hc1. injection Hc1 as _ _ _ Hk1 _ Hid1.
    apply (in_step_keep m1); unfold replay_view; by rewrite ?He1, ?Ha1, ?Hh1, ?Hk1, ?Hid1.
Qed.

(** ** Runs *)

Lemma step_terminal m e :
  manager_inv m → terminal_ m = true → step products publish clock live_clock m e = m ∨
    ∃ error, e = TerminalFailure error.
Proof.
  intros Hi Ht. pose proof (mi_terminal _ Hi Ht) as Hs.
  destruct e; cbn; unfold start, stop, force_disconnect_for_test, recover, stale_callback;
    rewrite ?Hs, ?Ht; cbn; eauto.
Qed.

Lemma terminal_failure_terminal error m :
  manager_inv m → terminal_ (terminal_recording_failure clock error m) = true.
Proof.
  intros Hi. destruct (terminal_failure_fields clock error m (idle_lost _ Hi)) as (Hx & _).
  by injection Hx.
Qed.

Lemma step_in_step m e s fin :
  manager_inv m → in_step products m s fin → next_index_ (handler_ m) < UINT64_MAX →
  let m' := step products publish clock live_clock m e in
  terminal_ m' = false → Forall (replayable products) (sink_log (environment m')) →
  (∀ g, e ≠ TransportError g EmptyString) →
  ∃ s' fin', in_step products m' s' fin'.
Proof.
  cbn zeta. intros Hi Hr Hmax Hter Hok Hne.
  assert (terminal_ m = false) as Ht.
  { apply not_true_is_false. intros Ht. destruct (step_terminal m e Hi Ht) as [Hx|[error ->]]; [congruence|].
    cbn [step] in Hter. by rewrite terminal_failure_terminal in Hter. }
  destruct e; cbn [step] in *.
  - unfold start in *. destruct (negb _ || _); [eauto|].
    eapply in_step_begin; [by apply (in_step_keep m)|done].
  - by eapply in_step_stop.
  - by eapply in_step_recover.
  - destruct (stopping_ m); [eauto|]. by eapply in_step_check.
  - by rewrite terminal_failure_terminal in Hter.
  - destruct (stale_callback generation m) eqn:Eg; [eauto|]. apply stale_callback_false in Eg as [Hs _].
    by eapply in_step_message.
  - destruct (stale_callback generation m); [eauto|]. eapply in_step_recover; [done..|].
    intros ->. by apply (Hne generation).
  - destruct (stale_callback generation m); [eauto|]. by eapply in_step_connected.
  - destruct (stale_callback generation m) eqn:Eg; [eauto|]. apply stale_callback_false in Eg as [Hs _].
    by eapply in_step_begin.
Qed.
Lemma new_manager_in_step c env m :
  sink_log env = [] → new_manager clock c env = Ok m →
  in_step products m (replay_start []) (replay_start []).
Proof.
  intros Hl. unfold new_manager. destruct (_ || _); [done|]. intros [= <-].
  split; cbn; rewrite ?Hl; try done. by exists 0.
Qed.

(** The log and the index never shrink, so that what holds of the whole log
    holds of the earlier ones. *)
Definition grows (m m' : Manager E) : Prop :=
  sink_log (environment m) `prefix_of` sink_log (environment m').

Lemma recover_grows reason state m : state ≠ Valid → grows m (recover clock reason state m).
Proof. intros Hv. unfold grows. by rewrite recover_environment. Qed.

Lemma sink_grows env e env' r : sink env e = (env', r) → sink_log env `prefix_of` sink_log env'.
Proof.
  intros Hs. destruct (decide (r = Ok Accepted)) as [->|Hr].
  - apply sink_accepts in Hs as ->. by apply prefix_app_r.
  - by rewrite (sink_refuses _ _ _ _ Hs Hr).
Qed.

Lemma handle_grows now h env text wall mono h' env' r :
  handle products publish now h env text wall mono = (h', env', r) →
  sink_log env `prefix_of` sink_log env'.
Proof.
  unfold handle, handle_body. set (h1 := _ <| progress ::= _ |>). clearbody h1.
  set (e := Build_RawMessage _ _ _ _ _ _).
  destruct (sink env e) as [env1 [pushed|x]] eqn:Es; apply sink_grows in Es.
  - destruct (negb _); [intros [= _ <- _]; by rewrite publish_log|].
    destruct (process _ _ _ _) as [k [r'|x]]; intros [= _ <- _]; by rewrite publish_log.
  - intros [= _ <- _]. by rewrite publish_log.
Qed.

Lemma message_grows text wall mono m :
  manager_inv m → grows m (handle_message products publish clock live_clock text wall mono m).1.
Proof.
  intros Hi. unfold grows. destruct (connected_ m) eqn:Hk; [|unfold handle_message; by rewrite Hk].
  destruct (handle products publish (live_clock (next_index_ (with_connection_id m)))
    (with_connection_id m) (environment m) text wall mono) as [[h env] r] eqn:Eh.
  destruct (handle_message_cases products publish clock live_clock text wall mono m h env r Hk Eh)
    as (m1 & Hc & _ & He & _ & _ & Hcases).
  apply handle_grows in Eh. rewrite <-He in Eh. unfold control in Hc. injection Hc as _ Hs1 Hp1 Hk1 _ _.
  destruct Hcases as [(_ & ->)|[(_ & _ & ->)|(_ & _ & ->)]].
  - destruct (mi_connected _ Hi Hk) as [Hs _].
    by destruct (terminal_failure_fields clock (pr_error r) m1 ltac:(congruence)) as (_ & _ & -> & _).
  - by rewrite recover_environment.
  - by destruct (message_accepted_fields clock (state_ (manager_book m)) r m1) as (_ & _ & -> & _).
Qed.

Lemma check_health_environment m : environment (check_health clock m) = environment m.
Proof.
  unfold check_health. destruct (stopping_ m); [done|]. destruct (connected_ m); cbn [negb read_clock].
  - set (m1 := m <| clock_reads ::= S |>). destruct (String.eqb _ _).
    + by destruct (transition_fields clock (state_ (manager_book m1)) EmptyString m1) as (_ & _ & -> & _).
    + rewrite recover_environment by done. by destruct (String.eqb _ _).
  - destruct (recovery_pending_ m); [done|]. destruct (_ >? _); [|done]. by rewrite recover_environment.
Qed.

Lemma begin_environment m : stopping_ m = false → environment (begin_connection clock m) = environment m.
Proof. intros Hs. by destruct (begin_connection_fields clock m Hs) as (_ & _ & -> & _). Qed.

Lemma step_grows m e :
  manager_inv m → grows m (step products publish clock live_clock m e).
Proof.
  intros Hi. unfold grows.
  destruct e; cbn [step]; try (destruct (stale_callback generation m) eqn:Eg; [done|];
    apply stale_callback_false in Eg as [Hs _]).
  - unfold start. destruct (negb _ || _); [done|]. by rewrite begin_environment.
  - destruct (stopping_ m) eqn:Hs; [by unfold stop; rewrite Hs|].
    by destruct (stop_fields clock m Hs) as (_ & _ & -> & _).
  - by apply recover_grows.
  - destruct (stopping_ m); [done|]. by rewrite check_health_environment.
  - by destruct (terminal_failure_fields clock error m (idle_lost _ Hi)) as (_ & _ & -> & _).
  - by apply message_grows.
  - by apply recover_grows.
  - destruct (connected_ m) eqn:Hk; [by unfold handle_connected; rewrite Hk|].
    by destruct (handle_connected_fields clock m Hk) as (_ & _ & -> & _).
  - by rewrite begin_environment.
Qed.

(** The log is all that matters of the environment. *)
Lemma in_step_environment env m s fin :
  sink_log env = sink_log (environment m) → in_step products m s fin →
  in_step products (with_environment env m) s fin.
Proof. intros He []. split; cbn; rewrite ?He; done. Qed.

Lemma run_in_step c env m0 es m :
  sink_log env = [] → new_manager clock c env = Ok m0 →
  manager_run products publish clock live_clock m0 es m →
  terminal_ m = false → Z.of_nat (length (sink_log (environment m))) < UINT64_MAX →
  Forall (replayable products) (sink_log (environment m)) →
  (∀ g, TransportError g EmptyString ∉ es) →
  ∃ s fin, in_step products m s fin.
Proof.
  intros Hl Hn Hr. pose proof (new_manager_inv clock c env m0 Hn) as Hi0.
  induction Hr as [|es m1 e Hr IH He Hmax|es m1 env1 Hr IH Henv]; [eauto using new_manager_in_step| |].
  2: { unfold with_environment. cbn. rewrite Henv. intros ????. destruct IH as (s & fin & Hs); [done..|].
       exists s, fin. by apply in_step_environment. }
  intros Hter Hlen Hok Hne.
  pose proof (manager_run_inv products publish clock live_clock _ _ _ Hi0 Hr) as Hi1.
  destruct (decide (terminal_ m1 = true)) as [Ht|Ht%not_true_is_false].
  { destruct (step_terminal m1 e Hi1 Ht) as [Hx|[error ->]]; [congruence|].
    cbn [step] in Hter. by rewrite terminal_failure_terminal in Hter. }
  pose proof (step_grows m1 e Hi1) as Hg. pose proof (prefix_length _ _ Hg) as Hgl.
  destruct Hg as [tail Hg]. destruct IH as (s & fin & Hs); [done|lia| | |].
  - rewrite Hg in Hok. by apply Forall_app in Hok as [? _].
  - intros g Hin. apply (Hne g), elem_of_app. by left.
  - eapply step_in_step; [done..| |done|done|].
    + rewrite (is_index _ _ _ _ Hs). lia.
    + intros g ->. apply (Hne g), elem_of_app. right. by apply list_elem_of_singleton.
Qed.
(** The replay of a complete session in step with a manager. *)
Lemma in_step_replays m s fin in_progress :
  in_step products m s fin → Z.of_nat (length (sink_log (environment m))) < UINT64_MAX →
  observed_events (actions m) ≠ [] →
  ∃ st, coinbase_replay products true in_progress (observed_events (actions m))
          (sink_log (environment m)) = Ok st ∧
    replay_book st = manager_book m ∧ last_ (tracker (rp_market st)) = manager_sequence m ∧
    rp_count st = Z.of_nat (length (sink_log (environment m))) ∧ pending st = [].
Proof.
  intros Hs Hlen Hev.
  destruct Hs as [I1 _ _ _ IV (last & _ & IL) I5 I6 I7 I8 [Hb Ht] _].
  destruct (lifecycle_loop_fields _ _ _ _ I8) as (Hc & _ & Hp). rewrite I6 in Hp. specialize (Hp I7).
  exists fin. unfold coinbase_replay, replay_book, manager_book, manager_sequence.
  assert (initial_replay (observed_events (actions m)) = replay_start (observed_events (actions m))) as ->
    by (by destruct (observed_events (actions m))).
  destruct (scan_loop_Ok Coinbase (sink_log (environment m)) {| scan_records := 0; scan_connections := ∅ |})
    as (scanned & Hsc & Hrec); [done|done|cbn [scan_records]|cbn [scan_records] in Hrec; cbn in Hc].
  { rewrite Z.add_0_l. by apply Z.lt_le_incl. }
  unfold scan. rewrite Hsc. monad_simpl.
  rewrite Z.add_0_l in Hrec. rewrite (eq_trans Hrec (eq_sym I1)), IL. monad_simpl.
  rewrite I5. monad_simpl. rewrite I8. monad_simpl. rewrite Hp, bool_decide_true by done.
  cbn [andb negb throw_if]. rewrite Hc, I6, Z.eqb_refl. cbn [negb throw_if].
  split_and!; [done|done|congruence|done|done].
Qed.
End refinement.

(** ** Theorems *)


(** ** A concrete session *)

Definition ex_heartbeat : event := Message 1 "heartbeat" {| wall_ns := 10 |} {| mono_ns := 20 |}.
Definition ex_heartbeat_events : list event := (([] ++ [Start]) ++ [TransportConnected 1]) ++ [ex_heartbeat].
Definition ex_m5 : Manager QueueLog := ex_manager_step ex_m2 ex_heartbeat.

Definition ex_replay (m : Manager QueueLog) : result ReplayState :=
  @coinbase_replay ex_lib default_products true false (observed_events (actions m)) (sink_log (environment m)).

(** The session of [ex_m4]: a snapshot, then a lost connection. *)
Example ex_replay_m4 :
  (λ s, (state_ (replay_book s), length (bids_ (replay_book s)), rp_count s,
         (λ t, (tr_index t, tr_to t, tr_reason t)) <$> transitions s)) <$> ex_replay ex_m4 =
  Ok (Disconnected, 1%nat, 1,
      [(0, Resyncing, "resynchronization"); (0, Initializing, "new_connection");
       (0, Valid, "initial_snapshot"); (1, Disconnected, "read failed")]).
Proof. by vm_compute. Qed.

Lemma ex_run5 : ex_manager_run ex_m0 ex_heartbeat_events ex_m5.
Proof.
  assert (ex_manager_run ex_m0 ([] ++ [Start]) ex_m1) as H1
    by (apply ex_run_next; [constructor|done|vm_compute; reflexivity]).
  assert (ex_manager_run ex_m0 (([] ++ [Start]) ++ [TransportConnected 1]) ex_m2) as H2.
  { apply ex_run_next; [exact H1| |vm_compute; reflexivity]. apply list_elem_of_In. vm_compute. auto. }
  apply ex_run_next; [exact H2| |vm_compute; reflexivity]. apply list_elem_of_In. vm_compute. auto.
Qed.


Lemma ex_snapshot_replayable : Forall (@replayable ex_lib default_products) (sink_log (environment ex_m4)).
Proof.
  assert (sink_log (environment ex_m4) =
    [{| record_index := 0; venue := Coinbase; connection_id := 1; receive_wall_time := {| wall_ns := 10 |};
        receive_monotonic_time := {| mono_ns := 20 |}; payload := "snapshot" |}]) as -> by by vm_compute.
  apply Forall_singleton. intros now k. unfold process. cbn [payload].
  replace (@parse ex_lib _ _ _ _ _) with
    (@parse ex_lib default_products "snapshot" {| wall_ns := 10 |} {| mono_ns := 20 |} false) by done.
  remember (@parse ex_lib default_products "snapshot" _ _ _) as p eqn:Ep. vm_compute in Ep. subst p.
  cbn [status error sequence]. rewrite bool_decide_false by done.
  destruct (observe (tracker _) 7) as [t []]; try done; unfold process_accepted; cbn [heartbeat_channel status];
    by edestruct process_l2_total as (? & ? & ->).
Qed.

