(* ===== verification/MessagePipeline.v ===== *)
(** * The legacy Coinbase message pipeline

    [CoinbaseMessagePipeline], which the [--replay] mode of the program uses:
    it records, parses, sequences and applies one message at a time and stops
    at the first failure; and the loop that replays a recording through it. *)

From S2P Require Import Prelude.
From S2P Require Import Text.
From S2P Require Import CoreTypes.
From S2P Require Import FixedPoint.
From S2P Require Import SequenceTracker.
From S2P Require Import OrderBook.
From S2P Require Import Json.
From S2P Require Import Timestamps.
From S2P Require Import CoinbaseParser.
From S2P Require Import FeedHealth.
From S2P Require Import RecordingQueue.
From S2P Require Import CoinbaseHandler.
From S2P Require Import ConnectionManager.
From S2P Require Import ManagerSteps.
From S2P Require Import Recording.
From S2P Require Import Session.
From S2P Require Import CoinbaseReplay.

Open Scope Z_scope.

(** ** State *)

Record MessagePipeline := {
  pl_book : OrderBook;
  raw_messages : Z;
  parse_errors : Z;
  pl_error : string;
  pl_sequence : SequenceTracker;
  pl_stopped : bool;
}.

#[export] Instance MessagePipeline_eta : EtaRecord MessagePipeline := λ p,
  {| pl_book := pl_book p; raw_messages := raw_messages p; parse_errors := parse_errors p;
     pl_error := pl_error p; pl_sequence := pl_sequence p; pl_stopped := pl_stopped p |}.

Definition new_pipeline : MessagePipeline :=
  {| pl_book := new_book Coinbase BTC_USD; raw_messages := 0; parse_errors := 0; pl_error := EmptyString;
     pl_sequence := {| last_ := None |}; pl_stopped := false |}.

(** ** Operations *)

Definition pipeline_reset_connection (p : MessagePipeline) : MessagePipeline :=
  p <| pl_stopped := false |> <| pl_error := EmptyString |> <| pl_sequence ::= tracker_reset |>
    <| pl_book ::= mark_initializing |>.

Definition pipeline_fail (reason : string) (p : MessagePipeline) : MessagePipeline * bool :=
  (p <| pl_book ::= invalidate |> <| pl_stopped := true |> <| pl_error := reason |>, false).

Section pipeline.
Context `{JsonLib} (products : Products).
(** The sink with its state. *)
Context {E : Type} (sink : E → string → ReceiveWallTimestamp → ReceiveMonotonicTimestamp → E * bool).
Implicit Types p : MessagePipeline.

(** From the check of the snapshot on. *)
Definition pipeline_apply (result : CoinbaseParseResult) p : MessagePipeline * bool :=
  if bool_decide (status result = Parsed) && negb (bool_decide (state_ (pl_book p) = Valid)) &&
     no_leading_snapshot (events result)
  then pipeline_fail "L2 update before snapshot" p
  else match apply_events (pl_book p) (events result) with
       | (b, false) => pipeline_fail "book rejected event" (p <| pl_book := b |>)
       | (b, true) => (p <| pl_book := b |>, true)
       end.

(** What follows the parser. *)
Definition pipeline_parsed (result : CoinbaseParseResult) p : MessagePipeline * bool :=
  if bool_decide (status result = Error)
  then pipeline_fail (error result) (p <| parse_errors ::= incr64 |>)
  else
    match sequence result with
    | None => pipeline_apply result p
    | Some n =>
        let '(t, observed) := observe (pl_sequence p) n in
        let p := p <| pl_sequence := t |> in
        match observed with
        | Duplicate | OutOfOrder => (p, true)
        | Gap => pipeline_fail "Coinbase envelope sequence gap" p
        | First | Expected => pipeline_apply result p
        end
    end.

Definition pipeline_process (raw : string) (wall : ReceiveWallTimestamp) (monotonic : ReceiveMonotonicTimestamp)
    p (env : E) : MessagePipeline * E * result bool :=
  if pl_stopped p then (p, env, Ok false)
  else
    match sink env raw wall monotonic with
    | (env, false) => let '(p, ok) := pipeline_fail "recording failed" p in (p, env, Ok ok)
    | (env, true) =>
        let p := p <| raw_messages ::= incr64 |> in
        match parse products raw wall monotonic false with
        | Throw e => (p, env, Throw e)
        | Ok result => let '(p, ok) := pipeline_parsed result p in (p, env, Ok ok)
        end
    end.
End pipeline.

(** The accepting sink of the replay. *)
Definition accepting_sink (env : unit) (raw : string) (wall : ReceiveWallTimestamp) (mono : ReceiveMonotonicTimestamp)
    : unit * bool := (env, true).

Section replay.
Context `{JsonLib} (products : Products).

(** One record of the loop: [None] when the loop is left; an exception of the
    parser ends the program. *)
Definition pipeline_record (record : RawMessage) (connection : Z) (p : MessagePipeline)
    : result (MessagePipeline * option Z) :=
  if negb (bool_decide (venue record = Coinbase)) || (connection_id record <? connection)
  then Ok ((pipeline_fail "expected ordered Coinbase connection IDs" p).1, None)
  else
    let p := if connection_id record =? connection then p else pipeline_reset_connection p in
    match pipeline_process products accepting_sink (payload record) (receive_wall_time record)
            (receive_monotonic_time record) p tt with
    | (_, _, Throw e) => Throw e
    | (p, _, Ok _) => Ok (p, Some (connection_id record))
    end.

(** The loop of the [--replay] mode; every record takes at least one character
    of the file. *)
Fixpoint pipeline_loop (fuel : nat) (reader : RawEventReader) (connection : Z) (p : MessagePipeline)
    : result (RawEventReader * MessagePipeline) :=
  match fuel with
  | O => Ok (reader, p)
  | S fuel' =>
      match next reader with
      | (reader, None) => Ok (reader, p)
      | (reader, Some record) =>
          match pipeline_record record connection p with
          | Throw e => Throw e
          | Ok (p, None) => Ok (reader, p)
          | Ok (p, Some connection) => pipeline_loop fuel' reader connection p
          end
      end
  end.

Definition replay_recording (file : option (string * bool)) : result MessagePipeline :=
  let reader := open_reader file in
  '(reader, p) ← pipeline_loop (S (String.length (in_rest reader))) reader 0 new_pipeline;
  Ok (if has_error reader then (pipeline_fail (last_error_ reader) p).1 else p).
End replay.

(** ** The summary line *)

Definition signed_text (n : Z) : string := if n <? 0 then "-" +:+ to_string (- n) else to_string n.

(** [setw(2)] with [setfill('0')] *)
Definition two_wide (s : string) : string := if (String.length s <? 2)%nat then "0" +:+ s else s.

(** The [price] lambda. *)
Definition dollars (level : option BookLevel) : string :=
  match level with
  | None => "NA"
  | Some l => signed_text (Z.quot (raw (price l)) 100) +:+ "." +:+ two_wide (signed_text (Z.rem (raw (price l)) 100))
  end.

Definition pipeline_summary (p : MessagePipeline) : string :=
  let b := pl_book p in
  let state := match state_ b with Valid => "VALID" | Invalid => "INVALID" | _ => "INITIALIZING" end in
  "venue=coinbase instrument=BTC_USD state=" +:+ state +:+ " sequence=" +:+
  match last_sequence_ b with Some n => to_string n | None => "NA" end +:+
  " best_bid=" +:+ dollars (best_bid b) +:+ " best_ask=" +:+ dollars (best_ask b) +:+
  " bid_levels=" +:+ to_string (Z.of_nat (length (bids_ b))) +:+
  " ask_levels=" +:+ to_string (Z.of_nat (length (asks_ b))) +:+
  " raw_messages=" +:+ to_string (raw_messages p) +:+ " parse_errors=" +:+ to_string (parse_errors p).

(** ** Lemmas: the pipeline and the processor *)

(** The pipeline has the data of the market and has not failed. *)
Definition agrees (p : MessagePipeline) (m : Market) : Prop :=
  pl_book p = book m ∧ pl_sequence p = tracker m ∧ pl_stopped p = false ∧ pl_error p = EmptyString.

(** After a message on which the processor reported [r]. *)
Definition agrees_after (p : MessagePipeline) (ok : bool) (m : Market) (r : ProcessResult) : Prop :=
  pl_book p = book m ∧ pl_sequence p = tracker m ∧ ok = String.eqb (pr_error r) EmptyString ∧
  pl_stopped p = negb ok ∧ pl_error p = pr_error r.

Section agreement.
Context `{JsonLaws} (products : Products).
Implicit Types (m : Market) (p : MessagePipeline).

Lemma apply_agrees now p m r es mono m' r' result p' ok :
  agrees p m → fresh_result r → status result = Parsed → events result = es →
  process_l2 now m r es mono = (m', Ok r') → pipeline_apply result p = (p', ok) → agrees_after p' ok m' r'.
Proof.
  intros (Hb & Ht & Hs & He) [_ Hr] Hst <-. unfold process_l2, pipeline_apply, process_fail, pipeline_fail.
  rewrite Hb, Hst, (bool_decide_true (Parsed = Parsed)) by done. cbn [andb book field_update].
  destruct (negb _ && _); [intros [= <- <-] [= <- <-]; unfold agrees_after; cbn; by rewrite Hb, Ht|].
  destruct (events result) as [|ev es].
  { intros [= <- <-] [= <- <-]. unfold agrees_after. cbn. by rewrite Ht, Hr. }
  destruct (apply_events (book m) (ev :: es)) as [b []]; intros [= <- <-] [= <- <-]; unfold agrees_after; cbn.
  - pose proof (count_applied_keeps (ev :: es) r) as Hk. cbn in Hk. by rewrite Hk, Hr, Ht.
  - by rewrite Ht.
Qed.

Lemma ignored_agrees p m result :
  agrees p m → status result = Ignored → events result = [] → pipeline_apply result p = (p, true).
Proof.
  intros (Hb & Ht & Hs & He) Hst Hes. unfold pipeline_apply. rewrite Hst, Hes, (bool_decide_false (Ignored = Parsed)) by done.
  cbn. by destruct p.
Qed.

(** The processor's part after the sequence. *)
Lemma accepted_agrees now p m r parsed e m' r' p' ok :
  agrees p m → fresh_result r → parse_result_ok (receive_wall_time e) (receive_monotonic_time e) parsed →
  status parsed ≠ Error → (heartbeat_channel parsed = true → status parsed = Ignored) →
  process_accepted now m r parsed e = (m', Ok r') → pipeline_apply parsed p = (p', ok) → agrees_after p' ok m' r'.
Proof.
  intros Ha Hr Hok Hne Hhb. unfold parse_result_ok in Hok.
  assert (status parsed = Ignored → ∀ m1, book m1 = book m → tracker m1 = tracker m →
    pipeline_apply parsed p = (p', ok) → agrees_after p' ok m1 r) as Hign.
  { intros Hst m1 Hm1 Ht1. rewrite Hst in Hok. rewrite (ignored_agrees p m parsed) by tauto.
    intros [= <- <-]. destruct Ha as (Hb & Ht & Hs & He), Hr as [_ Hr].
    unfold agrees_after. by rewrite Hr, Hm1, Ht1. }
  unfold process_accepted. destruct (heartbeat_channel parsed).
  - destruct (parse_heartbeat _ _ _) as [[hb|]|]; [..|done]; intros [= <- <-]; apply Hign; auto.
  - case_bool_decide as Hst; [intros [= <- <-]; by apply Hign|].
    apply apply_agrees; try done. by destruct (status parsed).
Qed.

(** A heartbeat message is never parsed as level 2 data. *)
Lemma parse_heartbeat_ignored raw wall mono b parsed :
  parse products raw wall mono b = Ok parsed → heartbeat_channel parsed = true → status parsed ≠ Error →
  status parsed = Ignored.
Proof.
  unfold parse. set (initial := Build_CoinbaseParseResult _ _ _ _ _ _).
  assert (∀ r e, status r = Error → (if caught e then Ok (r <| error := what e |>) else Throw e) = Ok parsed →
    status parsed = Error) as Hcaught by (intros r e Hr; destruct (caught e); [by intros [= <-]|done]).
  unfold parse_body. destruct (json_parse raw ≫= _) as [[message channel]|e]; [|by intros Hx%Hcaught].
  destruct (parse_sequence _ _) as [seq|e]; [|by intros Hx%Hcaught].
  destruct (String.eqb_spec channel "l2_data") as [->|]; cbn [negb]; [|by intros [= <-]].
  destruct (string_field message "timestamp" ≫= _) as [evs|e]; [|by intros Hx%Hcaught].
  by intros [= <-].
Qed.

(** The processor and the pipeline agree on a message the processor does not
    throw on. *)
Lemma parsed_agrees now p m e m' r parsed p' ok :
  agrees p m → process products now m e = (m', Ok r) →
  parse products (payload e) (receive_wall_time e) (receive_monotonic_time e) false = Ok parsed →
  pipeline_parsed parsed p = (p', ok) → agrees_after p' ok m' r.
Proof.
  intros Ha Hp Hparse. unfold process in Hp. rewrite Hparse in Hp.
  destruct (parse_Ok products (payload e) (receive_wall_time e) (receive_monotonic_time e) false) as (q & Hq & Hok).
  rewrite Hparse in Hq. injection Hq as <-. unfold pipeline_parsed, pipeline_fail.
  pose proof Ha as (Hb & Ht & Hs & He).
  case_bool_decide as Hst.
  { injection Hp as <- <-. intros [= <- <-]. unfold agrees_after. cbn. rewrite Hb, Ht.
    unfold parse_result_ok in Hok. rewrite Hst in Hok. destruct Hok as [_ Hne]. split_and!; try done.
    symmetry. by apply String.eqb_neq. }
  pose proof (parse_heartbeat_ignored _ _ _ _ _ Hparse) as Hhb.
  pose proof (count_changes_fresh (events parsed) (length (events parsed))) as Hr.
  set (r0 := count_changes _ _) in *. clearbody r0. cbn [tracker field_update book] in Hp.
  destruct (sequence parsed) as [n|].
  - rewrite Ht. destruct (observe (tracker m) n) as [t o].
    destruct o; try (intros Happ; eapply (accepted_agrees now (p <| pl_sequence := t |>)); [|done|done|done|auto|exact Hp|exact Happ];
      by split_and!).
    + injection Hp as <- <-. intros [= <- <-]. unfold agrees_after. cbn. destruct Hr as [_ ->]. by rewrite Hb, Hs, He.
    + injection Hp as <- <-. intros [= <- <-]. unfold agrees_after. cbn. destruct Hr as [_ ->]. by rewrite Hb, Hs, He.
    + injection Hp as <- <-. intros [= <- <-]. unfold agrees_after. cbn. by rewrite Hb.
  - intros Happ. eapply (accepted_agrees now p); [|done|done|done|auto|exact Hp|exact Happ]. by split_and!.
Qed.
End agreement.

(** ** Lemmas: the loop *)

Section loop.
Context `{JsonLib} (products : Products).

(** The loop on a list of records that it reads to the end. *)
Fixpoint pipeline_fold (records : list RawMessage) (connection : Z) (p : MessagePipeline)
    : option (Z * MessagePipeline) :=
  match records with
  | [] => Some (connection, p)
  | record :: rest =>
      match pipeline_record products record connection p with
      | Ok (p, Some connection) => pipeline_fold rest connection p
      | _ => None
      end
  end.

Lemma pipeline_fold_snoc ms e c p c' p' :
  pipeline_fold ms c p = Some (c', p') →
  pipeline_fold (ms ++ [e]) c p =
    match pipeline_record products e c' p' with Ok (p, Some c) => Some (c, p) | _ => None end.
Proof.
  revert c p. induction ms as [|x ms IH]; intros c p; cbn [app pipeline_fold].
  - intros [= -> ->]. done.
  - destruct (pipeline_record products x c p) as [[q [d|]]|]; [|done..]. apply IH.
Qed.

Lemma pipeline_loop_fold fuel reader reader' ms c p c' p' :
  read_loop fuel reader = (reader', ms) → pipeline_fold ms c p = Some (c', p') →
  pipeline_loop products fuel reader c p = Ok (reader', p').
Proof.
  revert reader ms c p. induction fuel as [|fuel IH]; intros reader ms c p; cbn [read_loop pipeline_loop].
  - intros [= <- <-] [= -> ->]. done.
  - destruct (next reader) as [r [record|]]; [|intros [= <- <-] [= -> ->]; done].
    destruct (read_loop fuel r) as [r' ms'] eqn:Hr. intros [= <- <-]. cbn [pipeline_fold].
    destruct (pipeline_record products record c p) as [[q [d|]]|]; [|done..]. by apply IH.
Qed.
End loop.

(** ** Lemmas: the pipeline and the connection manager *)

Lemma pipeline_parsed_count result p : raw_messages (pipeline_parsed result p).1 = raw_messages p.
Proof.
  assert (∀ q, raw_messages (pipeline_apply result q).1 = raw_messages q) as Happ.
  { intros q. unfold pipeline_apply. destruct (_ && _ && _); [done|]. by destruct (apply_events _ _) as [b []]. }
  unfold pipeline_parsed. case_bool_decide; [done|]. destruct (sequence result) as [n|]; [|apply Happ].
  destruct (observe _ n) as [t []]; try done; by rewrite Happ.
Qed.

Section follows.
Context `{JsonLaws} (products : Products) `{RecordingSink E}.
Implicit Types (m : Manager E) (p : MessagePipeline).

(** The pipeline before a record of connection [id]: on that connection, or
    before its first record. *)
Definition ready_for (id c : Z) p (k : Market) : Prop :=
  (c = id ∧ agrees p k) ∨
  (c < id ∧ unmarked (pl_book p) = unmarked (book k) ∧ state_ (book k) = Initializing ∧ tracker k = {| last_ := None |}).

Lemma record_agrees now e c p k k' r :
  venue e = Coinbase → ready_for (connection_id e) c p k → process products now k e = (k', Ok r) →
  0 ≤ raw_messages p < UINT64_MAX →
  ∃ p' ok, pipeline_record products e c p = Ok (p', Some (connection_id e)) ∧ agrees_after p' ok k' r ∧
    raw_messages p' = raw_messages p + 1.
Proof.
  intros Hv Hready Hp Hb. unfold pipeline_record. rewrite Hv, bool_decide_true by done. cbn [negb orb].
  rewrite (proj2 (Z.ltb_ge _ _)) by (destruct Hready as [[-> _]|[? _]]; lia).
  set (p1 := if _ =? c then p else _).
  assert (agrees p1 k ∧ raw_messages p1 = raw_messages p) as [Ha Hc].
  { subst p1. destruct Hready as [[-> Ha]|(Hlt & Hu & Hs & Ht)]; [by rewrite Z.eqb_refl|].
    rewrite (proj2 (Z.eqb_neq _ _)) by lia. split; [|done]. split_and!; [|by rewrite Ht|done..].
    apply unmarked_equal; [exact Hu|]. by rewrite Hs. }
  clearbody p1. unfold pipeline_process. pose proof Ha as (Hab & Hat & Hs & He). rewrite Hs. cbn [accepting_sink].
  destruct (parse_Ok products (payload e) (receive_wall_time e) (receive_monotonic_time e) false) as (parsed & Hparse & _).
  rewrite Hparse. set (p2 := p1 <| raw_messages ::= incr64 |>).
  destruct (pipeline_parsed parsed p2) as [p' ok] eqn:Hpp. exists p', ok. split; [done|]. split.
  - eapply (parsed_agrees products now p2 k e); [by split_and!|done..].
  - pose proof (pipeline_parsed_count parsed p2) as Hcount. rewrite Hpp in Hcount. cbn [fst] in Hcount.
    rewrite Hcount. subst p2. cbn. rewrite Hc. apply incr64_small. lia.
Qed.

(** The pipeline that has read the log follows the manager. *)
Record follows m (c : Z) p : Prop := {
  fo_handler : terminal_ m = false →
    handler_inv (handler_ m) ∧ next_index_ (handler_ m) = Z.of_nat (length (sink_log (environment m)));
  fo_fold : pipeline_fold products (sink_log (environment m)) 0 new_pipeline = Some (c, p);
  fo_count : raw_messages p = Z.of_nat (length (sink_log (environment m)));
  fo_levels : unmarked (pl_book p) = unmarked (manager_book m);
  fo_connection : c ≤ connection_id_ m;
  fo_connected : connected_ m = true → ready_for (connection_id_ m) c p (market (handler_ m));
  fo_last : ∀ e, last (sink_log (environment m)) = Some e → connection_id e = c;
}.

Lemma ready_for_same id c p k k' : book k' = book k → tracker k' = tracker k → ready_for id c p k → ready_for id c p k'.
Proof. unfold ready_for, agrees. by intros -> ->. Qed.

Lemma quiet_follows m m' c p :
  0 ≤ connection_id_ m < UINT64_MAX → follows m c p → quiet_step m m' → follows m' c p.
Proof.
  intros Hb [F1 F2 F3 F4 F5 F6 F7] [_ He Hp Hn Ht Hl Hk Hlost].
  assert (connection_id_ m ≤ connection_id_ m') as Hid.
  { destruct (connected_ m') eqn:Hc; [|rewrite Hlost by done; lia].
    destruct (Hk eq_refl) as [(_ & -> & _)|(_ & -> & _)]; [lia|]. rewrite incr64_small by lia. lia. }
  split; rewrite ?He, ?Ht; auto; [|congruence|lia|].
  - intros Hx. unfold handler_inv. rewrite Hp, Hn. by apply F1.
  - intros Hc. destruct (Hk Hc) as [(Hcm & -> & Hbk & Htk)|(Hcm & -> & Hbk & Htk)].
    + apply (ready_for_same _ _ _ (market (handler_ m))); [done|done|auto].
    + right. rewrite incr64_small by lia. split_and!; [lia|unfold manager_book in *; congruence|done..].
Qed.

Lemma terminates_follows e m m' c p : follows m c p → terminates e m m' → follows m' c p.
Proof.
  intros [F1 F2 F3 F4 F5 F6 F7] [_ He Ht Hl Hk Hid _]. split; rewrite ?He, ?Hid; try done; congruence.
Qed.

Context (publish : ProcessResult → RuntimeProgress → Market → E → E).
Context (publish_log : ∀ r (q : RuntimeProgress) k env, sink_log (publish r q k env) = sink_log env).

Lemma handles_follows e m m' c p :
  manager_inv m → follows m c p → Z.of_nat (length (sink_log (environment m))) < UINT64_MAX →
  Forall (replayable products) (sink_log (environment m')) → handles products publish e m m' →
  ∃ c' p', follows m' c' p'.
Proof.
  intros Hmi Hf Hlen Hok (_ & g & text & wall & mono & now & h & r & _ & [Hs Hk Hh Hp Hn Ht Hid Hl Hkept]).
  assert (terminal_ m = false) as Hter.
  { apply not_true_is_false. intros Hx%(mi_terminal _ Hmi). congruence. }
  pose proof Hf as [F1 F2 F3 F4 F5 F6 F7]. destruct (F1 Hter) as [Hinv Hix]. specialize (F6 Hk).
  pose proof (handle_spec products publish publish_log _ _ _ _ _ _ _ _ _ (Hinv : handler_inv (with_connection_id m)) Hh) as Hd.
  set (ev := envelope_of (with_connection_id m) text wall mono) in *.
  destruct (decide (outcome r = MessageOutcome.RecordingRejected)) as [Ho|Ho].
  - destruct (handled_rejected _ _ _ _ _ _ _ Hd Ho) as (Hlog & Hm & _).
    exists c, p. split; rewrite ?Hlog, ?Hid; try done.
    + by rewrite Ht, bool_decide_true.
    + by rewrite Hl, Hm, F4.
    + by intros [Hx _]%Hkept.
  - destruct (handled_accepted _ _ _ _ _ _ _ Hd Ho) as (Hlog & _ & _ & _).
    rewrite Hlog in Hok. apply Forall_app in Hok as [_ Hev]. rewrite Forall_singleton in Hev.
    pose proof (handle_processes products publish _ _ _ _ _ _ _ _ _ (Hinv : handler_inv (with_connection_id m)) Hh Ho (Hev now _))
      as Hproc. fold ev in Hproc. change (market (with_connection_id m)) with (market (handler_ m)) in Hproc.
    destruct (record_agrees now ev c p _ _ _ eq_refl F6 Hproc ltac:(rewrite F3; lia)) as (p' & ok & Hrec & Ha & Hcount).
    exists (connection_id_ m), p'. destruct Ha as (A1 & A2 & A3 & A4 & A5).
    split; rewrite ?Hlog, ?Hid; try done.
    + intros _. destruct (handled_inv products _ _ _ _ _ _ (Hinv : handler_inv (with_connection_id m)) ltac:(cbn; lia) Hd)
        as [Hi1 Hi2]. unfold handler_inv. rewrite Hn, Hp, length_app, Nat2Z.inj_add. split; [done|].
      rewrite (handled_index _ _ _ _ _ _ _ Hd). change (next_index_ (with_connection_id m)) with (next_index_ (handler_ m)).
      by rewrite Hix, incr64_small by lia.
    + rewrite (pipeline_fold_snoc products _ _ _ _ _ _ F2), Hrec. done.
    + rewrite Hcount, F3, length_app, Nat2Z.inj_add. done.
    + by rewrite Hl, A1.
    + intros Hc. destruct (Hkept Hc) as (_ & Hr & Hb & Htr). left. split; [done|].
      unfold agrees. change (book (market (handler_ m'))) with (manager_book m').
      change (tracker (market (handler_ m'))) with (manager_tracker m'). rewrite Hb, Htr, A1, A2, A4, A5, A3, Hr.
      by split_and!.
    + intros x. rewrite last_snoc. by intros [= <-].
Qed.

Context (clock : nat → ReceiveMonotonicTimestamp) (live_clock : Z → ReceiveMonotonicTimestamp).

Lemma new_manager_follows config env m :
  sink_log env = [] → new_manager clock config env = Ok m → follows m 0 new_pipeline ∧ connection_id_ m = 0.
Proof.
  intros Hl. unfold new_manager. destruct (_ || _); [done|]. intros [= <-]. split; [|done].
  split; cbn; rewrite ?Hl; try done.
Qed.

Lemma run_follows config env m0 es m :
  sink_log env = [] → new_manager clock config env = Ok m0 →
  manager_run products publish clock live_clock m0 es m →
  Z.of_nat (length es) < UINT64_MAX → Z.of_nat (length (sink_log (environment m))) < UINT64_MAX →
  Forall (replayable products) (sink_log (environment m)) →
  ∃ c p, follows m c p.
Proof.
  intros Hl Hn Hr. pose proof (new_manager_inv clock config env m0 Hn) as Hi0.
  destruct (new_manager_follows config env m0 Hl Hn) as [Hf0 Hid0].
  induction Hr as [|es m1 e Hr IH He Hg|es m1 env1 Hr IH Henv]; [eauto| |].
  - intros Hes Hlen Hok. rewrite length_app in Hes. cbn [length] in Hes.
    pose proof (manager_run_inv products publish clock live_clock _ _ _ Hi0 Hr) as Hi1.
    pose proof (step_grows products publish clock live_clock publish_log m1 e Hi1) as Hgrow.
    pose proof (prefix_length _ _ Hgrow) as Hgl. destruct Hgrow as [tail Hgrow].
    destruct IH as (c & p & Hf); [lia|lia|rewrite Hgrow in Hok; by apply Forall_app in Hok as [? _]|].
    pose proof (run_connection_id products publish clock live_clock _ _ _ Hi0 Hr ltac:(lia) ltac:(lia)) as Hid.
    destruct (step_effect products publish clock live_clock m1 e Hi1) as [Hq|[Ht|Hh]].
    + exists c, p. apply (quiet_follows m1); [lia|done..].
    + exists c, p. by apply (terminates_follows e m1).
    + eapply handles_follows; [exact Hi1|exact Hf|lia|exact Hok|exact Hh].
  - unfold with_environment. cbn [environment field_update]. rewrite Henv. intros Hes Hlen Hok.
    destruct IH as (c & p & [F1 F2 F3 F4 F5 F6 F7]); [done..|]. exists c, p.
    split; cbn [environment field_update terminal_ handler_ connection_id_ connected_] in *; rewrite ?Henv; try done.
Qed.
End follows.

(** ** Theorem *)


(** ** A concrete replay *)

Definition ex_pipeline_record : RawMessage :=
  {| record_index := 0; venue := Coinbase; connection_id := 1; receive_wall_time := {| wall_ns := 10 |};
     receive_monotonic_time := {| mono_ns := 20 |}; payload := "snapshot" |}.
Definition ex_pipeline_lib : JsonLib :=
  table_lib [("snapshot", l2_document ex_time 7 [ex_snapshot_text]);
             ("{record}", reparsed (message_document ex_pipeline_record))]%string.
Lemma ex_pipeline_laws : @JsonText ex_pipeline_lib.
Proof. apply table_json_text. vm_compute. reflexivity. Qed.

Definition ex_pipeline_step : Manager QueueLog → event → Manager QueueLog :=
  @step ex_pipeline_lib default_products _ _ ex_publish ex_clock ex_live_clock.
Definition ex_pipeline_manager : Manager QueueLog := foldl ex_pipeline_step ex_m0 ex_events.
Definition ex_pipeline_file : string := "{record}" +:+ String newline EmptyString.

Lemma ex_pipeline_run :
  @manager_run ex_pipeline_lib default_products _ _ ex_publish ex_clock ex_live_clock ex_m0 ex_events ex_pipeline_manager.
Proof.
  unfold ex_pipeline_manager, ex_events. rewrite !foldl_app. cbn [foldl].
  repeat (apply manager_run_snoc; [| |vm_compute; reflexivity]); [constructor|done|..];
    apply list_elem_of_In; vm_compute; auto.
Qed.

Lemma ex_pipeline_log : sink_log (environment ex_pipeline_manager) = [ex_pipeline_record].
Proof. vm_compute. reflexivity. Qed.

Lemma ex_pipeline_replayable : Forall (@replayable ex_pipeline_lib default_products) [ex_pipeline_record].
Proof.
  apply Forall_singleton. intros now k. unfold process. cbn [payload].
  replace (@parse ex_pipeline_lib _ _ _ _ _) with
    (@parse ex_pipeline_lib default_products "snapshot" {| wall_ns := 10 |} {| mono_ns := 20 |} false) by done.
  remember (@parse ex_pipeline_lib default_products "snapshot" _ _ _) as p eqn:Ep. vm_compute in Ep. subst p.
  cbn [status error sequence]. rewrite bool_decide_false by done.
  destruct (observe (tracker _) 7) as [t []]; try done; unfold process_accepted; cbn [heartbeat_channel status];
    by edestruct process_l2_total as (? & ? & ->).
Qed.

Lemma ex_pipeline_recording : @recording ex_pipeline_lib [ex_pipeline_record] EmptyString ex_pipeline_file.
Proof.
  exists ["{record}"%string]. split_and!; [split|done|done].
  - repeat constructor.
  - repeat constructor; vm_compute; done.
Qed.

Example ex_pipeline_summary :
  (pipeline_summary <$> @replay_recording ex_pipeline_lib default_products (Some (ex_pipeline_file, false))) =
  Ok ("venue=coinbase instrument=BTC_USD state=VALID sequence=7 best_bid=50000.00 best_ask=50001.00 " +:+
      "bid_levels=1 ask_levels=1 raw_messages=1 parse_errors=0").
Proof. vm_compute. reflexivity. Qed.

