(* ===== verification/KrakenReplay.v ===== *)
(** * Deterministic replay of a Kraken session

    The Kraken part of [sessions::replay]: the recorded payloads are fed to a
    fresh book processor, interleaved with the recorded lifecycle events.  The
    refinement theorem relates the replay to the runtime that recorded them. *)

From S2P Require Import Prelude.
From S2P Require Import Text.
From S2P Require Import CoreTypes.
From S2P Require Import OrderBook.
From S2P Require Import Json.
From S2P Require Import FeedHealth.
From S2P Require Import RecordingQueue.
From S2P Require Import CoinbaseHandler.
From S2P Require Import KrakenChecksum.
From S2P Require Import KrakenParser.
From S2P Require Import KrakenProcessor.
From S2P Require Import ConnectionManager.
From S2P Require Import RuntimeStatus.
From S2P Require Import KrakenRuntime.
From S2P Require Import Session.

Open Scope Z_scope.

(** ** State *)

(** The local variables of the replay; [rk_pending] is the rest of the
    lifecycle array, [rk_outcomes] the outcome counts. *)
Record KrakenReplay := {
  rk_processor : KrakenBookProcessor;
  rk_connection : option Z;
  rk_count : Z;
  rk_pending : list LifecycleEvent;
  rk_transitions : list Transition;
  rk_outcomes : gmap string Z;
}.

#[export] Instance KrakenReplay_eta : EtaRecord KrakenReplay := λ s,
  {| rk_processor := rk_processor s; rk_connection := rk_connection s; rk_count := rk_count s;
     rk_pending := rk_pending s; rk_transitions := rk_transitions s; rk_outcomes := rk_outcomes s |}.

Definition rk_state (s : KrakenReplay) : BookState := state_ (book_ (rk_processor s)).

(** ** Operations *)

(** The [transition] lambda. *)
Definition rk_transition (before : BookState) (reason : string) (s : KrakenReplay) : KrakenReplay :=
  if bool_decide (before = rk_state s) then s
  else s <| rk_transitions ::= λ l,
         l ++ [{| tr_index := rk_count s; tr_from := before; tr_to := rk_state s; tr_reason := reason |}] |>.

Definition rk_event (event : LifecycleEvent) (s : KrakenReplay) : KrakenReplay :=
  let before := rk_state s in
  let s := s <| rk_processor ::= match lifecycle_state event with
                                 | Stale => kp_stale
                                 | Invalid => kp_invalidate
                                 | _ => kp_disconnect
                                 end |> in
  rk_transition before (lifecycle_reason event) s.

(** The loop of the [apply_lifecycle] lambda. *)
Fixpoint rk_lifecycle_loop (events : list LifecycleEvent) (s : KrakenReplay) : KrakenReplay :=
  match events with
  | [] => s <| rk_pending := [] |>
  | event :: rest =>
      if before_record_index event =? rk_count s then rk_lifecycle_loop rest (rk_event event s)
      else s <| rk_pending := events |>
  end.

Definition rk_apply_lifecycle (s : KrakenReplay) : KrakenReplay := rk_lifecycle_loop (rk_pending s) s.

(** [if (connection != e->connection_id)] *)
Definition rk_change_connection (e : RawEnvelope) (s : KrakenReplay) : KrakenReplay :=
  if bool_decide (rk_connection s = Some (connection_id e)) then s
  else
    let before := rk_state s in
    let s := if bool_decide (is_Some (rk_connection s))
             then s <| rk_processor ::= reset_connection |> else s in
    (rk_transition before "new_connection" s) <| rk_connection := Some (connection_id e) |>.

Section replay.
Context `{JsonLib} `{Crc32}.

Definition rk_process (e : RawEnvelope) (s : KrakenReplay) : KrakenReplay :=
  let before := rk_state s in
  let '(p, _) := kraken_process (rk_processor s) (payload e) (receive_wall_time e)
                   (receive_monotonic_time e) in
  let s := rk_transition before (kp_outcome p) (s <| rk_processor := p |>) in
  s <| rk_outcomes ::= λ m,
         <[kp_outcome p := match m !! kp_outcome p with Some n => incr64 n | None => 1 end]> m |>
    <| rk_count ::= incr64 |>.

(** The body of the reading loop. *)
Definition rk_record (e : RawEnvelope) (s : KrakenReplay) : result KrakenReplay :=
  let s := rk_apply_lifecycle s in
  _ ← throw_if (match rk_connection s with Some c => connection_id e <? c | None => false end)
        (RuntimeError "connection order regression");
  Ok (rk_process e (rk_change_connection e s)).

Fixpoint rk_records (es : list RawEnvelope) (s : KrakenReplay) : result KrakenReplay :=
  match es with
  | [] => Ok s
  | e :: rest => s' ← rk_record e s; rk_records rest s'
  end.

Definition rk_initial (p : KrakenBookProcessor) (lifecycle : list LifecycleEvent) : KrakenReplay :=
  {| rk_processor := p; rk_connection := None; rk_count := 0; rk_pending := lifecycle;
     rk_transitions := []; rk_outcomes := ∅ |}.

(** From the scan to the final state, without the comparisons of the
    manifest's other fields. *)
Definition kraken_replay (depth : Z) (complete in_progress : bool) (lifecycle : list LifecycleEvent)
    (records : list RawEnvelope) : result KrakenReplay :=
  scanned ← scan Kraken records;
  _ ← validate_lifecycle complete (scan_records scanned) 0 lifecycle;
  processor ← new_processor depth;
  s ← rk_records records (rk_initial processor lifecycle);
  let s := rk_apply_lifecycle s in
  _ ← throw_if ((complete && negb (bool_decide (length (rk_pending s) = 0%nat))) ||
                negb (rk_count s =? scan_records scanned))
        (RuntimeError "source changed or invalid lifecycle ordering");
  Ok (if negb complete && negb in_progress then s <| rk_processor ::= kp_invalidate |> else s).
End replay.

(** ** Lemmas: the lifecycle array *)

(** Events that the end of the array gains later do not change what happened
    before. *)
Definition rk_later (v : LifecycleEvent) (s : KrakenReplay) : KrakenReplay :=
  s <| rk_pending ::= λ l, l ++ [v] |>.

Lemma rk_transition_fields before reason s :
  let s' := rk_transition before reason s in
  rk_processor s' = rk_processor s ∧ rk_connection s' = rk_connection s ∧ rk_count s' = rk_count s ∧
  rk_pending s' = rk_pending s ∧ rk_outcomes s' = rk_outcomes s.
Proof. cbn zeta. unfold rk_transition. by case_bool_decide. Qed.

Lemma rk_transition_pending before reason p s :
  rk_transition before reason (s <| rk_pending := p |>) = (rk_transition before reason s) <| rk_pending := p |>.
Proof. unfold rk_transition, rk_state. cbn -[bool_decide]. by case_bool_decide. Qed.

Lemma rk_event_pending e p s : rk_event e (s <| rk_pending := p |>) = (rk_event e s) <| rk_pending := p |>.
Proof. unfold rk_event. by rewrite <-rk_transition_pending. Qed.

Lemma rk_event_fields e s :
  let s' := rk_event e s in
  rk_connection s' = rk_connection s ∧ rk_count s' = rk_count s ∧ rk_pending s' = rk_pending s.
Proof.
  cbn zeta. unfold rk_event. match goal with |- context [rk_transition ?b ?r ?x] =>
    destruct (rk_transition_fields b r x) as (_ & -> & -> & -> & _) end. done.
Qed.

Lemma rk_loop_pending l p s : rk_lifecycle_loop l (s <| rk_pending := p |>) = rk_lifecycle_loop l s.
Proof.
  revert s. induction l as [|e l IH]; intros s; cbn [rk_lifecycle_loop]; [done|].
  change (rk_count (s <| rk_pending := p |>)) with (rk_count s).
  destruct (_ =? _); [|done]. by rewrite rk_event_pending, IH.
Qed.

Lemma rk_loop_later l v s :
  before_record_index v ≠ rk_count s →
  rk_lifecycle_loop (l ++ [v]) s = rk_later v (rk_lifecycle_loop l s).
Proof.
  revert s. induction l as [|e l IH]; intros s Hv; cbn [rk_lifecycle_loop app].
  - by rewrite (proj2 (Z.eqb_neq _ _) Hv).
  - destruct (_ =? _); [|done]. apply IH. by destruct (rk_event_fields e s) as (_ & -> & _).
Qed.

Lemma rk_loop_now l v s :
  Forall (λ e, before_record_index e = rk_count s) l → before_record_index v = rk_count s →
  rk_lifecycle_loop (l ++ [v]) s = (rk_event v (rk_lifecycle_loop l s)) <| rk_pending := [] |>.
Proof.
  revert s. induction l as [|e l IH]; intros s Hl Hv; cbn [rk_lifecycle_loop app].
  - rewrite Hv, Z.eqb_refl, rk_event_pending. done.
  - apply Forall_cons in Hl as [He Hl]. rewrite He, Z.eqb_refl.
    destruct (rk_event_fields e s) as (_ & Hc & _). apply IH; by rewrite Hc.
Qed.

Lemma rk_loop_fields l s :
  let s' := rk_lifecycle_loop l s in
  rk_connection s' = rk_connection s ∧ rk_count s' = rk_count s ∧
  (Forall (λ e, before_record_index e = rk_count s) l → rk_pending s' = []).
Proof.
  cbn zeta. revert s. induction l as [|e l IH]; intros s; cbn [rk_lifecycle_loop]; [done|].
  destruct (Z.eqb_spec (before_record_index e) (rk_count s)) as [He|He].
  - destruct (rk_event_fields e s) as (Hk & Hc & _), (IH (rk_event e s)) as (-> & -> & Hp).
    rewrite Hc in Hp. split_and!; [done..|]. intros Hf. apply Forall_cons in Hf as [_ Hf]. auto.
  - split_and!; [done..|]. intros Hf. by apply Forall_cons in Hf as [? _].
Qed.

(** ** Lemmas: one record *)

Section record_lemmas.
Context `{JsonLib} `{Crc32}.
Implicit Types s : KrakenReplay.

Lemma rk_process_later v e s : rk_process e (rk_later v s) = rk_later v (rk_process e s).
Proof.
  unfold rk_process. change (rk_processor (rk_later v s)) with (rk_processor s).
  destruct (kraken_process _ _ _ _) as [p ok]. unfold rk_later.
  change ((s <| rk_pending ::= λ l, l ++ [v] |>) <| rk_processor := p |>)
    with ((s <| rk_processor := p |>) <| rk_pending := rk_pending s ++ [v] |>).
  rewrite rk_transition_pending.
  destruct (rk_transition_fields (rk_state s) (kp_outcome p) (s <| rk_processor := p |>))
    as (_ & _ & _ & Hp & _).
  change (rk_state (s <| rk_pending ::= λ l, l ++ [v] |>)) with (rk_state s).
  generalize dependent (rk_transition (rk_state s) (kp_outcome p) (s <| rk_processor := p |>)).
  intros [] Hp. cbn in Hp. subst. done.
Qed.

Lemma rk_change_later v e s : rk_change_connection e (rk_later v s) = rk_later v (rk_change_connection e s).
Proof.
  unfold rk_change_connection. change (rk_connection (rk_later v s)) with (rk_connection s).
  case_bool_decide; [done|]. cbv zeta. change (rk_state (rk_later v s)) with (rk_state s).
  assert (∀ s1 before, (rk_transition before "new_connection" (rk_later v s1)) <| rk_connection := Some (connection_id e) |>
    = rk_later v ((rk_transition before "new_connection" s1) <| rk_connection := Some (connection_id e) |>)) as Hx.
  { intros s1 before. unfold rk_later. change (s1 <| rk_pending ::= λ l, l ++ [v] |>) with
      (s1 <| rk_pending := rk_pending s1 ++ [v] |>). rewrite rk_transition_pending.
    destruct (rk_transition_fields before "new_connection" s1) as (_ & _ & _ & Hp & _).
    generalize dependent (rk_transition before "new_connection" s1). intros [] Hp. cbn in Hp. by subst. }
  destruct (bool_decide (is_Some (rk_connection s))); [|apply Hx].
  by rewrite <-Hx.
Qed.

Lemma rk_record_later v e s :
  before_record_index v ≠ rk_count s → rk_record e (rk_later v s) = rk_later v <$> rk_record e s.
Proof.
  intros Hv. unfold rk_record, rk_apply_lifecycle.
  assert (rk_lifecycle_loop (rk_pending (rk_later v s)) (rk_later v s) =
    rk_later v (rk_lifecycle_loop (rk_pending s) s)) as ->.
  { rewrite <-rk_loop_later by done. apply (rk_loop_pending (rk_pending s ++ [v])). }
  generalize (rk_lifecycle_loop (rk_pending s) s). intros s1.
  change (rk_connection (rk_later v s1)) with (rk_connection s1). cbv zeta.
  destruct (throw_if _ _); monad_simpl; [|done]. by rewrite rk_change_later, rk_process_later.
Qed.

Lemma rk_change_fields e s :
  let s' := rk_change_connection e s in
  rk_connection s' = Some (connection_id e) ∧ rk_count s' = rk_count s ∧ rk_pending s' = rk_pending s ∧
  rk_processor s' =
    match rk_connection s with
    | Some c => if c =? connection_id e then rk_processor s else reset_connection (rk_processor s)
    | None => rk_processor s
    end.
Proof.
  cbn zeta. unfold rk_change_connection. case_bool_decide as Hc.
  { rewrite Hc, Z.eqb_refl. done. }
  set (s1 := if bool_decide (is_Some (rk_connection s)) then _ else s).
  assert (rk_count s1 = rk_count s ∧ rk_pending s1 = rk_pending s ∧
    rk_processor s1 = match rk_connection s with
                      | Some c => if c =? connection_id e then rk_processor s else reset_connection (rk_processor s)
                      | None => rk_processor s
                      end) as (<- & <- & <-).
  { subst s1. destruct (rk_connection s) as [c|]; [|done].
    rewrite bool_decide_true, (proj2 (Z.eqb_neq _ _)) by (done || congruence). done. }
  by destruct (rk_transition_fields (rk_state s) "new_connection" s1) as (Hp & _ & Hn & Hq & _).
Qed.

Lemma rk_process_fields e s :
  let s' := rk_process e s in
  rk_connection s' = rk_connection s ∧ rk_count s' = incr64 (rk_count s) ∧ rk_pending s' = rk_pending s ∧
  rk_processor s' = (kraken_process (rk_processor s) (payload e) (receive_wall_time e)
                       (receive_monotonic_time e)).1.
Proof.
  cbn zeta. unfold rk_process. destruct (kraken_process _ _ _ _) as [p ok].
  destruct (rk_transition_fields (rk_state s) (kp_outcome p) (s <| rk_processor := p |>))
    as (Hp & Hk & Hn & Hq & _).
  generalize dependent (rk_transition (rk_state s) (kp_outcome p) (s <| rk_processor := p |>)).
  intros s1 Hp Hk Hn Hq. cbn in *. by rewrite Hp, Hk, Hn, Hq.
Qed.

Lemma rk_record_fields e s s' :
  rk_record e s = Ok s' → rk_count s' = incr64 (rk_count s).
Proof.
  unfold rk_record. intros Hr. result_inv. cbv zeta.
  destruct (rk_process_fields e (rk_change_connection e (rk_apply_lifecycle s))) as (_ & -> & _).
  destruct (rk_change_fields e (rk_apply_lifecycle s)) as (_ & -> & _).
  unfold rk_apply_lifecycle. by destruct (rk_loop_fields (rk_pending s) s) as (_ & -> & _).
Qed.

Lemma rk_records_later v es s :
  0 ≤ rk_count s → rk_count s + Z.of_nat (length es) ≤ before_record_index v →
  before_record_index v ≤ UINT64_MAX →
  rk_records es (rk_later v s) = rk_later v <$> rk_records es s.
Proof.
  revert s. induction es as [|e es IH]; intros s Hc Hb Hm; cbn [rk_records length] in *; [done|].
  rewrite rk_record_later by lia. destruct (rk_record e s) as [s1|x] eqn:E; monad_simpl; [|done].
  apply rk_record_fields in E. rewrite incr64_small in E by lia. apply IH; lia.
Qed.

Lemma rk_records_app es es' s :
  rk_records (es ++ es') s = (s' ← rk_records es s; rk_records es' s').
Proof.
  revert s. induction es as [|e es IH]; intros s; cbn [rk_records app]; [done|].
  destruct (rk_record e s); monad_simpl; [apply IH|done].
Qed.
End record_lemmas.

(** ** The replay follows the recording *)

(** The connection of the last record against the runtime's connection. *)
Definition connections_agree (v : kr_view) (c : option Z) : Prop :=
  match c with
  | None => v_first v = true ∧ v_seen v = false
  | Some c => v_seen v = true ∧ if v_first v then c < v_connection v else c = v_connection v
  end.

Section refinement.
Context `{JsonLib} `{Crc32}.
Implicit Types s fin : KrakenReplay.

(** The replay [s] of the records so far, and [fin] after the lifecycle events
    that follow the last of them, are in step with the runtime. *)
Record in_step (p0 : KrakenBookProcessor) (v : kr_view) s fin : Prop := {
  ks_index : v_index v = Z.of_nat (length (v_log v));
  ks_connection_nonneg : 0 ≤ v_connection v;
  ks_venue : Forall (λ e, venue e = Kraken) (v_log v);
  ks_valid : ∃ last, last ≤ v_index v ∧ validate_lifecycle true (v_index v) 0 (v_events v) = Ok last;
  ks_records : rk_records (v_log v) (rk_initial p0 (v_events v)) = Ok s;
  ks_count : rk_count s = v_index v;
  ks_pending : Forall (λ e, before_record_index e = v_index v) (rk_pending s);
  ks_final : rk_apply_lifecycle s = fin;
  ks_processor : rk_processor fin = v_processor v;
  ks_connection : connections_agree v (rk_connection fin);
}.

Lemma rk_event_lost stale reason v s :
  rk_processor (rk_event (lost_event stale reason v) s) = kr_lose stale (rk_processor s).
Proof.
  unfold rk_event. match goal with |- context [rk_transition ?b ?r ?x] =>
    destruct (rk_transition_fields b r x) as (-> & _) end. by destruct stale.
Qed.

Lemma in_step_lost p0 v s fin stale reason :
  in_step p0 v s fin → v_index v ≤ UINT64_MAX →
  ∃ s' fin', in_step p0 (lost stale reason v) s' fin'.
Proof.
  intros [K1 K2 K3 (last & Hle & Hval) K5 K6 K7 K8 K9 K10] Hmax. set (e := lost_event stale reason v).
  exists (rk_later e s), ((rk_event e fin) <| rk_pending := [] |>).
  destruct (rk_event_fields e fin) as (Hk & _ & _).
  split; cbn [v_index v_connection v_log v_events lost field_update]; fold e; try done.
  - exists (v_index v). split; [lia|].
    apply (validate_lifecycle_snoc true (v_index v) _ 0 _ e last); [done|lia|cbn; lia|by destruct stale].
  - change (rk_initial p0 (v_events v ++ [e])) with (rk_later e (rk_initial p0 (v_events v))).
    rewrite rk_records_later; [by rewrite K5|done|cbn; lia|done].
  - cbn. apply Forall_app. split; [done|]. by repeat constructor.
  - unfold rk_apply_lifecycle. change (rk_pending (rk_later e s)) with (rk_pending s ++ [e]).
    unfold rk_later. change (s <| rk_pending ::= λ l, l ++ [e] |>) with (s <| rk_pending := rk_pending s ++ [e] |>).
    rewrite rk_loop_pending, rk_loop_now; [|by rewrite K6|by rewrite K6]. by rewrite <-K8.
  - cbn. unfold e. by rewrite rk_event_lost, K9.
  - cbn. rewrite Hk. done.
Qed.

Lemma in_step_losses p0 v v' s fin :
  losses v v' → in_step p0 v s fin → v_index v ≤ UINT64_MAX → ∃ s' fin', in_step p0 v' s' fin'.
Proof.
  intros Hl. revert s fin. induction Hl as [v|stale reason v v' _ IH]; intros s fin Hs Hmax; [eauto|].
  destruct (in_step_lost p0 v s fin stale reason Hs Hmax) as (s1 & fin1 & Hs1). by apply (IH s1 fin1).
Qed.

Lemma in_step_connect p0 v s fin :
  in_step p0 v s fin → v_connection v < UINT64_MAX →
  in_step p0 (v <| v_connection ::= incr64 |> <| v_first := true |>) s fin.
Proof.
  intros [K1 K2 K3 K4 K5 K6 K7 K8 K9 K10] Hmax.
  assert (incr64 (v_connection v) = v_connection v + 1) as Hi by (apply incr64_small; lia).
  split; cbn; rewrite ?Hi; try done; [lia|]. unfold connections_agree in *. cbn. rewrite ?Hi.
  destruct (rk_connection fin) as [c|]; [|by destruct K10]. destruct K10 as [Hs Hc]. split; [done|].
  destruct (v_first v); lia.
Qed.

Lemma begun_processor v c e :
  connections_agree v c → connection_id e = v_connection v →
  v_processor (begun v) =
    match c with
    | Some c => if c =? connection_id e then v_processor v else reset_connection (v_processor v)
    | None => v_processor v
    end ∧ v_first (begun v) = false ∧ v_seen (begun v) = true.
Proof.
  intros Ha ->. unfold begun, connections_agree in *. destruct c as [c|].
  - destruct Ha as [Hs Hc]. destruct (v_first v) eqn:Hf; rewrite Hs.
    + by rewrite (proj2 (Z.eqb_neq _ _)) by lia.
    + by rewrite (proj2 (Z.eqb_eq _ _)) by lia.
  - destruct Ha as [-> ->]. done.
Qed.

Lemma in_step_recorded p0 v s fin e :
  in_step p0 v s fin → envelope_now v e → v_index v < UINT64_MAX →
  ∃ s' fin', in_step p0 (recorded e v) s' fin'.
Proof.
  intros [K1 K2 K3 (last & Hle & Hval) K5 K6 K7 K8 K9 K10] (_ & Hven & Hid) Hmax.
  assert (incr64 (v_index v) = v_index v + 1) as Hi by (apply incr64_small; lia).
  destruct (rk_loop_fields (rk_pending s) s) as (_ & Hc & Hp).
  change (rk_lifecycle_loop (rk_pending s) s) with (rk_apply_lifecycle s) in Hc, Hp.
  rewrite K8 in Hc, Hp. rewrite K6 in Hp, Hc. specialize (Hp K7).
  set (s' := rk_process e (rk_change_connection e fin)).
  destruct (rk_process_fields e (rk_change_connection e fin)) as (Pk & Pc & Pp & Pr).
  destruct (rk_change_fields e fin) as (Ck & Cc & Cp & Cr).
  set (v1 := v <| v_log ::= λ l, l ++ [e] |>).
  destruct (begun_processor v1 (rk_connection fin) e) as (Hb & Hf & Hs); [exact K10|done|].
  assert (v_log (begun v1) = v_log v ++ [e] ∧ v_events (begun v1) = v_events v ∧
    v_index (begun v1) = v_index v ∧ v_connection (begun v1) = v_connection v) as (Bl & Be & Bi & Bc).
  { subst v1. unfold begun. cbn. by destruct (v_first v), (v_seen v). }
  exists s', (s' <| rk_pending := [] |>).
  split; unfold recorded; fold v1;
    cbn [v_processor v_index v_connection v_first v_seen v_log v_events field_update];
    rewrite ?Bl, ?Be, ?Bi, ?Bc, ?Hi; try done.
  - rewrite length_app, K1. cbn. lia.
  - apply Forall_app. split; [done|]. by apply Forall_singleton.
  - exists last. split; [lia|]. eapply validate_lifecycle_more; [done|lia].
  - rewrite rk_records_app, K5. monad_simpl. cbn [rk_records]. unfold rk_record. rewrite K8. cbv zeta.
    replace (match rk_connection fin with Some c => _ | None => false end) with false; [done|].
    unfold connections_agree in K10. destruct (rk_connection fin) as [c|]; [|done]. rewrite Hid.
    destruct K10 as [_ K10]. symmetry. apply Z.ltb_ge. destruct (v_first v); lia.
  - fold s' in Pc. rewrite Pc, Cc, Hc, Hi. done.
  - fold s' in Pp. rewrite Pp, Cp, Hp. done.
  - fold s' in Pp. unfold rk_apply_lifecycle. by rewrite Pp, Cp, Hp.
  - fold s' in Pr. cbn [rk_processor field_update]. rewrite Pr, Cr, Hb, K9. done.
  - fold s' in Pk. cbn [rk_connection field_update]. rewrite Pk, Ck. unfold connections_agree.
    cbn [v_first v_seen v_connection field_update]. by rewrite Hf, Hs.
Qed.

Context (duration force_seconds : Z) (clock : nat → ReceiveMonotonicTimestamp).

Lemma change_in_step p0 v v' s fin :
  kr_change v v' → in_step p0 v s fin → v_index v < UINT64_MAX → v_connection v < UINT64_MAX →
  ∃ s' fin', in_step p0 v' s' fin'.
Proof.
  intros [v1 Hl| |e v1 He Hl] Hs Hi Hc.
  - eapply in_step_losses; [done..|lia].
  - eexists _, _. by apply in_step_connect.
  - destruct (in_step_recorded p0 v s fin e Hs He Hi) as (s1 & fin1 & Hs1).
    eapply in_step_losses; [done..|]. rewrite recorded_index, incr64_small; [lia|].
    rewrite (ks_index _ _ _ _ Hs) in *. lia.
Qed.

Lemma kr_new_in_step p0 q status :
  sink_log q = [] → lifecycle_events status = [] →
  in_step p0 (view (kr_new clock p0 q status)) (rk_initial p0 []) (rk_initial p0 []).
Proof. intros Hq Hs. cbn in Hq. split; cbn; rewrite ?Hq, ?Hs; try done. by exists 0. Qed.

Lemma kr_begin_in_step p0 k s fin :
  in_step p0 (view k) s fin → v_connection (view k) < UINT64_MAX → in_step p0 (view (kr_begin clock k)) s fin.
Proof.
  intros Hin Hc. unfold kr_begin. case_bool_decide; [by rewrite kr_stop_view|].
  rewrite kr_connect_view. match goal with |- context [view ?k1] => change (view k1) with (view k) end.
  by apply in_step_connect.
Qed.

Lemma kr_start_in_step depth q status k :
  sink_log q = [] → lifecycle_events status = [] → kr_start clock depth q status = Ok k →
  ∃ p0, new_processor depth = Ok p0 ∧ in_step p0 (view k) (rk_initial p0 []) (rk_initial p0 []).
Proof.
  intros Hq Hs Hk. unfold kr_start in Hk. result_inv. exists x. split; [done|].
  apply kr_begin_in_step; [by apply kr_new_in_step|done].
Qed.

Lemma kr_run_in_step p0 k0 es k s0 fin0 :
  kr_run duration force_seconds clock k0 es k → in_step p0 (view k0) s0 fin0 →
  v_fatal (view k) = false → ∃ s fin, in_step p0 (view k) s fin.
Proof.
  intros Hr Hs. induction Hr as [|es k1 e Hr IH Hi Hc]; [eauto|]. intros Hf.
  destruct (kr_step_change duration force_seconds clock k1 e Hf) as [Hf1 Hch].
  destruct (IH Hf1) as (s & fin & Hs1). by eapply change_in_step.
Qed.

(** The whole replay of a run that is in step. *)
Lemma kraken_in_step_replays depth p0 k s fin in_progress :
  new_processor depth = Ok p0 → in_step p0 (view k) s fin → Z.of_nat (length (kr_log k)) ≤ UINT64_MAX →
  kraken_replay depth true in_progress (lifecycle_events (kr_status k)) (kr_log k) = Ok fin ∧
  rk_processor fin = kr_processor k ∧ rk_count fin = Z.of_nat (length (kr_log k)) ∧ rk_pending fin = [].
Proof.
  intros Hp0 [K1 _ K3 (last & _ & Hval) K5 K6 K7 K8 K9 _] Hlen.
  cbn [view v_index v_log v_events v_processor] in K1, K3, Hval, K5, K6, K7, K9.
  destruct (rk_loop_fields (rk_pending s) s) as (_ & Hc & Hp).
  change (rk_lifecycle_loop (rk_pending s) s) with (rk_apply_lifecycle s) in Hc, Hp.
  rewrite K8 in Hc, Hp. rewrite K6 in Hp, Hc. specialize (Hp K7).
  destruct (scan_loop_Ok Kraken (kr_log k) {| scan_records := 0; scan_connections := ∅ |} K3)
    as (scanned & Hsc & Hn); [done|exact Hlen|]. cbn [scan_records] in Hn. rewrite Z.add_0_l in Hn.
  unfold kraken_replay, scan. rewrite Hsc. monad_simpl.
  rewrite (eq_trans Hn (eq_sym K1)), Hval. monad_simpl. rewrite Hp0. monad_simpl. rewrite K5. monad_simpl.
  rewrite K8, Hp, Hc, Z.eqb_refl, bool_decide_true by done. cbn [andb orb negb throw_if].
  split_and!; [done|done|congruence|done].
Qed.
End refinement.

(** ** Theorems *)

(** C4: Kraken replay is faithful: for every run of the Kraken runtime on an
    empty recording that ended without a fatal error, whatever messages,
    transport errors, timeouts and forced disconnections it contained,
    replaying the recorded lifecycle events and messages as a complete session
    passes the validation and ends with exactly the runtime's book processor:
    the same order book and checksum book, the same checksum, outcome and
    metrics, having read every record and consumed every lifecycle event. *)
Theorem kraken_replay_reproduces_live `{JsonLib} `{Crc32} duration force_seconds clock depth q status k0 es k
    in_progress :
  sink_log q = [] → lifecycle_events status = [] → kr_start clock depth q status = Ok k0 →
  kr_run duration force_seconds clock k0 es k → fatal_error (kr_status k) = None →
  Z.of_nat (length (kr_log k)) ≤ UINT64_MAX →
  ∃ st, kraken_replay depth true in_progress (lifecycle_events (kr_status k)) (kr_log k) = Ok st ∧
    rk_processor st = kr_processor k ∧ rk_count st = Z.of_nat (length (kr_log k)) ∧ rk_pending st = [].
Proof.
  intros Hq Hst Hk0 Hr Hf Hlen.
  destruct (kr_start_in_step clock depth q status k0 Hq Hst Hk0) as (p0 & Hp0 & Hs0).
  destruct (kr_run_in_step duration force_seconds clock p0 k0 es k _ _ Hr Hs0) as (s & fin & Hs).
  { cbn. rewrite Hf. by apply bool_decide_false; intros [? ?]. }
  exists fin. by apply kraken_in_step_replays with p0 s.
Qed.

(** ** A concrete session *)

Definition ex_kr_clock (n : nat) : ReceiveMonotonicTimestamp := {| mono_ns := Z.of_nat n * 1000000000 |}.
Definition ex_kr_step : KrakenRuntime → kr_event → KrakenRuntime :=
  @kr_step kraken_lib bytewise_crc 0 0 ex_kr_clock.
Definition ex_kr_run : KrakenRuntime → list kr_event → KrakenRuntime → Prop :=
  @kr_run kraken_lib bytewise_crc 0 0 ex_kr_clock.

Definition ex_kr_start : result KrakenRuntime := kr_start ex_kr_clock 10 ex_env new_status.

(** A snapshot, a lost connection, and a rejected update on the next one; the
    writer is one record behind. *)
Definition ex_kr_events : list kr_event :=
  [KConnected; KMessage "snapshot" ex_wall ex_mono; KWritten; KError "read failed"; KResume; KConnected;
   KMessage "mismatch" ex_wall ex_mono; KTick false].

Definition ex_k0 : KrakenRuntime :=
  match ex_kr_start with Ok k => k | Throw _ =>
    {| kr_processor := ex_processor; kr_backoff := new_policy; kr_index := 0; kr_connection := 0;
       kr_stopping := true; kr_recovering := false; kr_connected := false; kr_first_record := true;
       kr_seen_record := false; kr_forced := false; kr_ticking := false; kr_client := false;
       kr_started := ex_kr_clock 0; kr_connected_at := ex_kr_clock 0; kr_status := new_status;
       kr_checksum := 0; kr_metrics := ∅; kr_queue := ex_env; kr_clock_reads := 0; kr_actions := [] |} end.
Definition ex_k : KrakenRuntime := foldl ex_kr_step ex_k0 ex_kr_events.

Definition ex_kraken_replay (k : KrakenRuntime) : result KrakenReplay :=
  @kraken_replay kraken_lib bytewise_crc 10 true false (lifecycle_events (kr_status k)) (kr_log k).

Lemma ex_kr_run_foldl k0 es es' k :
  ex_kr_run k0 es k →
  Forall (λ k1, kr_index k1 < UINT64_MAX ∧ kr_connection k1 < UINT64_MAX)
    (imap (λ i _, foldl ex_kr_step k (take i es')) es') →
  ex_kr_run k0 (es ++ es') (foldl ex_kr_step k es').
Proof.
  revert es k. induction es' as [|e es' IH]; intros es k Hr Hf; [by rewrite app_nil_r|].
  cbn in Hf. apply Forall_cons in Hf as [[Hi Hc] Hf]. cbn [foldl].
  rewrite (cons_middle e es es'), app_assoc. apply IH; [by apply kr_run_snoc|done].
Qed.

Lemma ex_kr_run_events : ex_kr_run ex_k0 ex_kr_events ex_k.
Proof.
  apply (ex_kr_run_foldl ex_k0 [] ex_kr_events ex_k0); [constructor|].
  apply Forall_forall. intros k1 Hin. apply list_elem_of_In in Hin.
  unfold ex_kr_events in Hin. cbn [imap In] in Hin.
  repeat (destruct Hin as [<-|Hin]; [split; vm_compute; reflexivity|]). destruct Hin.
Qed.

Example ex_kraken_replay_result :
  (λ s, (rk_count s, state_ (book_ (rk_processor s)), kp_outcome (rk_processor s),
         (λ t, (tr_index t, tr_to t, tr_reason t)) <$> rk_transitions s)) <$> ex_kraken_replay ex_k =
  Ok (2, Disconnected, "AwaitingSnapshot"%string,
      [(0, Valid, "Snapshot"%string); (1, Disconnected, "read failed"%string);
       (1, Initializing, "new_connection"%string); (2, Disconnected, "AwaitingSnapshot"%string)]).
Proof. by vm_compute. Qed.

Lemma kraken_replay_reproduces_live_witness :
  ∃ st, ex_kraken_replay ex_k = Ok st ∧ rk_processor st = kr_processor ex_k ∧ rk_count st = 2.
Proof.
  destruct (@kraken_replay_reproduces_live kraken_lib bytewise_crc 0 0 ex_kr_clock 10 ex_env new_status
    ex_k0 ex_kr_events ex_k false) as (st & Hr & Hp & Hc & _).
  - done.
  - done.
  - by vm_compute.
  - exact ex_kr_run_events.
  - by vm_compute.
  - by vm_compute.
  - exists st. split; [exact Hr|]. split; [exact Hp|]. rewrite Hc. by vm_compute.
Defined.
