(* ===== verification/SessionReplay.v ===== *)
(** * Session replay: validation of a session and the result document

    The part of [sessions::replay] around the two replays: the checks of the
    manifest against the configuration, the recording and the runtime
    progress, and the document a replay publishes. *)

From S2P Require Import Prelude.
From S2P Require Import Text.
From S2P Require Import CoreTypes.
From S2P Require Import FixedPoint.
From S2P Require Import SequenceTracker.
From S2P Require Import OrderBook.
From S2P Require Import Json.
From S2P Require Import CoinbaseParser.
From S2P Require Import FeedHealth.
From S2P Require Import RecordingQueue.
From S2P Require Import CoinbaseHandler.
From S2P Require Import KrakenParser.
From S2P Require Import KrakenChecksum.
From S2P Require Import KrakenProcessor.
From S2P Require Import ConnectionManager.
From S2P Require Import Recording.
From S2P Require Import RuntimeStatus.
From S2P Require Import Session.
From S2P Require Import Capture.
From S2P Require Import CoinbaseReplay.
From S2P Require Import KrakenReplay.

Open Scope Z_scope.

(** ** Paths *)

(** [raw.lexically_relative(root)] of two canonical paths, as components. *)
Fixpoint lexically_relative (p base : list string) : list string :=
  match p, base with
  | x :: p', y :: base' =>
      if String.eqb x y then lexically_relative p' base' else repeat ".."%string (length base) ++ p
  | [], [] => ["."%string]
  | _, _ => repeat ".."%string (length base) ++ p
  end.

(** [inside.empty() || *inside.begin() == ".."] *)
Definition escapes (inside : list string) : bool :=
  match inside with [] => true | first :: _ => String.eqb first ".." end.

(** ** Checks of the manifest *)

(** [manifest.at(key) == v] *)
Definition at_equals (j : json) (key : string) (v : json) : result bool :=
  w ← at_key j key; Ok (json_equal w v).

(** [(complete || metadata.contains(key)) && condition] *)
Definition when_required (complete : bool) (metadata : json) (key : string) (condition : json → bool)
    (error : string) : result unit :=
  if complete || contains metadata key then
    v ← at_key metadata key; throw_if (condition v) (RuntimeError error)
  else Ok tt.

Definition session_statuses : list string :=
  ["in_progress"; "complete"; "recording_failure"; "queue_overflow"; "processing_failure"; "interrupted"].

Definition product_key (kraken : bool) : string := if kraken then "kraken:BTC_USD" else "coinbase:BTC-USD".

(** The manifest version and status; whether the session is complete. *)
Definition check_status (m : json) (allow_incomplete : bool) : result bool :=
  version ← at_key m "format_version";
  _ ← throw_if (negb (is_number_unsigned version) || negb (json_equal version (JInteger 1)))
        (RuntimeError "unsupported manifest version");
  sj ← at_key m "status"; status ← get_string sj;
  _ ← throw_if (negb (bool_decide (status ∈ session_statuses))) (RuntimeError "unknown session status");
  let complete := json_equal sj (JString "complete") in
  _ ← throw_if (negb complete && negb allow_incomplete)
        (RuntimeError "incomplete session requires --allow-incomplete");
  Ok complete.

(** The venue and the depth of its book. *)
Definition check_venue (m : json) : result (bool * Z) :=
  kraken ← at_equals m "venues" (JArray [JString "kraken"]);
  if kraken : bool then
    subscriptions ← at_key m "subscriptions"; s ← at_key subscriptions "kraken:BTC_USD";
    dj ← at_key s "depth"; depth ← get_uint64 dj; Ok (true, depth)
  else Ok (false, 100).

Definition check_scale (precision : json) (key : string) : result unit :=
  v ← at_key precision key;
  throw_if (negb (is_number_unsigned v) || (got 0 (get_uint64 v) >? 18))
    (RuntimeError "unsupported precision scale").

(** The product metadata, which replaces that of the configuration. *)
Definition check_products (m : json) (kraken : bool) (config : json) : result json :=
  products ← at_key m "product_metadata";
  _ ← throw_if (negb (is_object products) || negb (bool_decide (json_size products = 1%nat)) ||
                negb (contains products (product_key kraken)))
        (RuntimeError "unexpected product metadata");
  precision ← at_key products (product_key kraken);
  _ ← throw_if (negb (is_object precision) || negb (bool_decide (json_size precision = 2%nat)))
        (RuntimeError "invalid precision metadata");
  _ ← check_scale precision "price_scale";
  _ ← check_scale precision "quantity_scale";
  _ ← throw_if (kraken && negb (json_equal products (field config "product_metadata")))
        (RuntimeError "unsupported Kraken precision");
  Ok (set_key "product_metadata" products config).

(** [manifest.at(key) != config.at(key)] for the given keys. *)
Fixpoint check_same (m config : json) (keys : list string) : result unit :=
  match keys with
  | [] => Ok tt
  | key :: rest =>
      v ← at_key m key; w ← at_key config key;
      _ ← throw_if (negb (json_equal v w))
            (RuntimeError "unexpected venue, instrument, precision or processor configuration");
      check_same m config rest
  end.

(** [manifest.at(key) != config[key]] for the two keys of a subscription. *)
Definition check_subscription (m config : json) : result unit :=
  symbols ← at_key m "venue_symbols";
  if negb (json_equal symbols (field config "venue_symbols"))
  then Throw (RuntimeError "unsupported Kraken subscription")
  else
    subscriptions ← at_key m "subscriptions";
    throw_if (negb (json_equal subscriptions (field config "subscriptions")))
      (RuntimeError "unsupported Kraken subscription").

(** One member of a complete manifest's progress. *)
Fixpoint check_progress (m last_index : json) (keys : list string) : result unit :=
  match keys with
  | [] => Ok tt
  | key :: rest =>
      same ← at_equals m key last_index;
      _ ← throw_if (negb same) (RuntimeError "inconsistent complete runtime progress");
      check_progress m last_index rest
  end.

(** [b1 || b2 || ...] with operands that may throw. *)
Fixpoint any_of (bs : list (result bool)) : result bool :=
  match bs with
  | [] => Ok false
  | b :: rest => x ← b; if x : bool then Ok true else any_of rest
  end.

(** What a complete manifest says about the whole run. *)
Definition check_complete (m metadata : json) (records : Z) : result unit :=
  let last_index := if records =? 0 then JNull else JUnsigned (u64 (records - 1)) in
  _ ← check_progress m last_index
        ["last_received_index"; "last_enqueued_index"; "last_written_index"; "last_processed_index"];
  stopped ← at_equals m "final_runtime_state" (JString "Stopped");
  _ ← throw_if (negb stopped) (RuntimeError "complete session has non-stopped runtime");
  bad ← any_of [negb <$> at_equals metadata "first_record_index" (if records =? 0 then JNull else JInteger 0);
                negb <$> at_equals metadata "last_record_index" last_index;
                negb <$> at_equals m "unpersisted_records" (JInteger 0);
                negb <$> at_equals m "unpersisted_processed_tail" (JBool false)];
  throw_if bad (RuntimeError "inconsistent complete manifest").

(** The states a lifecycle event may have. *)
Definition lifecycle_state_named (name : string) : option BookState :=
  if String.eqb name "DISCONNECTED" then Some Disconnected
  else if String.eqb name "RESYNCING" then Some Resyncing
  else if String.eqb name "INITIALIZING" then Some Initializing
  else if String.eqb name "STALE" then Some Stale
  else if String.eqb name "INVALID" then Some Invalid else None.

(** The validation of the lifecycle array; the events it describes. *)
Fixpoint check_lifecycle (complete : bool) (records last_lifecycle_index : Z) (events : list json)
    : result (list LifecycleEvent) :=
  match events with
  | [] => Ok []
  | event :: rest =>
      ij ← at_key event "before_record_index";
      _ ← throw_if (negb (is_number_unsigned ij)) (RuntimeError "invalid lifecycle index");
      let index := got 0 (get_uint64 ij) in
      if (index <? last_lifecycle_index) || (complete && (index >? records))
      then Throw (RuntimeError "invalid lifecycle event")
      else
        sj ← at_key event "state"; name ← get_string sj;
        match lifecycle_state_named name with
        | None => Throw (RuntimeError "invalid lifecycle event")
        | Some state =>
            rj ← at_key event "reason";
            if negb (is_string rj) then Throw (RuntimeError "invalid lifecycle event")
            else
              more ← check_lifecycle complete records index rest;
              Ok ({| before_record_index := index; lifecycle_state := state;
                     lifecycle_reason := got EmptyString (get_string rj) |} :: more)
        end
  end.

(** [manifest.value("lifecycle_events", json::array())], iterated over. *)
Definition lifecycle_array (m : json) : result (list json) :=
  match m with
  | JObject ms =>
      match member "lifecycle_events" ms with
      | None => Ok []
      | Some (JArray es) => Ok es
      | Some (JObject es) => Ok (map snd es)
      | Some JNull => Ok []
      | Some j => Ok [j]
      end
  | _ => Throw (type_error 306 ("cannot use value() with " +:+ type_name m))
  end.

(** ** Validation of a session *)

(** A session whose checks succeeded. *)
Record SessionSource := {
  src_manifest : json;
  src_manifest_checksum : string;
  src_complete : bool;
  src_kraken : bool;
  src_depth : Z;
  src_raw : string;
  src_checksum : string;
  src_scanned : Scan;
  src_records : list RawMessage;
  src_lifecycle : list LifecycleEvent;
}.

Section session.
Context `{JsonLib} `{Crc32} (sha256 : string → string).
(** [std::filesystem::canonical] *)
Context (canonical : string → result string).
Implicit Types fs : FileSystem.

Definition file_sha256 fs (path : string) : result string :=
  match fs !! path with
  | Some text => Ok (sha256 text)
  | None => Throw (RuntimeError ("missing raw file: " +:+ path))
  end.

(** The path of the manifest that is replayed. *)
Definition manifest_path fs (directory : string) (allow_incomplete : bool) : string :=
  let path := path_join directory "manifest.json" in
  if negb (bool_decide (is_Some (fs !! path))) && allow_incomplete
  then path_join directory "manifest.inprogress.json" else path.

(** The configuration part of the manifest. *)
Definition check_configuration (m : json) (kraken : bool) (depth : Z) : result unit :=
  config ← (if kraken then kraken_configuration depth else Ok configuration);
  config ← check_products m kraken config;
  _ ← (if kraken then check_subscription m config else Ok tt);
  _ ← check_same m config ["venues"; "instruments"; "product_metadata"; "processor_version"];
  hash ← at_key m "configuration_hash";
  text ← json_dump config;
  throw_if (negb (json_equal hash (JString (sha256 text)))) (RuntimeError "configuration hash mismatch").

(** The metadata of the raw file and its canonical path. *)
Definition check_raw_path (m : json) (kraken : bool) (directory : string) : result (json * string) :=
  files ← at_key m "raw_files";
  _ ← throw_if (negb (bool_decide (json_size files = 1%nat))) (RuntimeError "expected one Coinbase raw file");
  metadata ← at_index files 0;
  same ← at_equals metadata "venue" (JString (if kraken then "kraken" else "coinbase"));
  _ ← throw_if (negb same) (RuntimeError "unexpected raw venue");
  pj ← at_key metadata "path"; relative ← get_string pj;
  _ ← throw_if (is_absolute relative) (RuntimeError "raw path must be relative");
  root ← canonical directory;
  raw ← canonical (path_join root relative);
  _ ← throw_if (escapes (lexically_relative (split_path raw) (split_path root)))
        (RuntimeError "raw path escapes session");
  Ok (metadata, raw).

(** The sizes and the hash of the raw file. *)
Definition check_raw_file (complete : bool) (metadata : json) (text checksum : string) : result unit :=
  let count_error := "invalid raw metadata count"%string in
  _ ← when_required complete metadata "bytes" (λ v, negb (is_number_unsigned v)) count_error;
  _ ← when_required complete metadata "records" (λ v, negb (is_number_unsigned v)) count_error;
  _ ← when_required complete metadata "bytes"
        (λ v, negb (json_equal v (JUnsigned (Z.of_nat (String.length text))))) "raw file size mismatch";
  when_required complete metadata "sha256" (λ v, negb (json_equal v (JString checksum))) "raw checksum mismatch".

(** All the checks before the replay. *)
Definition check_session fs (directory : string) (allow_incomplete : bool) : result SessionSource :=
  match fs !! manifest_path fs directory allow_incomplete with
  | None => Throw (RuntimeError "missing session manifest")
  | Some bytes =>
      m ← json_parse bytes;
      complete ← check_status m allow_incomplete;
      '(kraken, depth) ← check_venue m;
      _ ← check_configuration m kraken depth;
      '(metadata, raw) ← check_raw_path m kraken directory;
      checksum ← file_sha256 fs raw;
      let text := default EmptyString (fs !! raw) in
      _ ← check_raw_file complete metadata text checksum;
      scanned ← scan_file (if kraken : bool then Kraken else Coinbase) (Some text);
      _ ← when_required complete metadata "records"
            (λ v, negb (json_equal v (JUnsigned (scan_records scanned)))) "raw record count mismatch";
      _ ← (if complete : bool then check_complete m metadata (scan_records scanned) else Ok tt);
      array ← lifecycle_array m;
      lifecycle ← check_lifecycle complete (scan_records scanned) 0 array;
      _ ← throw_if (is_object (field m "lifecycle_events") && negb (bool_decide (length array = 0%nat)))
            (type_error 305 "cannot use operator[] with a numeric argument with object");
      Ok {| src_manifest := m; src_manifest_checksum := sha256 bytes; src_complete := complete;
            src_kraken := kraken; src_depth := depth; src_raw := raw; src_checksum := checksum;
            src_scanned := scanned; src_records := (read_all (open_reader (Some (text, false)))).2;
            src_lifecycle := lifecycle |}
  end.

(** ** The result document *)

Definition transition_json (t : Transition) : json :=
  json_object [("record_index", JUnsigned (tr_index t)); ("from", JString (book_name (tr_from t)));
               ("to", JString (book_name (tr_to t))); ("reason", JString (tr_reason t))].

Definition level_json {P Q} (l : FixedPoint P * FixedPoint Q) : json :=
  JArray [JInteger (raw l.1); JInteger (raw l.2)].

Definition book_contents (b : OrderBook) (sequence : json) : json :=
  json_object [("bids", JArray (map level_json (bids_ b))); ("asks", JArray (map level_json (asks_ b)));
               ("state", JString (book_name (state_ b))); ("book_sequence", sequence)].

Definition best_json (l : option BookLevel) : json :=
  match l with Some l => JInteger (raw (price l)) | None => JNull end.

Fixpoint erase_member (key : string) (ms : list (string * json)) : list (string * json) :=
  match ms with
  | [] => []
  | (k, v) :: rest => if String.eqb k key then rest else (k, v) :: erase_member key rest
  end.
Definition erase_key (key : string) (j : json) : json :=
  match j with JObject ms => JObject (erase_member key ms) | _ => j end.

(** The members both results start with. *)
Definition source_keys (src : SessionSource) : result (list (string * json)) :=
  session ← at_key (src_manifest src) "session_id";
  config ← at_key (src_manifest src) "configuration_hash";
  Ok [("format_version", JInteger 1); ("source_session_id", session);
      ("source_manifest_sha256", JString (src_manifest_checksum src));
      ("source_raw_sha256", JString (src_checksum src)); ("configuration_hash", config);
      ("complete_source", JBool (src_complete src)); ("research_valid", JBool (src_complete src))].

(** The members about the final book and the transitions. *)
Definition final_keys (b : OrderBook) (contents : json) (ts : list Transition) : result (list (string * json)) :=
  let transitions := JArray (map transition_json ts) in
  contents_text ← json_dump contents;
  transitions_text ← json_dump transitions;
  Ok [("final_book_state", JString (book_name (state_ b)));
      ("final_best_bid", best_json (best_bid b)); ("final_best_ask", best_json (best_ask b));
      ("final_bid_levels", JUnsigned (Z.of_nat (length (bids_ b))));
      ("final_ask_levels", JUnsigned (Z.of_nat (length (asks_ b))));
      ("final_book_hash", JString (sha256 contents_text));
      ("state_transitions", transitions);
      ("state_transition_hash", JString (sha256 transitions_text))].

(** The hash of what does not depend on where and when the session was
    recorded, and the final book on request. *)
Definition seal_result (result : json) (contents : json) (include_final_book : bool) : Prelude.result json :=
  let canonical_result :=
    set_key "final_book" contents (erase_key "source_manifest_sha256" (erase_key "source_session_id" result)) in
  text ← json_dump canonical_result;
  let result := set_key "deterministic_result_hash" (JString (sha256 text)) result in
  Ok (if include_final_book then set_key "final_book" contents result else result).

(** ** The replays *)

Definition all_outcomes : list MessageOutcome.t :=
  [MessageOutcome.BookUpdated; MessageOutcome.Ignored; MessageOutcome.Duplicate; MessageOutcome.OutOfOrder;
   MessageOutcome.SequenceGap; MessageOutcome.ParseError; MessageOutcome.RecordingRejected;
   MessageOutcome.ApplyError].

(** A counter that starts as the integer zero. *)
Definition count_json (n : nat) : json := match n with O => JInteger 0 | _ => JUnsigned (Z.of_nat n) end.

Definition outcome_counts (l : list MessageOutcome.t) : json :=
  json_object (map (λ o, (outcome_name o, count_json (length (filter (λ x, x = o) l)))) all_outcomes).

Definition coinbase_result (src : SessionSource) (s : ReplayState) (include_final_book : bool) : result json :=
  let b := replay_book s in
  let contents := book_contents b (json_optional (last_sequence_ b)) in
  let counts := outcome_counts (outcomes s) in
  source ← source_keys src;
  final ← final_keys b contents (transitions s);
  seal_result
    (json_object (source ++
       [("messages_read", JUnsigned (rp_count s)); ("outcomes", counts);
        ("book_messages", field counts "BookUpdated"); ("ignored_messages", field counts "Ignored");
        ("snapshots", JUnsigned (rp_snapshots s)); ("updates", JUnsigned (rp_updates s));
        ("sequence_gaps", field counts "SequenceGap"); ("connection_boundaries", JUnsigned (boundaries s));
        ("final_sequence", json_optional (last_ (tracker (rp_market s))))] ++ final))
    contents include_final_book.

Definition counts_json (m : gmap string Z) : json :=
  json_object (map (λ kv, (kv.1, JUnsigned kv.2)) (map_to_list m)).

Definition kraken_result (src : SessionSource) (s : KrakenReplay) (include_final_book : bool) : result json :=
  let b := book_ (rk_processor s) in
  let contents := book_contents b JNull in
  source ← source_keys src;
  final ← final_keys b contents (rk_transitions s);
  seal_result
    (json_object (source ++
       [("messages_read", JUnsigned (rk_count s)); ("outcomes", counts_json (rk_outcomes s));
        ("metrics", counts_json (metrics_ (rk_processor s))); ("checksum", JUnsigned (checksum_ (rk_processor s)));
        ("final_sequence", JNull)] ++ final))
    contents include_final_book.

(** The product configuration of the replay, from the validated manifest. *)
Definition replay_products (m : json) : result Products :=
  all ← at_key m "product_metadata"; precision ← at_key all "coinbase:BTC-USD";
  pj ← at_key precision "price_scale"; p ← get_uint64 pj;
  qj ← at_key precision "quantity_scale"; q ← get_uint64 qj;
  make_symbol_mapper [("BTC-USD", {| instrument := BTC_USD; price_scale := p; quantity_scale := q |})].

(** The result document; [fs'] is the file system after the records were
    read. *)
Definition replay_result fs fs' (directory : string) (allow_incomplete include_final_book : bool) : result json :=
  src ← check_session fs directory allow_incomplete;
  let complete := src_complete src in
  let in_progress := json_equal (field (src_manifest src) "status") (JString "in_progress") in
  document ←
    (if src_kraken src then
       s ← kraken_replay (src_depth src) complete in_progress (src_lifecycle src) (src_records src);
       checksum ← file_sha256 fs' (src_raw src);
       _ ← throw_if (negb (String.eqb checksum (src_checksum src)))
             (RuntimeError "source changed or invalid lifecycle ordering");
       kraken_result src s include_final_book
     else
       products ← replay_products (src_manifest src);
       s ← coinbase_replay products complete in_progress (src_lifecycle src) (src_records src);
       checksum ← file_sha256 fs' (src_raw src);
       _ ← throw_if (negb (String.eqb checksum (src_checksum src))) (RuntimeError "source changed during replay");
       coinbase_result src s include_final_book);
  again ← file_sha256 fs' (manifest_path fs directory allow_incomplete);
  _ ← throw_if (negb (String.eqb again (src_manifest_checksum src))) (RuntimeError "manifest changed during replay");
  Ok document.

Definition replay (directory output : string) (allow_incomplete include_final_book : bool) (io : publish_io)
    fs fs' : FileSystem * result unit :=
  match replay_result fs fs' directory allow_incomplete include_final_book with
  | Throw e => (fs', Throw e)
  | Ok document => publish io output document fs'
  end.
End session.
