(* ===== verification/Benchmark.v ===== *)
(** * The end-to-end latency benchmark

    [benchmarks/e2e_latency_benchmark.cpp]: a trial feeds a recorded dataset
    through the message handler and the recording queue while the writer thread
    records it again, measures every message, and verifies the new recording.
    Several trials are compared by what they have in common, [identity].  Clock
    readings are arguments; floating-point quotients, which [identity] removes,
    are parameters. *)

From S2P Require Import Prelude.
From S2P Require Import Text.
From S2P Require Import CoreTypes.
From S2P Require Import SequenceTracker.
From S2P Require Import OrderBook.
From S2P Require Import Json.
From S2P Require Import CoinbaseParser.
From S2P Require Import FeedHealth.
From S2P Require Import RecordingQueue.
From S2P Require Import CommandLine.
From S2P Require Import Statistics.
From S2P Require Import CoinbaseHandler.
From S2P Require Import Recording.
From S2P Require Import RuntimeStatus.
From S2P Require Import RecordingWriter.
From S2P Require Import LiveRuntime.
From S2P Require Import Capture.
From S2P Require Import SessionReplay.

Open Scope Z_scope.

(** ** Data *)

Record StageTimings := {
  enqueue_ns : Z; json_parse_ns : Z; schema_validation_ns : Z; fixed_point_ns : Z;
  canonical_event_ns : Z; sequence_validation_ns : Z; book_apply_ns : Z; status_publish_ns : Z;
}.

(** [stage_fields] *)
Definition stage_fields : list (string * (StageTimings → Z)) :=
  [("enqueue_ns", enqueue_ns); ("json_parse_ns", json_parse_ns);
   ("schema_validation_ns", schema_validation_ns); ("fixed_point_ns", fixed_point_ns);
   ("canonical_event_ns", canonical_event_ns); ("sequence_validation_ns", sequence_validation_ns);
   ("book_apply_ns", book_apply_ns); ("status_publish_ns", status_publish_ns)].

(** What the clocks show while one message is handled: the receive times, the
    end of the handler's transaction, the reading after the handler, and the
    stages of the profiling mode. *)
Record Readings := {
  rd_wall : ReceiveWallTimestamp;
  rd_mono : ReceiveMonotonicTimestamp;
  rd_now : ReceiveMonotonicTimestamp;
  rd_after : Z;
  rd_stages : StageTimings;
}.

Record LatencySample := {
  nanoseconds : Z;
  sample_snapshot : bool;
  sample_index : Z;
  sample_bytes : Z;
  sample_changes : nat;
}.

Record Metadata := {
  md_index : Z;
  md_bytes : Z;
  md_changes : nat;
  md_snapshot : bool; md_l2 : bool;
  md_outcome : MessageOutcome.t;
  md_latency : option Z;
  md_stages : StageTimings;
}.

(** The local variables of the loop over the dataset. *)
Record Feed := {
  fd_connection : option Z;
  fd_time : Z;
  fd_metadata : list Metadata;
  fd_outcomes : json;
  fd_samples : list LatencySample;
  fd_all : list Z; fd_snapshots : list Z; fd_updates : list Z;
}.

#[export] Instance Feed_eta : EtaRecord Feed := λ f,
  {| fd_connection := fd_connection f; fd_time := fd_time f; fd_metadata := fd_metadata f;
     fd_outcomes := fd_outcomes f; fd_samples := fd_samples f; fd_all := fd_all f;
     fd_snapshots := fd_snapshots f; fd_updates := fd_updates f |}.

Definition new_feed : Feed :=
  {| fd_connection := None; fd_time := 0; fd_metadata := [];
     fd_outcomes := json_object (map (λ o, (outcome_name o, JInteger 0)) all_outcomes);
     fd_samples := []; fd_all := []; fd_snapshots := []; fd_updates := [] |}.

(** ** Operations: one message *)

(** The publish callback of the handler. *)
Definition bench_publish (r : ProcessResult) (p : RuntimeProgress) (k : Market) (s : RuntimeStatus) : RuntimeStatus :=
  let s := s <| received_messages ::= incr64 |> in
  let s := if negb (bool_decide (outcome r = MessageOutcome.RecordingRejected))
           then s <| enqueued_messages ::= incr64 |> <| processed_messages ::= incr64 |> else s in
  let s := s <| st_progress ::= λ q,
             q <| last_received_index := last_received_index p |>
               <| last_enqueued_index := last_enqueued_index p |>
               <| last_processed_index := last_processed_index p |> |> in
  (show_book (book k) s) <| st_last_sequence := last_ (tracker k) |>.

(** A new connection in the dataset. *)
Definition bench_reset (k : Market) : Market :=
  k <| tracker ::= tracker_reset |> <| book ::= mark_initializing |> <| health := new_health |>.

Definition new_connection (raw : RawMessage) (f : Feed) : bool :=
  negb (bool_decide (fd_connection f = Some (connection_id raw))).

(** [outcomes[name] = outcomes[name].get<std::uint64_t>() + 1] *)
Definition count_outcome (o : MessageOutcome.t) (outcomes : json) : result json :=
  n ← get_uint64 (field outcomes (outcome_name o));
  Ok (set_key (outcome_name o) (JUnsigned (incr64 n)) outcomes).

Definition payload_length (raw : RawMessage) : Z := Z.of_nat (String.length (payload raw)).

Definition metadata_of (raw : RawMessage) (rd : Readings) (r : ProcessResult) : Metadata :=
  {| md_index := record_index raw; md_bytes := payload_length raw; md_changes := number_of_changes r;
     md_snapshot := contains_snapshot r; md_l2 := negb (bool_decide (canonical_event_count r = 0%nat));
     md_outcome := outcome r; md_latency := latency r; md_stages := rd_stages rd |}.

(** The sample of a message that changed the book. *)
Definition add_sample (raw : RawMessage) (r : ProcessResult) (f : Feed) : Feed :=
  match latency r with
  | None => f
  | Some ns =>
      let snapshot := negb (snapshots r =? 0) in
      let f := f <| fd_samples ::= λ l, l ++ [{| nanoseconds := ns; sample_snapshot := snapshot;
                   sample_index := record_index raw; sample_bytes := payload_length raw;
                   sample_changes := number_of_changes r |}] |>
                 <| fd_all ::= λ l, l ++ [ns] |> in
      if snapshot then f <| fd_snapshots ::= λ l, l ++ [ns] |> else f <| fd_updates ::= λ l, l ++ [ns] |>
  end.

(** What follows the handling of a message. *)
Definition account (raw : RawMessage) (rd : Readings) (r : ProcessResult) (f : Feed) : result Feed :=
  let f := f <| fd_time ::= Z.add (rd_after rd - mono_ns (rd_mono rd)) |>
             <| fd_metadata ::= λ l, l ++ [metadata_of raw rd r] |> in
  outcomes ← count_outcome (outcome r) (fd_outcomes f);
  let f := f <| fd_outcomes := outcomes |> in
  _ ← throw_if (bool_decide (outcome r = MessageOutcome.RecordingRejected)) (RuntimeError (pr_error r));
  Ok (add_sample raw r f).

(** ** Operations: the result of a trial *)

(** The bucket of an update by its number of changes. *)
Definition bucket_of (n : nat) : nat :=
  if (n =? 0)%nat then 0 else if (n =? 1)%nat then 1 else if (n <=? 5)%nat then 2
  else if (n <=? 20)%nat then 3 else if (n <=? 100)%nat then 4 else 5.

Definition bucket_names : list string := ["0"; "1"; "2-5"; "6-20"; "21-100"; "101+"].

Definition fill_buckets (samples : list LatencySample) : list (list Z) :=
  foldl (λ bs s, if sample_snapshot s then bs
                 else alter (λ l, l ++ [nanoseconds s]) (bucket_of (sample_changes s)) bs)
    (replicate 6 []) samples.

Definition levels_processed (samples : list LatencySample) : Z :=
  foldl (λ n s, u64 (n + Z.of_nat (sample_changes s))) 0 samples.

(** The index of the first sample of the greatest latency. *)
Definition slowest (samples : list LatencySample) : Z * option Z :=
  foldl (λ m s, if nanoseconds s >? m.1 then (nanoseconds s, Some (sample_index s)) else m) (-1, None) samples.

Definition record_json (m : Metadata) : json :=
  json_object
    [("record_index", JUnsigned (md_index m)); ("payload_bytes", JUnsigned (md_bytes m));
     ("number_of_changes", JUnsigned (Z.of_nat (md_changes m)));
     ("snapshot_or_update",
      JString (if md_snapshot m then "snapshot" else if md_l2 m then "update" else "unsampled"));
     ("outcome", JString (outcome_name (md_outcome m)));
     ("latency_ns", match md_latency m with Some ns => JInteger ns | None => JNull end)].

(** [record["stages"][name] = duration] *)
Definition add_stage (name : string) (duration : Z) (record : json) : json :=
  let stages := match field record "stages" with JNull => JObject [] | j => j end in
  set_key "stages" (set_key name (JUnsigned duration) stages) record.

Definition profile_records (metadata : list Metadata) (records : list json) : list json :=
  foldl (λ rs stage, zip_with (λ m r, add_stage stage.1 (stage.2 (md_stages m)) r) metadata rs)
    records stage_fields.

(** [static_cast<int>(book.state())] *)
Definition state_number (s : BookState) : Z :=
  match s with
  | Initializing => 0 | Valid => 1 | Stale => 2 | Resyncing => 3 | Disconnected => 4 | Invalid => 5
  end.

Definition bench_contents (b : OrderBook) : json :=
  json_object [("bids", JArray (map level_json (bids_ b))); ("asks", JArray (map level_json (asks_ b)));
               ("state", JInteger (state_number (state_ b))); ("book_sequence", json_optional (last_sequence_ b))].

Section document.
Context `{JsonLib} (sha256 : string → string) (profile_stages : bool).
(** The quotient of a count and a duration in seconds, the mean of some
    durations, and the total of some durations by a count. *)
Context (per_second : Z → Z → json) (mean_of : list Z → json) (per_level : list Z → Z → json).

Definition stats_json (values : list Z) : json :=
  let s := statistics values in
  json_object [("samples", JUnsigned (st_samples s)); ("min_ns", JInteger (min_ns s)); ("mean_ns", mean_of values);
               ("p50_ns", JInteger (p50_ns s)); ("p95_ns", JInteger (p95_ns s)); ("p99_ns", JInteger (p99_ns s));
               ("max_ns", JInteger (max_ns s))].

Definition stage_statistics (metadata : list Metadata) : json :=
  if profile_stages
  then json_object (map (λ stage, (stage.1, stats_json (map (λ m, to_int64 (stage.2 (md_stages m))) metadata)))
                      stage_fields)
  else JNull.

Definition records_json (metadata : list Metadata) : json :=
  let records := map record_json metadata in
  JArray (if profile_stages then profile_records metadata records else records).

Definition bucket_stats (samples : list LatencySample) : json :=
  json_object (zip_with (λ name values, (name, stats_json values)) bucket_names (fill_buckets samples)).

(** [result] at the end of the market thread; [inputs] is the size of the
    dataset. *)
Definition document (inputs : Z) (f : Feed) (k : Market) : result json :=
  let outcomes := fd_outcomes f in
  let contents := bench_contents (book k) in
  let levels := levels_processed (fd_samples f) in
  let count {A} (l : list A) := JUnsigned (Z.of_nat (length l)) in
  parse_errors ← get_uint64 (field outcomes "ParseError");
  gaps ← get_uint64 (field outcomes "SequenceGap");
  apply_errors ← get_uint64 (field outcomes "ApplyError");
  text ← json_dump contents;
  Ok (json_object
    [("input_messages", JUnsigned inputs); ("book_messages", count (fd_all f));
     ("snapshots", count (fd_snapshots f)); ("updates", count (fd_updates f));
     ("outcomes", outcomes); ("ignored", field outcomes "Ignored");
     ("failed", JUnsigned (u64 (parse_errors + gaps + apply_errors)));
     ("handler_elapsed_ns", JInteger (fd_time f));
     ("messages_per_second", per_second inputs (fd_time f));
     ("levels_processed", JUnsigned levels);
     ("levels_per_second", per_second levels (fd_time f));
     ("nanoseconds_per_changed_level", per_level (map nanoseconds (fd_samples f)) levels);
     ("largest_payload_bytes", JUnsigned (foldl Z.max 0 (map md_bytes (fd_metadata f))));
     ("largest_change_count", JUnsigned (Z.of_nat (foldl Nat.max 0%nat (map md_changes (fd_metadata f)))));
     ("maximum_latency_record_index", json_optional (slowest (fd_samples f)).2);
     ("update_size_latency", bucket_stats (fd_samples f));
     ("records", records_json (fd_metadata f));
     ("stage_latency", stage_statistics (fd_metadata f));
     ("snapshot_latency", stats_json (fd_snapshots f));
     ("update_latency", stats_json (fd_updates f));
     ("all_book_latency", stats_json (fd_all f));
     ("final_sequence", json_optional (last_ (tracker k)));
     ("final_best_bid", best_json (best_bid (book k)));
     ("final_best_ask", best_json (best_ask (book k)));
     ("final_book_contents", contents);
     ("final_bid_levels", count (bids_ (book k)));
     ("final_ask_levels", count (asks_ (book k)));
     ("final_book_hash", JString (sha256 text))]).
End document.

(** ** Operations: the trial *)

(** The market thread: waiting for the writer, in the loop over the dataset
    with the rest of it, waiting for the end of the writer, or ended with
    [result] or [failure]. *)
Inductive Phase :=
  | Waiting
  | Feeding (f : Feed) (rest : list RawMessage)
  | Draining (f : Feed)
  | Ended (r : result json).

Record Trial := {
  tr_handler : Handler;
  tr_env : LiveEnv;
  tr_writer : WriterState;
  tr_phase : Phase;
}.

#[export] Instance Trial_eta : EtaRecord Trial := λ t,
  {| tr_handler := tr_handler t; tr_env := tr_env t; tr_writer := tr_writer t; tr_phase := tr_phase t |}.

Definition new_market : Market :=
  {| book := new_book Coinbase BTC_USD; tracker := {| last_ := None |}; health := new_health |}.

(** The handler, the queue and the shared state of a trial. *)
Definition trial_initial (config : RawQueueConfig) : Trial :=
  {| tr_handler := {| market := new_market; handler_connection_id := 0; progress := new_progress; next_index_ := 0 |};
     tr_env := {| le_queue := {| rq := new_queue config; taken := [] |}; le_shared := new_shared |};
     tr_writer := WriterStarting; tr_phase := Waiting |}.

Definition tr_shared (t : Trial) : SharedRuntime := le_shared (tr_env t).
Definition tr_status (t : Trial) : RuntimeStatus := sh_status (tr_shared t).

(** The market thread ends: its result or the exception it caught is kept, and
    the queue is closed. *)
Definition trial_end (r : result json) (t : Trial) : Trial :=
  t <| tr_phase := Ended r |> <| tr_env ::= λ env, env <| le_queue ::= close_log |> |>.

Section trial.
Context `{JsonLib} (products : Products) (sha256 : string → string) (profile_stages : bool).
Context (per_second : Z → Z → json) (mean_of : list Z → json) (per_level : list Z → Z → json).
Context (data : list RawMessage).
Implicit Types t : Trial.

Definition inputs : Z := Z.of_nat (length data).

(** The publish callback on what it reaches. *)
Definition bench_publish_callback (r : ProcessResult) (p : RuntimeProgress) (k : Market) : LiveEnv → LiveEnv :=
  on_status (bench_publish r p k).

(** One iteration of the loop over the dataset. *)
Definition trial_message (rd : Readings) (raw : RawMessage) (f : Feed) (rest : list RawMessage) t : Trial :=
  let '(h, f) :=
    if new_connection raw f
    then ((tr_handler t) <| handler_connection_id := connection_id raw |> <| market ::= bench_reset |>,
          f <| fd_connection := Some (connection_id raw) |>)
    else (tr_handler t, f) in
  let '(h, env, r) :=
    handle products bench_publish_callback (rd_now rd) h (tr_env t) (payload raw) (rd_wall rd) (rd_mono rd) in
  let t := t <| tr_handler := h |> <| tr_env := env |> in
  match account raw rd r f with
  | Ok f => t <| tr_phase := Feeding f rest |>
  | Throw e => trial_end (Throw e) t
  end.

(** The next step of the market thread; nothing while it waits. *)
Definition trial_next (rd : Readings) t : Trial :=
  match tr_phase t with
  | Waiting =>
      if sh_writer_ready (tr_shared t) || sh_writer_done (tr_shared t)
      then match fatal_error (tr_status t) with
           | Some e => trial_end (Throw (RuntimeError e)) t
           | None => t <| tr_phase := Feeding new_feed data |>
           end
      else t
  | Feeding f (raw :: rest) => trial_message rd raw f rest t
  | Feeding f [] =>
      t <| tr_env ::= λ env, env <| le_queue ::= close_log |> |> <| tr_phase := Draining f |>
  | Draining f =>
      if sh_writer_done (tr_shared t)
      then match fatal_error (tr_status t) with
           | Some e =>
               trial_end (Throw (RuntimeError e)) (t <| tr_handler ::= λ h, h <| market ::= λ k, k <| book ::= invalidate |> |> |>)
           | None =>
               trial_end (document sha256 profile_stages per_second mean_of per_level inputs f (market (tr_handler t))) t
           end
      else t
  | Ended _ => t
  end.

(** A run of both threads. *)
Inductive trial_event :=
  | TNext (rd : Readings)
  | TWriterStart (env : WriterEnv) (minimum_free_disk_bytes : Z)
  | TWriterNext (io : record_io) (close_io : stream_io) (close_ok : bool).

Definition trial_system t : WriterSystem :=
  {| ws_writer := tr_writer t; ws_queue := le_queue (tr_env t); ws_shared := tr_shared t |}.
Definition with_trial_system (s : WriterSystem) t : Trial :=
  t <| tr_writer := ws_writer s |> <| tr_env := {| le_queue := ws_queue s; le_shared := ws_shared s |} |>.

Definition trial_step t (e : trial_event) : Trial :=
  match e with
  | TNext rd => trial_next rd t
  | TWriterStart env minimum => with_trial_system (writer_step (trial_system t) (WStart env minimum)) t
  | TWriterNext io close_io close_ok => with_trial_system (writer_step (trial_system t) (WNext io close_io close_ok)) t
  end.

(** What the types of the clocks guarantee. *)
Definition trial_event_ok (e : trial_event) : Prop :=
  match e with
  | TNext rd => in_int64 (wall_ns (rd_wall rd)) ∧ in_int64 (mono_ns (rd_mono rd))
  | _ => True
  end.

Inductive trial_run (config : RawQueueConfig) : list trial_event → Trial → Prop :=
  | trial_run_nil : trial_run config [] (trial_initial config)
  | trial_run_snoc es t e :
      trial_run config es t → trial_event_ok e → trial_run config (es ++ [e]) (trial_step t e).

(** The verification of the written records against the dataset from the
    position [count] on. *)
Fixpoint verify_records (count : nat) (written : list RawMessage) : result nat :=
  match written with
  | [] => Ok count
  | w :: rest =>
      let mismatch := RuntimeError "recording FIFO/content mismatch" in
      match data !! count with
      | None => Throw mismatch
      | Some raw =>
          if negb (record_index w =? Z.of_nat count) || negb (String.eqb (payload w) (payload raw)) ||
             negb (connection_id w =? connection_id raw) || negb (bool_decide (venue w = venue raw))
          then Throw mismatch else verify_records (S count) rest
      end
  end.

(** The members added after the verification. *)
Definition progress_keys (s : RuntimeStatus) : list (string * json) :=
  let p := st_progress s in
  [("enqueued_records", JUnsigned (enqueued_messages s)); ("written_records", JUnsigned (written_messages s));
   ("last_received_index", json_optional (last_received_index p));
   ("last_enqueued_index", json_optional (last_enqueued_index p));
   ("last_written_index", json_optional (last_written_index p));
   ("last_processed_index", json_optional (last_processed_index p))].

(** The end of [trial], when both threads have joined; [ended] is the result
    or the failure of the market thread and [file] the recording. *)
Definition trial_result (ended : result json) (s : RuntimeStatus) (file : option (string * bool)) : result json :=
  match fatal_error s with
  | Some e => Throw (RuntimeError (e +:+ " " +:+ unpersisted_processed_range s))
  | None =>
      result ← ended;
      let p := st_progress s in
      _ ← throw_if (negb (enqueued_messages s =? inputs) || negb (written_messages s =? inputs) ||
                    negb (bool_decide (last_received_index p = last_written_index p)) ||
                    negb (bool_decide (last_processed_index p = last_written_index p)))
            (RuntimeError "recording progress mismatch");
      let '(reader, written) := read_all (open_reader file) in
      count ← verify_records 0 written;
      _ ← throw_if (has_error reader || negb (bool_decide (count = length data)))
            (RuntimeError "written recording verification failed");
      Ok (set_keys (progress_keys s) result)
  end.

(** The value of [trial] after a run, if it has one. *)
Definition trial_value t (file : option (string * bool)) : option (result json) :=
  match tr_phase t with
  | Ended r => if sh_writer_done (tr_shared t) then Some (trial_result r (tr_status t) file) else None
  | _ => None
  end.
End trial.

(** ** Operations: the comparison of trials *)

Definition map_elements (f : json → json) (j : json) : json :=
  match j with
  | JArray es => JArray (map f es)
  | JObject ms => JObject (map (λ m, (m.1, f m.2)) ms)
  | _ => j
  end.

Definition only_samples (j : json) : json := json_object [("samples", field j "samples")].

Definition identity (result : json) : json :=
  let result := foldl (λ j key, erase_key key j) result
    ["messages_per_second"; "handler_elapsed_ns"; "levels_per_second"; "nanoseconds_per_changed_level";
     "maximum_latency_record_index"] in
  let result := erase_key "stage_latency" result in
  let result := set_key "records"
    (map_elements (λ r, erase_key "stages" (erase_key "latency_ns" r)) (field result "records")) result in
  let result := set_key "update_size_latency"
    (map_elements only_samples (field result "update_size_latency")) result in
  foldl (λ j category, set_key category (only_samples (field j category)) j) result
    ["snapshot_latency"; "update_latency"; "all_book_latency"].

(** The loop over the trials; [run i] is the value of trial [i], [todo] counts
    the trials from [i] on. *)
Fixpoint trial_loop (include_final_book : bool) (warmups : Z) (run : Z → result json) (todo : nat) (i : Z)
    (expected : json) (reported : list json) : result (list json) :=
  match todo with
  | O => Ok reported
  | S todo =>
      result ← run i;
      let stable := identity result in
      expected ← (if i =? 0 then Ok stable
                  else _ ← throw_if (negb (json_equal stable expected))
                             (RuntimeError "nondeterministic trial counts or final book");
                       Ok expected);
      let reported :=
        if i >=? warmups then
          let result := if include_final_book then result else erase_key "final_book_contents" result in
          reported ++ [set_key "trial" (JUnsigned (i - warmups + 1)) result]
        else reported in
      trial_loop include_final_book warmups run todo (i + 1) expected reported
  end.

(** ** Operations: the command *)

Definition bench_positive (value : string) : result Z :=
  let error := InvalidArgument "expected positive integer" in
  if String.eqb value EmptyString || front_is_minus value then Throw error
  else
    '(n, consumed) ← stoull value;
    if (n =? 0) || negb (bool_decide (consumed = String.length value)) || (n >? UINT64_MAX)
    then Throw error else Ok n.

Record BenchOptions := {
  bo_input : string; bo_output : string;
  bo_trials : Z; bo_warmups : Z;
  bo_config : RawQueueConfig;
  bo_profile : bool; bo_final_book : bool;
}.

#[export] Instance BenchOptions_eta : EtaRecord BenchOptions := λ o,
  {| bo_input := bo_input o; bo_output := bo_output o; bo_trials := bo_trials o; bo_warmups := bo_warmups o;
     bo_config := bo_config o; bo_profile := bo_profile o; bo_final_book := bo_final_book o |}.

#[export] Instance RawQueueConfig_eta : EtaRecord RawQueueConfig := λ c,
  {| maximum_messages := maximum_messages c; maximum_bytes := maximum_bytes c |}.

Definition default_bench_options : BenchOptions :=
  {| bo_input := EmptyString; bo_output := EmptyString; bo_trials := 5; bo_warmups := 1;
     bo_config := default_queue_config; bo_profile := false; bo_final_book := false |}.

(** One option with its value. *)
Definition bench_option (option value : string) (o : BenchOptions) : result BenchOptions :=
  if String.eqb option "--input" then Ok (o <| bo_input := value |>)
  else if String.eqb option "--output" then Ok (o <| bo_output := value |>)
  else if String.eqb option "--trials" then n ← bench_positive value; Ok (o <| bo_trials := n |>)
  else if String.eqb option "--warmup-trials" then n ← bench_positive value; Ok (o <| bo_warmups := n |>)
  else if String.eqb option "--profile-stages" then
    if negb (String.eqb value "on") && negb (String.eqb value "off")
    then Throw (InvalidArgument "--profile-stages expects on or off")
    else Ok (o <| bo_profile := String.eqb value "on" |>)
  else if String.eqb option "--queue-messages" then
    n ← bench_positive value; Ok (o <| bo_config ::= λ c, c <| maximum_messages := n |> |>)
  else if String.eqb option "--queue-bytes" then
    n ← bench_positive value; Ok (o <| bo_config ::= λ c, c <| maximum_bytes := n |> |>)
  else Throw (InvalidArgument ("unknown option " +:+ option)).

(** The loop over the arguments after the program's name. *)
Fixpoint bench_options (args : list string) (o : BenchOptions) {struct args} : result BenchOptions :=
  match args with
  | [] => Ok o
  | option :: rest =>
      if String.eqb option "--include-final-book" then bench_options rest (o <| bo_final_book := true |>)
      else
        match rest with
        | [] => Throw (InvalidArgument "option requires a value")
        | value :: rest => o ← bench_option option value o; bench_options rest o
        end
  end.

(** The loop that loads the dataset. *)
Fixpoint load_records (records data : list RawMessage) : result (list RawMessage) :=
  match records with
  | [] => Ok data
  | raw :: rest =>
      _ ← throw_if (negb (bool_decide (venue raw = Coinbase)) ||
                    match last data with Some b => connection_id raw <? connection_id b | None => false end)
            (RuntimeError "expected ordered Coinbase recording");
      load_records rest (data ++ [raw])
  end.

Section command.
Context `{JsonLib} (sha256 : string → string) (build_type platform : string).

(** [before] and [after] are the two readings of the whole input, [file] what
    the reader finds in between. *)
Definition load_dataset (before after : result string) (file : option (string * bool))
    : result (list RawMessage * string) :=
  source_hash ← (bytes ← before; Ok (sha256 bytes));
  let '(reader, records) := read_all (open_reader file) in
  data ← load_records records [];
  _ ← throw_if (has_error reader) (RuntimeError (last_error_ reader));
  _ ← throw_if (bool_decide (data = [])) (RuntimeError "dataset is empty");
  again ← (bytes ← after; Ok (sha256 bytes));
  _ ← throw_if (negb (String.eqb source_hash again)) (RuntimeError "input changed while loading");
  Ok (data, source_hash).

Definition bench_report (o : BenchOptions) (source_hash : string) (trials : list json) : json :=
  json_object
    [("source", JString (bo_input o)); ("source_sha256", JString source_hash);
     ("build_type", JString build_type); ("platform", JString platform);
     ("warmup_trials", JUnsigned (bo_warmups o)); ("profile_stages", JBool (bo_profile o));
     ("queue_maximum_messages", JUnsigned (maximum_messages (bo_config o)));
     ("queue_maximum_bytes", JUnsigned (maximum_bytes (bo_config o)));
     ("percentile_rule", JString "nearest rank: ceil(percentile * sample_count) - 1");
     ("trials", JArray trials)].

(** [main] of the benchmark: the file it writes and its text; [run] gives the
    values of the trials on the loaded dataset. *)
Definition bench_main (args : list string) (output_exists : string → bool) (before after : result string)
    (file : option (string * bool)) (run : BenchOptions → list RawMessage → Z → result json) (written : bool)
    : result (string * string) :=
  o ← bench_options args default_bench_options;
  _ ← throw_if (String.eqb (bo_input o) EmptyString || String.eqb (bo_output o) EmptyString)
        (InvalidArgument "--input and --output are required");
  _ ← throw_if (output_exists (bo_output o)) (InvalidArgument "output must be a new file");
  _ ← throw_if (negb (String.eqb build_type "Release")) (RuntimeError "benchmark requires a Release build");
  '(data, source_hash) ← load_dataset before after file;
  trials ← trial_loop (bo_final_book o) (bo_warmups o) (run o data)
             (Z.to_nat (u64 (bo_warmups o + bo_trials o))) 0 JNull [];
  text ← json_dump2 (bench_report o source_hash trials);
  _ ← throw_if (negb written) (RuntimeError "report write failed");
  Ok (bo_output o, text +:+ String newline EmptyString).
End command.
