(* ===== verification/BenchmarkIdentity.v ===== *)
(** * What the benchmark compares

    [identity] removes the measurements from the result of a trial.  Two feeds
    of a dataset that differ in their measurements only have results of the
    same identity. *)

From S2P Require Import Prelude.
From S2P Require Import Text.
From S2P Require Import CoreTypes.
From S2P Require Import SequenceTracker.
From S2P Require Import OrderBook.
From S2P Require Import Json.
From S2P Require Import RecordingQueue.
From S2P Require Import Statistics.
From S2P Require Import CoinbaseHandler.
From S2P Require Import ReceiveTimes.
From S2P Require Import Recording.
From S2P Require Import RuntimeStatus.
From S2P Require Import Capture.
From S2P Require Import SessionReplay.
From S2P Require Import Benchmark.

Open Scope Z_scope.

(** ** Erasure of the measurements *)

Definition no_stages : StageTimings :=
  {| enqueue_ns := 0; json_parse_ns := 0; schema_validation_ns := 0; fixed_point_ns := 0;
     canonical_event_ns := 0; sequence_validation_ns := 0; book_apply_ns := 0; status_publish_ns := 0 |}.
Definition no_readings : Readings :=
  {| rd_wall := no_wall; rd_mono := no_mono; rd_now := no_mono; rd_after := 0; rd_stages := no_stages |}.

Definition timeless_metadata (m : Metadata) : Metadata :=
  {| md_index := md_index m; md_bytes := md_bytes m; md_changes := md_changes m; md_snapshot := md_snapshot m;
     md_l2 := md_l2 m; md_outcome := md_outcome m; md_latency := (λ _, 0) <$> md_latency m; md_stages := no_stages |}.
Definition timeless_sample (s : LatencySample) : LatencySample :=
  {| nanoseconds := 0; sample_snapshot := sample_snapshot s; sample_index := sample_index s;
     sample_bytes := sample_bytes s; sample_changes := sample_changes s |}.
Definition timeless_feed (f : Feed) : Feed :=
  {| fd_connection := fd_connection f; fd_time := 0; fd_metadata := map timeless_metadata (fd_metadata f);
     fd_outcomes := fd_outcomes f; fd_samples := map timeless_sample (fd_samples f);
     fd_all := map (λ _, 0) (fd_all f); fd_snapshots := map (λ _, 0) (fd_snapshots f);
     fd_updates := map (λ _, 0) (fd_updates f) |}.

(** Feeds that differ in their measurements only. *)
Definition same_feed (f f' : Feed) : Prop := timeless_feed f = timeless_feed f'.

#[export] Instance same_feed_equivalence : Equivalence same_feed.
Proof. split; unfold same_feed; repeat intros ?; congruence. Qed.

Record same_parts (f f' : Feed) : Prop := {
  sp_connection : fd_connection f = fd_connection f';
  sp_metadata : map timeless_metadata (fd_metadata f) = map timeless_metadata (fd_metadata f');
  sp_outcomes : fd_outcomes f = fd_outcomes f';
  sp_samples : map timeless_sample (fd_samples f) = map timeless_sample (fd_samples f');
  sp_all : map (λ _, 0) (fd_all f) = map (λ _, 0) (fd_all f');
  sp_snapshots : map (λ _, 0) (fd_snapshots f) = map (λ _, 0) (fd_snapshots f');
  sp_updates : map (λ _, 0) (fd_updates f) = map (λ _, 0) (fd_updates f');
}.

Lemma same_feed_parts f f' : same_feed f f' ↔ same_parts f f'.
Proof.
  unfold same_feed, timeless_feed. split.
  - by intros [= ???????].
  - intros [-> -> -> -> -> -> ->]. done.
Qed.

(** ** Lemmas: one message *)

Lemma add_sample_same raw r r' f f' :
  timeless_result r = timeless_result r' → same_parts f f' → same_parts (add_sample raw r f) (add_sample raw r' f').
Proof.
  intros Hr [H1 H2 H3 H4 H5 H6 H7]. unfold add_sample.
  assert (snapshots r = snapshots r' ∧ number_of_changes r = number_of_changes r' ∧
          (λ _, 0) <$> latency r = (λ _, 0) <$> latency r') as (-> & -> & Hl).
  { split_and!; [exact (f_equal snapshots Hr)|exact (f_equal number_of_changes Hr)|exact (f_equal latency Hr)]. }
  destruct (latency r) as [n|], (latency r') as [n'|]; try done.
  destruct (negb _); split; cbn; rewrite ?map_app; try done; rewrite ?H4, ?H5, ?H6, ?H7; done.
Qed.

Lemma account_same raw rd rd' r r' f f' :
  timeless_result r = timeless_result r' → same_feed f f' →
  result_map timeless_feed (account raw rd r f) = result_map timeless_feed (account raw rd' r' f').
Proof.
  intros Hr [H1 H2 H3 H4 H5 H6 H7]%same_feed_parts. unfold account.
  assert (outcome r = outcome r' ∧ pr_error r = pr_error r' ∧
          timeless_metadata (metadata_of raw rd r) = timeless_metadata (metadata_of raw rd' r')) as (-> & -> & Hm).
  { split_and!; [exact (f_equal outcome Hr)|exact (f_equal pr_error Hr)|].
    unfold timeless_metadata, metadata_of. cbn [md_index md_bytes md_changes md_snapshot md_l2 md_outcome md_latency].
    f_equal; [exact (f_equal number_of_changes Hr)|exact (f_equal contains_snapshot Hr)| |exact (f_equal outcome Hr)
      |exact (f_equal latency Hr)].
    apply (f_equal canonical_event_count) in Hr. cbn in Hr. by rewrite Hr. }
  cbn [fd_outcomes field_update]. rewrite H3. destruct (count_outcome _ _) as [o|e]; [|done].
  destruct (bool_decide _); [done|]. refine (f_equal Ok (proj2 (same_feed_parts _ _) _)).
  apply add_sample_same; [done|]. split; cbn [fd_connection fd_metadata fd_outcomes fd_samples fd_all fd_snapshots
    fd_updates field_update Feed_eta]; rewrite ?map_app, ?H2; try done. cbn [map]. by rewrite Hm.
Qed.

(** ** Lemmas: what [identity] keeps *)

Lemma set_member_map (f : json → json) key v ms :
  map (λ m, (m.1, f m.2)) (set_member key v ms) = set_member key (f v) (map (λ m, (m.1, f m.2)) ms).
Proof. induction ms as [|[k w] ms IH]; cbn; [done|]. destruct (String.compare key k); cbn; congruence. Qed.

Lemma set_members_map (f : json → json) kvs ms :
  map (λ m, (m.1, f m.2)) (set_members kvs ms) = set_members (map (λ m, (m.1, f m.2)) kvs) (map (λ m, (m.1, f m.2)) ms).
Proof.
  unfold set_members. revert ms. induction kvs as [|[k v] kvs IH]; intros ms; cbn; [done|]. by rewrite IH, set_member_map.
Qed.

Lemma map_elements_object f ms : map_elements f (json_object ms) = json_object (map (λ m, (m.1, f m.2)) ms).
Proof. unfold json_object. cbn [map_elements]. by rewrite set_members_map. Qed.

(** Functions of lists whose elements are the same once erased. *)
Lemma map_erased {A B} (erase : A → A) (f : A → B) l l' :
  (∀ x, f (erase x) = f x) → map erase l = map erase l' → map f l = map f l'.
Proof.
  intros Hf He. rewrite <-(map_ext _ _ Hf l), <-(map_ext _ _ Hf l'), <-!(map_map erase f). by rewrite He.
Qed.

Lemma foldl_map {A B C} (f : C → B → C) (g : A → B) l c : foldl (λ c x, f c (g x)) c l = foldl f c (map g l).
Proof. revert c. induction l as [|x l IH]; intros c; cbn; [done|apply IH]. Qed.

Lemma zip_with_map {A B C} (f : A → B → C) (h : A → B) l : zip_with f l (map h l) = map (λ x, f x (h x)) l.
Proof. induction l as [|x l IH]; cbn; [done|]. by rewrite IH. Qed.

Lemma map_length_same {A B} (b : B) (l l' : list A) : map (λ _, b) l = map (λ _, b) l' → length l = length l'.
Proof. intros Hl%(f_equal length). by rewrite !length_map in Hl. Qed.

Lemma levels_processed_same l l' :
  map timeless_sample l = map timeless_sample l' → levels_processed l = levels_processed l'.
Proof.
  intros Hl. unfold levels_processed. rewrite !(foldl_map (λ n c, u64 (n + Z.of_nat c)) sample_changes).
  by rewrite (map_erased timeless_sample sample_changes l l').
Qed.

Definition bucket_sizes (samples : list (bool * nat)) : list nat :=
  foldl (λ ns s, if s.1 : bool then ns else alter S (bucket_of s.2) ns) (replicate 6 0%nat) samples.

Lemma fill_buckets_sizes l :
  map length (fill_buckets l) = bucket_sizes (map (λ s, (sample_snapshot s, sample_changes s)) l).
Proof.
  unfold fill_buckets, bucket_sizes. rewrite <-foldl_map.
  change (replicate 6 0%nat) with (map (@length Z) (replicate 6 [])). generalize (replicate 6 ([] : list Z)).
  induction l as [|s l IH]; intros bs; cbn; [done|]. rewrite IH. f_equal. destruct (sample_snapshot s); [done|].
  apply (list_fmap_alter length). apply Forall_forall. intros x _. rewrite length_app. cbn. lia.
Qed.

Section identity.
Context (mean_of : list Z → json).

Definition samples_json (n : nat) : json := json_object [("samples", JUnsigned (Z.of_nat n))].

Lemma only_samples_stats l : only_samples (stats_json mean_of l) = samples_json (length l).
Proof. by destruct l. Qed.

Lemma bucket_stats_samples l :
  map_elements only_samples (bucket_stats mean_of l) =
  json_object (zip_with (λ name n, (name, samples_json n)) bucket_names (map length (fill_buckets l))).
Proof.
  unfold bucket_stats. rewrite map_elements_object. f_equal.
  generalize bucket_names (fill_buckets l). intros names. induction names as [|n names IH]; intros [|b bs]; cbn [zip_with map]; try done.
  rewrite IH, <-only_samples_stats. done.
Qed.
End identity.

(** A record without its measurements. *)
Definition erased_record (m : Metadata) : json :=
  json_object
    [("record_index", JUnsigned (md_index m)); ("payload_bytes", JUnsigned (md_bytes m));
     ("number_of_changes", JUnsigned (Z.of_nat (md_changes m)));
     ("snapshot_or_update",
      JString (if md_snapshot m then "snapshot" else if md_l2 m then "update" else "unsampled"));
     ("outcome", JString (outcome_name (md_outcome m)))].

Lemma erase_record m :
  erase_key "stages" (erase_key "latency_ns" (record_json m)) = erased_record m.
Proof. destruct m. by vm_compute. Qed.

Lemma erase_profiled m :
  erase_key "stages" (erase_key "latency_ns"
    (foldl (λ r stage, add_stage stage.1 (stage.2 (md_stages m)) r) (record_json m) stage_fields)) = erased_record m.
Proof. destruct m as [? ? ? ? ? ? ? []]. by vm_compute. Qed.

Lemma records_erased profile metadata :
  map_elements (λ r, erase_key "stages" (erase_key "latency_ns" r)) (records_json profile metadata) =
  JArray (map erased_record metadata).
Proof.
  unfold records_json. cbn [map_elements]. f_equal. destruct profile.
  - unfold profile_records, stage_fields. cbn [foldl]. rewrite !zip_with_map, map_map. apply map_ext. intros m.
    exact (erase_profiled m).
  - rewrite map_map. apply map_ext, erase_record.
Qed.

Lemma identity_members
    (v1 v2 v3 v4 v5 v6 v7 v8 v9 v10 v11 v12 v13 v14 v15 v16 v17 v18 v19 v20 v21 v22 v23 v24 v25 v26 v27 v28
     w1 w2 w3 w4 w5 w6 : json) :
  identity (set_keys
    [("enqueued_records", w1); ("written_records", w2); ("last_received_index", w3); ("last_enqueued_index", w4);
     ("last_written_index", w5); ("last_processed_index", w6)]
    (json_object
      [("input_messages", v1); ("book_messages", v2); ("snapshots", v3); ("updates", v4); ("outcomes", v5);
       ("ignored", v6); ("failed", v7); ("handler_elapsed_ns", v8); ("messages_per_second", v9);
       ("levels_processed", v10); ("levels_per_second", v11); ("nanoseconds_per_changed_level", v12);
       ("largest_payload_bytes", v13); ("largest_change_count", v14); ("maximum_latency_record_index", v15);
       ("update_size_latency", v16); ("records", v17); ("stage_latency", v18); ("snapshot_latency", v19);
       ("update_latency", v20); ("all_book_latency", v21); ("final_sequence", v22); ("final_best_bid", v23);
       ("final_best_ask", v24); ("final_book_contents", v25); ("final_bid_levels", v26); ("final_ask_levels", v27);
       ("final_book_hash", v28)])) =
  JObject
    [("all_book_latency", only_samples v21); ("book_messages", v2); ("enqueued_records", w1); ("failed", v7);
     ("final_ask_levels", v27); ("final_best_ask", v24); ("final_best_bid", v23); ("final_bid_levels", v26);
     ("final_book_contents", v25); ("final_book_hash", v28); ("final_sequence", v22); ("ignored", v6);
     ("input_messages", v1); ("largest_change_count", v14); ("largest_payload_bytes", v13);
     ("last_enqueued_index", w4); ("last_processed_index", w6); ("last_received_index", w3);
     ("last_written_index", w5); ("levels_processed", v10); ("outcomes", v5);
     ("records", map_elements (λ r, erase_key "stages" (erase_key "latency_ns" r)) v17);
     ("snapshot_latency", only_samples v19); ("snapshots", v3);
     ("update_latency", only_samples v20); ("update_size_latency", map_elements only_samples v16); ("updates", v4);
     ("written_records", w2)].
Proof. by vm_compute. Qed.

(** Documents of feeds and markets that differ in measurements only. *)
Lemma document_same `{JsonLib} sha256 profile per_second mean_of per_level n f f' k k' j j' s s' :
  same_feed f f' → same_market k k' → progress_keys s = progress_keys s' →
  document sha256 profile per_second mean_of per_level n f k = Ok j →
  document sha256 profile per_second mean_of per_level n f' k' = Ok j' →
  identity (set_keys (progress_keys s) j) = identity (set_keys (progress_keys s') j').
Proof.
  intros [_ P2 P3 P4 P5 P6 P7]%same_feed_parts [Hb Ht] Hs. rewrite Hs. unfold document. rewrite P3, Hb, Ht.
  destruct (get_uint64 (field (fd_outcomes f') "ParseError")) as [e1|]; [|done].
  destruct (get_uint64 (field (fd_outcomes f') "SequenceGap")) as [e2|]; [|done].
  destruct (get_uint64 (field (fd_outcomes f') "ApplyError")) as [e3|]; [|done].
  destruct (json_dump (bench_contents (book k'))) as [text|]; [|done].
  cbn [mbind result_bind]. intros Hj Hj'. injection Hj as <-. injection Hj' as <-.
  unfold progress_keys. cbv zeta. rewrite !identity_members, !only_samples_stats, !bucket_stats_samples, !records_erased, !fill_buckets_sizes.
  rewrite (map_length_same _ _ _ P5), (map_length_same _ _ _ P6), (map_length_same _ _ _ P7), (levels_processed_same _ _ P4).
  rewrite (map_erased timeless_metadata md_bytes _ _ (λ _, eq_refl) P2),
    (map_erased timeless_metadata md_changes _ _ (λ _, eq_refl) P2),
    (map_erased timeless_metadata erased_record _ _ (λ _, eq_refl) P2),
    (map_erased timeless_sample (λ s, (sample_snapshot s, sample_changes s)) _ _ (λ _, eq_refl) P4).
  done.
Qed.
