(* ===== verification/BenchmarkTrials.v ===== *)
(** * Trials of the benchmark

    What [identity] keeps of a trial is a function of the dataset alone, so the
    comparison of trials in the benchmark never fails; and a trial whose writer
    did not fail always passes the verification of its recording. *)

From S2P Require Import Prelude.
From S2P Require Import Text.
From S2P Require Import CoreTypes.
From S2P Require Import SequenceTracker.
From S2P Require Import OrderBook.
From S2P Require Import Json.
From S2P Require Import CoinbaseParser.
From S2P Require Import FeedHealth.
From S2P Require Import RecordingQueue.
From S2P Require Import Statistics.
From S2P Require Import CoinbaseHandler.
From S2P Require Import ReceiveTimes.
From S2P Require Import ConnectionManager.
From S2P Require Import ManagerSteps.
From S2P Require Import Recording.
From S2P Require Import RuntimeStatus.
From S2P Require Import RecordingWriter.
From S2P Require Import Threads.
From S2P Require Import LiveRuntime.
From S2P Require Import Capture.
From S2P Require Import SessionReplay.
From S2P Require Import Benchmark.
From S2P Require Import BenchmarkIdentity.

Open Scope Z_scope.

(** ** Lemmas: the handler *)

(** The handler on a message that was accepted, against the processor on the
    dataset's record. *)
Definition processed_record `{JsonLib} (products : Products) (k : Market) (raw : RawMessage) : Market * ProcessResult :=
  match process products no_mono k raw with
  | (k, Ok r) => (k, r)
  | (k, Throw e) =>
      (k <| book ::= invalidate |>,
       new_result <| outcome := MessageOutcome.ApplyError |> <| pr_error := what e |>)
  end.

Lemma handle_processed `{JsonLib} products publish now h (env : LiveEnv) wall mono h' env' r k raw :
  handle products publish now h env (payload raw) wall mono = (h', env', r) →
  outcome r ≠ MessageOutcome.RecordingRejected → same_market (market h) k →
  let '(k', r') := processed_record products k raw in
  same_market (market h') k' ∧ timeless_result r = timeless_result r'.
Proof.
  intros Hh Ho Hk. unfold handle, handle_body in Hh. cbn [field_update next_index_ handler_connection_id] in Hh.
  fold (envelope_of h (payload raw) wall mono) in Hh.
  pose proof (process_times products now no_mono (market h) k (envelope_of h (payload raw) wall mono) raw Hk eq_refl) as Hp.
  unfold processed_record. destruct (sink env _) as [env1 [pushed|x]] eqn:Hs;
    [|by cbn in Hs; destruct (try_push _ _) in Hs].
  destruct (negb _); [injection Hh as <- <- <-; by destruct Ho|].
  cbn [field_update market] in Hh. destruct Hp as [[Hb Ht] Hr].
  destruct (process products now (market h) _) as [m1 [r1|x]], (process products no_mono k raw) as [m2 [r2|x2]];
    cbn [fst snd result_map] in Hb, Ht, Hr; try done.
  - assert (timeless_result r1 = timeless_result r2) by congruence. injection Hh as <- <- <-. done.
  - assert (x = x2) as <- by congruence. rewrite bool_decide_true in Hh by done. injection Hh as <- <- <-. cbn. split; [|done].
    split; cbn; congruence.
Qed.

(** ** The dataset without clocks *)

(** One record of the dataset, on markets and feeds without measurements. *)
Definition feed_step `{JsonLib} (products : Products) (s : Market * Feed) (raw : RawMessage) : Market * Feed :=
  let '(k, f) :=
    if new_connection raw s.2
    then (bench_reset s.1, s.2 <| fd_connection := Some (connection_id raw) |>) else s in
  let '(k, r) := processed_record products k raw in
  (k, match account raw no_readings r f with Ok f => f | Throw _ => f end).

Definition feed_all `{JsonLib} (products : Products) (data : list RawMessage) : Market * Feed :=
  foldl (feed_step products) (new_market, new_feed) data.

(** A logged record is the record of the dataset. *)
Definition recorded_as (e raw : RawMessage) : Prop :=
  payload e = payload raw ∧ connection_id e = connection_id raw ∧ venue e = Coinbase.

(** The dataset has the types of its fields, and its records can be counted. *)
Definition dataset_ok (data : list RawMessage) : Prop :=
  Forall (λ m, in_uint64 (connection_id m)) data ∧ Z.of_nat (length data) < UINT64_MAX.

Section invariant.
Context `{JsonLaws} (products : Products) (sha256 : string → string) (profile_stages : bool).
Context (per_second : Z → Z → json) (mean_of : list Z → json) (per_level : list Z → Z → json).
Context (data : list RawMessage) (data_ok : dataset_ok data).
Implicit Types t : Trial.

Abbreviation document := (document sha256 profile_stages per_second mean_of per_level (inputs data)).
Abbreviation trial_step := (trial_step products sha256 profile_stages per_second mean_of per_level data).
Abbreviation trial_run := (trial_run products sha256 profile_stages per_second mean_of per_level data).

Definition tr_log t : list RawMessage := sink_log (tr_env t).

(** The records [seen] of the dataset were handled. *)
Record fed (seen : list RawMessage) (f : Feed) t : Prop := {
  fe_log : Forall2 recorded_as (tr_log t) seen;
  fe_handler : handler_inv (tr_handler t);
  fe_index : next_index_ (tr_handler t) = Z.of_nat (length seen);
  fe_market : same_market (market (tr_handler t)) (feed_all products seen).1;
  fe_feed : same_feed f (feed_all products seen).2;
  fe_connection : ∀ id, fd_connection f = Some id → handler_connection_id (tr_handler t) = id;
  fe_counts : counted (Z.of_nat (length seen)) (tr_status t);
}.

Definition phase_ok t : Prop :=
  match tr_phase t with
  | Waiting => fed [] new_feed t
  | Feeding f rest => ∃ seen, data = seen ++ rest ∧ fed seen f t
  | Draining f => fed data f t
  | Ended (Ok j) => ∃ f, fed data f t ∧ document f (market (tr_handler t)) = Ok j
  | Ended (Throw _) => True
  end.

Definition trial_inv t : Prop :=
  (∃ ms, persisted (trial_system t) ms) ∧ (length (tr_log t) ≤ length data)%nat ∧ phase_ok t.

Lemma trial_inv_log t : trial_inv t → Z.of_nat (length (tr_log t)) < UINT64_MAX.
Proof. intros (_ & Hl & _). destruct data_ok. lia. Qed.

(** The log and the counters decide [fed], for the same handler. *)
Lemma fed_frame seen f t t' :
  fed seen f t → tr_handler t' = tr_handler t → tr_log t' = tr_log t →
  counters (tr_status t') = counters (tr_status t) → fed seen f t'.
Proof.
  intros [L I X M F C N] Hh Hl Hc. split; rewrite ?Hh, ?Hl; try done. by apply counted_counters with (tr_status t).
Qed.

Lemma phase_frame t t' :
  phase_ok t → tr_phase t' = tr_phase t → tr_handler t' = tr_handler t → tr_log t' = tr_log t →
  counters (tr_status t') = counters (tr_status t) → phase_ok t'.
Proof.
  unfold phase_ok. intros Hp -> Hh Hl Hc.
  destruct (tr_phase t) as [|f rest|f|[j|e]]; try done;
    [|destruct Hp as (seen & ? & Hp); exists seen; split; [done|]| |destruct Hp as (f & Hp & Hd); exists f; rewrite Hh; split; [|done]];
    by eapply fed_frame.
Qed.

(** A step of the writer. *)
Lemma writer_trial_inv t e :
  match e with WStart _ _ | WNext _ _ _ => True | _ => False end → trial_inv t →
  trial_inv (with_trial_system (writer_step (trial_system t) e) t).
Proof.
  intros He Hi. pose proof (trial_inv_log t Hi) as Hb. destruct Hi as ([ms Hp] & Hlen & Hph).
  split; [by apply writer_thread_persisted with ms|].
  destruct (writer_thread_frame (trial_system t) e) as [Hl Hv _ _]; [by destruct e|].
  split; [exact (eq_ind_r (λ l, (length l ≤ length data)%nat) Hlen Hl)|].
  apply phase_frame with t; [done..|exact Hl|]. exact (f_equal (λ v, (v.1.2, v.2)) Hv).
Qed.

Lemma bench_publish_market r p k : market_update (bench_publish r p k).
Proof. intros s. unfold bench_publish. by destruct (negb _). Qed.

Lemma bench_publish_counted r p k n s :
  outcome r ≠ MessageOutcome.RecordingRejected → 0 ≤ n < UINT64_MAX → counted n s →
  last_received_index p = Some n → last_enqueued_index p = Some n → last_processed_index p = Some n →
  counted (n + 1) (bench_publish r p k s).
Proof.
  intros Ho Hn (H1 & H2 & H3 & _) P1 P2 P3. unfold bench_publish. rewrite bool_decide_false by done. cbn [negb].
  unfold counted. cbn. rewrite H1, H2, H3, P1, P2, P3, incr64_small by done.
  rewrite (proj2 (Z.eqb_neq _ _)) by lia. by rewrite Z.add_simpl_r.
Qed.

(** The end of the market thread. *)
Lemma trial_end_persisted r t ms : persisted (trial_system t) ms → persisted (trial_system (trial_end r t)) ms.
Proof. intros Hp. exact (market_step_persisted (trial_system t) ms WClose I I Hp). Qed.

Lemma account_accepted raw rd r f f' :
  account raw rd r f = Ok f' → outcome r ≠ MessageOutcome.RecordingRejected.
Proof.
  unfold account. intros (o & _ & Ht)%bind_Ok Ho. rewrite bool_decide_true in Ht by done. discriminate Ht.
Qed.

Lemma account_connection raw rd r f f' : account raw rd r f = Ok f' → fd_connection f' = fd_connection f.
Proof.
  unfold account. intros (o & _ & ([] & _ & Ht)%bind_Ok)%bind_Ok. injection Ht as <-.
  unfold add_sample. destruct (latency r); [|done]. by destruct (negb _).
Qed.

(** The handler and the feed after the check for a new connection. *)
Definition connected (raw : RawMessage) (h : Handler) (f : Feed) : Handler * Feed :=
  if new_connection raw f
  then (h <| handler_connection_id := connection_id raw |> <| market ::= bench_reset |>,
        f <| fd_connection := Some (connection_id raw) |>)
  else (h, f).

Lemma connected_ok raw h f k g :
  same_market (market h) k → same_feed f g → (∀ id, fd_connection f = Some id → handler_connection_id h = id) →
  handler_inv h →
  let '(h', f') := connected raw h f in
  let '(k', g') := if new_connection raw g then (bench_reset k, g <| fd_connection := Some (connection_id raw) |>) else (k, g) in
  same_market (market h') k' ∧ same_feed f' g' ∧ handler_connection_id h' = connection_id raw ∧
  fd_connection f' = Some (connection_id raw) ∧ handler_inv h' ∧ next_index_ h' = next_index_ h.
Proof.
  intros [Hb Ht] Hf Hc Hi. pose proof (sp_connection _ _ (proj1 (same_feed_parts f g) Hf)) as Hg.
  unfold connected, new_connection. rewrite <-Hg. case_bool_decide as Hn; cbn [negb].
  - by split_and!; [split| |apply Hc| | |].
  - split_and!; try done.
    + split; cbn; [by rewrite Hb|done].
    + apply same_feed_parts. apply same_feed_parts in Hf as []. by split.
Qed.

(** The system and the status after a message was handled. *)
Lemma handled_system t now h0 text wall mono h env r :
  handle products bench_publish_callback now h0 (tr_env t) text wall mono = (h, env, r) →
  let t1 := t <| tr_handler := h |> <| tr_env := env |> in
  let f := bench_publish r (progress h) (market h) in
  trial_system t1 = writer_step (writer_step (trial_system t) (WPush (envelope_of h0 text wall mono))) (WStatus f) ∧
  tr_status t1 = f (tr_status t).
Proof.
  intros Hh. apply handle_publishes in Hh. cbv zeta. rewrite Hh. generalize (envelope_of h0 text wall mono). intros ev.
  unfold trial_system, tr_status, tr_shared. cbn [tr_env tr_writer field_update]. split; cbn; by destruct (try_push _ ev).
Qed.

Lemma handled_persisted t ms now h0 text wall mono h env r :
  handle products bench_publish_callback now h0 (tr_env t) text wall mono = (h, env, r) →
  in_uint64 (handler_connection_id h0) → in_int64 (wall_ns wall) → in_int64 (mono_ns mono) →
  persisted (trial_system t) ms → persisted (trial_system (t <| tr_handler := h |> <| tr_env := env |>)) ms.
Proof.
  intros Hh Hc Hw Hm Hp. destruct (handled_system _ _ _ _ _ _ _ _ _ Hh) as [-> _].
  apply market_step_persisted; [done|apply bench_publish_market|]. by apply market_step_persisted.
Qed.

Lemma handled_log_length h (env : LiveEnv) e h' env' r :
  handled products h env e h' env' r → (length (sink_log env') ≤ S (length (sink_log env)))%nat.
Proof.
  intros Hd. destruct (decide (outcome r = MessageOutcome.RecordingRejected)) as [Ho|Ho].
  - destruct (handled_rejected _ _ _ _ _ _ _ Hd Ho) as (-> & _). lia.
  - destruct (handled_accepted _ _ _ _ _ _ _ Hd Ho) as (-> & _). rewrite length_app. cbn [length]. lia.
Qed.

(** The dataset without clocks, one record further. *)
Lemma feed_all_snoc seen raw k g k0 g0 :
  feed_all products seen = (k, g) →
  (if new_connection raw g then (bench_reset k, g <| fd_connection := Some (connection_id raw) |>) else (k, g)) = (k0, g0) →
  feed_all products (seen ++ [raw]) =
    let '(k1, r1) := processed_record products k0 raw in
    (k1, match account raw no_readings r1 g0 with Ok f => f | Throw _ => g0 end).
Proof.
  intros Hall Hstep. unfold feed_all. rewrite foldl_app. cbn [foldl]. fold (feed_all products seen). rewrite Hall.
  unfold feed_step. cbn [fst snd]. by rewrite Hstep.
Qed.

Lemma trial_message_inv rd raw f rest seen t :
  trial_inv t → tr_phase t = Feeding f (raw :: rest) → data = seen ++ raw :: rest → fed seen f t →
  in_int64 (wall_ns (rd_wall rd)) → in_int64 (mono_ns (rd_mono rd)) →
  trial_inv (trial_message products rd raw f rest t).
Proof.
  intros ([ms Hp] & _) _ Hdata [L I X M F C N] Hw Hm. destruct data_ok as [Hids Hlen]. rewrite Hdata in Hids, Hlen.
  rewrite length_app in Hlen. cbn [length] in Hlen. apply Forall_app in Hids as [_ [Hid _]%Forall_cons_1].
  unfold trial_message. fold (connected raw (tr_handler t) f).
  pose proof (connected_ok raw (tr_handler t) f _ _ M F C I) as Hconn.
  destruct (feed_all products seen) as [k g] eqn:Hall. cbn [fst snd] in M, F, Hconn.
  destruct (connected raw (tr_handler t) f) as [h0 f0].
  destruct (if new_connection raw g then _ else _) as [k0 g0] eqn:Hstep in Hconn.
  destruct Hconn as (M0 & F0 & Hc0 & Hf0 & I0 & X0).
  destruct (handle _ _ _ h0 _ _ _ _) as [[h env] r] eqn:Hh.
  destruct (handled_system _ _ _ _ _ _ _ _ _ Hh) as [_ Hst].
  pose proof (handle_spec products bench_publish_callback ltac:(done) _ _ _ _ _ _ _ _ _ I0 Hh) as Hd.
  set (ev := envelope_of h0 (payload raw) (rd_wall rd) (rd_mono rd)) in *.
  set (t1 := t <| tr_handler := h |> <| tr_env := env |>) in *.
  assert (persisted (trial_system t1) ms) as Hp1 by (apply (handled_persisted _ _ _ _ _ _ _ _ _ _ Hh); by rewrite ?Hc0).
  assert (length (sink_log (tr_env t)) = length seen) as HL by exact (Forall2_length _ _ _ L).
  assert (length (sink_log env) ≤ length data)%nat as Hl1.
  { pose proof (handled_log_length _ _ _ _ _ _ Hd). rewrite Hdata, length_app. cbn [length]. lia. }
  cbv zeta. destruct (account raw rd r f0) as [f1|e] eqn:Ha; [|split; [exists ms; by apply trial_end_persisted|done]].
  split; [by exists ms|]. split; [exact Hl1|]. unfold phase_ok. cbn [tr_phase field_update].
  exists (seen ++ [raw]). split; [by rewrite <-app_assoc|].
  pose proof (account_accepted _ _ _ _ _ Ha) as Ho.
  destruct (handled_accepted _ _ _ _ _ _ _ Hd Ho) as (Hlog & _ & P2 & P3).
  pose proof (handled_received _ _ _ _ _ _ _ Hd) as P1. pose proof (handled_index _ _ _ _ _ _ _ Hd) as Hix.
  pose proof (handle_processed products bench_publish_callback _ _ _ _ _ _ _ _ _ raw Hh Ho M0) as Hproc.
  pose proof (feed_all_snoc seen raw k g k0 g0 Hall Hstep) as Hnext.
  destruct (processed_record products k0 raw) as [k1 r1]. destruct Hproc as [M1 R1].
  pose proof (account_same raw rd no_readings r r1 f0 g0 R1 F0) as Hsame. rewrite Ha in Hsame.
  assert (next_index_ h0 = Z.of_nat (length seen)) as X1 by congruence. clear X0. rewrite X1 in *.
  split; unfold tr_log; cbn [tr_env tr_handler tr_status tr_shared field_update]; rewrite ?Hnext.
  - change (sink_log (tr_env _)) with (sink_log env). rewrite Hlog. apply Forall2_app; [exact L|]. repeat constructor. exact Hc0.
  - by apply (handled_inv products h0 (tr_env t) ev h env r); [|lia|].
  - change (next_index_ h = Z.of_nat (length (seen ++ [raw]))). rewrite Hix, incr64_small, length_app by lia. cbn [length]. lia.
  - exact M1.
  - cbn [snd]. destruct (account raw no_readings r1 g0) as [g1|e]; [|done].
    change (timeless_feed f1 = timeless_feed g1). cbn [result_map] in Hsame. congruence.
  - intros id Hid'. change (handler_connection_id h = id). rewrite (handled_connection _ _ _ _ _ _ _ Hd), Hc0.
    rewrite (account_connection _ _ _ _ _ Ha), Hf0 in Hid'. by injection Hid'.
  - change (counted (Z.of_nat (length (seen ++ [raw]))) (tr_status t1)). rewrite Hst, length_app, Nat2Z.inj_add.
    apply bench_publish_counted; try done. lia.
Qed.

Lemma trial_next_inv rd t :
  trial_inv t → in_int64 (wall_ns (rd_wall rd)) → in_int64 (mono_ns (rd_mono rd)) →
  trial_inv (trial_next products sha256 profile_stages per_second mean_of per_level data rd t).
Proof.
  intros Hi Hw Hm. pose proof Hi as ([ms Hp] & Hl & Hph). unfold phase_ok in Hph. unfold trial_next.
  assert (∀ e t', persisted (trial_system t') ms → (length (tr_log t') ≤ length data)%nat →
    trial_inv (trial_end (Throw e) t')) as Hthrow.
  { intros e t' Hp' Hl'. split; [exists ms; by apply trial_end_persisted|]. by split. }
  destruct (tr_phase t) as [|f [|raw rest]|f|r] eqn:Hphase.
  - destruct (_ || _); [|done]. destruct (fatal_error _) as [e|]; [by apply Hthrow|].
    split; [by exists ms|]. split; [done|]. exists []. split; [done|]. by apply fed_frame with t.
  - destruct Hph as (seen & Hd & Hf). rewrite app_nil_r in Hd. subst seen.
    split; [exists ms; exact (market_step_persisted (trial_system t) ms WClose I I Hp)|]. split; [exact Hl|].
    by apply fed_frame with t.
  - destruct Hph as (seen & Hd & Hf). by apply trial_message_inv with seen.
  - destruct (sh_writer_done _); [|done]. destruct (fatal_error _) as [e|]; [by apply Hthrow|].
    destruct (document f _) as [j|e] eqn:Hdoc; [|by apply Hthrow].
    split; [exists ms; by apply trial_end_persisted|]. split; [exact Hl|].
    exists f. split; [by apply fed_frame with t|done].
  - done.
Qed.

Lemma trial_step_inv t e : trial_inv t → trial_event_ok e → trial_inv (trial_step t e).
Proof.
  intros Hi He. destruct e as [rd|env minimum|io close_io close_ok]; cbn [Benchmark.trial_step].
  - by apply trial_next_inv; [|apply He..].
  - by apply writer_trial_inv.
  - by apply writer_trial_inv.
Qed.

Lemma trial_run_inv config es t : trial_run config es t → trial_inv t.
Proof.
  induction 1 as [|es t e Hr IH He]; [|by apply trial_step_inv].
  split; [exists []; unfold persisted; cbn -[decide]; by split_and!|]. split; [cbn; lia|].
  by split.
Qed.
End invariant.

(** ** Lemmas: the value of a trial *)

(** The progress of a trial on [n] records. *)
Definition full_progress (n : Z) : list (string * json) :=
  let last := json_optional (if n =? 0 then None else Some (n - 1)) in
  [("enqueued_records", JUnsigned n); ("written_records", JUnsigned n); ("last_received_index", last);
   ("last_enqueued_index", last); ("last_written_index", last); ("last_processed_index", last)].

Lemma verify_records_Ok data count log :
  Forall2 recorded_as log (drop count data) → indexed (Z.of_nat count) log → Forall (λ m, venue m = Coinbase) data →
  verify_records data count log = Ok (count + length log)%nat.
Proof.
  revert count. induction log as [|e log IH]; intros count Hl Hi Hv; cbn [verify_records length]; [by rewrite Nat.add_0_r|].
  destruct (data !! count) as [raw|] eqn:Hraw; [|apply lookup_ge_None in Hraw; rewrite drop_ge in Hl by done; inversion Hl].
  rewrite (drop_S data raw) in Hl by done. apply Forall2_cons in Hl as [(Hp & Hc & He) Hl]. destruct Hi as [Hi Hi'].
  rewrite Forall_forall in Hv. pose proof (Hv raw (list_elem_of_lookup_2 _ _ _ Hraw)) as Hr.
  rewrite Hp, Hc, He, Hr, Hi, String.eqb_refl, !Z.eqb_refl. cbn [negb orb].
  rewrite bool_decide_true by done. cbn [negb].
  rewrite IH; [f_equal; lia|done|by replace (Z.of_nat (S count)) with (Z.of_nat count + 1) by lia|by apply Forall_forall].
Qed.

Section value.
Context `{JsonLaws} (products : Products) (sha256 : string → string) (profile_stages : bool).
Context (per_second : Z → Z → json) (mean_of : list Z → json) (per_level : list Z → Z → json).
Context (data : list RawMessage) (data_ok : dataset_ok data).

Abbreviation document := (document sha256 profile_stages per_second mean_of per_level (inputs data)).
Abbreviation trial_run := (trial_run products sha256 profile_stages per_second mean_of per_level data).

Lemma trial_value_document config es t file v :
  trial_run config es t → trial_value data t file = Some (Ok v) →
  ∃ f j, fed products data f t ∧ document f (market (tr_handler t)) = Ok j ∧
    v = set_keys (progress_keys (tr_status t)) j ∧ progress_keys (tr_status t) = full_progress (inputs data).
Proof.
  intros Hr Hv. pose proof (trial_run_inv products sha256 profile_stages per_second mean_of per_level data data_ok _ _ _ Hr)
    as (_ & _ & Hph). unfold trial_value in Hv. unfold phase_ok in Hph.
  destruct (tr_phase t) as [| | |ended]; try done. destruct (sh_writer_done _); [|done]. apply (inj Some) in Hv.
  unfold trial_result in Hv. destruct (fatal_error _); [done|]. apply bind_Ok in Hv as (j & -> & Hv).
  destruct Hph as (f & Hf & Hj). apply bind_Ok in Hv as ([] & Hcheck & Hv). apply throw_if_Ok in Hcheck.
  destruct (read_all _) as [reader written]. apply bind_Ok in Hv as (count & _ & ([] & _ & Hv)%bind_Ok). injection Hv as <-.
  exists f, j. split_and!; [done..|].
  apply orb_false_iff in Hcheck as [[[He Hw]%orb_false_iff Hlr]%orb_false_iff Hlp]. zbool.
  apply bool_decide_eq_true in Hlr. apply bool_decide_eq_true in Hlp.
  destruct (fe_counts _ _ _ _ Hf) as (_ & _ & _ & C4 & C5 & C6). fold (inputs data) in *.
  unfold progress_keys, full_progress. cbv zeta. rewrite He, Hw, <-Hlr, C4, C5, C6. done.
Qed.

(** Two trials on the same dataset have the same identity. *)
Lemma trials_agree config config' es es' t t' file file' v v' :
  trial_run config es t → trial_run config' es' t' →
  trial_value data t file = Some (Ok v) → trial_value data t' file' = Some (Ok v') → identity v = identity v'.
Proof.
  intros Hr Hr' (f & j & Hf & Hj & -> & Hs)%(trial_value_document config es) (f' & j' & Hf' & Hj' & -> & Hs')%(trial_value_document config' es'); [|done..].
  refine (document_same _ _ _ _ _ _ f f' _ _ j j' _ _ _ _ _ Hj Hj').
  - transitivity (feed_all products data).2; [apply (fe_feed _ _ _ _ Hf)|symmetry; apply (fe_feed _ _ _ _ Hf')].
  - transitivity (feed_all products data).1; [apply (fe_market _ _ _ _ Hf)|symmetry; apply (fe_market _ _ _ _ Hf')].
  - congruence.
Qed.
End value.

(** The loop on trials that agree. *)
Lemma trial_loop_agrees include warmups run todo i expected reported :
  0 ≤ i → 0 ≤ warmups →
  (∀ a b v w, 0 ≤ a → 0 ≤ b → a < i + Z.of_nat todo → b < i + Z.of_nat todo → run a = Ok v → run b = Ok w →
     identity v = identity w) →
  (i ≠ 0 → ∃ v, run 0 = Ok v ∧ expected = identity v) →
  match trial_loop include warmups run todo i expected reported with
  | Ok l => length l = (length reported + Z.to_nat (i + Z.of_nat todo - Z.max i warmups))%nat
  | Throw e => ∃ a, 0 ≤ a < i + Z.of_nat todo ∧ run a = Throw e
  end.
Proof.
  revert i expected reported. induction todo as [|todo IH]; intros i expected reported Hi Hw Hsame Hexp; cbn [trial_loop].
  - rewrite Z.add_0_r. replace (Z.to_nat _) with 0%nat by lia. lia.
  - destruct (run i) as [v|e] eqn:Hv; [|exists i; split; [lia|done]]. cbn [mbind result_bind].
    assert (∃ x, (if i =? 0 then Ok (identity v)
                  else _ ← throw_if (negb (json_equal (identity v) expected))
                        (RuntimeError "nondeterministic trial counts or final book"); Ok expected) = Ok x ∧
                 ∃ v0, run 0 = Ok v0 ∧ x = identity v0) as (x & -> & Hx).
    { destruct (i =? 0) eqn:Hz; zbool.
      - exists (identity v). split; [done|]. exists v. split; [by rewrite Hz in Hv|done].
      - destruct Hexp as (v0 & Hv0 & ->); [done|]. rewrite (Hsame i 0 v v0) by (done || lia).
        rewrite json_equal_refl. cbn [negb throw_if mbind result_bind]. exists (identity v0). split; [done|]. by exists v0. }
    cbn [mbind result_bind]. set (reported' := if i >=? warmups then _ else _).
    specialize (IH (i + 1) x reported'). replace (i + 1 + Z.of_nat todo) with (i + Z.of_nat (S todo)) in IH by lia.
    destruct (trial_loop _ _ _ _ _ _ _) as [l|e]; [|apply IH; [lia|done|exact Hsame|done]].
    rewrite IH by (try done; lia). subst reported'. rewrite Z.geb_leb. destruct (warmups <=? i) eqn:Hle; zbool.
    + rewrite length_app. cbn [length]. lia.
    + lia.
Qed.

(** ** Theorems *)

(** C10: the benchmark is deterministic.  Whatever the clocks show, however the
    two threads of each trial interleave and whatever the file system does, the
    trials that have a value agree on all that [identity] keeps: the counts,
    the outcome of every record and the final book.  So the loop over the
    trials never throws its own exception: it returns the trials after the
    warm-up, all of them, or throws what a trial threw. *)
Theorem benchmark_deterministic `{JsonLaws} products sha256 profile per_second mean_of per_level data config
    (run : Z → result json) include warmups todo :
  dataset_ok data → 0 ≤ warmups →
  (∀ i, 0 ≤ i < Z.of_nat todo → ∃ es t file,
     trial_run products sha256 profile per_second mean_of per_level data config es t ∧
     trial_value data t file = Some (run i)) →
  match trial_loop include warmups run todo 0 JNull [] with
  | Ok reported => length reported = Z.to_nat (Z.of_nat todo - warmups)
  | Throw e => ∃ i, 0 ≤ i < Z.of_nat todo ∧ run i = Throw e
  end.
Proof.
  intros Hd Hw Hrun. pose proof (trial_loop_agrees include warmups run todo 0 JNull []) as Hl.
  rewrite Z.max_r in Hl by done. apply Hl; [done|done| |done]. intros a b v w Ha Hb Ha' Hb' Hv Hw'.
  destruct (Hrun a) as (es & t & file & Hr & Ht); [lia|]. destruct (Hrun b) as (es' & t' & file' & Hr' & Ht'); [lia|].
  rewrite Hv in Ht. rewrite Hw' in Ht'.
  exact (trials_agree products sha256 profile per_second mean_of per_level data Hd _ _ _ _ _ _ _ _ _ _ Hr Hr' Ht Ht').
Qed.

(** C11: a trial passes its own verification.  When the market thread has ended
    and the writer has ended without an error, the value of the trial is the
    result of the market thread with the progress of all records, or the
    exception that thread caught; none of the checks of the progress and of
    the new recording can fail, and the recording reads back as the dataset,
    record by record. *)
Theorem trial_verified `{JsonLaws, !JsonText} products sha256 profile per_second mean_of per_level data config es t ended :
  trial_run products sha256 profile per_second mean_of per_level data config es t →
  dataset_ok data → Forall (λ m, venue m = Coinbase) data →
  tr_phase t = Ended ended → sh_writer_done (tr_shared t) = true → fatal_error (tr_status t) = None →
  let file := Some (writer_file (tr_writer t), false) in
  trial_value data t file = Some (j ← ended; Ok (set_keys (full_progress (inputs data)) j)) ∧
  (is_ok ended = true → Forall2 recorded_as (read_all (open_reader file)).2 data).
Proof.
  intros Hr Hd Hv Hph Hdone Hfatal. cbv zeta.
  pose proof (trial_run_inv products sha256 profile per_second mean_of per_level data Hd _ _ _ Hr) as ([ms Hp] & _ & Hok).
  unfold phase_ok in Hok. rewrite Hph in Hok. unfold trial_value. rewrite Hph, Hdone. unfold trial_result. rewrite Hfatal.
  destruct ended as [j|e]; [|done]. destruct Hok as (f & Hf & _). cbn [mbind result_bind].
  destruct (finished_recording (trial_system t) ms Hp Hdone Hfatal) as (Hlog & _ & Hrec & Hn & Hl).
  pose proof (fe_log _ _ _ _ Hf) as Hfl. assert (ms = tr_log t) as -> by (by rewrite <-Hlog).
  pose proof (Forall2_length _ _ _ Hfl) as Hlen. destruct (fe_counts _ _ _ _ Hf) as (_ & C2 & _ & C4 & C5 & C6).
  assert (Z.of_nat (length (tr_log t)) ≤ UINT64_MAX) as Hb by (destruct Hd; lia).
  pose proof (read_recording _ _ _ Hrec Hb eq_refl) as Hback.
  destruct (read_all (open_reader (Some (writer_file (tr_writer t), false)))) as [rd back] eqn:Hra.
  change (writer_file (ws_writer (trial_system t))) with (writer_file (tr_writer t)) in Hback. rewrite Hra in Hback.
  destruct Hback as [-> Herr]. split; [|done].
  change (sh_status (ws_shared (trial_system t))) with (tr_status t) in Hn, Hl.
  fold (inputs data) in *. assert (Z.of_nat (length (tr_log t)) = inputs data) as Hin by (unfold inputs; by rewrite <-Hlen).
  rewrite Hin in Hn.
  assert (last_written_index (st_progress (tr_status t)) = if inputs data =? 0 then None else Some (inputs data - 1)) as Hlw.
  { rewrite Hl, Hin. by destruct (tr_log t), data. }
  assert (progress_keys (tr_status t) = full_progress (inputs data)) as ->
    by (unfold progress_keys, full_progress; cbv zeta; by rewrite C2, Hn, C4, C5, C6, Hlw).
  rewrite C2, Hn, C4, C6, Hlw, Z.eqb_refl, bool_decide_true by done. cbn [negb orb throw_if mbind result_bind].
  destruct Hrec as (lines & _ & Hidx & _).
  rewrite (verify_records_Ok data 0 (tr_log t) Hfl Hidx Hv). cbn [mbind result_bind]. unfold has_error. rewrite Herr.
  cbn [String.eqb negb orb]. by rewrite bool_decide_true by done.
Qed.

(** ** A concrete benchmark

    Two trials on a dataset of a snapshot and an update, with different clocks
    and different interleavings. *)

Definition ex_dataset_record (i wall mono : Z) (text : string) : RawMessage :=
  {| record_index := i; venue := Coinbase; connection_id := 1; receive_wall_time := {| wall_ns := wall |};
     receive_monotonic_time := {| mono_ns := mono |}; payload := text |}.
Definition ex_dataset : list RawMessage := [ex_dataset_record 0 1 2 "snapshot"; ex_dataset_record 1 3 4 "update"].
Definition ex_readings (wall mono : Z) : Readings :=
  {| rd_wall := {| wall_ns := wall |}; rd_mono := {| mono_ns := mono |}; rd_now := {| mono_ns := mono + 9 |};
     rd_after := mono + 11; rd_stages := no_stages |}.

Definition ex_bench_texts : list (string * json) :=
  [("snapshot", l2_document ex_time 7 [ex_snapshot_text]); ("update", l2_document ex_time 8 [ex_update_text]);
   ("{a0}", reparsed (message_document (ex_dataset_record 0 10 20 "snapshot")));
   ("{a1}", reparsed (message_document (ex_dataset_record 1 11 40 "update")));
   ("{b0}", reparsed (message_document (ex_dataset_record 0 (-5) 300 "snapshot")));
   ("{b1}", reparsed (message_document (ex_dataset_record 1 70 333 "update")))]%string.
Definition ex_bench_lib : JsonLib :=
  table_lib (ex_bench_texts ++
    [("{book}"%string, reparsed (bench_contents (book (@feed_all (table_lib ex_bench_texts) default_products ex_dataset).1)))]).

Definition ex_writes : trial_event := TWriterNext ex_io IoOk true.
Definition ex_trial_a : list trial_event :=
  [TWriterStart ex_writer_env 64; TNext (ex_readings 0 0); TNext (ex_readings 10 20); TNext (ex_readings 11 40);
   ex_writes; TNext (ex_readings 0 0); ex_writes; ex_writes; TNext (ex_readings 0 0)].
Definition ex_trial_b : list trial_event :=
  [TNext (ex_readings 0 0); TWriterStart ex_writer_env 64; TNext (ex_readings 0 0); TNext (ex_readings (-5) 300);
   ex_writes; TNext (ex_readings 70 333); ex_writes; TNext (ex_readings 0 0); ex_writes; TNext (ex_readings 0 0)].

Definition ex_per_second (n ns : Z) : json := JFloat (n * 1000) 0.
Definition ex_mean (l : list Z) : json := JFloat 0 0.
Definition ex_per_level (l : list Z) (n : Z) : json := JFloat 1 (-1).
Definition ex_trial_step : Trial → trial_event → Trial :=
  @trial_step ex_bench_lib default_products id false ex_per_second ex_mean ex_per_level ex_dataset.
Definition ex_trial (es : list trial_event) : Trial := foldl ex_trial_step (trial_initial default_queue_config) es.
Definition ex_trial_file (es : list trial_event) : option (string * bool) :=
  Some (writer_file (tr_writer (ex_trial es)), false).
Definition ex_trial_value (es : list trial_event) : result json :=
  default (Throw (RuntimeError EmptyString)) (@trial_value ex_bench_lib ex_dataset (ex_trial es) (ex_trial_file es)).
Definition ex_run_of (i : Z) : result json := ex_trial_value (if i =? 0 then ex_trial_a else ex_trial_b).

Lemma trial_run_steps `{JsonLib} products sha256 profile per_second mean_of per_level data config es t es' :
  trial_run products sha256 profile per_second mean_of per_level data config es t → Forall trial_event_ok es' →
  trial_run products sha256 profile per_second mean_of per_level data config (es ++ es')
    (foldl (trial_step products sha256 profile per_second mean_of per_level data) t es').
Proof.
  intros Hr Hok. revert es t Hr. induction Hok as [|e es' He Hok IH]; intros es t Hr; cbn [foldl]; [by rewrite app_nil_r|].
  rewrite (app_assoc es [e] es' : es ++ e :: es' = (es ++ [e]) ++ es'). apply IH. by apply trial_run_snoc.
Qed.

Lemma ex_trial_run es :
  Forall trial_event_ok es →
  @trial_run ex_bench_lib default_products id false ex_per_second ex_mean ex_per_level ex_dataset default_queue_config es (ex_trial es).
Proof.
  intros Hok. apply (@trial_run_steps ex_bench_lib default_products id false ex_per_second ex_mean ex_per_level ex_dataset
    default_queue_config [] (trial_initial default_queue_config) es); [constructor|done].
Qed.

Lemma ex_trials_ok : Forall trial_event_ok ex_trial_a ∧ Forall trial_event_ok ex_trial_b.
Proof. split; repeat constructor; vm_compute; done. Qed.

Lemma ex_dataset_ok : dataset_ok ex_dataset.
Proof. split; [repeat constructor; vm_compute; done|done]. Qed.

Lemma ex_values :
  is_ok (ex_trial_value ex_trial_a) = true ∧ is_ok (ex_trial_value ex_trial_b) = true.
Proof. vm_compute. done. Qed.

Lemma ex_run_values i :
  ∃ es t file, @trial_run ex_bench_lib default_products id false ex_per_second ex_mean ex_per_level ex_dataset
    default_queue_config es t ∧ @trial_value ex_bench_lib ex_dataset t file = Some (ex_run_of i).
Proof.
  destruct ex_trials_ok as [Ha Hb]. unfold ex_run_of. destruct (i =? 0).
  - exists ex_trial_a, (ex_trial ex_trial_a), (ex_trial_file ex_trial_a). split; [exact (ex_trial_run _ Ha)|].
    vm_compute. reflexivity.
  - exists ex_trial_b, (ex_trial ex_trial_b), (ex_trial_file ex_trial_b). split; [exact (ex_trial_run _ Hb)|].
    vm_compute. reflexivity.
Qed.

Lemma benchmark_deterministic_witness :
  ∃ reported, trial_loop false 1 ex_run_of 2 0 JNull [] = Ok reported ∧ length reported = 1%nat.
Proof.
  pose proof (@benchmark_deterministic ex_bench_lib (table_laws _) default_products id false ex_per_second ex_mean
    ex_per_level ex_dataset default_queue_config ex_run_of false 1 2 ex_dataset_ok ltac:(done)) as Hd.
  assert (∀ i, is_ok (ex_run_of i) = true) as Hok
    by (intros i; unfold ex_run_of; destruct ex_values as [Ha Hb]; destruct (i =? 0); [exact Ha|exact Hb]).
  specialize (Hd (λ i _, ex_run_values i)).
  destruct (trial_loop false 1 ex_run_of 2 0 JNull []) as [l|e]; [by exists l|].
  destruct Hd as (i & _ & Hi). pose proof (Hok i) as Ho. by rewrite Hi in Ho.
Defined.

Lemma ex_bench_laws : @JsonText ex_bench_lib.
Proof. apply table_json_text. vm_compute. reflexivity. Qed.

Lemma trial_verified_witness :
  ∃ j, @trial_value ex_bench_lib ex_dataset (ex_trial ex_trial_b) (ex_trial_file ex_trial_b) =
       Some (Ok (set_keys (full_progress 2) j)) ∧
  Forall2 recorded_as (@read_all ex_bench_lib (open_reader (ex_trial_file ex_trial_b))).2 ex_dataset.
Proof.
  destruct (tr_phase (ex_trial ex_trial_b)) as [| | |[j|e]] eqn:Hph; [vm_compute in Hph; discriminate Hph..| |vm_compute in Hph; discriminate Hph].
  exists j.
  destruct (@trial_verified ex_bench_lib (table_laws _) ex_bench_laws default_products id false
    ex_per_second ex_mean ex_per_level ex_dataset default_queue_config ex_trial_b (ex_trial ex_trial_b) (Ok j)) as [H1 H2].
  - apply ex_trial_run, ex_trials_ok.
  - exact ex_dataset_ok.
  - repeat constructor.
  - exact Hph.
  - vm_compute. done.
  - vm_compute. done.
  - split; [exact H1|]. apply H2. done.
Defined.
