(* ===== verification/KrakenThreads.v ===== *)
(** * The threads of the Kraken runtime

    [run_kraken] as a whole: the market thread of [KrakenRuntime], the writer
    thread, the end of the market thread with the hash of the final book, its
    failure by an exception, and what the capture is given at the end. *)

From S2P Require Import Prelude.
From S2P Require Import Text.
From S2P Require Import CoreTypes.
From S2P Require Import FixedPoint.
From S2P Require Import OrderBook.
From S2P Require Import Json.
From S2P Require Import FeedHealth.
From S2P Require Import RecordingQueue.
From S2P Require Import CoinbaseHandler.
From S2P Require Import KrakenChecksum.
From S2P Require Import KrakenParser.
From S2P Require Import KrakenProcessor.
From S2P Require Import ConnectionManager.
From S2P Require Import Recording.
From S2P Require Import RuntimeStatus.
From S2P Require Import RecordingWriter.
From S2P Require Import Threads.
From S2P Require Import KrakenRuntime.
From S2P Require Import Session.
From S2P Require Import Capture.
From S2P Require Import KrakenReplay.
From S2P Require Import SessionReplay.

Open Scope Z_scope.

(** ** State *)

(** Both threads.  [kt_shared] is the shared state but for the status, which
    the runtime holds; [kt_over], that the market thread has ended, and
    [kt_hash] the text of [final_book_hash]. *)
Record KrakenThreads := {
  kt_runtime : KrakenRuntime;
  kt_writer : WriterState;
  kt_shared : SharedRuntime;
  kt_started : bool;
  kt_over : bool;
  kt_hash : string;
}.

#[export] Instance KrakenThreads_eta : EtaRecord KrakenThreads := λ t,
  {| kt_runtime := kt_runtime t; kt_writer := kt_writer t; kt_shared := kt_shared t;
     kt_started := kt_started t; kt_over := kt_over t; kt_hash := kt_hash t |}.

Definition kt_status (t : KrakenThreads) : RuntimeStatus := kr_status (kt_runtime t).
Definition kt_log (t : KrakenThreads) : list RawEnvelope := kr_log (kt_runtime t).

(** The threads as the writer sees them, and back. *)
Definition kt_system (t : KrakenThreads) : WriterSystem :=
  {| ws_writer := kt_writer t; ws_queue := kr_queue (kt_runtime t);
     ws_shared := (kt_shared t) <| sh_status := kt_status t |> |}.
Definition with_kt_system (s : WriterSystem) (t : KrakenThreads) : KrakenThreads :=
  t <| kt_writer := ws_writer s |> <| kt_shared := ws_shared s |>
    <| kt_runtime ::= λ k, k <| kr_queue := ws_queue s |> <| kr_status := sh_status (ws_shared s) |> |>.

(** ** Operations *)

(** The name of the final state; a book is never resyncing here. *)
Definition kr_final_state (s : BookState) : string :=
  match s with
  | Valid => "VALID" | Initializing => "INITIALIZING" | Disconnected => "DISCONNECTED" | Stale => "STALE"
  | _ => "INVALID"
  end.

(** [contents], the final book. *)
Definition kr_contents (b : OrderBook) : json :=
  json_object [("bids", JArray (map level_json (bids_ b))); ("asks", JArray (map level_json (asks_ b)));
               ("state", JString (kr_final_state (state_ b))); ("book_sequence", JNull)].

(** The catch clause of the market thread. *)
Definition kr_market_failed (error : string) (s : RuntimeStatus) : RuntimeStatus :=
  s <| fatal_error := Some error |> <| runtime_state := RuntimeState.StoppedProcessingError |>
    <| st_book_state := Invalid |>.

(** What follows the try block: the queue is closed. *)
Definition kt_end_market (t : KrakenThreads) : KrakenThreads :=
  t <| kt_runtime ::= kr_close_queue |> <| kt_over := true |>.

Definition kt_failed (error : string) (t : KrakenThreads) : KrakenThreads :=
  kt_end_market (t <| kt_runtime ::= λ k, k <| kr_status ::= kr_market_failed error |> |>).

Section threads.
Context `{JsonLib} `{Crc32} (sha256 : string → string).
Context (duration force_seconds : Z) (clock : nat → ReceiveMonotonicTimestamp).
Implicit Types t : KrakenThreads.

(** From the return of [io.run()] on. *)
Definition kt_finish_market t : KrakenThreads :=
  let t := t <| kt_runtime ::= kr_publish |> in
  match json_dump (kr_contents (book_ (kr_processor (kt_runtime t)))) with
  | Ok text => kt_end_market (t <| kt_hash := sha256 text |>)
  | Throw e => kt_failed (what e) t
  end.

(** ** Runs *)

(** [KTStart], the market thread passes its wait and makes its first tick;
    [KTCallback], a callback of its io_context; [KTEnd], the io_context has no
    work left; [KTFailed], an exception leaves a callback. *)
Inductive kt_event :=
  | KTStart (stop_requested : bool)
  | KTCallback (e : kr_event)
  | KTEnd
  | KTFailed (error : string)
  | KTWriterStart (env : WriterEnv) (minimum_free_disk_bytes : Z)
  | KTWriterNext (io : record_io) (close_io : stream_io) (close_ok : bool).

Definition kt_step t (e : kt_event) : KrakenThreads :=
  match e with
  | KTStart stop_requested =>
      if negb (kt_started t) && negb (kt_over t) &&
         (sh_writer_ready (kt_shared t) || sh_writer_done (kt_shared t))
      then t <| kt_started := true |>
             <| kt_runtime ::= λ k, kr_tick duration force_seconds clock stop_requested (kr_begin clock k) |>
      else t
  | KTCallback e =>
      if kt_started t && negb (kt_over t)
      then t <| kt_runtime ::= λ k, kr_step duration force_seconds clock k e |> else t
  | KTEnd =>
      if kt_started t && negb (kt_over t) && kr_stopping (kt_runtime t) && negb (kr_ticking (kt_runtime t))
      then kt_finish_market t else t
  | KTFailed error => if negb (kt_over t) then kt_failed error t else t
  | KTWriterStart env minimum => with_kt_system (writer_step (kt_system t) (WStart env minimum)) t
  | KTWriterNext io close_io close_ok => with_kt_system (writer_step (kt_system t) (WNext io close_io close_ok)) t
  end.

(** The threads when the writer starts. *)
Definition kt_initial (depth : Z) (config : RawQueueConfig) : result KrakenThreads :=
  processor ← new_processor depth;
  Ok {| kt_runtime := kr_new clock processor {| rq := new_queue config; taken := [] |} new_status;
        kt_writer := WriterStarting; kt_shared := new_shared; kt_started := false; kt_over := false;
        kt_hash := EmptyString |}.

(** What the types of a callback guarantee; the steps of the writer thread are
    not callbacks. *)
Definition kt_event_ok (e : kt_event) : Prop :=
  match e with
  | KTCallback (KMessage _ wall mono) => in_int64 (wall_ns wall) ∧ in_int64 (mono_ns mono)
  | KTCallback KWritten | KTCallback (KWriterFailed _) => False
  | _ => True
  end.

(** There is room for one more message and connection. *)
Definition kt_room t : Prop :=
  Z.of_nat (length (kt_log t)) < UINT64_MAX ∧ kr_index (kt_runtime t) < UINT64_MAX ∧
  0 ≤ kr_connection (kt_runtime t) < UINT64_MAX.

Inductive kt_run t0 : list kt_event → KrakenThreads → Prop :=
  | kt_run_nil : kt_run t0 [] t0
  | kt_run_snoc es t e : kt_run t0 es t → kt_event_ok e → kt_room t → kt_run t0 (es ++ [e]) (kt_step t e).

(** The end of [run_kraken], when both threads have joined. *)
Definition kt_capture (t : KrakenThreads) (c : Capture) : Capture :=
  let c := set_metrics (counts_json (kr_metrics (kt_runtime t))) c in
  if String.eqb (kt_hash t) EmptyString then c else set_final_book_hash (kt_hash t) c.

Definition finish_kraken t (ended : string) (io : publish_io) (fs : FileSystem) (c : Capture)
    : Capture * FileSystem * result unit :=
  finalize sha256 (kr_final_status (kt_status t)) ended io fs (kt_capture t c).
End threads.

(** ** Lemmas: the market thread as steps of the system *)

Section moves.
Context `{JsonLib} `{Crc32}.
Context (duration force_seconds : Z) (clock : nat → ReceiveMonotonicTimestamp).
Implicit Types k : KrakenRuntime.

Definition system_of (w : WriterState) (sh : SharedRuntime) k : WriterSystem :=
  {| ws_writer := w; ws_queue := kr_queue k; ws_shared := sh <| sh_status := kr_status k |> |}.

(** An operation of the market thread is a sequence of its steps. *)
Definition moves k k' : Prop := ∀ w sh, market_steps (system_of w sh k) (system_of w sh k').

#[export] Instance moves_preorder : PreOrder moves.
Proof. split; [by intros k w sh|]. intros k1 k2 k3 H1 H2 w sh. by transitivity (system_of w sh k2). Qed.

Lemma moves_same k k' : kr_queue k' = kr_queue k → kr_status k' = kr_status k → moves k k'.
Proof. intros Hq Hs w sh. unfold system_of. by rewrite Hq, Hs. Qed.

Lemma moves_status f k k' :
  market_update f → kr_queue k' = kr_queue k → kr_status k' = f (kr_status k) → moves k k'.
Proof.
  intros Hf Hq Hs w sh. unfold system_of. rewrite Hq, Hs.
  exact (market_steps_one (system_of w sh k) (WStatus f) Hf).
Qed.

Lemma moves_close k k' : kr_queue k' = close_log (kr_queue k) → kr_status k' = kr_status k → moves k k'.
Proof.
  intros Hq Hs w sh. unfold system_of. rewrite Hq, Hs. exact (market_steps_one (system_of w sh k) WClose I).
Qed.

Lemma moves_push e k k' :
  fields_ok e → kr_queue k' = {| rq := (try_push (rq (kr_queue k)) e).1; taken := taken (kr_queue k) |} →
  kr_status k' = kr_status k → moves k k'.
Proof.
  intros He Hq Hs w sh. unfold system_of. rewrite Hq, Hs. exact (market_steps_one (system_of w sh k) (WPush e) He).
Qed.

Lemma kr_publish_moves k : moves k (kr_publish k).
Proof. by apply moves_status with (λ s, (show_book (book_ (kr_processor k)) s) <| st_connected := kr_connected k |>). Qed.

Lemma kr_abort_moves k : moves k (kr_abort k).
Proof. unfold kr_abort. destruct (kr_client k); [by apply moves_same|done]. Qed.

Lemma kr_stop_moves k : moves k (kr_stop k).
Proof.
  unfold kr_stop. transitivity (k <| kr_stopping := true |> <| kr_connected := false |>); [by apply moves_same|].
  etransitivity; [apply kr_abort_moves|]. by apply moves_close.
Qed.

Lemma kr_recover_moves reason stale k : moves k (kr_recover reason stale k).
Proof.
  unfold kr_recover. destruct (_ || _); [done|]. cbv zeta. etransitivity; [|apply kr_publish_moves].
  match goal with |- moves _ (kr_schedule ?x) => transitivity x; [|by apply moves_same] end.
  etransitivity; [|apply kr_abort_moves].
  match goal with |- moves _ (kr_lifecycle ?e _) =>
    by apply moves_status with (λ s, s <| lifecycle_events ::= λ l, l ++ [e] |>) end.
Qed.

Lemma kr_connect_moves k : moves k (kr_connect clock k).
Proof. by apply moves_same. Qed.

Lemma kr_begin_moves k : moves k (kr_begin clock k).
Proof.
  unfold kr_begin. case_bool_decide; [apply kr_stop_moves|]. etransitivity; [|apply kr_connect_moves].
  by apply moves_status with (λ s, s <| runtime_state := RuntimeState.Running |>).
Qed.

Lemma kr_received_market index accepted : market_update (kr_received index accepted).
Proof.
  intros s. unfold kr_received. cbv zeta.
  set (s1 := s <| received_messages ::= incr64 |> <| st_progress ::= _ |>). destruct (negb _); [|done].
  exact (set_fatal_market "RAW_RECORDING_QUEUE_FULL" RuntimeState.StoppedQueueFull s1).
Qed.

Lemma kr_begin_records_moves k : moves k (kr_begin_records k).
Proof. unfold kr_begin_records. destruct (kr_first_record k), (kr_seen_record k); by apply moves_same. Qed.

Lemma kr_processed_moves ok k : moves k (kr_processed ok k).
Proof.
  unfold kr_processed. set (k1 := k <| kr_status ::= _ |> <| kr_index ::= incr64 |>).
  assert (moves k k1) as H1.
  { by apply moves_status with (λ s, s <| processed_messages ::= incr64 |>
      <| st_progress ::= λ p, p <| last_processed_index := Some (kr_index k) |> |>). }
  clearbody k1. cbv zeta. transitivity (kr_publish k1); [etransitivity; [done|apply kr_publish_moves]|].
  generalize (kr_publish k1). intros k2. destruct (negb ok); [apply kr_recover_moves|].
  case_bool_decide; [by apply moves_same|done].
Qed.

Lemma kr_message_moves text wall mono k :
  in_int64 (wall_ns wall) → in_int64 (mono_ns mono) → in_uint64 (kr_connection k) →
  moves k (kr_message text wall mono k).
Proof.
  intros Hw Hm Hc. unfold kr_message. destruct (kr_stopping k); [done|].
  set (e := kr_envelope text wall mono k). destruct (try_push (rq (kr_queue k)) e) as [q accepted] eqn:Hq.
  set (k1 := k <| kr_queue := _ |> <| kr_status ::= _ |>). assert (moves k k1) as H1.
  { transitivity (k <| kr_queue := {| rq := q; taken := taken (kr_queue k) |} |>).
    - apply moves_push with e; [done| |done]. by rewrite Hq.
    - apply moves_status with (kr_received (kr_index k) accepted); [apply kr_received_market|done..]. }
  clearbody k1. cbv zeta. transitivity k1; [done|]. destruct (negb _).
  - etransitivity; [|apply kr_publish_moves]. etransitivity; [|apply kr_stop_moves]. by apply moves_same.
  - transitivity (kr_begin_records k1); [apply kr_begin_records_moves|]. generalize (kr_begin_records k1). intros k2.
    destruct (kraken_process _ _ _ _) as [p ok]. etransitivity; [|apply kr_processed_moves]. by apply moves_same.
Qed.

Lemma kr_liveness_moves t k : moves k (kr_check_liveness t k).
Proof.
  unfold kr_check_liveness. destruct (_ && _); [|done]. destruct (_ >? _); [apply kr_recover_moves|].
  destruct (_ && _); [apply kr_recover_moves|done].
Qed.

Lemma kr_force_moves t k : moves k (kr_check_force force_seconds t k).
Proof.
  unfold kr_check_force. destruct (_ && _ && _ && _); [|done].
  etransitivity; [|apply kr_recover_moves]. by apply moves_same.
Qed.

Lemma kr_tick_moves sig k : moves k (kr_tick duration force_seconds clock sig k).
Proof.
  unfold kr_tick. cbn [kr_now]. generalize (clock (kr_clock_reads k)). intros t.
  transitivity (k <| kr_clock_reads ::= S |>); [by apply moves_same|].
  generalize (k <| kr_clock_reads ::= S |>). clear k. intros k. cbv zeta.
  set (fatal := bool_decide _). set (k1 := if fatal then _ else k).
  assert (moves k k1) as H1 by (subst k1; destruct fatal; [by apply moves_same|done]).
  match goal with |- context [if ?b then kr_stop k1 else k1] =>
    set (k2 := if b then kr_stop k1 else k1);
    assert (moves k1 k2) as H2 by (subst k2; destruct b; [apply kr_stop_moves|done]); clearbody k2 end.
  transitivity k2; [by transitivity k1|]. destruct (kr_stopping k2).
  - transitivity (kr_publish k2); [apply kr_publish_moves|by apply moves_same].
  - transitivity (kr_check_liveness t (kr_check_force force_seconds t k2)).
    { etransitivity; [apply kr_force_moves|apply kr_liveness_moves]. }
    generalize (kr_check_liveness t (kr_check_force force_seconds t k2)). intros k3.
    transitivity (kr_publish k3); [apply kr_publish_moves|by apply moves_same].
Qed.

(** A callback of the market thread. *)
Lemma kr_step_moves k e :
  kt_event_ok (KTCallback e) → in_uint64 (kr_connection k) → moves k (kr_step duration force_seconds clock k e).
Proof.
  destruct e; cbn [kt_event_ok kr_step]; intros He Hc; try done.
  - by apply kr_message_moves; [apply He..|].
  - apply kr_recover_moves.
  - by apply moves_same.
  - destruct (kr_stopping k); [done|apply kr_connect_moves].
  - destruct (kr_ticking k); [apply kr_tick_moves|done].
Qed.
End moves.

(** ** Lemmas: the records and their counters *)

Section tally.
Context `{JsonLib} `{Crc32}.
Context (duration force_seconds : Z) (clock : nat → ReceiveMonotonicTimestamp).
Implicit Types k : KrakenRuntime.

Definition tally k := (kr_log k, counters (kr_status k), fatal_error (kr_status k)).

Lemma tally_inv k l c f : tally k = (l, c, f) → kr_log k = l ∧ counters (kr_status k) = c.
Proof. intros Ht. split; [exact (f_equal (λ x, x.1.1) Ht)|exact (f_equal (λ x, x.1.2) Ht)]. Qed.

Lemma tally_abort k : tally (kr_abort k) = tally k.
Proof. unfold kr_abort. by destruct (kr_client k). Qed.

Lemma tally_stop k : tally (kr_stop k) = tally k.
Proof. exact (tally_abort (k <| kr_stopping := true |> <| kr_connected := false |>)). Qed.

Lemma tally_recover reason stale k : tally (kr_recover reason stale k) = tally k.
Proof.
  unfold kr_recover. destruct (_ || _); [done|]. cbv zeta.
  match goal with |- tally (kr_publish (kr_schedule (kr_abort ?x))) = _ => exact (tally_abort x) end.
Qed.

Lemma tally_begin_records k : tally (kr_begin_records k) = tally k.
Proof. unfold kr_begin_records. by destruct (kr_first_record k), (kr_seen_record k). Qed.

Lemma tally_begin k : tally (kr_begin clock k) = tally k.
Proof. unfold kr_begin. case_bool_decide; [apply tally_stop|done]. Qed.

Lemma tally_liveness t k : tally (kr_check_liveness t k) = tally k.
Proof. unfold kr_check_liveness. repeat case_match; try done; apply tally_recover. Qed.

Lemma tally_force t k : tally (kr_check_force force_seconds t k) = tally k.
Proof.
  unfold kr_check_force. destruct (_ && _ && _ && _); [|done]. exact (tally_recover _ _ (k <| kr_forced := true |>)).
Qed.

Lemma tally_tick sig k : tally (kr_tick duration force_seconds clock sig k) = tally k.
Proof.
  unfold kr_tick. cbn [kr_now]. generalize (clock (kr_clock_reads k)). intros t.
  change (tally k) with (tally (k <| kr_clock_reads ::= S |>)). generalize (k <| kr_clock_reads ::= S |>).
  clear k. intros k. cbv zeta. set (fatal := bool_decide _). set (k1 := if fatal then _ else k).
  assert (tally k1 = tally k) as <- by (subst k1; by destruct fatal). clearbody k1.
  match goal with |- context [if ?b then kr_stop k1 else k1] =>
    set (k2 := if b then kr_stop k1 else k1);
    assert (tally k2 = tally k1) as <- by (subst k2; destruct b; [apply tally_stop|done]); clearbody k2 end.
  destruct (kr_stopping k2); [done|].
  match goal with |- tally ?x = _ =>
    change (tally x) with (tally (kr_check_liveness t (kr_check_force force_seconds t k2))) end.
  by rewrite tally_liveness, tally_force.
Qed.

(** The status after a message was processed. *)
Definition processed_status (index : Z) (s : RuntimeStatus) : RuntimeStatus :=
  s <| processed_messages ::= incr64 |> <| st_progress ::= λ p, p <| last_processed_index := Some index |> |>.

Lemma tally_processed ok k :
  tally (kr_processed ok k) =
    (kr_log k, counters (processed_status (kr_index k) (kr_status k)), fatal_error (kr_status k)).
Proof.
  unfold kr_processed. set (k1 := k <| kr_status ::= _ |> <| kr_index ::= incr64 |>).
  change (_, counters (processed_status _ _), _) with (tally k1). cbv zeta.
  change (tally k1) with (tally (kr_publish k1)). generalize (kr_publish k1). intros k2.
  destruct (negb ok); [apply tally_recover|]. by case_bool_decide.
Qed.

(** A message: nothing, a fatal error, or one more record. *)
Lemma tally_message text wall mono k :
  let k' := kr_message text wall mono k in
  tally k' = tally k ∨ is_Some (fatal_error (kr_status k')) ∨
  tally k' = (kr_log k ++ [kr_envelope text wall mono k],
              counters (processed_status (kr_index k) (kr_received (kr_index k) Accepted (kr_status k))),
              fatal_error (kr_status k)).
Proof.
  cbn zeta. unfold kr_message. destruct (kr_stopping k); [by left|right].
  set (e := kr_envelope text wall mono k). destruct (try_push (rq (kr_queue k)) e) as [q accepted] eqn:Hq.
  set (k1 := k <| kr_queue := _ |> <| kr_status ::= _ |>). cbv zeta.
  destruct (decide (accepted = Accepted)) as [->|Hacc].
  - right. rewrite bool_decide_true by done. cbn [negb].
    assert (messages_ q = messages_ (rq (kr_queue k)) ++ [e]) as Hm
      by (unfold try_push in Hq; repeat split_match; by simplify_eq).
    assert (kr_log k1 = kr_log k ++ [e]) as Hl by (unfold kr_log; cbn; by rewrite Hm, app_assoc).
    rewrite <-Hl. change (kr_received (kr_index k) Accepted (kr_status k)) with (kr_status k1).
    change (kr_index k) with (kr_index k1). change (fatal_error (kr_status k)) with (fatal_error (kr_status k1)).
    clearbody k1. pose proof (tally_begin_records k1) as Hb.
    assert (kr_index (kr_begin_records k1) = kr_index k1) as <-
      by (unfold kr_begin_records; by destruct (kr_first_record k1), (kr_seen_record k1)).
    assert (kr_status (kr_begin_records k1) = kr_status k1) as <-
      by (unfold kr_begin_records; by destruct (kr_first_record k1), (kr_seen_record k1)).
    assert (kr_log (kr_begin_records k1) = kr_log k1) as <- by (by apply (f_equal (λ x, x.1.1)) in Hb).
    generalize (kr_begin_records k1). intros k2. destruct (kraken_process _ _ _ _) as [p ok].
    exact (tally_processed ok (k2 <| kr_processor := p |>)).
  - left. rewrite bool_decide_false by done. cbn [negb].
    match goal with |- is_Some (fatal_error (kr_status (kr_publish (kr_stop ?x)))) =>
      change (is_Some (tally (kr_stop x)).2); rewrite (tally_stop x) end.
    cbn. unfold kr_received. rewrite bool_decide_false by done. apply set_fatal_fatal.
Qed.

(** The counters follow the log. *)
Lemma kr_step_counted k e :
  kt_event_ok (KTCallback e) → kr_index k = Z.of_nat (length (kr_log k)) →
  Z.of_nat (length (kr_log k)) < UINT64_MAX → fatal_error (kr_status (kr_step duration force_seconds clock k e)) = None →
  counted (Z.of_nat (length (kr_log k))) (kr_status k) →
  counted (Z.of_nat (length (kr_log (kr_step duration force_seconds clock k e))))
    (kr_status (kr_step duration force_seconds clock k e)).
Proof.
  intros He Hi Hb Hf Hc.
  assert (∀ k', tally k' = tally k → counted (Z.of_nat (length (kr_log k'))) (kr_status k')) as Hsame.
  { intros k' [Hl Hcs]%tally_inv. rewrite Hl. by eapply counted_counters. }
  destruct e; cbn [kr_step] in *; try done.
  - destruct (tally_message text wall mono k) as [Ht|[Hx|Ht]]; [by apply Hsame|rewrite Hf in Hx; by destruct Hx|].
    generalize dependent (kr_message text wall mono k). intros k' _ [Hl Hcs]%tally_inv.
    rewrite Hl, length_app, Nat2Z.inj_add. change (Z.of_nat (length [_])) with 1.
    eapply counted_counters; [exact Hcs|]. destruct Hc as (H1 & H2 & H3 & _).
    unfold counted, processed_status, kr_received. rewrite bool_decide_true by done. cbn.
    rewrite H1, H2, H3, incr64_small, Hi by lia. rewrite (proj2 (Z.eqb_neq _ _)) by lia. by rewrite Z.add_simpl_r.
  - by apply Hsame, tally_recover.
  - destruct (kr_stopping k); [done|]. by apply (Hsame (kr_connect clock k)).
  - destruct (kr_ticking k); [|done]. by apply Hsame, tally_tick.
Qed.
End tally.

(** ** Lemmas: the final state *)

Section final_state.
Context `{JsonLib} `{Crc32}.

(** The book is never resyncing, and the metrics are [std::uint64_t] values. *)
Definition metrics_ok (p : KrakenBookProcessor) : Prop := map_Forall (λ _, in_uint64) (metrics_ p).
Definition settled (p : KrakenBookProcessor) : Prop := state_ (book_ p) ≠ Resyncing ∧ metrics_ok p.

Lemma inc_metrics key p : metrics_ok p → metrics_ok (inc key p).
Proof. intros Hp. apply map_Forall_insert_2; [apply u64_range|done]. Qed.

Lemma advance_metrics p now : metrics_ok p → metrics_ok (advance p now).
Proof.
  intros Hp. unfold advance. destruct (previous_time_ p); [|done]. destruct (_ >=? _); [|done].
  apply map_Forall_insert_2; [apply u64_range|done].
Qed.

(** Staging does not touch the metrics, and a candidate is valid. *)
Lemma apply_message_settled p m : settled p → settled (apply_message p m).1.
Proof.
  intros [Hs Hm]. unfold apply_message. set (p1 := inc _ p).
  assert (settled p1) as [Hs1 Hm1] by (split; [done|by apply inc_metrics]). clearbody p1.
  destruct (negb _ && _); [done|]. destruct (stage_message _ _) as [[next crc]|]; [|done].
  pose proof (inc_metrics "kraken_checksum_validations" p1 Hm1) as Hm2.
  assert (state_ (book_ (inc "kraken_checksum_validations" p1)) ≠ Resyncing) as Hs2 by done.
  generalize dependent (inc "kraken_checksum_validations" p1). intros p2 Hm2 Hs2.
  destruct (negb _); [split; [done|by apply (inc_metrics "kraken_checksum_failures")]|].
  destruct (candidate_book m next) as [candidate|] eqn:Hc; [|done].
  assert (state_ candidate = Valid) as Hv.
  { unfold candidate_book in Hc. destruct (apply_snapshot _ _) as [b []] eqn:Ha; [|done].
    assert (b = candidate) as -> by (destruct (has_two_sided_market b && crossed b); [done|by injection Hc]).
    unfold apply_snapshot in Ha. repeat split_match; by simplify_eq. }
  split; [cbn; by rewrite Hv|].
  destruct (_ && _); [by apply (inc_metrics "kraken_recovery_snapshots")|done].
Qed.

Lemma kraken_process_settled p raw wall mono : settled p → settled (kraken_process p raw wall mono).1.
Proof.
  intros [Hs Hm]. unfold kraken_process. set (p1 := (inc "kraken_messages" _) <| kp_error := _ |>).
  assert (settled p1) as [Hs1 Hm1].
  { destruct (advance_same p mono) as (Hb & _). split; [change (state_ (book_ (advance p mono)) ≠ Resyncing); by rewrite Hb|].
    by apply (inc_metrics _ ((advance p mono) <| last_message := Some mono |>)), advance_metrics. }
  clearbody p1. cbv zeta. destruct (kind _); try done.
  - destruct (parsed_book _) as [m|]; [by apply apply_message_settled|done].
  - split; [done|by apply (inc_metrics "kraken_heartbeats")].
  - split; [done|by apply (inc_metrics "kraken_subscription_errors")].
  - split; [done|by apply (inc_metrics "kraken_parse_errors")].
Qed.

Lemma new_processor_settled depth p : new_processor depth = Ok p → settled p.
Proof.
  unfold new_processor. intros. result_inv. split; [done|]. unfold metrics_ok. cbn [metrics_].
  repeat (apply map_Forall_insert_2; [done|]). apply map_Forall_empty.
Qed.

Lemma losses_settled v v' : losses v v' → settled (v_processor v) → settled (v_processor v').
Proof. induction 1 as [|stale reason v v' _ IH]; [done|]. intros [Hs Hm]. apply IH. by destruct stale. Qed.

Lemma kr_change_settled v v' : kr_change v v' → settled (v_processor v) → settled (v_processor v').
Proof.
  intros [v1 Hl| |e v1 _ Hl] Hs; [by eapply losses_settled|done|]. eapply losses_settled; [done|].
  apply kraken_process_settled. destruct Hs as [Hs Hm]. unfold begun.
  destruct v as [? ? ? [] [] ? ? ?]; try done. split; [done|by apply (inc_metrics "kraken_reconnects")].
Qed.

(** The live hash and the replay's are of the same document. *)
Lemma kr_contents_settled b : state_ b ≠ Resyncing → kr_contents b = book_contents b JNull.
Proof. intros Hs. unfold kr_contents, book_contents. by destruct (state_ b). Qed.
End final_state.

(** ** The invariant *)

Section invariant.
Context `{JsonLib} `{Crc32} (sha256 : string → string).
Context (duration force_seconds : Z) (clock : nat → ReceiveMonotonicTimestamp).
Context (p0 : KrakenBookProcessor).
Implicit Types t : KrakenThreads.

Abbreviation healthy k := (v_fatal (view k) = false).

(** The replay is in step with the runtime. *)
Definition replayed (k : KrakenRuntime) : Prop :=
  (∃ s fin, in_step p0 (view k) s fin) ∧ settled (kr_processor k) ∧
  counted (Z.of_nat (length (kr_log k))) (kr_status k).

(** The hash and the metrics of the book the market thread left. *)
Definition sealed t : Prop :=
  let p := kr_processor (kt_runtime t) in
  ∃ text, json_dump (kr_contents (book_ p)) = Ok text ∧ kt_hash t = sha256 text ∧
    kr_metrics (kt_runtime t) = metrics_ p.

Record kt_inv t : Prop := {
  ki_replayed : healthy (kt_runtime t) → replayed (kt_runtime t);
  ki_persisted : ∃ ms, persisted (kt_system t) ms;
  ki_sealed : kt_over t = true → healthy (kt_runtime t) → sealed t;
}.

Lemma healthy_fatal k : healthy k ↔ fatal_error (kr_status k) = None.
Proof. cbn. rewrite bool_decide_eq_false. symmetry. apply eq_None_not_Some. Qed.

(** Steps of the writer thread. *)
Lemma kt_writer_inv t e :
  match e with WStart _ _ | WNext _ _ _ => True | _ => False end → kt_inv t →
  Z.of_nat (length (kt_log t)) < UINT64_MAX → kt_inv (with_kt_system (writer_step (kt_system t) e) t).
Proof.
  intros He [Hr [ms Hp] Hs] Hb.
  assert (system_frame (kt_system t) (writer_step (kt_system t) e)) as [Fl Fv Ff _]
    by (apply writer_thread_frame; by destruct e).
  destruct (writer_thread_persisted _ _ _ He Hp Hb) as [ms' Hp'].
  generalize dependent (writer_step (kt_system t) e). intros s' Fl Fv Ff Hp'.
  set (t' := with_kt_system s' t). set (k := kt_runtime t) in *.
  assert (healthy (kt_runtime t') → healthy k ∧ view (kt_runtime t') = view k) as Hview.
  { rewrite !healthy_fatal. intros Hh.
    assert (fatal_error (kr_status k) = None) as Hk.
    { apply eq_None_not_Some. intros Hx%Ff. change (kr_status (kt_runtime t')) with (sh_status (ws_shared s')) in Hh.
      rewrite Hh in Hx. by destruct Hx. }
    split; [done|]. unfold view. rewrite Hk, Hh.
    assert (kr_log (kt_runtime t') = kr_log k) as -> by exact Fl.
    by assert (lifecycle_events (kr_status (kt_runtime t')) = lifecycle_events (kr_status k)) as ->
      by exact (f_equal (λ x, x.1.1) Fv). }
  split.
  - intros [Hh Hv]%Hview. destruct (Hr Hh) as (Hin & Hset & Hc). unfold replayed. rewrite Hv. split_and!; [done..|].
    assert (kr_log (kt_runtime t') = kr_log k) as -> by exact Fl.
    eapply counted_counters; [|exact Hc].
    exact (f_equal2 pair (f_equal (λ x, x.1.2) Fv) (f_equal snd Fv)).
  - exists ms'. unfold kt_system, t', with_kt_system, kt_status. cbn. by destruct s' as [? ? []].
  - intros Ho [Hh _]%Hview. exact (Hs Ho Hh).
Qed.

(** Operations of the market thread. *)
Lemma kt_market_inv t k' :
  let t' := t <| kt_runtime := k' |> in
  kt_inv t → moves (kt_runtime t) k' → kt_over t = false →
  (healthy k' → replayed k') → kt_inv t'.
Proof.
  intros t' [Hr [ms Hp] Hs] Hm Ho Hk. split; [done| |].
  - exists ms. eapply market_steps_persisted; [|exact Hp]. exact (Hm (kt_writer t) (kt_shared t)).
  - change (kt_over t') with (kt_over t). by rewrite Ho.
Qed.

Lemma replayed_index k : replayed k → kr_index k = Z.of_nat (length (kr_log k)).
Proof. intros ((s & fin & Hs) & _). exact (ks_index _ _ _ _ Hs). Qed.

(** A change of the view of a runtime that is in step. *)
Lemma replayed_change k k' :
  replayed k → kr_change (view k) (view k') → kr_index k < UINT64_MAX → kr_connection k < UINT64_MAX →
  counted (Z.of_nat (length (kr_log k'))) (kr_status k') → replayed k'.
Proof.
  intros ((s & fin & Hs) & Hset & _) Hch Hi Hc Hn. split_and!; [|by apply (kr_change_settled _ _ Hch)|done].
  by apply (change_in_step p0 _ _ s fin Hch).
Qed.

Lemma kr_step_replayed k e :
  kt_event_ok (KTCallback e) → (healthy k → replayed k) → Z.of_nat (length (kr_log k)) < UINT64_MAX →
  kr_connection k < UINT64_MAX → healthy (kr_step duration force_seconds clock k e) →
  replayed (kr_step duration force_seconds clock k e).
Proof.
  intros He Hr Hb Hc Hh. destruct (kr_step_change duration force_seconds clock k e Hh) as [Hk Hch].
  specialize (Hr Hk). pose proof (replayed_index _ Hr) as Hi.
  apply (replayed_change k); [done..|lia|done|].
  apply kr_step_counted; [done..|by apply healthy_fatal|]. by destruct Hr as (_ & _ & ?).
Qed.

(** The start of the market thread. *)
Lemma kr_begin_replayed k : replayed k → kr_connection k < UINT64_MAX → replayed (kr_begin clock k).
Proof.
  intros ((s & fin & Hs) & Hset & Hn) Hc. destruct (tally_inv _ _ _ _ (tally_begin clock k)) as [Hl Hcs].
  split_and!.
  - exists s, fin. by apply kr_begin_in_step.
  - assert (kr_processor (kr_begin clock k) = kr_processor k) as ->; [|done].
    unfold kr_begin, kr_stop, kr_abort. case_bool_decide; [|done]. cbn. by destruct (kr_client k).
  - rewrite Hl. by eapply counted_counters.
Qed.

Lemma kr_tick_replayed sig k :
  (healthy k → replayed k) → kr_index k < UINT64_MAX →
  healthy (kr_tick duration force_seconds clock sig k) → replayed (kr_tick duration force_seconds clock sig k).
Proof.
  intros Hr Hi Hh. destruct (v_fatal (view k)) eqn:Hk; [by rewrite kr_tick_fatal in Hh|].
  destruct (Hr eq_refl) as ((s & fin & Hs) & Hset & Hn).
  pose proof (kr_tick_view duration force_seconds clock sig k Hk) as Hl.
  destruct (tally_inv _ _ _ _ (tally_tick duration force_seconds clock sig k)) as [Htl Hcs]. split_and!.
  - eapply in_step_losses; [done..|]. change (v_index (view k)) with (kr_index k). lia.
  - by apply (losses_settled _ _ Hl).
  - rewrite Htl. by eapply counted_counters.
Qed.

Lemma kr_begin_same k :
  fatal_error (kr_status (kr_begin clock k)) = fatal_error (kr_status k) ∧ kr_index (kr_begin clock k) = kr_index k.
Proof.
  split; [exact (f_equal snd (tally_begin clock k))|].
  unfold kr_begin, kr_stop, kr_abort. case_bool_decide; [|done]. cbn. by destruct (kr_client k).
Qed.

Lemma kt_start_inv stop_requested t :
  kt_inv t → kt_room t → kt_over t = false →
  kt_inv (t <| kt_started := true |>
            <| kt_runtime ::= λ k, kr_tick duration force_seconds clock stop_requested (kr_begin clock k) |>).
Proof.
  intros Hi (Hb & Hx & Hc) Ho. apply (kt_market_inv (t <| kt_started := true |>)); [by destruct Hi| |done|].
  - etransitivity; [apply kr_begin_moves|apply kr_tick_moves].
  - cbn [kt_runtime field_update]. destruct (kr_begin_same (kt_runtime t)) as [Hf Hn].
    apply kr_tick_replayed; [|by rewrite Hn]. rewrite healthy_fatal, Hf, <-healthy_fatal. intros Hh.
    apply kr_begin_replayed; [by apply (ki_replayed _ Hi)|lia].
Qed.

(** The end of the market thread. *)
Lemma kt_end_inv t :
  kt_inv t → (healthy (kt_runtime t) → sealed t) → kt_inv (kt_end_market t).
Proof.
  intros [Hr [ms Hp] Hs] Hseal. split; [done| |done]. exists ms. eapply market_steps_persisted; [|exact Hp].
  exact (moves_close (kt_runtime t) (kr_close_queue (kt_runtime t)) eq_refl eq_refl (kt_writer t) (kt_shared t)).
Qed.

Lemma kt_failed_inv error t : kt_inv t → kt_inv (kt_failed error t).
Proof.
  intros [Hr [ms Hp] Hs]. apply kt_end_inv; [|done]. split; [done| |done].
  exists ms. eapply market_steps_persisted; [|exact Hp].
  exact (moves_status (kr_market_failed error) (kt_runtime t)
    ((kt_runtime t) <| kr_status ::= kr_market_failed error |>) ltac:(done) eq_refl eq_refl (kt_writer t) (kt_shared t)).
Qed.

Lemma kt_finish_inv t : kt_inv t → kt_over t = false → kt_inv (kt_finish_market sha256 t).
Proof.
  intros Hi Ho. unfold kt_finish_market. set (t1 := t <| kt_runtime ::= kr_publish |>).
  assert (kt_inv t1) as H1.
  { apply (kt_market_inv t (kr_publish (kt_runtime t))); [done|apply kr_publish_moves|done|exact (ki_replayed _ Hi)]. }
  destruct (json_dump _) as [text|e] eqn:Hd; [|by apply kt_failed_inv].
  apply kt_end_inv; [|intros _; by exists text].
  split; [exact (ki_replayed _ H1)|exact (ki_persisted _ H1)|]. intros Hx. cbn in Hx. congruence.
Qed.

Lemma kt_step_inv t e :
  kt_event_ok e → kt_room t → kt_inv t → kt_inv (kt_step sha256 duration force_seconds clock t e).
Proof.
  intros He Hroom Hi. pose proof Hroom as (Hb & Hx & Hc). destruct e as [stop|e| |error|env minimum|io close_io close_ok]; cbn [kt_step].
  - destruct (kt_started t), (kt_over t) eqn:Ho; cbn [negb andb]; try done.
    destruct (_ || _); [|done]. by apply kt_start_inv.
  - destruct (kt_started t), (kt_over t) eqn:Ho; cbn [negb andb]; try done.
    apply (kt_market_inv t (kr_step duration force_seconds clock (kt_runtime t) e)); [done| |done|].
    + apply kr_step_moves; [done|]. split; lia.
    + apply kr_step_replayed; [done|exact (ki_replayed _ Hi)|done|lia].
  - destruct (kt_started t), (kt_over t) eqn:Ho; cbn [negb andb]; try done.
    destruct (_ && _); [|done]. by apply kt_finish_inv.
  - destruct (kt_over t) eqn:Ho; cbn [negb]; [done|]. by apply kt_failed_inv.
  - by apply kt_writer_inv.
  - by apply kt_writer_inv.
Qed.

Lemma kt_run_inv t0 es t :
  kt_inv t0 → kt_run sha256 duration force_seconds clock t0 es t → kt_inv t.
Proof. intros Hi Hr. induction Hr; [done|]. by apply kt_step_inv. Qed.
End invariant.

Lemma kt_initial_inv `{JsonLib, Crc32} sha256 clock depth config t :
  kt_initial clock depth config = Ok t → ∃ p0, new_processor depth = Ok p0 ∧ kt_inv sha256 p0 t.
Proof.
  unfold kt_initial. destruct (new_processor depth) as [p0|] eqn:Hp; [|done]. intros [= <-]. exists p0. split; [done|].
  split; [|exists []; unfold persisted; cbn -[decide]; by split_and!|done].
  intros _. split; [|split; [by apply new_processor_settled with depth|done]].
  eexists _, _. by apply kr_new_in_step.
Qed.

(** What a run that ended without an error leaves. *)
Lemma kt_clean `{JsonLib, Crc32} sha256 duration force_seconds clock depth config t0 es t :
  kt_initial clock depth config = Ok t0 → kt_run sha256 duration force_seconds clock t0 es t →
  kt_over t = true → sh_writer_done (kt_shared t) = true → fatal_error (kt_status t) = None →
  let n := Z.of_nat (length (kt_log t)) in
  clean_stop n (kr_final_status (kt_status t)) ∧ sealed sha256 t ∧ settled (kr_processor (kt_runtime t)) ∧
  recording (kt_log t) EmptyString (writer_file (kt_writer t)) ∧
  ∃ p0 s fin, new_processor depth = Ok p0 ∧ in_step p0 (view (kt_runtime t)) s fin.
Proof.
  intros Hinit Hrun Hover Hdone Hfatal. cbv zeta.
  destruct (kt_initial_inv sha256 clock depth config t0 Hinit) as (p0 & Hp0 & Hi0).
  pose proof (kt_run_inv sha256 duration force_seconds clock p0 t0 es t Hi0 Hrun) as [Hr [ms Hp] Hs].
  assert (v_fatal (view (kt_runtime t)) = false) as Hh by (by apply healthy_fatal).
  destruct (Hr Hh) as ((s & fin & Hin) & Hset & Hcount). specialize (Hs Hover Hh).
  assert (kr_final_status (kt_status t) = (kt_status t) <| runtime_state := RuntimeState.Stopped |>) as ->
    by (unfold kr_final_status; by rewrite Hfatal).
  destruct (finished_clean (kt_system t) ms ((kt_status t) <| runtime_state := RuntimeState.Stopped |>)) as (Hclean & _ & Hrec); [done..|].
  split_and!; [exact Hclean|done|done|exact Hrec|]. by exists p0, s, fin.
Qed.
