(* ===== verification/SessionRoundtrip.v ===== *)
(** * The round trip of a session

    A capture that was finalised after a clean stop passes every check of a
    strict replay, and the replay sees the recorded messages and lifecycle
    events. *)

From S2P Require Import Prelude.
From S2P Require Import Text.
From S2P Require Import CoreTypes.
From S2P Require Import FixedPoint.
From S2P Require Import SequenceTracker.
From S2P Require Import OrderBook.
From S2P Require Import Json.
From S2P Require Import JsonLibrary.
From S2P Require Import CoinbaseParser.
From S2P Require Import FeedHealth.
From S2P Require Import RecordingQueue.
From S2P Require Import CoinbaseHandler.
From S2P Require Import KrakenParser.
From S2P Require Import KrakenChecksum.
From S2P Require Import KrakenProcessor.
From S2P Require Import ConnectionManager.
From S2P Require Import Recording.
From S2P Require Import RuntimeStatus.
From S2P Require Import Session.
From S2P Require Import Capture.
From S2P Require Import CoinbaseReplay.
From S2P Require Import KrakenReplay.
From S2P Require Import SessionReplay.

Open Scope Z_scope.

(** ** Lemmas: paths *)

Lemma split_path_cons s : ∃ first more, split_path s = first :: more.
Proof.
  induction s as [|c s (f & m & IH)]; cbn; [by eexists _, _|]. rewrite IH. destruct (is_slash c); by eexists _, _.
Qed.

Lemma split_path_slash s1 s2 : split_path (s1 +:+ String "/" s2) = split_path s1 ++ split_path s2.
Proof.
  induction s1 as [|c s1 IH]; cbn; [done|]. rewrite IH. destruct (is_slash c); [done|].
  destruct (split_path_cons s1) as (f & m & ->). done.
Qed.

Lemma lexically_relative_below base p : lexically_relative (base ++ p) base = match p with [] => ["."%string] | _ => p end.
Proof.
  induction base as [|x base IH]; cbn; [by destruct p|]. by rewrite String.eqb_refl.
Qed.

(** A directory path that does not end with a separator. *)
Definition plain_directory (d : string) : Prop := List.last (split_path d) EmptyString ≠ EmptyString.

Lemma path_join_plain d r :
  plain_directory d → is_absolute r = false → path_join d r = d +:+ String "/" r.
Proof.
  unfold plain_directory, path_join. intros Hd ->. rewrite (proj2 (String.eqb_neq _ EmptyString) Hd), orb_false_r.
  destruct (String.eqb_spec d EmptyString) as [->|]; [by cbn in Hd|done].
Qed.

Lemma string_app_inj d a b : d +:+ a = d +:+ b → a = b.
Proof. induction d as [|c d IH]; cbn; [done|]. intros [= H']. auto. Qed.

Lemma path_join_ne d a b :
  plain_directory d → is_absolute a = false → is_absolute b = false → a ≠ b → path_join d a ≠ path_join d b.
Proof. intros Hd Ha Hb Hne. rewrite !path_join_plain by done. by intros [= Heq]%string_app_inj. Qed.

(** ** Lemmas: the lifecycle array *)

Lemma check_lifecycle_events complete n last events last' :
  validate_lifecycle complete n last events = Ok last' →
  check_lifecycle complete n last (map reparsed (map lifecycle_json events)) = Ok events.
Proof.
  revert last. induction events as [|e events IH]; intros last; cbn [validate_lifecycle map check_lifecycle]; [done|].
  destruct ((_ || _) || _) eqn:E; [done|]. intros Hv%IH. apply orb_false_iff in E as [E Hst].
  apply bool_decide_eq_false in Hst. destruct e as [i st r]. cbn [before_record_index lifecycle_state lifecycle_reason] in *.
  clear IH. revert Hv. generalize (map reparsed (map lifecycle_json events)). intros tail Hv.
  unfold lifecycle_json, json_object. cbn [before_record_index lifecycle_state lifecycle_reason].
  lookup_key "before_record_index". cbn [is_number_unsigned negb throw_if get_uint64 got]. rewrite E.
  lookup_key "state". cbn [get_string].
  assert (lifecycle_state_named (book_name st) = Some st) as -> by (by destruct st).
  lookup_key "reason". cbn [is_string negb]. by rewrite Hv.
Qed.

(** ** Lemmas: the configuration *)

Definition is_kraken (v : Venue) : bool := bool_decide (v = Kraken).

(** The members of the configurations in key order. *)
Definition precision_members : json := JObject [("price_scale", JInteger 2); ("quantity_scale", JInteger 8)].
Definition venue_members (v : Venue) (depth : Z) : list (string * json) :=
  match v with
  | Coinbase =>
      [("instruments", JArray [JString "BTC-USD"]); ("processor_version", JInteger 1);
       ("product_metadata", JObject [("coinbase:BTC-USD", precision_members)]);
       ("venues", JArray [JString "coinbase"])]
  | Kraken =>
      [("instruments", JArray [JString "BTC_USD"]); ("processor_version", JInteger 1);
       ("product_metadata", JObject [("kraken:BTC_USD", precision_members)]);
       ("subscriptions", JObject [("kraken:BTC_USD",
          JObject [("channel", JString "book"); ("depth", JUnsigned depth)])]);
       ("venue_symbols", JObject [("kraken:BTC_USD", JString "BTC/USD")]);
       ("venues", JArray [JString "kraken"])]
  end.

(** The configuration of a venue. *)
Definition venue_configuration (v : Venue) (depth : Z) : result json :=
  if is_kraken v then kraken_configuration depth else Ok configuration.

Lemma venue_configuration_members v depth config :
  venue_configuration v depth = Ok config →
  config = JObject (venue_members v depth) ∧ (v = Kraken → 0 ≤ depth ≤ 1000).
Proof.
  unfold venue_configuration, kraken_configuration. destruct v; cbn [is_kraken].
  - intros [= <-]. split; [vm_compute; reflexivity|done].
  - intros [[] [Hd [= <-]]]%bind_Ok. split; [vm_compute; reflexivity|]. intros _.
    unfold validate_depth in Hd. apply throw_if_Ok in Hd. zbool. lia.
Qed.

Section configuration_lemmas.
Context `{JsonLib} {text_laws : JsonText} (sha256 : string → string).

(** The validation of a manifest that contains the configuration. *)
Lemma check_configuration_ok v depth m text :
  (∀ k w, member k (venue_members v depth) = Some w → at_key m k = Ok (reparsed w)) →
  venue_configuration v depth = Ok (JObject (venue_members v depth)) →
  (v = Kraken → 0 ≤ depth ≤ 1000) →
  json_dump (JObject (venue_members v depth)) = Ok text →
  at_key m "configuration_hash" = Ok (JString (sha256 text)) →
  check_configuration sha256 m (is_kraken v) depth = Ok tt.
Proof.
  intros Hm Hconfig Hdepth Hd Hh. unfold check_configuration. fold (venue_configuration v depth). rewrite Hconfig.
  assert (∀ config', reparsed config' = reparsed (JObject (venue_members v depth)) → writable config' = true →
    json_dump config' = Ok text) as Hdump.
  { intros config' Hr Hw. rewrite <-(json_dump_reparsed config'), Hr, json_dump_reparsed; [done| |done].
    destruct v; cbn; [done|]. specialize (Hdepth eq_refl). unfold UINT64_MAX.
    rewrite (proj2 (Z.leb_le _ _)), (proj2 (Z.leb_le _ _)) by lia. done. }
  assert (check_products m (is_kraken v) (JObject (venue_members v depth)) =
          Ok (set_key "product_metadata" (JObject [(product_key (is_kraken v), reparsed precision_members)])
                (JObject (venue_members v depth)))) as Hp.
  { unfold check_products. by destruct v; rewrite (Hm "product_metadata" _ eq_refl). }
  monad_simpl. rewrite Hp. clear Hp Hconfig. destruct v; cbn [is_kraken product_key].
  - set (config := set_key _ _ _). vm_compute in config. subst config.
    unfold check_same. rewrite (Hm "venues" _ eq_refl), (Hm "instruments" _ eq_refl),
      (Hm "product_metadata" _ eq_refl), (Hm "processor_version" _ eq_refl), Hh. cbn.
    rewrite Hdump by done. cbn. by rewrite String.eqb_refl.
  - set (config := set_key _ _ _). vm_compute in config. subst config.
    unfold check_subscription. rewrite (Hm "venue_symbols" _ eq_refl), (Hm "subscriptions" _ eq_refl). cbn.
    rewrite Z.eqb_refl. cbn.
    rewrite (Hm "venues" _ eq_refl), (Hm "instruments" _ eq_refl),
      (Hm "product_metadata" _ eq_refl), (Hm "processor_version" _ eq_refl), Hh. cbn.
    rewrite Hdump; [cbn; by rewrite String.eqb_refl|done|].
    specialize (Hdepth eq_refl). cbn. unfold UINT64_MAX.
    rewrite (proj2 (Z.leb_le _ _)), (proj2 (Z.leb_le _ _)) by lia. done.
Qed.

Lemma check_venue_ok v depth m :
  (∀ k w, member k (venue_members v depth) = Some w → at_key m k = Ok (reparsed w)) →
  check_venue m = Ok (is_kraken v, if is_kraken v then depth else 100).
Proof.
  intros Hm. unfold check_venue, at_equals. destruct v; rewrite (Hm "venues" _ eq_refl); [done|].
  cbn. rewrite (Hm "subscriptions" _ eq_refl). done.
Qed.
End configuration_lemmas.

(** ** Lemmas: the manifest of a complete session *)

Definition raw_relative (v : Venue) : string := "raw/" +:+ venue_text v +:+ ".jsonl".

(** The members of the raw file's entry before the recording ends. *)
Definition raw_entry (v : Venue) : list (string * json) :=
  set_members [("venue", JString (venue_text v)); ("path", JString (raw_relative v))] [].

Section manifest_lemmas.
Context `{JsonLib} {text_laws : JsonText} (sha256 : string → string) (build : BuildInfo).

(** The manifest a capture holds when it is finalised: that of its start, and
    what the runtime may have added. *)
Definition captured (v : Venue) (depth : Z) (directory started hash : string) (extras : list (string * json))
    : list (string * json) :=
  set_members extras (set_members (initial_keys build directory (venue_text v) started hash) (venue_members v depth)).

Definition completed (s : RuntimeStatus) (ended text : string) (connections : Z) (v : Venue)
    (m0 : list (string * json)) : list (string * json) :=
  set_member "connections" (JUnsigned connections)
    (set_member "raw_files" (JArray [JObject (set_members (raw_keys sha256 s text) (raw_entry v))])
       (set_members (status_keys s ended) m0)).

(** What the runtime may add to the manifest of a capture. *)
Definition extras_ok (extras : list (string * json)) : Prop :=
  forallb (λ m, writable m.2) extras = true ∧
  Forall (λ m, m.1 = "metrics"%string ∨ m.1 = "final_book_hash"%string) extras.

Lemma extras_member extras k :
  extras_ok extras → k ≠ "metrics"%string → k ≠ "final_book_hash"%string → member k (rev extras) = None.
Proof.
  intros [_ He] H1 H2. apply Forall_rev in He. induction He as [|[k' w] l Hk Hl IH]; cbn in *; [done|].
  destruct (String.eqb_spec k' k) as [->|]; [by destruct Hk|done].
Qed.

Lemma captured_member v depth directory started hash extras k :
  extras_ok extras → k ≠ "metrics"%string → k ≠ "final_book_hash"%string →
  member k (captured v depth directory started hash extras) =
  match member k (rev (initial_keys build directory (venue_text v) started hash)) with
  | Some w => Some w
  | None => member k (venue_members v depth)
  end.
Proof. intros He H1 H2. unfold captured. rewrite member_set_members, extras_member by done. by rewrite member_set_members. Qed.

(** A status without an unwritten tail. *)
Lemma clean_stop_range n s : 0 ≤ n → clean_stop n s → unpersisted_processed_range s = EmptyString.
Proof.
  intros Hn Hs. unfold unpersisted_processed_range. rewrite (cs_progress n s Hs). cbn.
  destruct (n =? 0); [done|]. cbn. by rewrite Z.geb_leb, Z.leb_refl.
Qed.

Lemma final_manifest_completed v depth directory started hash extras s ended text n scanned :
  extras_ok extras → clean_stop n s →
  scan_file v (Some text) = Ok scanned → scan_records scanned = n →
  final_manifest sha256 s ended (Some text) (JObject (captured v depth directory started hash extras)) =
  JObject (completed s ended text (Z.of_nat (size (scan_connections scanned))) v
             (captured v depth directory started hash extras)).
Proof.
  intros He Hs Hscan Hn. unfold final_manifest. cbn [set_keys].
  set (m0 := captured v depth directory started hash extras).
  assert (∀ k, k ≠ "metrics"%string → k ≠ "final_book_hash"%string →
    member k (set_members (status_keys s ended) m0) =
    match member k (rev (status_keys s ended)) with
    | Some w => Some w
    | None => match member k (rev (initial_keys build directory (venue_text v) started hash)) with
              | Some w => Some w
              | None => member k (venue_members v depth)
              end
    end) as Hm1.
  { intros k H1 H2. rewrite member_set_members. subst m0. by rewrite captured_member. }
  set (m1 := set_members (status_keys s ended) m0) in *.
  assert (field (JObject m1) "raw_files" = JArray [JObject (raw_entry v)]) as Hf
    by (unfold field; rewrite Hm1 by done; reflexivity).
  unfold update_raw. rewrite Hf. cbn [set_key set_keys].
  set (m2 := set_member "raw_files" _ m1).
  assert (field (JObject m2) "venues" = JArray [JString (venue_text v)]) as Hv.
  { unfold field. subst m2. rewrite member_set, Hm1 by done. by destruct v. }
  unfold finalize_scan. rewrite Hv.
  replace (if json_equal (JString (venue_text v)) (JString "kraken") then Kraken else Coinbase) with v by (by destruct v).
  rewrite Hscan, Hn, (cs_written n s Hs), Z.eqb_refl. cbn [negb].
  rewrite (cs_received n s Hs), (cs_fatal n s Hs), Z.eqb_refl, bool_decide_false by (by intros [? ?]).
  cbn [orb negb]. rewrite andb_false_r. reflexivity.
Qed.

(** The members of the final manifest. *)
Lemma completed_member v depth directory started hash extras s ended text c k :
  extras_ok extras → k ≠ "metrics"%string → k ≠ "final_book_hash"%string →
  member k (completed s ended text c v (captured v depth directory started hash extras)) =
  member k (set_member "connections" (JUnsigned c)
    (set_member "raw_files" (JArray [JObject (set_members (raw_keys sha256 s text) (raw_entry v))])
       (set_members (status_keys s ended)
          (set_members (initial_keys build directory (venue_text v) started hash) (venue_members v depth))))).
Proof.
  intros He H1 H2. unfold completed. rewrite !member_set, !member_set_members, captured_member by done. done.
Qed.

Lemma in_uint64_writable n : in_uint64 n → writable (JUnsigned n) = true.
Proof. intros [H1 H2]. cbn. by rewrite (proj2 (Z.leb_le _ _) H1), (proj2 (Z.leb_le _ _) H2). Qed.

Lemma lifecycle_writable e : in_uint64 (before_record_index e) → writable (lifecycle_json e) = true.
Proof.
  intros He. unfold lifecycle_json, json_object.
  apply (writable_set_members _ []); [|done]. cbn [forallb snd]. by rewrite in_uint64_writable.
Qed.

Lemma clean_progress n s : in_uint64 n → clean_stop n s →
  Forall (λ o, writable (json_optional o) = true)
    [last_received_index (st_progress s); last_enqueued_index (st_progress s);
     last_written_index (st_progress s); last_processed_index (st_progress s)].
Proof.
  intros Hn Hs. rewrite (cs_progress n s Hs).
  assert (writable (json_optional (if n =? 0 then None else Some (n - 1))) = true) as Hw.
  { destruct (Z.eqb_spec n 0); [done|]. apply in_uint64_writable. unfold in_uint64 in *. lia. }
  by repeat constructor.
Qed.

Lemma completed_writable v depth directory started hash extras s ended text c n :
  extras_ok extras → clean_stop n s → in_uint64 n → in_uint64 c → in_uint64 (Z.of_nat (String.length text)) →
  (v = Kraken → 0 ≤ depth ≤ 1000) → Forall (λ e, in_uint64 (before_record_index e)) (lifecycle_events s) →
  writable (JObject (completed s ended text c v (captured v depth directory started hash extras))) = true.
Proof.
  intros [He _] Hs Hn Hc Ht Hd Hl. pose proof (clean_progress n s Hn Hs) as Hp.
  rewrite !Forall_cons in Hp. destruct Hp as (Hp1 & Hp2 & Hp3 & Hp4 & _). cbn [writable].
  assert (forallb writable (map lifecycle_json (lifecycle_events s)) = true) as Hlw.
  { induction Hl; cbn [map forallb]; [done|]. rewrite lifecycle_writable by done. done. }
  assert (in_uint64 (u64 (received_messages s - written_messages s))) as Hu by apply u64_range.
  unfold completed, captured. apply writable_set; [by apply in_uint64_writable|]. apply writable_set.
  - cbn [writable forallb]. rewrite andb_true_r. apply writable_set_members; [|by destruct v].
    unfold raw_keys. rewrite (cs_written n s Hs). cbn [forallb snd].
    rewrite !in_uint64_writable, Hp3 by done. by destruct (n =? 0).
  - apply writable_set_members; [|apply writable_set_members; [done|apply writable_set_members; [done|]]].
    + unfold status_keys. cbn [forallb snd]. rewrite Hp1, Hp2, Hp3, Hp4, in_uint64_writable by done. cbn [writable].
      by rewrite Hlw.
    + destruct v; [done|]. unfold writable_members. cbn. destruct (Hd eq_refl). unfold UINT64_MAX.
      rewrite (proj2 (Z.leb_le _ _)), (proj2 (Z.leb_le _ _)) by lia. done.
Qed.

(** What the checks see of a complete manifest. *)
Section complete.
Context (v : Venue) (depth : Z) (directory started hash : string) (extras : list (string * json)).
Context (s : RuntimeStatus) (ended text : string) (n c : Z).
Context (extras_good : extras_ok extras) (clean : clean_stop n s) (n_range : in_uint64 n).

Definition complete_document : json :=
  reparsed (JObject (completed s ended text c v (captured v depth directory started hash extras))).

Lemma complete_key k w :
  member k (set_members (status_keys s ended)
    (set_members (initial_keys build directory (venue_text v) started hash) (venue_members v depth))) = Some w →
  k ≠ "metrics"%string → k ≠ "final_book_hash"%string → k ≠ "connections"%string → k ≠ "raw_files"%string →
  at_key complete_document k = Ok (reparsed w).
Proof.
  intros Hw H1 H2 H3 H4. apply at_key_reparsed with w; [|done]. rewrite completed_member by done.
  rewrite !member_set, (proj2 (String.eqb_neq _ _) (not_eq_sym H3)), (proj2 (String.eqb_neq _ _) (not_eq_sym H4)). done.
Qed.

Lemma complete_configuration k w :
  member k (venue_members v depth) = Some w → at_key complete_document k = Ok (reparsed w).
Proof.
  intros Hw. assert (k ∈ map fst (venue_members v depth)) as Hk.
  { revert Hw. generalize (venue_members v depth). intros l. induction l as [|[k1 w1] l IH]; cbn; [done|].
    destruct (String.eqb_spec k1 k) as [->|]; [intros; apply list_elem_of_here|intros ?; apply list_elem_of_further; auto]. }
  assert (member k (rev (status_keys s ended)) = None ∧
          member k (rev (initial_keys build directory (venue_text v) started hash)) = None ∧
          Forall (λ k', k ≠ k') ["metrics"; "final_book_hash"; "connections"; "raw_files"]%string) as (H1 & H2 & H3).
  { destruct v; cbn in Hk; rewrite ?elem_of_cons in Hk; destruct_or! Hk; subst;
      (split_and!; [reflexivity|reflexivity|by repeat constructor]) || by apply not_elem_of_nil in Hk. }
  rewrite !Forall_cons in H3. destruct H3 as (? & ? & ? & ? & _).
  apply complete_key; [|done..]. by rewrite !member_set_members, H1, H2.
Qed.

(** What the runtime added. *)
Lemma complete_extra k w : member k (rev extras) = Some w → at_key complete_document k = Ok (reparsed w).
Proof.
  intros Hw. assert (k = "metrics" ∨ k = "final_book_hash")%string as Hk.
  { destruct extras_good as [_ He]. apply Forall_rev in He. revert Hw. induction He as [|[k' w'] l Hk' _ IH]; cbn in *; [done|].
    destruct (String.eqb_spec k' k) as [->|]; [done|exact IH]. }
  apply at_key_reparsed with w; [|done]. unfold completed, captured. rewrite !member_set, !member_set_members.
  by destruct Hk as [-> | ->]; cbn [status_keys rev app member String.eqb Ascii.eqb Bool.eqb]; rewrite Hw.
Qed.

Lemma complete_status : check_status complete_document false = Ok true.
Proof.
  unfold check_status.
  rewrite (complete_key "format_version" (JInteger 1)) by (done || (rewrite !member_set_members; reflexivity)).
  rewrite (complete_key "status" (JString "complete")); [done| |done..].
  rewrite !member_set_members. unfold status_keys. by rewrite (cs_state n s clean).
Qed.

Definition complete_entry : json := reparsed (JObject (set_members (raw_keys sha256 s text) (raw_entry v))).

Lemma complete_raw_files : at_key complete_document "raw_files" = Ok (JArray [complete_entry]).
Proof.
  apply at_key_reparsed with (JArray [JObject (set_members (raw_keys sha256 s text) (raw_entry v))]); [|done].
  rewrite completed_member by done. by rewrite !member_set.
Qed.

Lemma entry_key k w w' :
  member k (set_members (raw_keys sha256 s text) (raw_entry v)) = Some w → reparsed w = w' →
  at_key complete_entry k = Ok w'.
Proof. apply at_key_reparsed. Qed.

Lemma complete_raw_path (canonical : string → result string) :
  plain_directory directory → canonical directory = Ok directory →
  canonical (path_join directory (raw_relative v)) = Ok (path_join directory (raw_relative v)) →
  check_raw_path canonical complete_document (is_kraken v) directory =
  Ok (complete_entry, path_join directory (raw_relative v)).
Proof.
  intros Hd Hc1 Hc2. unfold check_raw_path. rewrite complete_raw_files. monad_simpl.
  rewrite bool_decide_true by done. cbn [negb throw_if].
  change (at_index (JArray [complete_entry]) 0) with (Ok complete_entry). unfold at_equals. monad_simpl.
  rewrite (entry_key "venue" (JString (venue_text v)) _ ltac:(by rewrite member_set_members) eq_refl).
  rewrite (entry_key "path" (JString (raw_relative v)) _ ltac:(by rewrite member_set_members) eq_refl).
  replace (json_equal (reparsed (JString (venue_text v))) _) with true by (by destruct v).
  cbn [negb throw_if reparsed get_string]. rewrite Hc1, Hc2.
  replace (is_absolute (raw_relative v)) with false by (by destruct v). cbn [throw_if].
  rewrite path_join_plain by (done || by destruct v). rewrite split_path_slash, lexically_relative_below.
  by destruct v.
Qed.

Lemma complete_raw_file : check_raw_file true complete_entry text (sha256 text) = Ok tt.
Proof.
  unfold check_raw_file, when_required. cbn [orb].
  rewrite (entry_key "bytes" _ _ ltac:(rewrite member_set_members; reflexivity) eq_refl),
    (entry_key "records" _ _ ltac:(rewrite member_set_members; reflexivity) eq_refl),
    (entry_key "sha256" _ _ ltac:(rewrite member_set_members; reflexivity) eq_refl).
  monad_simpl. cbn. by rewrite Z.eqb_refl, String.eqb_refl.
Qed.

(** The index of the last record. *)
Lemma last_index_json :
  json_optional (if n =? 0 then None else Some (n - 1)) = (if n =? 0 then JNull else JUnsigned (u64 (n - 1))).
Proof.
  destruct (Z.eqb_spec n 0); [done|]. rewrite u64_small; [done|]. unfold in_uint64 in *. lia.
Qed.

Lemma last_index_equal j : j = (if n =? 0 then JNull else JUnsigned (u64 (n - 1))) → json_equal (reparsed j) j = true.
Proof. intros ->. destruct (n =? 0); [done|]. cbn. apply Z.eqb_refl. Qed.

Lemma complete_progress : check_complete complete_document complete_entry n = Ok tt.
Proof.
  pose proof (cs_progress n s clean) as Hp. cbv zeta in Hp. pose proof last_index_json as Hj.
  pose proof (last_index_equal _ eq_refl) as Hself.
  unfold check_complete, check_progress, at_equals.
  rewrite (complete_key "last_received_index" (json_optional (last_received_index (st_progress s)))),
    (complete_key "last_enqueued_index" (json_optional (last_enqueued_index (st_progress s)))),
    (complete_key "last_written_index" (json_optional (last_written_index (st_progress s)))),
    (complete_key "last_processed_index" (json_optional (last_processed_index (st_progress s)))),
    (complete_key "final_runtime_state" (JString "Stopped")),
    (complete_key "unpersisted_records" (JUnsigned 0)), (complete_key "unpersisted_processed_tail" (JBool false))
    by (done || (rewrite !member_set_members; unfold status_keys;
          rewrite ?(cs_state n s clean), ?(clean_stop_range n s (proj1 n_range) clean), ?(cs_received n s clean),
            ?(cs_written n s clean), ?Z.sub_diag; reflexivity)).
  rewrite (entry_key "first_record_index" (if n =? 0 then JNull else JInteger 0) (if n =? 0 then JNull else JUnsigned 0)),
    (entry_key "last_record_index" (json_optional (last_written_index (st_progress s))) (reparsed (json_optional (last_written_index (st_progress s)))))
    by (done || (by destruct (n =? 0)) ||
        (rewrite !member_set_members; unfold raw_keys; rewrite ?(cs_written n s clean); reflexivity)).
  rewrite Hp. cbn [last_received_index last_enqueued_index last_written_index last_processed_index].
  rewrite Hj. monad_simpl. rewrite !Hself. cbn [negb throw_if reparsed any_of]. rewrite ?Hself.
  by destruct (n =? 0).
Qed.

Lemma complete_lifecycle last' :
  validate_lifecycle true n 0 (lifecycle_events s) = Ok last' →
  ∃ array, lifecycle_array complete_document = Ok array ∧
    check_lifecycle true n 0 array = Ok (lifecycle_events s) ∧
    is_object (field complete_document "lifecycle_events") = false.
Proof.
  intros Hv. exists (map reparsed (map lifecycle_json (lifecycle_events s))).
  assert (at_key complete_document "lifecycle_events" =
          Ok (reparsed (JArray (map lifecycle_json (lifecycle_events s))))) as Hk
    by (apply complete_key; done || (rewrite !member_set_members; reflexivity)).
  unfold lifecycle_array, field. unfold at_key in Hk. destruct complete_document; try done.
  destruct (member "lifecycle_events" members) as [j|]; [|done]. injection Hk as ->.
  split_and!; [done| |done]. by apply check_lifecycle_events with last'.
Qed.

(** Every check of a strict replay on the document. *)
Lemma complete_checks canonical last' :
  plain_directory directory → canonical directory = Ok directory →
  canonical (path_join directory (raw_relative v)) = Ok (path_join directory (raw_relative v)) →
  validate_lifecycle true n 0 (lifecycle_events s) = Ok last' →
  ∃ array,
    check_status complete_document false = Ok true ∧
    (∀ k w, member k (venue_members v depth) = Some w → at_key complete_document k = Ok (reparsed w)) ∧
    at_key complete_document "configuration_hash" = Ok (JString hash) ∧
    check_raw_path canonical complete_document (is_kraken v) directory =
      Ok (complete_entry, path_join directory (raw_relative v)) ∧
    check_raw_file true complete_entry text (sha256 text) = Ok tt ∧
    at_key complete_entry "records" = Ok (JUnsigned n) ∧
    check_complete complete_document complete_entry n = Ok tt ∧
    lifecycle_array complete_document = Ok array ∧
    check_lifecycle true n 0 array = Ok (lifecycle_events s) ∧
    is_object (field complete_document "lifecycle_events") = false.
Proof.
  intros Hd Hc1 Hc2 Hval. destruct (complete_lifecycle last' Hval) as (array & Ha & Hl & Ho). exists array.
  split_and!; try done.
  - apply complete_status.
  - apply complete_configuration.
  - apply (complete_key "configuration_hash" (JString hash)); done || (rewrite !member_set_members; reflexivity).
  - by apply complete_raw_path.
  - apply complete_raw_file.
  - apply (entry_key "records" (JUnsigned n)); [|done].
    rewrite member_set_members. unfold raw_keys. by rewrite (cs_written n s clean).
  - apply complete_progress.
Qed.
End complete.
End manifest_lemmas.

(** ** Theorem *)

Section roundtrip.
Context `{JsonLib} {text_laws : JsonText} (sha256 : string → string) (build : BuildInfo).
Context (canonical : string → result string).

(** The scan of a complete recording. *)
Lemma scan_recording v ms text n :
  recording ms EmptyString text → Forall (λ e, venue e = v) ms → Z.of_nat (length ms) = n → n ≤ UINT64_MAX →
  ∃ scanned, scan_file v (Some text) = Ok scanned ∧ scan_records scanned = n ∧
    in_uint64 (Z.of_nat (size (scan_connections scanned))) ∧
    (read_all (open_reader (Some (text, false)))).2 = ms.
Proof.
  intros Hr Hv <- Hb. pose proof (read_recording ms EmptyString text Hr Hb eq_refl) as Hread.
  unfold scan_file. cbn [fmap option_fmap option_map]. destruct (read_all _) as [rd back]. destruct Hread as [-> He].
  destruct (scan_loop_Ok v ms {| scan_records := 0; scan_connections := ∅ |} Hv) as (r & Hs & Hc); [done|exact Hb|].
  exists r. unfold scan. rewrite Hs. monad_simpl. unfold has_error. rewrite He.
  apply scan_loop_connections in Hs. cbn [scan_connections scan_records] in *. rewrite size_empty in Hs.
  split_and!; [done|exact Hc| |done]. split; [lia|]. etransitivity; [apply inj_le, Hs|exact Hb].
Qed.

(** A fresh capture holds the members of its start. *)
Lemma new_capture_manifest v directory depth started io fs fs1 c :
  new_capture sha256 build directory (venue_text v) depth true started io fs = (fs1, Ok c) →
  ∃ text, json_dump (JObject (venue_members v depth)) = Ok text ∧
    venue_configuration v depth = Ok (JObject (venue_members v depth)) ∧ (v = Kraken → 0 ≤ depth ≤ 1000) ∧
    c = {| directory_ := directory;
           manifest_ := JObject (set_members (initial_keys build directory (venue_text v) started (sha256 text))
                                   (venue_members v depth)) |}.
Proof.
  unfold new_capture. replace (_ && _) with false by (by destruct v). cbn [negb].
  destruct (initial_manifest _ _ _ _ _ _) as [m|] eqn:Hm; [|done].
  destruct (publish _ _ _ _) as [fs2 [[]|]]; [|done]. intros [= <- <-].
  unfold initial_manifest in Hm. apply bind_Ok in Hm as (config & Hc & Hm). apply bind_Ok in Hm as (text & Ht & [= <-]).
  assert (venue_configuration v depth = Ok config) as Hvc by (by destruct v).
  destruct (venue_configuration_members v depth config Hvc) as [-> Hd].
  exists text. by rewrite Hvc.
Qed.

(** A finished session. *)
Section finished.
Context (v : Venue) (directory : string) (depth : Z) (started : string) (io : publish_io) (fs fs1 : FileSystem).
Context (c : Capture) (extras : list (string * json)) (s : RuntimeStatus) (ended text : string).
Context (ms : list RawMessage) (io' : publish_io) (fs2 : FileSystem) (c' : Capture) (fs3 : FileSystem) (last' : Z).
Abbreviation n := (Z.of_nat (length ms)).
Abbreviation raw := (path_join directory (raw_relative v)).
Context (capture_created : new_capture sha256 build directory (venue_text v) depth true started io fs = (fs1, Ok c)).
Context (Hex : extras_ok extras) (Hdir : plain_directory directory).
Context (Hc1 : canonical directory = Ok directory) (Hc2 : canonical raw = Ok raw).
Context (raw_file : fs2 !! raw = Some text) (Hlen : in_uint64 (Z.of_nat (String.length text))).
Context (Hrec : recording ms EmptyString text) (Hven : Forall (λ e, venue e = v) ms) (Hn : n ≤ UINT64_MAX).
Context (Hclean : clean_stop n s) (Hlc : Forall (λ e, in_uint64 (before_record_index e)) (lifecycle_events s)).
Context (Hval : validate_lifecycle true n 0 (lifecycle_events s) = Ok last').
Context (capture_finalized : finalize sha256 s ended io' fs2 (c <| manifest_ ::= set_keys extras |>) = (c', fs3, Ok tt)).

(** The files after finalisation: the manifest, whose document is the completed
    one, and the recording. *)
Lemma finalized_files :
  ∃ config_text scanned mtext,
    let m := JObject (completed sha256 s ended text (Z.of_nat (size (scan_connections scanned))) v
                        (captured build v depth directory started (sha256 config_text) extras)) in
    json_dump (JObject (venue_members v depth)) = Ok config_text ∧
    scan_file v (Some text) = Ok scanned ∧ scan_records scanned = n ∧
    writable m = true ∧ json_dump2 m = Ok mtext ∧
    fs3 !! path_join directory "manifest.json" = Some (mtext +:+ String newline EmptyString) ∧
    fs3 !! raw = Some text.
Proof.
  pose proof capture_created as Hcap. pose proof capture_finalized as Hfin. pose proof raw_file as Hraw.
  destruct (new_capture_manifest _ _ _ _ _ _ _ _ Hcap) as (config_text & Hdump & Hconf & Hdepth & Hceq).
  rewrite Hceq in Hfin.
  destruct (scan_recording v ms text n Hrec Hven eq_refl Hn) as (scanned & Hscan & Hrecords & Hconn & Hback).
  exists config_text, scanned. assert (in_uint64 n) as Hnr by (split; [lia|exact Hn]).
  unfold finalize in Hfin. rewrite !bool_decide_false in Hfin by (by rewrite (cs_state n s Hclean)). cbn [orb] in Hfin.
  assert (raw_path {| directory_ := directory; manifest_ := JObject (captured build v depth directory started (sha256 config_text) extras) |}
    = Ok raw) as Hpath.
  { unfold raw_path. cbn [manifest_ directory_]. unfold at_key. rewrite captured_member by done. by destruct v. }
  change ((_ <| manifest_ ::= set_keys extras |>)) with
    {| directory_ := directory; manifest_ := JObject (captured build v depth directory started (sha256 config_text) extras) |} in Hfin.
  rewrite Hpath in Hfin. cbn [field_update manifest_ directory_] in Hfin. rewrite Hraw in Hfin.
  cbn [manifest_ directory_] in Hfin.
  rewrite (final_manifest_completed sha256 build _ _ _ _ _ _ s ended text n scanned Hex Hclean Hscan Hrecords) in Hfin.
  set (m := JObject (completed sha256 s ended text _ v _)) in Hfin.
  assert (writable m = true) as Hw by (by apply (completed_writable sha256 build) with n).
  unfold publish in Hfin. destruct (temporary_created io'); [|done]. cbn [negb] in Hfin.
  destruct (json_dump2 m) as [mtext|] eqn:Hm2; [|done].
  destruct (temporary_written io'); [|done].
  destruct (fs2 !! path_join directory "manifest.json"); [done|]. injection Hfin as _ <-.
  assert (path_join directory "manifest.inprogress.json" ≠ path_join directory "manifest.json" ∧
          path_join directory "manifest.inprogress.json" ≠ raw ∧ path_join directory "manifest.json" ≠ raw)
    as (Hne1 & Hne2 & Hne3) by (split_and!; apply path_join_ne; by destruct v).
  exists mtext. cbv zeta. fold m. split_and!; [done..| |].
  - by rewrite lookup_delete_ne, lookup_insert_eq.
  - by rewrite lookup_delete_ne, lookup_insert_ne.
Qed.

(** The checks of its strict replay, and what the replay reads again at its
    end. *)
Lemma session_checks :
  ∃ src, check_session sha256 canonical fs3 directory false = Ok src ∧
    src_complete src = true ∧ src_kraken src = is_kraken v ∧ (v = Kraken → src_depth src = depth) ∧
    src_records src = ms ∧ src_lifecycle src = lifecycle_events s ∧
    (v = Coinbase → replay_products (src_manifest src) = Ok default_products) ∧
    (∀ k w, member k (rev extras) = Some w → at_key (src_manifest src) k = Ok (reparsed w)) ∧
    file_sha256 sha256 fs3 (src_raw src) = Ok (src_checksum src) ∧
    file_sha256 sha256 fs3 (manifest_path fs3 directory false) = Ok (src_manifest_checksum src).
Proof.
  pose proof capture_created as Hcap.
  destruct (new_capture_manifest _ _ _ _ _ _ _ _ Hcap) as (config_text' & Hdump' & Hconf & Hdepth & _).
  destruct finalized_files as (config_text & scanned & mtext & Hdump & Hscan & Hrecords & Hw & Hm2 & Hman3 & Hraw3).
  set (m := JObject (completed sha256 s ended text _ v _)) in *.
  destruct (scan_recording v ms text n Hrec Hven eq_refl Hn) as (_ & _ & _ & _ & Hback).
  assert (in_uint64 n) as Hnr by (split; [lia|exact Hn]).
  unfold check_session.
  replace (manifest_path fs3 directory false) with (path_join directory "manifest.json")
    by (unfold manifest_path; by rewrite andb_false_r).
  rewrite Hman3.
  rewrite (json_parse_dump2 _ _ Hw Hm2).
  destruct (complete_checks sha256 build v depth directory started (sha256 config_text) extras s ended text n
    (Z.of_nat (size (scan_connections scanned))) Hex Hclean Hnr canonical last' Hdir Hc1 Hc2 Hval)
    as (array & Hstatus & Hdoc & Hhash & Hrawp & Hrawf & Hcount & Hcomplete & Harr & Hev & Hobj).
  pose proof (complete_extra sha256 build v depth directory started (sha256 config_text) extras s ended text
    (Z.of_nat (size (scan_connections scanned))) Hex) as Hextra.
  fold m in Hstatus, Hdoc. change (complete_document _ _ _ _ _ _ _ _ _ _ _ _) with (reparsed m) in *.
  generalize dependent (reparsed m). intros doc Hstatus Hdoc Hhash Hrawp Hcomplete Harr Hobj Hextra.
  monad_simpl. rewrite Hstatus, (check_venue_ok v depth doc Hdoc).
  assert (check_configuration sha256 doc (is_kraken v) (if is_kraken v then depth else 100) = Ok tt) as Hcc.
  { rewrite <-(check_configuration_ok sha256 v depth doc config_text Hdoc Hconf Hdepth Hdump Hhash). by destruct v. }
  rewrite Hcc, Hrawp. fold raw.
  assert (∀ path t, fs3 !! path = Some t → file_sha256 sha256 fs3 path = Ok (sha256 t)) as Hsha
    by (intros path t Hpt; unfold file_sha256; by rewrite Hpt).
  rewrite (Hsha _ _ Hraw3), Hraw3. change (default EmptyString (Some text)) with text.
  rewrite Hrawf. replace (if is_kraken v then Kraken else Coinbase) with v by (by destruct v).
  rewrite Hscan, Hrecords. unfold when_required. cbn [orb]. rewrite Hcount. monad_simpl. cbn [json_equal].
  rewrite Z.eqb_refl. cbn [negb throw_if]. rewrite Hcomplete, Harr, Hev, Hobj. cbn [andb throw_if].
  eexists. split; [reflexivity|]. cbn [src_complete src_kraken src_depth src_records src_lifecycle src_manifest
    src_raw src_checksum src_manifest_checksum].
  split_and!; [done|done|by intros ->|done|done| |exact Hextra|by apply Hsha|by apply Hsha].
  intros ->. unfold replay_products. by rewrite (Hdoc "product_metadata" _ eq_refl).
Qed.

(** C6: the round trip of a session.  When a capture was created, the
    recording holds exactly the records of the run, the runtime stopped
    cleanly and the capture is finalised (after the runtime added its metrics
    and the hash of its book, or not), then the session passes every check of
    a strict replay, which sees a complete session of the same venue and
    depth, with exactly the recorded messages and lifecycle events. *)
Theorem session_roundtrip :
  ∃ src, check_session sha256 canonical fs3 directory false = Ok src ∧
    src_complete src = true ∧ src_kraken src = is_kraken v ∧ (v = Kraken → src_depth src = depth) ∧
    src_records src = ms ∧ src_lifecycle src = lifecycle_events s.
Proof. destruct session_checks as (src & ? & ? & ? & ? & ? & ? & _). by exists src. Qed.
End finished.
End roundtrip.

(** ** Concrete session *)

Definition ex_session_records : list RawMessage :=
  [ex_record 0 Kraken 70 "first"; ex_record 1 Kraken (-1) "second"].
Definition ex_sha (s : string) : string := "sha:" +:+ s.
Definition ex_build : BuildInfo :=
  {| git_commit := "c0ffee"; build_type := "Release"; os_name := "Linux"; architecture := "x86_64" |}.
Definition ex_directory : string := "/data/session".
Definition ex_raw_path : string := "/data/session/raw/kraken.jsonl".
Definition ex_session_events : list LifecycleEvent :=
  [{| before_record_index := 1; lifecycle_state := Disconnected; lifecycle_reason := "closed" |}].
Definition ex_session_status : RuntimeStatus :=
  new_status <| lifecycle_events := ex_session_events |> <| runtime_state := RuntimeState.Stopped |>
    <| received_messages := 2 |> <| enqueued_messages := 2 |> <| written_messages := 2 |>
    <| st_progress := {| last_received_index := Some 1; last_enqueued_index := Some 1;
                         last_written_index := Some 1; last_processed_index := Some 1 |} |>.
Definition ex_extras : list (string * json) := [("final_book_hash", JString "book")]%string.

(** The recording, in the library's text. *)
Definition ex_session_file : string := file_of (map ex_line ex_session_records).

Definition ex_ok_io : publish_io := {| temporary_created := true; temporary_written := true |}.
Definition ex_capture : FileSystem * result Capture :=
  @new_capture ex_json ex_sha ex_build ex_directory "kraken" 10 true "t0" ex_ok_io ∅.
Definition ex_recorded_files : FileSystem := <[ex_raw_path := ex_session_file]> ex_capture.1.
Definition ex_captured : Capture :=
  got {| directory_ := EmptyString; manifest_ := JNull |} ex_capture.2.
Definition ex_finalized : Capture * FileSystem * result unit :=
  @finalize ex_json ex_sha ex_session_status "t1" ex_ok_io ex_recorded_files
    (ex_captured <| manifest_ ::= set_keys ex_extras |>).

Lemma ex_session_recording : @recording ex_json ex_session_records EmptyString ex_session_file.
Proof.
  exists (map ex_line ex_session_records). split_and!; [split|done|done].
  - repeat constructor.
  - repeat constructor; vm_compute; done.
Qed.

Lemma session_roundtrip_witness :
  ∃ src, @check_session ex_json ex_sha Ok ex_finalized.1.2 ex_directory false = Ok src ∧
    src_complete src = true ∧ src_kraken src = true ∧ src_depth src = 10 ∧
    src_records src = ex_session_records ∧ src_lifecycle src = ex_session_events.
Proof.
  destruct (@session_roundtrip ex_json ex_json_text ex_sha ex_build Ok Kraken ex_directory 10 "t0" ex_ok_io ∅
    ex_capture.1 ex_captured ex_extras ex_session_status "t1" ex_session_file ex_session_records ex_ok_io ex_recorded_files
    ex_finalized.1.1 ex_finalized.1.2 1) as (src & Hs & H1 & H2 & H3 & H4 & H5).
  - vm_compute. reflexivity.
  - split; [done|]. constructor; [right; reflexivity|constructor].
  - vm_compute. discriminate.
  - reflexivity.
  - reflexivity.
  - vm_compute. reflexivity.
  - split; vm_compute; discriminate.
  - exact ex_session_recording.
  - repeat constructor.
  - vm_compute. discriminate.
  - split; vm_compute; reflexivity.
  - repeat constructor; vm_compute; discriminate.
  - vm_compute. reflexivity.
  - vm_compute. reflexivity.
  - exists src. split; [exact Hs|]. split; [exact H1|]. split; [exact H2|]. split; [by apply H3|]. by split.
Defined.
