(* ===== verification/SessionSafety.v ===== *)
(** * What a session and its replay can be trusted for

    A manifest that claims a complete session has earned it; the checks of a
    replay accept only the recording the manifest describes; and the replay of
    an incomplete session never passes for a complete one. *)

From S2P Require Import Prelude.
From S2P Require Import Text.
From S2P Require Import CoreTypes.
From S2P Require Import OrderBook.
From S2P Require Import SequenceTracker.
From S2P Require Import Json.
From S2P Require Import JsonLibrary.
From S2P Require Import CoinbaseParser.
From S2P Require Import RecordingQueue.
From S2P Require Import CoinbaseHandler.
From S2P Require Import KrakenChecksum.
From S2P Require Import KrakenParser.
From S2P Require Import KrakenProcessor.
From S2P Require Import ConnectionManager.
From S2P Require Import Recording.
From S2P Require Import RuntimeStatus.
From S2P Require Import Session.
From S2P Require Import Capture.
From S2P Require Import CoinbaseReplay.
From S2P Require Import KrakenReplay.
From S2P Require Import SessionReplay.
From S2P Require Import SessionRoundtrip.

Open Scope Z_scope.

(** ** Lemmas: the final manifest *)

Lemma field_set_key k v j : (∃ ms, j = JObject ms) → field (set_key k v j) k = v.
Proof. intros [ms ->]. cbn. by rewrite member_set, String.eqb_refl. Qed.

Lemma field_set_key_ne k k' v j : k' ≠ k → field (set_key k' v j) k = field j k.
Proof. intros Hne. destruct j; try done. cbn. by rewrite member_set, (proj2 (String.eqb_neq _ _) Hne). Qed.

Section capture.
Context `{JsonLib} (sha256 : string → string).

Lemma update_raw_status f j : field (update_raw f j) "status" = field j "status".
Proof. unfold update_raw. destruct (field j "raw_files"); try done. destruct elements; [done|]. by apply field_set_key_ne. Qed.

Lemma update_raw_object f ms : ∃ ms', update_raw f (JObject ms) = JObject ms'.
Proof.
  unfold update_raw. destruct (field (JObject ms) "raw_files") as [| | | | | |es|]; try (by exists ms).
  destruct es; [by exists ms|]. cbn [set_key]. by eexists.
Qed.

(** The recording a scan accepts. *)
Definition scanned_recording (v : Venue) (text : string) (n : Z) : Prop :=
  let '(reader, ms) := read_all (open_reader (Some (text, false))) in
  has_error reader = false ∧ Forall (λ e, venue e = v) ms ∧ (Z.of_nat (length ms) ≤ UINT64_MAX → Z.of_nat (length ms) = n).

Lemma scan_file_recording v text scanned :
  scan_file v (Some text) = Ok scanned → scanned_recording v text (scan_records scanned).
Proof.
  unfold scan_file, scanned_recording. cbn [fmap option_fmap option_map].
  destruct (read_all _) as [reader ms]. intros (r & Hs & (u & He & Hr)%bind_Ok)%bind_Ok. injection Hr as ->.
  apply throw_if_Ok in He. split; [done|]. unfold scan in Hs.
  assert (Forall (λ e, venue e = v) ms) as Hv.
  { revert Hs. generalize {| scan_records := 0; scan_connections := ∅ |}. induction ms as [|e ms IH]; intros r0; cbn; [done|].
    case_bool_decide; [|done]. intros Hs. constructor; [done|by eapply IH]. }
  split; [done|]. intros Hb.
  destruct (scan_loop_Ok v ms {| scan_records := 0; scan_connections := ∅ |} Hv) as (r' & Hs' & Hc); [done|exact Hb|].
  cbn [scan_records] in Hc. rewrite Hs in Hs'. injection Hs' as <-. by rewrite Hc.
Qed.

Lemma final_status_complete state : (final_status state).1 = "complete"%string → state = RuntimeState.Stopped.
Proof. by destruct state. Qed.

(** A complete scan does not touch the status. *)
Lemma finalize_scan_complete s text j :
  (∃ ms, j = JObject ms) → field (finalize_scan s text j) "status" = JString "complete" →
  field j "status" = JString "complete" ∧ ∃ v, scanned_recording v text (written_messages s).
Proof.
  intros Hj. unfold finalize_scan. cbv zeta. set (v := if json_equal _ _ then Kraken else Coinbase).
  destruct (scan_file v (Some text)) as [scanned|e] eqn:Hs; [|by rewrite field_set_key].
  destruct (Z.eqb_spec (scan_records scanned) (written_messages s)) as [Hn|]; cbn [negb].
  - rewrite field_set_key_ne by done. intros Hst. split; [done|]. exists v. rewrite <-Hn. by apply scan_file_recording.
  - destruct Hj as [ms ->]. by rewrite field_set_key by (by eexists).
Qed.

Lemma final_manifest_complete s ended recording ms :
  field (final_manifest sha256 s ended recording (JObject ms)) "status" = JString "complete" →
  runtime_state s = RuntimeState.Stopped ∧ fatal_error s = None ∧ received_messages s = written_messages s ∧
  ∀ text, recording = Some text → ∃ v, scanned_recording v text (written_messages s).
Proof.
  unfold final_manifest. cbn [set_keys]. set (m := set_members (status_keys s ended) ms).
  assert (field (JObject m) "status" = JString (final_status (runtime_state s)).1) as Hst
    by (unfold field; subst m; rewrite member_set_members; reflexivity).
  clearbody m. cbv zeta. set (j := match recording with Some _ => _ | None => _ end).
  assert (∃ ms', j = JObject ms') as Hj.
  { subst j. destruct recording as [text|]; [|by eexists]. unfold finalize_scan. cbv zeta.
    destruct (update_raw_object (set_keys (raw_keys sha256 s text)) m) as [ms' ->].
    repeat case_match; by eexists. }
  destruct (json_equal (field j "status") (JString "complete") && _) eqn:Hc; [by rewrite field_set_key|].
  intros Hf. rewrite Hf in Hc. cbn [json_equal andb] in Hc. rewrite String.eqb_refl in Hc. cbn [andb] in Hc.
  apply orb_false_iff in Hc as [Hfatal%bool_decide_eq_false Hn%negb_false_iff]. apply Z.eqb_eq in Hn.
  assert (field (JObject m) "status" = JString "complete" ∧
    ∀ text, recording = Some text → ∃ v, scanned_recording v text (written_messages s)) as [Hs Hrec].
  { subst j. destruct recording as [text|]; [|by rewrite field_set_key_ne in Hf].
    apply finalize_scan_complete in Hf as [Hs Hv]; [|apply update_raw_object].
    rewrite update_raw_status in Hs. split; [done|]. by intros ? [= <-]. }
  rewrite Hst in Hs. injection Hs as Hs. split_and!; [by apply final_status_complete|by apply eq_None_not_Some|done|done].
Qed.
End capture.

(** ** Lemmas: the checks of a session *)

Lemma when_required_value metadata key condition error u :
  when_required true metadata key condition error = Ok u → ∃ v, at_key metadata key = Ok v ∧ condition v = false.
Proof.
  unfold when_required. cbn [orb]. intros (v & Hv & Hc)%bind_Ok. apply throw_if_Ok in Hc. by exists v.
Qed.

Lemma incomplete_allowed m allow_incomplete : check_status m allow_incomplete = Ok false → allow_incomplete = true.
Proof.
  unfold check_status. intros (version & _ & (u1 & _ & (sj & _ & (status & _ & (u2 & _ & Hs)%bind_Ok)%bind_Ok)%bind_Ok)%bind_Ok)%bind_Ok.
  cbv zeta in Hs. apply bind_Ok in Hs as (u3 & Hx & [= Hs]). rewrite Hs in Hx. by destruct allow_incomplete.
Qed.

Lemma check_lifecycle_valid complete n last array events :
  check_lifecycle complete n last array = Ok events → ∃ last', validate_lifecycle complete n last events = Ok last'.
Proof.
  revert last events. induction array as [|event array IH]; intros last events; cbn [check_lifecycle].
  { intros [= <-]. by exists last. }
  intros (ij & _ & (u & _ & Hrest)%bind_Ok)%bind_Ok.
  destruct ((_ <? _) || _) eqn:Hi; [done|].
  apply bind_Ok in Hrest as (sj & _ & (name & _ & Hrest)%bind_Ok).
  destruct (lifecycle_state_named name) as [state|] eqn:Hs; [|done].
  apply bind_Ok in Hrest as (rj & _ & Hrest). destruct (negb (is_string rj)); [done|].
  apply bind_Ok in Hrest as (more & Hm%IH & [= <-]). destruct Hm as [last' Hm]. exists last'.
  cbn [validate_lifecycle before_record_index lifecycle_state]. rewrite Hi.
  rewrite (bool_decide_false (state = Valid)); [exact Hm|].
  intros ->. unfold lifecycle_state_named in Hs. repeat (destruct (String.eqb _ _); [done|]). done.
Qed.

Section checks.
Context `{JsonLib, Crc32} (sha256 : string → string) (canonical : string → result string).

Definition venue_of (kraken : bool) : Venue := if kraken then Kraken else Coinbase.

(** The raw file of a session, as its manifest describes it. *)
Record described (m entry : json) (text : string) (records : Z) : Prop := {
  ds_bytes : ∃ v, at_key entry "bytes" = Ok v ∧ json_equal v (JUnsigned (Z.of_nat (String.length text))) = true;
  ds_sha256 : ∃ v, at_key entry "sha256" = Ok v ∧ json_equal v (JString (sha256 text)) = true;
  ds_records : ∃ v, at_key entry "records" = Ok v ∧ json_equal v (JUnsigned records) = true;
  ds_progress : check_complete m entry records = Ok tt;
}.

(** The steps of the checks, for a given session. *)
Record checked (fs : FileSystem) (directory : string) (allow_incomplete : bool) (src : SessionSource)
    (text : string) (entry : json) : Prop := {
  ck_status : check_status (src_manifest src) allow_incomplete = Ok (src_complete src);
  ck_venue : check_venue (src_manifest src) = Ok (src_kraken src, src_depth src);
  ck_configuration : check_configuration sha256 (src_manifest src) (src_kraken src) (src_depth src) = Ok tt;
  ck_path : check_raw_path canonical (src_manifest src) (src_kraken src) directory = Ok (entry, src_raw src);
  ck_text : fs !! src_raw src = Some text;
  ck_checksum : src_checksum src = sha256 text;
  ck_file : check_raw_file (src_complete src) entry text (sha256 text) = Ok tt;
  ck_scan : scan_file (venue_of (src_kraken src)) (Some text) = Ok (src_scanned src);
  ck_read : src_records src = (read_all (open_reader (Some (text, false)))).2;
  ck_lifecycle : ∃ last, validate_lifecycle (src_complete src) (scan_records (src_scanned src)) 0 (src_lifecycle src) = Ok last;
  ck_described : src_complete src = true → described (src_manifest src) entry text (scan_records (src_scanned src));
  ck_manifest : ∃ bytes, fs !! manifest_path fs directory allow_incomplete = Some bytes ∧
    json_parse bytes = Ok (src_manifest src) ∧ src_manifest_checksum src = sha256 bytes;
}.

Lemma check_session_checked fs directory allow_incomplete src :
  check_session sha256 canonical fs directory allow_incomplete = Ok src →
  ∃ text entry, checked fs directory allow_incomplete src text entry.
Proof.
  unfold check_session. destruct (fs !! manifest_path _ _ _) as [bytes|] eqn:Hm; [|done].
  intros (m & Hparse & (complete & Hst & ([kraken depth] & Hv & ([] & Hcfg & ([entry raw] & Hp & Hs)%bind_Ok)%bind_Ok)%bind_Ok)%bind_Ok)%bind_Ok.
  cbv beta iota in Hs. apply bind_Ok in Hs as (checksum & Hck & Hs). unfold file_sha256 in Hck.
  destruct (fs !! raw) as [text|] eqn:Hraw; [|done]. injection Hck as <-.
  change (default EmptyString (Some text)) with text in Hs. cbv zeta in Hs.
  apply bind_Ok in Hs as ([] & Hfile & (scanned & Hscan & ([] & Hn & ([] & Hcomp & (array & _ & (lc & Hlc & (u & _ & Hs)%bind_Ok)%bind_Ok)%bind_Ok)%bind_Ok)%bind_Ok)%bind_Ok).
  cbv beta in Hs. injection Hs as <-. exists text, entry. split; cbn [src_manifest src_complete src_kraken src_depth src_raw
    src_checksum src_scanned src_records src_lifecycle src_manifest_checksum]; try done.
  - by eapply check_lifecycle_valid.
  - intros ->. split; [..|done].
    + apply bind_Ok in Hfile as (u1 & _ & (u2 & _ & (u3 & Hb & _)%bind_Ok)%bind_Ok).
      apply when_required_value in Hb as (v & ? & ?%negb_false_iff). by exists v.
    + apply bind_Ok in Hfile as (u1 & _ & (u2 & _ & (u3 & _ & Hb)%bind_Ok)%bind_Ok).
      apply when_required_value in Hb as (v & ? & ?%negb_false_iff). by exists v.
    + apply when_required_value in Hn as (v & ? & ?%negb_false_iff). by exists v.
  - by exists bytes.
Qed.

(** ** Lemmas: the result document *)

(** A member of a result document that sealing does not touch. *)
Lemma seal_result_key ms contents include document k v :
  seal_result sha256 (json_object ms) contents include = Ok document →
  member k (rev ms) = Some v → k ≠ "deterministic_result_hash"%string → k ≠ "final_book"%string →
  at_key document k = Ok v.
Proof.
  unfold seal_result, json_object. intros Hd Hv H1 H2. apply bind_Ok in Hd as (text & _ & [= <-]).
  assert (member k (set_members ms []) = Some v) as Hm by (by rewrite member_set_members, Hv).
  apply not_eq_sym, String.eqb_neq in H1, H2.
  destruct include; cbn [set_key at_key]; rewrite !member_set, ?H2, H1; by rewrite Hm.
Qed.

(** The marks of the source and of the final book. *)
Lemma source_keys_marks src source :
  source_keys src = Ok source → member "research_valid" (rev source) = Some (JBool (src_complete src)).
Proof. unfold source_keys. by intros (session & _ & (config & _ & [= <-])%bind_Ok)%bind_Ok. Qed.

Lemma final_keys_marks b contents ts final :
  final_keys sha256 b contents ts = Ok final →
  member "final_book_state" (rev final) = Some (JString (book_name (state_ b))) ∧
  member "research_valid" (rev final) = None.
Proof. unfold final_keys. by intros (t1 & _ & (t2 & _ & [= <-])%bind_Ok)%bind_Ok. Qed.

(** A result document from its parts. *)
Lemma result_marks src b contents ts source mid final include document :
  source_keys src = Ok source → final_keys sha256 b contents ts = Ok final →
  member "research_valid" (rev mid) = None →
  seal_result sha256 (json_object (source ++ mid ++ final)) contents include = Ok document →
  at_key document "research_valid" = Ok (JBool (src_complete src)) ∧
  at_key document "final_book_state" = Ok (JString (book_name (state_ b))).
Proof.
  intros Hs%source_keys_marks [Hf Hn]%final_keys_marks Hm Hd.
  split; (eapply seal_result_key; [exact Hd| |done|done]); rewrite !rev_app_distr, !member_app.
  - by rewrite Hn, Hm.
  - by rewrite Hf.
Qed.

Lemma coinbase_result_marks src s include document :
  coinbase_result sha256 src s include = Ok document →
  at_key document "research_valid" = Ok (JBool (src_complete src)) ∧
  at_key document "final_book_state" = Ok (JString (book_name (state_ (replay_book s)))).
Proof.
  unfold coinbase_result. cbv zeta. intros (source & Hs & (final & Hf & Hd)%bind_Ok)%bind_Ok.
  eapply result_marks; [exact Hs|exact Hf| |exact Hd]. reflexivity.
Qed.

Lemma kraken_result_marks src s include document :
  kraken_result sha256 src s include = Ok document →
  at_key document "research_valid" = Ok (JBool (src_complete src)) ∧
  at_key document "final_book_state" = Ok (JString (book_name (rk_state s))).
Proof.
  unfold kraken_result. cbv zeta. intros (source & Hs & (final & Hf & Hd)%bind_Ok)%bind_Ok.
  eapply result_marks; [exact Hs|exact Hf| |exact Hd]. reflexivity.
Qed.

(** The final book of an incomplete session that is not in progress. *)
Lemma coinbase_replay_invalid products lifecycle records s :
  coinbase_replay products false false lifecycle records = Ok s → state_ (replay_book s) = Invalid.
Proof.
  unfold coinbase_replay. intros (scanned & _ & (last & _ & (s1 & _ & (s2 & _ & (u & _ & Hs)%bind_Ok)%bind_Ok)%bind_Ok)%bind_Ok)%bind_Ok.
  cbn [negb andb] in Hs. cbv zeta in Hs. apply bind_Ok in Hs as (u' & _ & [= <-]).
  unfold add_transition, replay_book. by case_bool_decide.
Qed.

Lemma kraken_replay_invalid depth lifecycle records s :
  kraken_replay depth false false lifecycle records = Ok s → rk_state s = Invalid.
Proof.
  unfold kraken_replay. intros (scanned & _ & (last & _ & (p & _ & (s1 & _ & Hs)%bind_Ok)%bind_Ok)%bind_Ok)%bind_Ok.
  cbv zeta in Hs. apply bind_Ok in Hs as (u' & _ & [= <-]). done.
Qed.
End checks.

(** ** Theorems *)



(** C9: the replay of an incomplete session never passes for a complete one.
    A result document is marked valid for research exactly when the session
    was complete; an incomplete session is only replayed on request, and
    unless it was still in progress the document reports an invalid book. *)
Theorem incomplete_replay_marked `{JsonLib, Crc32} sha256 canonical fs fs' directory allow_incomplete include document :
  replay_result sha256 canonical fs fs' directory allow_incomplete include = Ok document →
  ∃ src, check_session sha256 canonical fs directory allow_incomplete = Ok src ∧
    at_key document "research_valid" = Ok (JBool (src_complete src)) ∧
    (src_complete src = false →
       allow_incomplete = true ∧
       (json_equal (field (src_manifest src) "status") (JString "in_progress") = false →
        at_key document "final_book_state" = Ok (JString "INVALID"))) ∧
    file_sha256 sha256 fs' (src_raw src) = Ok (src_checksum src) ∧
    file_sha256 sha256 fs' (manifest_path fs directory allow_incomplete) = Ok (src_manifest_checksum src).
Proof.
  unfold replay_result. intros (src & Hchk & Hd)%bind_Ok. cbv zeta in Hd.
  apply bind_Ok in Hd as (document' & Hdoc & (again & Hagain & (u & Hu & [= ->])%bind_Ok)%bind_Ok).
  apply throw_if_Ok, negb_false_iff, String.eqb_eq in Hu. subst again.
  exists src. split; [done|].
  assert (src_complete src = false → allow_incomplete = true) as Hallow.
  { destruct (check_session_checked _ _ _ _ _ _ Hchk) as (text & entry & Hc).
    intros Hf. pose proof (ck_status _ _ _ _ _ _ _ _ Hc) as Hs. rewrite Hf in Hs. by eapply incomplete_allowed. }
  destruct (src_kraken src).
  - apply bind_Ok in Hdoc as (s & Hs & (checksum & Hck & (u' & Hu & Hr)%bind_Ok)%bind_Ok).
    apply throw_if_Ok, negb_false_iff, String.eqb_eq in Hu. subst checksum.
    destruct (kraken_result_marks _ _ _ _ _ Hr) as [H1 H2]. split_and!; [done| |done|done].
    intros Hf. split; [by apply Hallow|]. intros Hp. rewrite Hf, Hp in Hs. apply kraken_replay_invalid in Hs. by rewrite H2, Hs.
  - apply bind_Ok in Hdoc as (products & _ & (s & Hs & (checksum & Hck & (u' & Hu & Hr)%bind_Ok)%bind_Ok)%bind_Ok).
    apply throw_if_Ok, negb_false_iff, String.eqb_eq in Hu. subst checksum.
    destruct (coinbase_result_marks _ _ _ _ _ Hr) as [H1 H2]. split_and!; [done| |done|done].
    intros Hf. split; [by apply Hallow|]. intros Hp. rewrite Hf, Hp in Hs. apply coinbase_replay_invalid in Hs. by rewrite H2, Hs.
Qed.

(** ** Concrete sessions *)



(** A session whose recording failed before the first record. *)
Definition ex_failed_status : RuntimeStatus :=
  new_status <| fatal_error := Some "disk full"%string |> <| runtime_state := RuntimeState.StoppedRecordingError |>.
Definition ex_initial_manifest : json :=
  got JNull (@initial_manifest ex_json ex_sha ex_build ex_directory "kraken" "t0" 10).
Definition ex_failed_manifest : json :=
  @final_manifest ex_json ex_sha ex_failed_status "t1" (Some EmptyString) ex_initial_manifest.
Definition ex_failed_files : FileSystem :=
  <["/data/session/manifest.json"%string := ex_text ex_failed_manifest]> (<[ex_raw_path := EmptyString]> ∅).
Definition ex_no_source : SessionSource :=
  {| src_manifest := JNull; src_manifest_checksum := EmptyString; src_complete := false; src_kraken := true;
     src_depth := 0; src_raw := EmptyString; src_checksum := EmptyString;
     src_scanned := {| scan_records := 0; scan_connections := ∅ |}; src_records := []; src_lifecycle := [] |}.

Lemma incomplete_replay_marked_witness :
  ∃ document,
    @replay_result ex_json bytewise_crc ex_sha Ok ex_failed_files ex_failed_files ex_directory true false = Ok document ∧
    at_key document "research_valid" = Ok (JBool false) ∧ at_key document "final_book_state" = Ok (JString "INVALID").
Proof.
  assert (is_ok (@replay_result ex_json bytewise_crc ex_sha Ok ex_failed_files ex_failed_files ex_directory true false) = true)
    as Hok by (vm_compute; reflexivity).
  destruct (@replay_result ex_json bytewise_crc ex_sha Ok ex_failed_files ex_failed_files ex_directory true false)
    as [document|e] eqn:Hd; [|discriminate Hok]. exists document. split; [reflexivity|].
  destruct (@incomplete_replay_marked ex_json bytewise_crc ex_sha Ok ex_failed_files ex_failed_files ex_directory
    true false document Hd) as (src & Hsrc & H1 & H2 & _).
  assert (got ex_no_source (@check_session ex_json ex_sha Ok ex_failed_files ex_directory true) = src) as Heq
    by (rewrite Hsrc; exact eq_refl).
  assert (src_complete src = false) as Hc by (rewrite <-Heq; vm_compute; reflexivity).
  split; [rewrite H1, Hc; exact eq_refl|]. apply H2; [exact Hc|]. rewrite <-Heq. vm_compute. reflexivity.
Defined.
