(* ===== verification/LiveSession.v ===== *)
(** * From the live session to its replay

    The composition of the Coinbase components: the runtime with its two
    threads, the recording, the capture, the checks of the session and its
    replay. *)

From S2P Require Import Prelude.
From S2P Require Import Text.
From S2P Require Import CoreTypes.
From S2P Require Import SequenceTracker.
From S2P Require Import OrderBook.
From S2P Require Import Json.
From S2P Require Import JsonLibrary.
From S2P Require Import CoinbaseParser.
From S2P Require Import FeedHealth.
From S2P Require Import RecordingQueue.
From S2P Require Import CoinbaseHandler.
From S2P Require Import KrakenParser.
From S2P Require Import KrakenChecksum.
From S2P Require Import ConnectionManager.
From S2P Require Import Recording.
From S2P Require Import RuntimeStatus.
From S2P Require Import RecordingWriter.
From S2P Require Import LiveRuntime.
From S2P Require Import Session.
From S2P Require Import Capture.
From S2P Require Import CoinbaseReplay.
From S2P Require Import SessionReplay.
From S2P Require Import SessionRoundtrip.

Open Scope Z_scope.

(** ** Lemmas *)

(** The run of the runtime is in step with the replay of its recording. *)
Lemma live_run_in_step `{JsonLaws, !JsonText} products capturing force_seconds clock live_clock config health_config
    rt0 es rt :
  live_initial clock config health_config = Ok rt0 →
  live_run products capturing force_seconds clock live_clock rt0 es rt →
  sh_writer_done (lv_shared rt) = true → fatal_error (lv_status rt) = None →
  Z.of_nat (length (lv_log rt)) < UINT64_MAX → Forall (replayable products) (lv_log rt) →
  ∃ s fin, in_step products (lv_manager rt) s fin.
Proof.
  intros Hinit Hrun Hdone Hfatal Hlen Hok.
  destruct (live_clean _ _ _ _ _ _ _ _ _ _ Hinit Hrun Hdone Hfatal) as (_ & _ & _ & _ & _ & _ & _ & Hter & es' & Hm & Hne).
  unfold live_initial in Hinit. destruct (new_manager _ _ _) as [m0|] eqn:Hm0; [|done]. injection Hinit as <-.
  apply (run_in_step products live_publish_callback clock live_clock ltac:(done) health_config
    {| le_queue := {| rq := new_queue config; taken := [] |}; le_shared := new_shared |} m0 es'); done.
Qed.

Section session.
Context `{JsonLib, Crc32} (sha256 : string → string) (canonical : string → result string).

(** The replay program on a session whose files stay as they are. *)
Lemma replay_result_coinbase fs directory include src s :
  check_session sha256 canonical fs directory false = Ok src → src_kraken src = false →
  replay_products (src_manifest src) = Ok default_products →
  file_sha256 sha256 fs (src_raw src) = Ok (src_checksum src) →
  file_sha256 sha256 fs (manifest_path fs directory false) = Ok (src_manifest_checksum src) →
  coinbase_replay default_products (src_complete src)
    (json_equal (field (src_manifest src) "status") (JString "in_progress")) (src_lifecycle src) (src_records src) = Ok s →
  replay_result sha256 canonical fs fs directory false include = coinbase_result sha256 src s include.
Proof.
  intros Hc Hk Hp Hr Hm Hs. unfold replay_result. rewrite Hc. monad_simpl. rewrite Hk, Hp. monad_simpl.
  rewrite Hs. monad_simpl. rewrite Hr. monad_simpl. rewrite String.eqb_refl. cbn [negb throw_if]. monad_simpl.
  destruct (coinbase_result sha256 src s include) as [document|e]; [|done]. monad_simpl. rewrite Hm. monad_simpl.
  by rewrite String.eqb_refl.
Qed.
End session.

Lemma set_keys_nil c ms : manifest_ c = JObject ms → c <| manifest_ ::= set_keys [] |> = c.
Proof. intros Hc. destruct c as [d m]. cbn in *. by rewrite Hc. Qed.

(** ** Theorem *)

(** What a captured Coinbase session shows live is what its replay shows.
    The capture is created; the market thread and the writer thread run, with
    the callbacks of the connection manager, posted failures, stop requests
    and the steps of the writer in any order; they end without a fatal error;
    and the capture is finalised with their status.  Then the session passes
    every check of a strict replay, the replay reads exactly the records the
    queue accepted, in order, with the observed lifecycle events, it ends with
    the live order book, book state and sequence, and its result document is
    the one of that book.  No record may be one on which the processor
    throws. *)
Theorem live_session_replays `{JsonLib, !JsonLaws, !JsonText, Crc32} sha256 build canonical
    directory depth started io fs fs1 c force_seconds clock live_clock config health_config rt0 es rt
    ended io' fs2 c' fs3 include :
  let raw := path_join directory "raw/coinbase.jsonl" in
  let m := lv_manager rt in
  new_capture sha256 build directory "coinbase" depth true started io fs = (fs1, Ok c) →
  plain_directory directory → canonical directory = Ok directory → canonical raw = Ok raw →
  live_initial clock config health_config = Ok rt0 →
  live_run default_products true force_seconds clock live_clock rt0 es rt →
  sh_writer_done (lv_shared rt) = true → fatal_error (lv_status rt) = None →
  observed_events (actions m) ≠ [] → Z.of_nat (length (lv_log rt)) < UINT64_MAX →
  Forall (replayable default_products) (lv_log rt) →
  fs2 !! raw = Some (writer_file (lv_writer rt)) →
  in_uint64 (Z.of_nat (String.length (writer_file (lv_writer rt)))) →
  finalize sha256 (live_final_status rt) ended io' fs2 c = (c', fs3, Ok tt) →
  ∃ src st,
    check_session sha256 canonical fs3 directory false = Ok src ∧
    src_records src = lv_log rt ∧ src_lifecycle src = observed_events (actions m) ∧
    rp_count st = Z.of_nat (length (lv_log rt)) ∧ pending st = [] ∧
    replay_book st = manager_book m ∧ last_ (tracker (rp_market st)) = manager_sequence m ∧
    replay_result sha256 canonical fs3 fs3 directory false include = coinbase_result sha256 src st include.
Proof.
  intros raw m Hcap Hdir Hc1 Hc2 Hinit Hrun Hdone Hfatal Hev Hlen Hok Hraw Htext Hfin.
  destruct (live_run_in_step _ _ _ _ _ _ _ _ _ _ Hinit Hrun Hdone Hfatal Hlen Hok) as (s & fin & Hs).
  destruct (live_clean _ _ _ _ _ _ _ _ _ _ Hinit Hrun Hdone Hfatal)
    as (Hclean & _ & _ & _ & Hevents & Hven & Hrec & _). specialize (Hevents eq_refl).
  destruct (is_valid _ _ _ _ Hs) as (last & _ & Hval). rewrite (is_index _ _ _ _ Hs) in Hval.
  change (sink_log (environment (lv_manager rt))) with (lv_log rt) in Hval. rewrite <-Hevents in Hval.
  pose proof (validate_lifecycle_range _ _ _ _ Hval) as Hrange.
  destruct (new_capture_manifest sha256 build Coinbase directory depth started io fs fs1 c Hcap) as (t & _ & _ & _ & Hceq).
  assert (c <| manifest_ ::= set_keys [] |> = c) as Hc0 by (rewrite Hceq; by eapply set_keys_nil).
  rewrite <-Hc0 in Hfin.
  destruct (session_checks sha256 build canonical Coinbase directory depth started io fs fs1 c [] (live_final_status rt)
    ended (writer_file (lv_writer rt)) (lv_log rt) io' fs2 c' fs3 last) as (src & Hchk & Hcomplete & Hk & _ & Hrecs & Hlc &
    Hprod & _ & Hsha1 & Hsha2); [done|by split|done|done|done|done|done|done|done|exact (Z.lt_le_incl _ _ Hlen)|done| |done|done|].
  { eapply Forall_impl; [exact Hrange|]. intros e [He1 He2]. split; [exact He1|].
    etransitivity; [exact He2|exact (Z.lt_le_incl _ _ Hlen)]. }
  destruct (in_step_replays default_products (lv_manager rt) s fin
    (json_equal (field (src_manifest src) "status") (JString "in_progress")) Hs Hlen Hev)
    as (st & Hst & Hb & Hseq & Hcount & Hpend).
  exists src, st. split_and!; [done|done|exact (eq_trans Hlc Hevents)|done..|].
  apply replay_result_coinbase; [done|done|by apply Hprod|done|done|].
  rewrite Hcomplete, Hlc, Hevents, Hrecs. exact Hst.
Qed.

(** ** A concrete session

    A session of one connection and one snapshot that is stopped on request. *)

(** The snapshot as the exchange sends it. *)
Definition ex_live_text : string := unquoted (
  "{'channel':'l2_data','client_id':'','timestamp':'1970-01-01T00:00:01.5Z','sequence_num':7,'events':[" +:+
  "{'type':'snapshot','product_id':'BTC-USD','updates':[" +:+
  "{'side':'bid','event_time':'1970-01-01T00:00:00Z','price_level':'50000.00','new_quantity':'1'}," +:+
  "{'side':'offer','event_time':'1970-01-01T00:00:00Z','price_level':'50001','new_quantity':'2.5'}]}]}").

Definition ex_live_record : RawMessage :=
  {| record_index := 0; venue := Coinbase; connection_id := 1; receive_wall_time := {| wall_ns := 10 |};
     receive_monotonic_time := {| mono_ns := 20 |}; payload := ex_live_text |}.
Definition ex_live_message : event := Message 1 ex_live_text {| wall_ns := 10 |} {| mono_ns := 20 |}.

Definition ex_live_events : list live_event :=
  [LWriterStart ex_writer_env 64; LStart false false; LCallback (TransportConnected 1); LCallback ex_live_message;
   LWriterNext ex_io IoOk true; LTick true; LWriterNext ex_io IoOk true; LTick true].

Definition ex_rt0 : LiveRuntime :=
  {| lv_manager := got (MkManager default_health_config ex_handler false new_policy new_metrics true false false 0 0
       (ex_clock 0) (ex_clock 0) None 0 []
       {| le_queue := {| rq := new_queue default_queue_config; taken := [] |}; le_shared := new_shared |})
       (new_manager ex_clock default_health_config
          {| le_queue := {| rq := new_queue default_queue_config; taken := [] |}; le_shared := new_shared |});
     lv_writer := WriterStarting; lv_started := false; lv_stopping := false; lv_ticking := false; lv_fault := false |}.
Definition ex_live_step : LiveRuntime → live_event → LiveRuntime :=
  @live_step ex_json default_products true 0 ex_clock ex_live_clock.
Definition ex_rt : LiveRuntime := foldl ex_live_step ex_rt0 ex_live_events.
Definition ex_live_directory : string := "/data/live".

Definition ex_live_capture : FileSystem * result Capture :=
  @new_capture ex_json ex_sha ex_build ex_live_directory "coinbase" 0 true "t0" ex_ok_io ∅.
Definition ex_live_files : FileSystem :=
  <["/data/live/raw/coinbase.jsonl"%string := writer_file (lv_writer ex_rt)]> ex_live_capture.1.
Definition ex_live_captured : Capture := got {| directory_ := EmptyString; manifest_ := JNull |} ex_live_capture.2.
Definition ex_live_finalized : Capture * FileSystem * result unit :=
  @finalize ex_json ex_sha (live_final_status ex_rt) "t1" ex_ok_io ex_live_files ex_live_captured.

Fixpoint ex_steps_ok (rt : LiveRuntime) (es : list live_event) : Prop :=
  match es with
  | [] => True
  | e :: es => (live_event_ok rt e ∧ live_room rt) ∧ ex_steps_ok (ex_live_step rt e) es
  end.

Lemma ex_live_run_steps es0 rt es :
  @live_run ex_json default_products true 0 ex_clock ex_live_clock ex_rt0 es0 rt → ex_steps_ok rt es →
  @live_run ex_json default_products true 0 ex_clock ex_live_clock ex_rt0 (es0 ++ es)
    (foldl (ex_live_step) rt es).
Proof.
  revert es0 rt. induction es as [|e es IH]; intros es0 rt Hr; cbn [foldl ex_steps_ok]; [by rewrite app_nil_r|].
  intros [[Hok Hroom] Hes]. replace (es0 ++ e :: es) with ((es0 ++ [e]) ++ es) by (by rewrite <-app_assoc).
  apply IH; [|done]. by apply live_run_snoc.
Qed.

Lemma ex_live_run :
  @live_run ex_json default_products true 0 ex_clock ex_live_clock ex_rt0 ex_live_events ex_rt.
Proof.
  apply (ex_live_run_steps [] ex_rt0 ex_live_events); [constructor|].
  cbn [ex_steps_ok ex_live_events].
  repeat match goal with
  | |- True => exact I
  | |- _ ∧ _ => split
  | |- live_room _ => vm_compute; split_and!; (reflexivity || discriminate)
  | |- live_event_ok _ (LCallback _) => split; [apply list_elem_of_In; vm_compute; auto|]
  | |- in_int64 _ => split; vm_compute; discriminate
  | |- _ => progress (unfold ex_live_message; cbn [callback_ok])
  | |- _ => exact I
  end.
Qed.

Lemma ex_live_log : lv_log ex_rt = [ex_live_record].
Proof. vm_compute. reflexivity. Qed.

Lemma ex_live_replayable : Forall (@replayable ex_json default_products) (lv_log ex_rt).
Proof.
  rewrite ex_live_log. apply Forall_singleton. intros now k. unfold process. cbn [payload].
  remember (@parse ex_json _ (payload ex_live_record) _ _ _) as p eqn:Ep. vm_compute in Ep. subst p.
  cbn [status error sequence]. rewrite bool_decide_false by done.
  destruct (observe (tracker _) 7) as [t []]; try done; unfold process_accepted; cbn [heartbeat_channel status];
    by edestruct process_l2_total as (? & ? & ->).
Qed.

Lemma live_session_replays_witness :
  ∃ src st,
    @check_session ex_json ex_sha Ok ex_live_finalized.1.2 ex_live_directory false = Ok src ∧
    src_records src = [ex_live_record] ∧ replay_book st = manager_book (lv_manager ex_rt) ∧
    @replay_result ex_json bytewise_crc ex_sha Ok ex_live_finalized.1.2 ex_live_finalized.1.2 ex_live_directory
      false true = @coinbase_result ex_json ex_sha src st true.
Proof.
  destruct (@live_session_replays ex_json ex_json_laws ex_json_text bytewise_crc ex_sha ex_build Ok
    ex_live_directory 0 "t0" ex_ok_io ∅ ex_live_capture.1 ex_live_captured 0 ex_clock ex_live_clock default_queue_config
    default_health_config ex_rt0 ex_live_events ex_rt "t1" ex_ok_io ex_live_files ex_live_finalized.1.1
    ex_live_finalized.1.2 true) as (src & st & H1 & H2 & _ & _ & _ & H3 & _ & H4).
  - vm_compute. reflexivity.
  - vm_compute. discriminate.
  - reflexivity.
  - reflexivity.
  - vm_compute. reflexivity.
  - exact ex_live_run.
  - vm_compute. reflexivity.
  - vm_compute. reflexivity.
  - vm_compute. discriminate.
  - vm_compute. reflexivity.
  - exact ex_live_replayable.
  - vm_compute. reflexivity.
  - split; vm_compute; discriminate.
  - vm_compute. reflexivity.
  - exists src, st. split; [exact H1|]. split; [exact (eq_trans H2 ex_live_log)|]. by split.
Defined.
