(* ===== verification/KrakenSession.v ===== *)
(** * From the live Kraken session to its replay

    The composition of the Kraken components: the runtime with its two
    threads, the recording, the capture with the metrics and the hash of the
    final book, the checks of the session and its replay. *)

From S2P Require Import Prelude.
From S2P Require Import Text.
From S2P Require Import CoreTypes.
From S2P Require Import OrderBook.
From S2P Require Import Json.
From S2P Require Import JsonLibrary.
From S2P Require Import RecordingQueue.
From S2P Require Import CoinbaseHandler.
From S2P Require Import KrakenChecksum.
From S2P Require Import KrakenParser.
From S2P Require Import KrakenProcessor.
From S2P Require Import ConnectionManager.
From S2P Require Import Recording.
From S2P Require Import RuntimeStatus.
From S2P Require Import RecordingWriter.
From S2P Require Import Threads.
From S2P Require Import KrakenRuntime.
From S2P Require Import Session.
From S2P Require Import Capture.
From S2P Require Import KrakenReplay.
From S2P Require Import SessionReplay.
From S2P Require Import KrakenThreads.
From S2P Require Import SessionSafety.
From S2P Require Import SessionRoundtrip.

Open Scope Z_scope.

(** ** Lemmas: what the runtime adds to the capture *)

Definition capture_extras (t : KrakenThreads) : list (string * json) :=
  ("metrics", counts_json (kr_metrics (kt_runtime t)))%string ::
  (if String.eqb (kt_hash t) EmptyString then [] else [("final_book_hash", JString (kt_hash t))%string]).

Lemma kt_capture_extras t c : kt_capture t c = c <| manifest_ ::= set_keys (capture_extras t) |>.
Proof. unfold kt_capture, capture_extras. destruct c as [d []], (String.eqb (kt_hash t) EmptyString); done. Qed.

Lemma counts_writable (m : gmap string Z) : map_Forall (λ _, in_uint64) m → writable (counts_json m) = true.
Proof.
  intros Hm. unfold counts_json, json_object. cbn [writable]. apply writable_set_members; [|done].
  apply map_Forall_to_list in Hm. induction Hm as [|[k n] l Hn _ IH]; [done|].
  cbn [map forallb fst snd]. by rewrite in_uint64_writable, IH.
Qed.

Lemma capture_extras_ok t : map_Forall (λ _, in_uint64) (kr_metrics (kt_runtime t)) → extras_ok (capture_extras t).
Proof.
  intros Hm. unfold extras_ok, capture_extras. cbn [forallb snd]. rewrite counts_writable by done.
  destruct (String.eqb _ _); (split; [done|]);
    repeat apply Forall_cons_2; try apply Forall_nil_2; by (left + right).
Qed.

Lemma capture_extras_hash t :
  kt_hash t ≠ EmptyString → member "final_book_hash" (rev (capture_extras t)) = Some (JString (kt_hash t)).
Proof. intros Hne. unfold capture_extras. by rewrite (proj2 (String.eqb_neq _ _) Hne). Qed.

(** ** Lemmas: the replay *)

Section session.
Context `{JsonLib, Crc32} (sha256 : string → string) (canonical : string → result string).

(** The replay program on a session whose files stay as they are. *)
Lemma replay_result_kraken fs directory include src s :
  check_session sha256 canonical fs directory false = Ok src → src_kraken src = true →
  file_sha256 sha256 fs (src_raw src) = Ok (src_checksum src) →
  file_sha256 sha256 fs (manifest_path fs directory false) = Ok (src_manifest_checksum src) →
  kraken_replay (src_depth src) (src_complete src)
    (json_equal (field (src_manifest src) "status") (JString "in_progress")) (src_lifecycle src) (src_records src) = Ok s →
  replay_result sha256 canonical fs fs directory false include = kraken_result sha256 src s include.
Proof.
  intros Hc Hk Hr Hm Hs. unfold replay_result. rewrite Hc. monad_simpl. rewrite Hk, Hs. monad_simpl.
  rewrite Hr. monad_simpl. rewrite String.eqb_refl. cbn [negb throw_if]. monad_simpl.
  destruct (kraken_result sha256 src s include) as [document|e]; [|done]. monad_simpl. rewrite Hm. monad_simpl.
  by rewrite String.eqb_refl.
Qed.

(** The hash of the final book in the document. *)
Lemma kraken_result_hash src s include document text :
  kraken_result sha256 src s include = Ok document →
  json_dump (book_contents (book_ (rk_processor s)) JNull) = Ok text →
  at_key document "final_book_hash" = Ok (JString (sha256 text)).
Proof.
  unfold kraken_result. intros (source & _ & (final & Hf & Hd)%bind_Ok)%bind_Ok Ht.
  unfold final_keys in Hf. apply bind_Ok in Hf as (text' & Ht' & (transitions & _ & [= <-])%bind_Ok).
  rewrite Ht in Ht'. injection Ht' as <-.
  eapply seal_result_key; [exact Hd| |done|done].
  rewrite !rev_app_distr. reflexivity.
Qed.
End session.

(** ** Theorem *)

(** What a captured Kraken session shows live is what its replay shows.
    The capture is created; the market thread and the writer thread run, with
    messages, connection failures, timeouts, stop requests and the steps of
    the writer in any order; both end without a fatal error; and the capture
    is given the metrics and the hash of the final book and is finalised.
    Then the session passes every check of a strict replay; the replay reads
    exactly the records the queue accepted, in order, with the lifecycle
    events, and ends with exactly the live book processor; its result document
    is the one of that processor; and the hash of the final book in the
    document is the one the runtime computed, which the manifest holds. *)
Theorem kraken_session_replays `{JsonLib, !JsonText, Crc32} sha256 build canonical
    directory depth started io fs fs1 c duration force_seconds clock config t0 es t ended io' fs2 c' fs3 include :
  let raw := path_join directory "raw/kraken.jsonl" in
  new_capture sha256 build directory "kraken" depth true started io fs = (fs1, Ok c) →
  plain_directory directory → canonical directory = Ok directory → canonical raw = Ok raw →
  kt_initial clock depth config = Ok t0 →
  kt_run sha256 duration force_seconds clock t0 es t →
  kt_over t = true → sh_writer_done (kt_shared t) = true → fatal_error (kt_status t) = None →
  Z.of_nat (length (kt_log t)) ≤ UINT64_MAX →
  fs2 !! raw = Some (writer_file (kt_writer t)) →
  in_uint64 (Z.of_nat (String.length (writer_file (kt_writer t)))) →
  finish_kraken sha256 t ended io' fs2 c = (c', fs3, Ok tt) →
  ∃ src st,
    check_session sha256 canonical fs3 directory false = Ok src ∧
    src_records src = kt_log t ∧ src_lifecycle src = lifecycle_events (kt_status t) ∧
    rk_processor st = kr_processor (kt_runtime t) ∧
    rk_count st = Z.of_nat (length (kt_log t)) ∧ rk_pending st = [] ∧
    replay_result sha256 canonical fs3 fs3 directory false include = kraken_result sha256 src st include ∧
    (∀ document, kraken_result sha256 src st include = Ok document →
       at_key document "final_book_hash" = Ok (JString (kt_hash t))) ∧
    (kt_hash t ≠ EmptyString → at_key (src_manifest src) "final_book_hash" = Ok (JString (kt_hash t))).
Proof.
  intros raw Hcap Hdir Hc1 Hc2 Hinit Hrun Hover Hdone Hfatal Hlen Hraw Htext Hfin.
  destruct (kt_clean _ _ _ _ _ _ _ _ _ Hinit Hrun Hover Hdone Hfatal)
    as (Hclean & (text & Hdump & Hhash & Hmetrics) & [Hstate Hmet] & Hrec & p0 & s & fin & Hp0 & Hs).
  destruct (ks_valid _ _ _ _ Hs) as (last & _ & Hval). rewrite (ks_index _ _ _ _ Hs) in Hval.
  pose proof (validate_lifecycle_range _ _ _ _ Hval) as Hrange.
  assert (lifecycle_events (kr_final_status (kt_status t)) = lifecycle_events (kt_status t)) as Hev
    by (unfold kr_final_status; by rewrite Hfatal).
  unfold finish_kraken in Hfin. rewrite kt_capture_extras in Hfin.
  destruct (session_checks sha256 build canonical Kraken directory depth started io fs fs1 c (capture_extras t)
    (kr_final_status (kt_status t)) ended (writer_file (kt_writer t)) (kt_log t) io' fs2 c' fs3 last)
    as (src & Hchk & Hcomplete & Hk & Hd & Hrecs & Hlc & _ & Hextra & Hsha1 & Hsha2);
    [done| |done|done|done|done|done|exact Hrec|exact (ks_venue _ _ _ _ Hs)|done|exact Hclean| |by rewrite Hev|exact Hfin|].
  { apply capture_extras_ok. by rewrite Hmetrics. }
  { rewrite Hev. eapply Forall_impl; [exact Hrange|]. intros e [He1 He2]. split; [exact He1|]. by etransitivity. }
  rewrite Hev in Hlc. specialize (Hd eq_refl).
  destruct (kraken_in_step_replays depth p0 (kt_runtime t) s fin
    (json_equal (field (src_manifest src) "status") (JString "in_progress")) Hp0 Hs Hlen) as (Hst & Hproc & Hcount & Hpend).
  exists src, fin. split_and!; [done..| | |].
  - apply replay_result_kraken; [done..|]. by rewrite Hcomplete, Hd, Hlc, Hrecs.
  - intros document Hdoc. rewrite Hhash. eapply kraken_result_hash; [exact Hdoc|].
    rewrite Hproc, <-kr_contents_settled by done. exact Hdump.
  - intros Hne. exact (Hextra _ _ (capture_extras_hash t Hne)).
Qed.

(** ** A concrete session

    A session of one connection and the official example snapshot that is
    stopped on request. *)

(** The snapshot as the exchange sends it. *)
Definition ex_kraken_text : string := unquoted (
  "{'channel':'book','type':'snapshot','data':[{'symbol':'BTC/USD','bids':[" +:+
  "{'price':45283.5,'qty':0.10000000},{'price':45283.4,'qty':1.54582015},{'price':45282.1,'qty':0.10000000}," +:+
  "{'price':45281.0,'qty':0.10000000},{'price':45280.3,'qty':1.54592586},{'price':45279.0,'qty':0.07990000}," +:+
  "{'price':45277.6,'qty':0.03310103},{'price':45277.5,'qty':0.30000000},{'price':45277.3,'qty':1.54602737}," +:+
  "{'price':45276.6,'qty':0.15445238}],'asks':[" +:+
  "{'price':45285.2,'qty':0.00100000},{'price':45286.4,'qty':1.54571953},{'price':45286.6,'qty':1.54571109}," +:+
  "{'price':45289.6,'qty':1.54560911},{'price':45290.2,'qty':0.15890660},{'price':45291.8,'qty':1.54553491}," +:+
  "{'price':45294.7,'qty':0.04454749},{'price':45296.1,'qty':0.35380000},{'price':45297.5,'qty':0.09945542}," +:+
  "{'price':45299.5,'qty':0.18772827}],'checksum':3310070434,'timestamp':'2026-09-16T00:00:00.123456Z'}]}").

Definition ex_kraken_record : RawMessage :=
  {| record_index := 0; venue := Kraken; connection_id := 1; receive_wall_time := ex_wall;
     receive_monotonic_time := ex_mono; payload := ex_kraken_text |}.

Definition ex_kt_events : list kt_event :=
  [KTWriterStart ex_writer_env 64; KTStart false; KTCallback KConnected;
   KTCallback (KMessage ex_kraken_text ex_wall ex_mono); KTWriterNext ex_io IoOk true; KTCallback (KTick true); KTEnd;
   KTWriterNext ex_io IoOk true].

Definition ex_t0 : KrakenThreads :=
  {| kt_runtime := kr_new ex_kr_clock ex_processor {| rq := new_queue default_queue_config; taken := [] |} new_status;
     kt_writer := WriterStarting; kt_shared := new_shared; kt_started := false; kt_over := false;
     kt_hash := EmptyString |}.
Definition ex_kt_step : KrakenThreads → kt_event → KrakenThreads :=
  @kt_step ex_json bytewise_crc ex_sha 0 0 ex_kr_clock.
Definition ex_t : KrakenThreads := foldl ex_kt_step ex_t0 ex_kt_events.

Definition ex_kt_directory : string := "/data/kraken".
Definition ex_kt_capture : FileSystem * result Capture :=
  @new_capture ex_json ex_sha ex_build ex_kt_directory "kraken" 10 true "t0" ex_ok_io ∅.
Definition ex_kt_files : FileSystem :=
  <["/data/kraken/raw/kraken.jsonl"%string := writer_file (kt_writer ex_t)]> ex_kt_capture.1.
Definition ex_kt_captured : Capture := got {| directory_ := EmptyString; manifest_ := JNull |} ex_kt_capture.2.
Definition ex_kt_finished : Capture * FileSystem * result unit :=
  @finish_kraken ex_json ex_sha ex_t "t1" ex_ok_io ex_kt_files ex_kt_captured.

Example ex_kt_result :
  (kt_over ex_t, sh_writer_done (kt_shared ex_t), fatal_error (kt_status ex_t), kt_hash ex_t, ex_kt_finished.2) =
  (true, true, None, ex_sha (ex_text (kr_contents (book_ (kr_processor (kt_runtime ex_t))))), Ok tt).
Proof. vm_compute. reflexivity. Qed.

Fixpoint ex_kt_steps_ok (t : KrakenThreads) (es : list kt_event) : Prop :=
  match es with
  | [] => True
  | e :: es => (kt_event_ok e ∧ kt_room t) ∧ ex_kt_steps_ok (ex_kt_step t e) es
  end.

Lemma ex_kt_run_steps es0 t es :
  @kt_run ex_json bytewise_crc ex_sha 0 0 ex_kr_clock ex_t0 es0 t → ex_kt_steps_ok t es →
  @kt_run ex_json bytewise_crc ex_sha 0 0 ex_kr_clock ex_t0 (es0 ++ es) (foldl (ex_kt_step) t es).
Proof.
  revert es0 t. induction es as [|e es IH]; intros es0 t Hr; cbn [foldl ex_kt_steps_ok]; [by rewrite app_nil_r|].
  intros [[Hok Hroom] Hes]. replace (es0 ++ e :: es) with ((es0 ++ [e]) ++ es) by (by rewrite <-app_assoc).
  apply IH; [|done]. by apply kt_run_snoc.
Qed.

Lemma ex_kt_run : @kt_run ex_json bytewise_crc ex_sha 0 0 ex_kr_clock ex_t0 ex_kt_events ex_t.
Proof.
  apply (ex_kt_run_steps [] ex_t0 ex_kt_events); [constructor|].
  cbn [ex_kt_steps_ok ex_kt_events].
  repeat match goal with
  | |- True => exact I
  | |- _ ∧ _ => split
  | |- kt_room _ => vm_compute; split_and!; (reflexivity || discriminate)
  | |- kt_event_ok _ => cbn [kt_event_ok]
  | |- in_int64 _ => split; vm_compute; discriminate
  end.
Qed.

Lemma kraken_session_replays_witness :
  ∃ src st,
    @check_session ex_json ex_sha Ok ex_kt_finished.1.2 ex_kt_directory false = Ok src ∧
    src_records src = [ex_kraken_record] ∧ rk_processor st = kr_processor (kt_runtime ex_t) ∧
    @replay_result ex_json bytewise_crc ex_sha Ok ex_kt_finished.1.2 ex_kt_finished.1.2 ex_kt_directory
      false true = @kraken_result ex_json ex_sha src st true ∧
    at_key (src_manifest src) "final_book_hash" = Ok (JString (kt_hash ex_t)).
Proof.
  destruct (@kraken_session_replays ex_json ex_json_text bytewise_crc ex_sha ex_build Ok
    ex_kt_directory 10 "t0" ex_ok_io ∅ ex_kt_capture.1 ex_kt_captured 0 0 ex_kr_clock default_queue_config
    ex_t0 ex_kt_events ex_t "t1" ex_ok_io ex_kt_files ex_kt_finished.1.1 ex_kt_finished.1.2 true)
    as (src & st & H1 & H2 & _ & H3 & _ & _ & H4 & _ & H5).
  - vm_compute. reflexivity.
  - vm_compute. discriminate.
  - reflexivity.
  - reflexivity.
  - vm_compute. reflexivity.
  - exact ex_kt_run.
  - vm_compute. reflexivity.
  - vm_compute. reflexivity.
  - vm_compute. reflexivity.
  - vm_compute. discriminate.
  - vm_compute. reflexivity.
  - split; vm_compute; discriminate.
  - vm_compute. reflexivity.
  - exists src, st. split; [exact H1|]. split; [refine (eq_trans H2 _); vm_compute; reflexivity|].
    split; [exact H3|]. split; [exact H4|]. apply H5. vm_compute. discriminate.
Defined.
