(* ===== verification/Program.v ===== *)
(** * The program

    [main] around the components: the command that the arguments select, the
    ends of [run_live] and [run_kraken] once both threads have joined, the
    replays, and the exit status.  A run of the program is a relation between
    the files before it and the files and the outcome after it, since the
    threads of a recording run in any interleaving; [Run] keeps how the
    recording ended.  What is printed while a recording runs is left out. *)

From S2P Require Import Prelude.
From S2P Require Import Text.
From S2P Require Import CoreTypes.
From S2P Require Import SequenceTracker.
From S2P Require Import OrderBook.
From S2P Require Import Json.
From S2P Require Import JsonLibrary.
From S2P Require Import CoinbaseParser.
From S2P Require Import FeedHealth.
From S2P Require Import RecordingQueue.
From S2P Require Import CommandLine.
From S2P Require Import CoinbaseHandler.
From S2P Require Import KrakenParser.
From S2P Require Import KrakenChecksum.
From S2P Require Import KrakenProcessor.
From S2P Require Import ConnectionManager.
From S2P Require Import Recording.
From S2P Require Import RuntimeStatus.
From S2P Require Import RecordingWriter.
From S2P Require Import LiveRuntime.
From S2P Require Import KrakenRuntime.
From S2P Require Import Session.
From S2P Require Import Display.
From S2P Require Import Capture.
From S2P Require Import CoinbaseReplay.
From S2P Require Import MessagePipeline.
From S2P Require Import KrakenReplay.
From S2P Require Import SessionReplay.
From S2P Require Import KrakenThreads.
From S2P Require Import SessionRoundtrip.
From S2P Require Import LiveSession.
From S2P Require Import KrakenSession.

Open Scope Z_scope.

(** ** Outcomes *)

(** The status the process returns and the last it writes to its streams. *)
Record Outcome := {
  exit_code : Z;
  printed : string;
  complained : string;
}.

Definition line (s : string) : string := s +:+ String newline EmptyString.
Definition done_quietly : Outcome := {| exit_code := 0; printed := EmptyString; complained := EmptyString |}.

(** The handler of [main]. *)
Definition failed (e : exn) : Outcome :=
  {| exit_code := 1; printed := EmptyString; complained := line (what e) |}.
Definition caught_in_main (r : result Outcome) : Outcome := match r with Ok o => o | Throw e => failed e end.

(** [final.fatal_error ? 1 : 0] *)
Definition exit_of (s : RuntimeStatus) : Z := match fatal_error s with Some _ => 1 | None => 0 end.

(** How a recording ended. *)
Inductive Run :=
  | NoRecording
  | CoinbaseRun (rt : LiveRuntime)
  | KrakenRun (t : KrakenThreads).

Section program.
Context `{JsonLib, Crc32} (sha256 : string → string) (build : BuildInfo) (canonical : string → result string).
Implicit Types fs : FileSystem.

(** ** The ends of the commands *)

(** [run_live] after both threads have joined. *)
Definition run_live_end (rt : LiveRuntime) (capture : option Capture) (ended : string) (io : publish_io) fs
    : FileSystem * result Outcome :=
  let final := live_final_status rt in
  let outcome := {| exit_code := exit_of final; printed := display final; complained := EmptyString |} in
  match capture with
  | Some c => let '(_, fs, r) := finalize sha256 final ended io fs c in (fs, _ ← r; Ok outcome)
  | None => (fs, Ok outcome)
  end.

(** [run_kraken] after both threads have joined. *)
Definition run_kraken_end (t : KrakenThreads) (c : Capture) (ended : string) (io : publish_io) fs
    : FileSystem * result Outcome :=
  let final := kr_final_status (kt_status t) in
  let '(_, fs, r) := finish_kraken sha256 t ended io fs c in
  (fs, _ ← r; Ok {| exit_code := exit_of final; printed := EmptyString;
                    complained := match fatal_error final with Some e => line e | None => EmptyString end |}).

(** The replay of a recording without a session. *)
Definition legacy_replay (file : option (string * bool)) : result Outcome :=
  p ← replay_recording default_products file;
  let ok := String.eqb (pl_error p) EmptyString in
  Ok {| exit_code := if ok then 0 else 1; printed := line (pipeline_summary p);
        complained := if ok then EmptyString else line (pl_error p) |}.

(** The files once the writer has closed its recording at [raw]: a recording
    that ends without a fatal error has its file. *)
Definition recorded (raw : string) (w : WriterState) (s : RuntimeStatus) fs fs' : Prop :=
  fs' = <[raw := writer_file w]> fs ∨ is_Some (fatal_error s) ∧ fs' = fs.

(** The threads of [run_live] from their start to their end. *)
Definition live_thread_run (capturing : bool) (force_seconds : Z) (queue : RawQueueConfig) (rt : LiveRuntime) : Prop :=
  ∃ clock live_clock rt0 es,
    live_initial clock queue default_health_config = Ok rt0 ∧
    live_run default_products capturing force_seconds clock live_clock rt0 es rt ∧
    sh_writer_done (lv_shared rt) = true ∧ lv_started rt = true ∧ lv_ticking rt = false.
Definition kraken_thread_run (c : CaptureCommand) (t : KrakenThreads) : Prop :=
  ∃ clock t0 es,
    kt_initial clock (cc_depth c) (cc_queue c) = Ok t0 ∧
    kt_run sha256 (cc_duration c) (cc_force_seconds c) clock t0 es t ∧
    kt_over t = true ∧ sh_writer_done (kt_shared t) = true.

(** ** The program *)

Inductive main fs (now : Z) (arguments : list string) : Run → FileSystem → Outcome → Prop :=
  | main_rejected e :
      parse_command arguments now = Throw e → main fs now arguments NoRecording fs (failed e)
  | main_replay directory output allow_incomplete include_final_book io fs' fs'' r :
      parse_command arguments now = Ok (SessionReplay directory output allow_incomplete include_final_book) →
      replay sha256 canonical directory output allow_incomplete include_final_book io fs fs' = (fs'', r) →
      main fs now arguments NoRecording fs'' (caught_in_main (_ ← r; Ok done_quietly))
  | main_refused c directory_new started io fs1 e :
      parse_command arguments now = Ok (SessionCapture c) →
      new_capture sha256 build (cc_directory c) (cc_venue c) (cc_depth c) directory_new started io fs = (fs1, Throw e) →
      main fs now arguments NoRecording fs1 (failed e)
  | main_coinbase c started io fs1 capture raw rt fs2 ended io' fs3 r :
      parse_command arguments now = Ok (SessionCapture c) → cc_venue c ≠ "kraken"%string →
      new_capture sha256 build (cc_directory c) (cc_venue c) (cc_depth c) true started io fs = (fs1, Ok capture) →
      raw_path capture = Ok raw →
      live_thread_run true (cc_force_seconds c) (cc_queue c) rt →
      recorded raw (lv_writer rt) (lv_status rt) fs1 fs2 →
      run_live_end rt (Some capture) ended io' fs2 = (fs3, r) →
      main fs now arguments (CoinbaseRun rt) fs3 (caught_in_main r)
  | main_kraken c started io fs1 capture raw t fs2 ended io' fs3 r :
      parse_command arguments now = Ok (SessionCapture c) → cc_venue c = "kraken"%string →
      new_capture sha256 build (cc_directory c) (cc_venue c) (cc_depth c) true started io fs = (fs1, Ok capture) →
      raw_path capture = Ok raw →
      kraken_thread_run c t →
      recorded raw (kt_writer t) (kt_status t) fs1 fs2 →
      run_kraken_end t capture ended io' fs2 = (fs3, r) →
      main fs now arguments (KrakenRun t) fs3 (caught_in_main r)
  | main_legacy_replay path fault r :
      parse_command arguments now = Ok (LegacyReplay path) →
      legacy_replay ((λ text, (text, fault)) <$> fs !! path) = r →
      main fs now arguments NoRecording fs (caught_in_main r)
  | main_record path force_seconds queue minimum_disk rt fs2 ended io fs3 r :
      parse_command arguments now = Ok (LegacyRecord path force_seconds queue minimum_disk) →
      live_thread_run false force_seconds queue rt →
      recorded path (lv_writer rt) (lv_status rt) fs fs2 →
      run_live_end rt None ended io fs2 = (fs3, r) →
      main fs now arguments (CoinbaseRun rt) fs3 (caught_in_main r).
End program.

(** ** Lemmas *)

Lemma final_status_fatal rt : fatal_error (live_final_status rt) = fatal_error (lv_status rt).
Proof. unfold live_final_status, live_publish. cbv zeta. destruct (bool_decide _); destruct (lv_status rt); done. Qed.
Lemma kr_final_fatal s : fatal_error (kr_final_status s) = fatal_error s.
Proof. unfold kr_final_status. destruct (fatal_error s) eqn:E; [done|]. exact E. Qed.
Lemma exit_zero s : exit_of s = 0 → fatal_error s = None.
Proof. unfold exit_of. by destruct (fatal_error s). Qed.
Lemma plain_directory_nonempty d : plain_directory d → d ≠ EmptyString.
Proof. by intros Hd ->. Qed.

(** A capture is one of the two venues, and its recording is where the
    manifest says. *)
Lemma new_capture_raw `{JsonLib} sha256 build directory venue depth new started io fs fs1 c raw :
  new_capture sha256 build directory venue depth new started io fs = (fs1, Ok c) → raw_path c = Ok raw →
  new = true ∧ ∃ v, venue = venue_text v ∧ raw = path_join directory (raw_relative v).
Proof.
  intros Hc Hr. assert (new = true ∧ ∃ v, venue = venue_text v) as (-> & v & ->).
  { unfold new_capture in Hc. destruct (String.eqb_spec venue "coinbase") as [->|Hv].
    - destruct new; [|done]. split; [done|]. by exists Coinbase.
    - destruct (String.eqb_spec venue "kraken") as [->|Hv']; [|done]. destruct new; [|done]. split; [done|]. by exists Kraken. }
  split; [done|]. exists v. split; [done|].
  destruct (new_capture_manifest _ _ _ _ _ _ _ _ _ _ Hc) as (t & _ & _ & _ & ->).
  unfold raw_path in Hr. destruct v; vm_compute in Hr; by injection Hr as <-.
Qed.

(** A recording that the writer finished is where it was to be. *)
Lemma recorded_file raw w s fs fs' : recorded raw w s fs fs' → fatal_error s = None → fs' !! raw = Some (writer_file w).
Proof. intros [->|[[e He] _]] Hf; [apply lookup_insert_eq|congruence]. Qed.

(** The replay command on a session whose result document is known. *)
Lemma replay_command `{JsonLib, Crc32} sha256 build canonical fs now directory output include io document text :
  directory ≠ EmptyString → output ≠ EmptyString →
  replay_result sha256 canonical fs fs directory false include = Ok document → json_dump2 document = Ok text →
  fs !! output = None → temporary_created io = true → temporary_written io = true →
  main sha256 build canonical fs now (command_arguments (SessionReplay directory output false include)) NoRecording
    (<[output := text +:+ String newline EmptyString]> fs) done_quietly.
Proof.
  intros Hd Ho Hr Ht Hfs Hc Hw. change done_quietly with (caught_in_main (_ ← Ok tt; Ok done_quietly)).
  apply (main_replay sha256 build canonical fs now _ directory output false include io fs); [by apply replay_selected|].
  unfold replay. rewrite Hr. unfold publish. by rewrite Hc, Ht, Hw, Hfs.
Qed.

(** The end of a capture that exits with zero: it ended without a fatal error
    and finalised its manifest. *)
Lemma finished_exit {A} (finished : A * FileSystem * result unit) outcome fs' r :
  (let '(_, fs, r) := finished in (fs, _ ← r; Ok outcome)) = (fs', r) → exit_code (caught_in_main r) = 0 →
  exit_code outcome = 0 ∧ ∃ c', finished = (c', fs', Ok tt).
Proof. destruct finished as [[c' fs1] [[]|e]]; intros [= <- <-] Hx; [|done]. split; [done|]. by exists c'. Qed.

Lemma live_exit_zero `{JsonLib} sha256 rt capture ended io fs fs' r :
  run_live_end sha256 rt (Some capture) ended io fs = (fs', r) → exit_code (caught_in_main r) = 0 →
  fatal_error (lv_status rt) = None ∧ ∃ c', finalize sha256 (live_final_status rt) ended io fs capture = (c', fs', Ok tt).
Proof.
  unfold run_live_end. cbv zeta. rewrite <- final_status_fatal. generalize (live_final_status rt) as final. intros final He Hx.
  destruct (finished_exit _ _ _ _ He Hx) as [Hc Hf]. split; [by apply exit_zero|done].
Qed.

Lemma kraken_exit_zero `{JsonLib} sha256 t capture ended io fs fs' r :
  run_kraken_end sha256 t capture ended io fs = (fs', r) → exit_code (caught_in_main r) = 0 →
  fatal_error (kt_status t) = None ∧ ∃ c', finish_kraken sha256 t ended io fs capture = (c', fs', Ok tt).
Proof.
  unfold run_kraken_end. cbv zeta. intros He Hx. destruct (finished_exit _ _ _ _ He Hx) as [Hc Hf]. split; [|done].
  rewrite <- kr_final_fatal. by apply exit_zero.
Qed.

(** What a run of a capture consists of. *)
Ltac rewrite_command :=
  match goal with H : parse_command ?a ?n = _, H' : parse_command ?a ?n = _ |- _ => rewrite H in H' end; simplify_eq.

Lemma main_coinbase_run `{JsonLib, Crc32} sha256 build canonical fs now arguments c rt fs' o :
  parse_command arguments now = Ok (SessionCapture c) →
  main sha256 build canonical fs now arguments (CoinbaseRun rt) fs' o →
  ∃ started io fs1 capture raw fs2 ended io' r,
    cc_venue c ≠ "kraken"%string ∧
    new_capture sha256 build (cc_directory c) (cc_venue c) (cc_depth c) true started io fs = (fs1, Ok capture) ∧
    raw_path capture = Ok raw ∧ live_thread_run true (cc_force_seconds c) (cc_queue c) rt ∧
    recorded raw (lv_writer rt) (lv_status rt) fs1 fs2 ∧
    run_live_end sha256 rt (Some capture) ended io' fs2 = (fs', r) ∧ o = caught_in_main r.
Proof.
  intros Hcmd Hm. remember (CoinbaseRun rt) as run eqn:Hrun. destruct Hm; try done; rewrite_command; do 9 eexists; by split_and!; try eassumption.
Qed.

Lemma main_kraken_run `{JsonLib, Crc32} sha256 build canonical fs now arguments c t fs' o :
  parse_command arguments now = Ok (SessionCapture c) →
  main sha256 build canonical fs now arguments (KrakenRun t) fs' o →
  ∃ started io fs1 capture raw fs2 ended io' r,
    cc_venue c = "kraken"%string ∧
    new_capture sha256 build (cc_directory c) (cc_venue c) (cc_depth c) true started io fs = (fs1, Ok capture) ∧
    raw_path capture = Ok raw ∧ kraken_thread_run sha256 c t ∧
    recorded raw (kt_writer t) (kt_status t) fs1 fs2 ∧
    run_kraken_end sha256 t capture ended io' fs2 = (fs', r) ∧ o = caught_in_main r.
Proof.
  intros Hcmd Hm. remember (KrakenRun t) as run eqn:Hrun. destruct Hm; try done; rewrite_command; do 9 eexists; by split_and!; try eassumption.
Qed.

(** ** Theorems *)



(** ** Concrete captures

    The sessions of [LiveSession] and [KrakenSession], as commands. *)

Definition ex_live_command : CaptureCommand :=
  {| cc_venue := "coinbase"; cc_directory := ex_live_directory; cc_depth := 100; cc_duration := 0;
     cc_queue := default_queue_config; cc_minimum_disk := default_minimum_disk; cc_force_seconds := 0 |}.
Definition ex_live_arguments : list string := ["capture"; "--session"; ex_live_directory]%string.
Definition ex_live_program : FileSystem * result Outcome :=
  @run_live_end ex_json ex_sha ex_rt (Some ex_live_captured) "t1" ex_ok_io ex_live_files.

Lemma ex_live_main :
  @main ex_json bytewise_crc ex_sha ex_build Ok ∅ 0 ex_live_arguments (CoinbaseRun ex_rt) ex_live_program.1
    (caught_in_main ex_live_program.2).
Proof.
  apply (@main_coinbase ex_json bytewise_crc ex_sha ex_build Ok ∅ 0 ex_live_arguments ex_live_command "t0" ex_ok_io
    ex_live_capture.1 ex_live_captured "/data/live/raw/coinbase.jsonl" ex_rt ex_live_files "t1" ex_ok_io).
  - vm_compute. reflexivity.
  - discriminate.
  - vm_compute. reflexivity.
  - vm_compute. reflexivity.
  - exists ex_clock, ex_live_clock, ex_rt0, ex_live_events. split; [vm_compute; reflexivity|]. split; [exact ex_live_run|].
    vm_compute. split_and!; reflexivity.
  - left. reflexivity.
  - exact (surjective_pairing _).
Qed.


Definition ex_kt_command : CaptureCommand :=
  {| cc_venue := "kraken"; cc_directory := ex_kt_directory; cc_depth := 10; cc_duration := 0;
     cc_queue := default_queue_config; cc_minimum_disk := default_minimum_disk; cc_force_seconds := 0 |}.
Definition ex_kt_arguments : list string :=
  ["capture"; "--venue"; "kraken"; "--depth"; "10"; "--session"; ex_kt_directory]%string.
Definition ex_kt_program : FileSystem * result Outcome :=
  @run_kraken_end ex_json ex_sha ex_t ex_kt_captured "t1" ex_ok_io ex_kt_files.

Lemma ex_kt_main :
  @main ex_json bytewise_crc ex_sha ex_build Ok ∅ 0 ex_kt_arguments (KrakenRun ex_t) ex_kt_program.1
    (caught_in_main ex_kt_program.2).
Proof.
  apply (@main_kraken ex_json bytewise_crc ex_sha ex_build Ok ∅ 0 ex_kt_arguments ex_kt_command "t0" ex_ok_io
    ex_kt_capture.1 ex_kt_captured "/data/kraken/raw/kraken.jsonl" ex_t ex_kt_files "t1" ex_ok_io).
  - vm_compute. reflexivity.
  - reflexivity.
  - vm_compute. reflexivity.
  - vm_compute. reflexivity.
  - exists ex_kr_clock, ex_t0, ex_kt_events. split; [vm_compute; reflexivity|]. split; [exact ex_kt_run|].
    vm_compute. split; reflexivity.
  - left. reflexivity.
  - exact (surjective_pairing _).
Qed.


(** Bad arguments and a legacy replay of nothing. *)
Example ex_main_rejected :
  ∀ fs, @main ex_json bytewise_crc ex_sha ex_build Ok fs 0 ["--record"]%string NoRecording fs
    {| exit_code := 1; printed := EmptyString; complained := line "option requires a value" |}.
Proof. intros fs. by apply (@main_rejected ex_json bytewise_crc ex_sha ex_build Ok fs 0 _ (InvalidArgument "option requires a value")). Qed.
